(* ===== verification/_CoqProject ===== *)
-Q . S2P
Prelude.v
F64.v
Duration.v
Errors.v
Backoff.v
Schema.v
Lifecycle.v
Migrations.v
Transition.v
Exec.v
Select.v
Session.v
Mark.v
Job.v
Claim.v
ClaimSpec.v
Reaper.v
Purge.v
Backlog.v
Pusher.v
Enqueue.v
KeySlot.v
Builder.v
Worker.v
Lifetime.v
Poll.v
Phases.v
StateOps.v
Drain.v
Handle.v
System.v
History.v
Progress.v
Fleet.v
Lease.v
Examples.v
