(* ===== verification/Prelude.v ===== *)
(** * pg_work_queue: a verified model of a Postgres-backed work queue

    The crate is a job queue on one Postgres table.  Producers push jobs; workers claim due
    jobs in batches under a lease with a random token, run user handlers, and end each claim
    with a mark (done, retry, dead) that is fenced by the token; a reaper flips rows whose
    lease has expired; sweeps delete finished rows.  All coordination goes through SQL
    statements on the table, so the development models the table, every statement, and the
    Rust code around them, for every interleaving and every fault of the connection.

    ** The files and what they model

    - [Prelude]: notations ([result], the question-mark operator), machine integers, strings as
      lists of code points, ORDER BY/LIMIT selections, list lemmas.
    - [F64], [Duration]: binary64 arithmetic with correct rounding, and the operations of
      [std::time::Duration] the crate calls, with their panics.
    - [Errors]: [src/limits.rs], [src/error.rs] and [is_fatal_sqlx] of [src/worker.rs].
    - [Backoff]: [src/backoff.rs].  [f64::powi] and the random generator are the class
      [BackoffEnv]; what [rand] documents is the class [RandomRangeSpec].
    - [Schema]: [migrations/*.sql]: columns, CHECKs, triggers; INSERT, UPDATE, DELETE.  What
      SQL leaves open (scan order, order of RETURNING) is the class [PgEngine]; the encoding
      of intervals and the decoding of timestamps by [sqlx] are the class [SqlxInterval], what it
      documents of them the class [SqlxIntervalSpec].
    - [Lifecycle]: the abstract contract of the table: the state machine of a job and the
      changes any session may commit, [db_step].
    - [Migrations]: [src/migrator.rs]: the two migrations as changes of the table; [sqlx]'s
      runner is the class [SqlxMigrate], what it documents the class [SqlxMigrateSpec].
    - [Transition]: [src/transition.rs], the event of a status change.
    - [Exec]: how code meets the database: a run is driven by a script with one entry per
      round trip (what other sessions committed, the clock, locks, the snapshot, tokens, faults,
      latency),
      and [guarantee R m] says that every effect of [m] is an [R] step under interference by
      [R] steps.
    - [Select]: SELECT ... FOR UPDATE SKIP LOCKED at READ COMMITTED: the rows are found in the
      snapshot of the statement, locked as they are by then, and tested again.
    - [Session]: INSERTs and the transactions around them, session by session.
    - [Mark], [Job], [Claim], [Reaper], [Purge], [Pusher]: [src/mark.rs]; [src/job.rs],
      [src/util.rs] and [src/codec.rs]; [src/claim.rs]; [src/reaper.rs]; [src/purge.rs];
      [src/pusher.rs].
    - [Enqueue]: whole transactions of a caller with pushes in them.
    - [ClaimSpec]: a reference definition of a claim, [greedy_claim], what the jobs
      handed out carry, and what becomes of rows that do not decode.
    - [Backlog]: the adaptive [reaper_loop] on a backlog of expired leases.
    - [KeySlot]: [src/key_slot.rs].
    - [Builder], [Worker], [Poll]: [src/worker.rs]: the builder and [build]; one claimed job
      ([handle_job], [tick_once], counters); [poll_loop], an iteration at a time.
    - [Phases]: an iteration of [poll_loop] cut at its statements: permits and headroom, the claim
      statement, one claimed row after the other, the tasks.
    - [Lifetime]: repeated [tick_once] on one job.
    - [StateOps], [Drain], [Handle]: [src/worker.rs]: the trait [WorkerStateOps] as a class with
      the laws its client relies on; its implementation by [WorkerState], with the drains of
      the [JoinSet] and the abort cascade against a clock; [start], [cancel], [join],
      [shutdown] and dropping the handle, over the class.
    - [System]: any number of pushers, workers, reapers and sweeps interleaved statement by
      statement, as the labelled step relation [sys_do].
    - [History]: the claims of one job over time.
    - [Progress]: what a crashed job and a due job can count on.
    - [Fleet]: several running workers on one table, one statement at a time, with crashes, new
      workers and late statements of clients that are gone.  Its phases and [poll_iter] are two
      translations of [poll_loop]; that they agree is the lemma [poll_iter_in_fleet].
    - [Lease]: runs of the system against the clock of the server.
    - [Examples]: concrete runs on which the hypotheses of the theorems are evaluated.

    ** How state and effects correspond

    A struct is a record with the source's field names, prefixed where names would clash; an
    enum is an inductive type.  [Result] is [result], a panic is [None] of an option or
    [Panicked] of [run_end].  Code with database access is in the monad [M] of [Exec]; an
    [.await] on a statement is [sql], under [tokio::time::timeout] it is [sql_timeout], and a
    future dropped by [select!] is [abort_after].  The loops take the sequence of their
    iterations (ticks, cancellations, panics) as input.  [AtomicStats] is passed through the
    task that increments it.  Where time matters to the handle, instants are nanoseconds and
    each task has a [Fate]: when it ends by itself and what it counts by then, when its handler
    times out (which is counted before the mark), and how long it takes to yield to an abort.

    ** What the theorems show

    - The system ([System], [Lease]): a row is handed out again only after its owner has marked
      it or a sweep has run past the expiry of its lease; a claim that lost its lease never
      gets it back, however old the snapshots are on which statements work; a claim is marked
      at most once; a job leaves the table only by a purge that finds it finished, and is not
      changed after it finished; attempts stay within the budget; claims and sweeps never fail on a reachable
      table; an expired lease is recovered.  The programs are refinements of this system.
    - The runs of a job ([History], [Fleet]): over the whole history of a fleet its handler is called
      at most [max_attempts] times, with numbered attempts, always for the same job.
    - Enqueueing ([Pusher], [Enqueue]): jobs pushed in a transaction appear with its COMMIT, all
      or none; the round trip from [push] to a claim.
    - The schema ([Migrations]): old tables become current ones, with every constraint true.
    - The fleet ([Fleet], [Phases]): whatever the workers do and however their statements
      interleave, a row has one live handler task with a valid lease; the limits of the workers
      add up.
    - Time ([Lease]): until a lease expires nobody but its owner changes the row; with the
      timeouts [build] accepts, a job that keeps them is never fenced out.
    - The contract ([Lifecycle], [Handle]): every program moves rows only along the state
      machine and keeps the constraints.
    - The statements ([Claim], [ClaimSpec], [Purge], [Pusher]): exact effect, order, limits,
      completeness, error branches; both claim statements are one greedy selection; the jobs
      handed out carry their rows, in the ranges of their types; rows that do not decode are dead
      under their own lease.
    - The worker ([Worker], [Poll], [KeySlot]): [handle_job] implements the documented policy;
      per-key limits and concurrency are invariants; error and panic escalation.
    - Progress ([Progress], [Lifetime], [Backlog], [Purge]): a job whose worker died is handed
      out again; a due job waits for at most the jobs before it, and only recovered jobs and older
      transactions can get before it once it is due; a job that always fails is
      dead after exactly [max_attempts] runs; a backlog of expired leases is worked off; a
      purge ends.
    - The handle ([Drain], [Handle]): [shutdown] returns in bounded time, from the laws of
      [WorkerStateOps]; every task is accounted for, timeouts counted before a mark
      included; what [join] and [shutdown] report.
    - Numbers ([Backoff], [Duration], [Builder]): the backoff never panics on a validated policy
      and never exceeds its cap; the linear policy is exact; [build] accepts exactly the
      consistent configurations.
    - A few theorems state behaviour that differs from the documentation, among them
      [next_panics_on_max_cap], [retry_in_panics_on_long_poll],
      [build_accepts_overflowing_poll], [nul_reason_leaves_running], [push_nul_key_rejected],
      [handle_job_closure_panic], [finished_tasks_pile_up], [unreadable_lease] and
      [shutdown_panics_on_overflow].

    ** Bounds and fuel

    [purge_loop] has one unit of fuel more than the script has round trips, which is enough
    because each iteration uses one ([purge_terminates]); [acquire_more] has [batch_size] units
    and takes at most that many permits; the drains have [drain_fuel], one unit more than the
    [JoinSet] has entries, since each iteration joins one.  Timestamps are
    microseconds since 2000-01-01, as in Postgres, with the range of TIMESTAMPTZ checked; what a worker
    reads back must also be in the narrower range of [chrono::DateTime<Utc>] ([chrono_end]), and
    the theorems that need it say so.
    Counters wrap or saturate as their Rust types do.

    ** Not modelled

    Log texts and spans; the scheduler of tokio (its choices are inputs, and its timers fire on
    time up to the lag of a state); serde_json and the runner of the migrations (parameters);
    savepoints inside a caller's transaction; the end of the BIGINT key sequence (where a theorem
    depends on it, that it has not been reached is a hypothesis), and gaps that other sessions
    leave between the keys of one INSERT; isolation levels other than READ COMMITTED;
    indexes and storage options; the re-exports of the crate root.  A handler that never
    yields cannot be timed out in tokio; in [handle_job] it can, in the drains it outlives
    the abort.  The saturation log of [poll_loop] is part of its state, without a theorem of its
    own.  What is left of [src/] is tests, documentation and the texts of errors. *)
From stdpp Require Export base tactics gmap strings list fin_maps sorting numbers relations.
From Stdlib Require Export ZArith Lia.

(** * Notations and automation shared by the development *)

Declare Scope pgwq_scope.
Delimit Scope pgwq_scope with pgwq.
#[global] Open Scope Z_scope.
#[global] Open Scope pgwq_scope.

(** Rust's [Result<T, E>]. *)
Inductive result (A E : Type) : Type :=
| Ok (a : A)
| Err (e : E).
Arguments Ok {A E} _.
Arguments Err {A E} _.

(** The [?] operator: return early with the error. *)
Notation "'let?' x ':=' c 'in' k" :=
  (match c with Ok x => k | Err e => Err e end)
  (at level 10, x pattern, c at level 200, k at level 200,
   format "'[v' 'let?'  x  ':='  c  'in' '/' k ']'") : pgwq_scope.

Definition is_ok {A E} (r : result A E) : bool :=
  match r with Ok _ => true | Err _ => false end.

(** * Machine integers

    Rust's fixed-width integers are integers of [Z] with their bounds written out. *)

Definition i32_max : Z := 2147483647.
Definition u32_max : Z := 4294967295.
Definition i64_max : Z := 9223372036854775807.
Definition u64_max : Z := 18446744073709551615.

Definition is_i32 (z : Z) : Prop := -2147483648 <= z <= i32_max.
Definition is_u32 (z : Z) : Prop := 0 <= z <= u32_max.
Definition is_u64 (z : Z) : Prop := 0 <= z <= u64_max.

Definition u32_saturating_add (a b : Z) : Z := Z.min (a + b) u32_max.
Definition u32_saturating_sub (a b : Z) : Z := Z.max (a - b) 0.
Definition u32_saturating_mul (a b : Z) : Z := Z.min (a * b) u32_max.
Definition u64_saturating_add (a b : Z) : Z := Z.min (a + b) u64_max.
Definition u64_wrapping_add (a b : Z) : Z := (a + b) mod (u64_max + 1).

(** [i32::try_from(n.min(i32::MAX)).unwrap_or(i32::MAX)] for an unsigned [n]:
    the value bound to an INTEGER parameter. *)
Definition clamp_i32 (n : Z) : Z := Z.min n i32_max.

(** [u32::try_from(n).unwrap_or(0)] for an INTEGER column. *)
Definition u32_of_i32 (n : Z) : Z := if decide (0 <= n) then n else 0.

(** * Strings

    A Rust [String] is a sequence of Unicode scalar values: [chars().count()] and
    Postgres' [length(TEXT)] are its length, [str::len] its UTF-8 length. *)

Abbreviation rstring := (list Z) (only parsing).

Definition lit (s : string) : list Z :=
  (fun a => Z.of_N (Ascii.N_of_ascii a)) <$> String.list_ascii_of_string s.

Definition chars_count (s : list Z) : Z := Z.of_nat (length s).

Definition utf8_width (c : Z) : Z :=
  if decide (c < 128) then 1 else
  if decide (c < 2048) then 2 else
  if decide (c < 65536) then 3 else 4.

Definition str_len (s : list Z) : Z := foldr (fun c n => utf8_width c + n) 0 s.

(** * ORDER BY ... LIMIT n, skipping the rows [p] rejects

    The shape of every SELECT of the crate: sort, then lock what can be locked, then
    cut. *)
Definition order_limit {A} (R : relation A) `{!RelDecision R}
    (p : A -> Prop) `{!forall x, Decision (p x)} (n : Z) (l : list A) : list A :=
  take (Z.to_nat n) (filter p (merge_sort R l)).

Lemma StronglySorted_filter {A} (R : relation A) (p : A -> Prop) `{!forall x, Decision (p x)}
    (l : list A) :
  StronglySorted R l -> StronglySorted R (filter p l).
Proof.
  induction 1 as [|x l Hl IH Hx]; [constructor|]. rewrite filter_cons. case_decide; [|done].
  constructor; [done|]. apply Forall_forall. intros y Hy.
  apply list_elem_of_filter in Hy as [_ Hy]. by eapply Forall_forall in Hx.
Qed.

Lemma NoDup_fmap_filter {A B} (f : A -> B) (p : A -> Prop) `{!forall x, Decision (p x)}
    (l : list A) :
  NoDup (f <$> l) -> NoDup (f <$> filter p l).
Proof. intros Hl. eapply sublist_NoDup; [done|]. apply fmap_sublist, sublist_filter. Qed.

Lemma list_filter_all {A} (p : A -> Prop) `{!forall x, Decision (p x)} (l : list A) :
  (forall x, x ∈ l -> p x) -> filter p l = l.
Proof.
  induction l as [|x l IH]; intros Hp; [done|].
  rewrite filter_cons_True by (apply Hp; set_solver). f_equal. apply IH. set_solver.
Qed.

Lemma list_filter_ext_elem {A} (P Q : A -> Prop) `{!forall x, Decision (P x), !forall x, Decision (Q x)} (l : list A) :
  (forall x, x ∈ l -> P x <-> Q x) -> filter P l = filter Q l.
Proof.
  induction l as [|x l IH]; intros Hi; [done|]. rewrite !filter_cons.
  rewrite (IH ltac:(intros; apply Hi; by right)). pose proof (Hi x ltac:(by left)).
  destruct (decide (P x)), (decide (Q x)); tauto.
Qed.

(** In a list of distinct keys a key has one value. *)
Lemma NoDup_fst_eq {A B} (l : list (A * B)) a b b' :
  NoDup l.*1 -> (a, b) ∈ l -> (a, b') ∈ l -> b = b'.
Proof.
  induction l as [|[a0 b0] l IH]; simpl; [by intros _ ?%elem_of_nil|].
  intros [Hn Hnd]%NoDup_cons. rewrite !elem_of_cons.
  assert (forall c, (a0, c) ∈ l -> False) as Hno.
  { intros c Hc. apply Hn, list_elem_of_fmap. by exists (a0, c). }
  intros [?|?] [?|?]; simplify_eq; try done; [naive_solver..|]. by apply IH.
Qed.

(** Distinct images make an element unique. *)
Lemma NoDup_fmap_elem_eq {A B} (f : A -> B) (l : list A) x y :
  NoDup (f <$> l) -> x ∈ l -> y ∈ l -> f x = f y -> x = y.
Proof.
  intros Hnd (i & Hi)%list_elem_of_lookup (k & Hk)%list_elem_of_lookup Heq.
  assert (i = k) as ->; [|congruence].
  eapply (NoDup_lookup _ _ _ (f x) Hnd); rewrite list_lookup_fmap; [by rewrite Hi|by rewrite Hk, Heq].
Qed.

Lemma filter_submseteq {A} (p : A -> Prop) `{!forall x, Decision (p x)} (l k : list A) :
  l ⊆+ k -> filter p l ⊆+ filter p k.
Proof. intros [k' ->]%submseteq_Permutation. rewrite filter_app. by apply submseteq_inserts_r. Qed.

Lemma submseteq_NoDup {A} (l k : list A) : l ⊆+ k -> NoDup k -> NoDup l.
Proof. intros [k' ->]%submseteq_Permutation Hnd. by apply NoDup_app in Hnd as [? _]. Qed.

Lemma list_omap_cons {A B} (g : A -> option B) x l : omap g (x :: l) = option_list (g x) ++ omap g l.
Proof. simpl. by destruct (g x). Qed.

(** A partial map that keeps a key of its argument keeps the order of the keys. *)
Lemma omap_keyed_sublist {A B K} (g : A -> option B) (f : B -> K) (h : A -> K) (l : list A) :
  (forall x y, g x = Some y -> f y = h x) -> (f <$> omap g l) `sublist_of` (h <$> l).
Proof.
  intros Hg. induction l as [|x l IH]; [done|]. simpl. destruct (g x) as [y|] eqn:Hx; [|by constructor].
  simpl. rewrite (Hg x y Hx). by constructor.
Qed.

Section order_limit_facts.
Context {A : Type} (R : relation A) `{!RelDecision R}.
Context (p : A -> Prop) `{!forall x, Decision (p x)}.
Implicit Types (l : list A) (x y : A) (n : Z).

Lemma order_limit_elem n l x : x ∈ order_limit R p n l -> x ∈ l /\ p x.
Proof.
  unfold order_limit. intros Hx. eapply elem_of_sublist in Hx; [|apply sublist_take].
  apply list_elem_of_filter in Hx as [? Hx]. by rewrite merge_sort_Permutation in Hx.
Qed.

Lemma order_limit_length n l : Z.of_nat (length (order_limit R p n l)) <= Z.max 0 n.
Proof. unfold order_limit. rewrite length_take. lia. Qed.

Lemma order_limit_length_eq n l :
  0 <= n -> Z.of_nat (length (order_limit R p n l)) = Z.min n (Z.of_nat (length (filter p l))).
Proof.
  intros Hn. unfold order_limit. rewrite length_take.
  assert (length (filter p (merge_sort R l)) = length (filter p l)) as ->
    by (by rewrite merge_sort_Permutation). lia.
Qed.

Lemma order_limit_NoDup n l : NoDup l -> NoDup (order_limit R p n l).
Proof.
  intros Hl. unfold order_limit. eapply sublist_NoDup; [|apply sublist_take].
  apply NoDup_filter. by rewrite merge_sort_Permutation.
Qed.

Lemma order_limit_NoDup_fmap {B} (f : A -> B) n l :
  NoDup (f <$> l) -> NoDup (f <$> order_limit R p n l).
Proof.
  intros Hl. unfold order_limit. eapply sublist_NoDup; [|apply fmap_sublist, sublist_take].
  apply NoDup_fmap_filter. by rewrite merge_sort_Permutation.
Qed.

Lemma order_limit_split n l :
  exists rest, filter p (merge_sort R l) = order_limit R p n l ++ rest /\
    (Z.of_nat (length (order_limit R p n l)) < n -> rest = []).
Proof.
  exists (drop (Z.to_nat n) (filter p (merge_sort R l))). unfold order_limit.
  rewrite take_drop. split; [done|]. rewrite length_take. intros.
  apply drop_ge. lia.
Qed.

(** A SELECT that returns fewer rows than its LIMIT returned every candidate. *)
Lemma order_limit_exhaust n l y :
  Z.of_nat (length (order_limit R p n l)) < n -> y ∈ l -> p y -> y ∈ order_limit R p n l.
Proof.
  intros Hlen Hy Hp. destruct (order_limit_split n l) as (rest & Heq & Hrest).
  rewrite Hrest, app_nil_r in Heq by done. rewrite <- Heq. apply list_elem_of_filter.
  split; [done|]. by rewrite merge_sort_Permutation.
Qed.

(** What is selected comes before what is left. *)
Lemma order_limit_first `{!Transitive R, !Total R} n l x y :
  x ∈ order_limit R p n l -> y ∈ l -> p y -> y ∉ order_limit R p n l -> R x y.
Proof.
  intros Hx Hy Hp Hny. destruct (order_limit_split n l) as (rest & Heq & _).
  assert (Hs : StronglySorted R (order_limit R p n l ++ rest)).
  { rewrite <- Heq. apply StronglySorted_filter, StronglySorted_merge_sort; done. }
  apply (StronglySorted_app_1_elem_of _ _ _ _ _ Hs Hx).
  assert (Hin : y ∈ order_limit R p n l ++ rest).
  { rewrite <- Heq. apply list_elem_of_filter. by rewrite merge_sort_Permutation. }
  by apply elem_of_app in Hin as [?|?].
Qed.
End order_limit_facts.
