(* ===== verification/F64.v ===== *)
(** IEEE 754 binary64, as Rust's [f64] uses it in [src/backoff.rs] and in the
    [Duration] conversions of the standard library.

    A finite double is an integer multiple of [2^-1074], so [Fin k] is the number
    [k * 2^-1074]: comparison is comparison of integers, and every arithmetic
    operation is the exact operation followed by one rounding to nearest, ties to
    even, which is how the standard defines it.  The sign of zero is not kept: no
    operation of the program observes it. *)
From S2P Require Import Prelude.

Inductive f64 : Type :=
| NaN
| Inf (neg : bool)
| Fin (k : Z).

(** [2^1074]: the number of units in one. *)
Definition f64_unit : Z := 2 ^ 1074.

(** Division rounded to the nearest integer, ties to even; the divisor is positive. *)
Definition div_rne (n d : Z) : Z :=
  let q := n / d in
  let r := n mod d in
  match Z.compare (2 * r) d with
  | Lt => q
  | Gt => q + 1
  | Eq => if Z.even q then q else q + 1
  end.

(** The double nearest to [n / d] units: 53 bits of mantissa, no exponent below
    that of the unit, overflow to infinity from [2^1024] on. *)
Definition round_units (n d : Z) : f64 :=
  let q := Z.abs n / d in
  let s := Z.max 0 (Z.log2 q - 52) in
  let m := div_rne n (d * 2 ^ s) * 2 ^ s in
  if decide (Z.abs m < 2 ^ 2098) then Fin m else Inf (bool_decide (n < 0)).

Definition f64_of_Z (n : Z) : f64 := round_units (n * f64_unit) 1.

(** A decimal literal [p / q]. *)
Definition f64_lit (p q : Z) : f64 := round_units (p * f64_unit) q.

Definition fopp (a : f64) : f64 :=
  match a with NaN => NaN | Inf s => Inf (negb s) | Fin k => Fin (- k) end.

Definition fadd (a b : f64) : f64 :=
  match a, b with
  | NaN, _ | _, NaN => NaN
  | Inf s, Inf t => if Bool.eqb s t then Inf s else NaN
  | Inf s, Fin _ | Fin _, Inf s => Inf s
  | Fin x, Fin y => round_units (x + y) 1
  end.

Definition inf_times (s : bool) (k : Z) : f64 :=
  match Z.compare k 0 with Eq => NaN | Gt => Inf s | Lt => Inf (negb s) end.

Definition fmul (a b : f64) : f64 :=
  match a, b with
  | NaN, _ | _, NaN => NaN
  | Inf s, Inf t => Inf (xorb s t)
  | Inf s, Fin k | Fin k, Inf s => inf_times s k
  | Fin x, Fin y => round_units (x * y) f64_unit
  end.

Definition fdiv (a b : f64) : f64 :=
  match a, b with
  | NaN, _ | _, NaN => NaN
  | Inf _, Inf _ => NaN
  | Inf s, Fin k => if decide (k < 0) then Inf (negb s) else Inf s
  | Fin _, Inf _ => Fin 0
  | Fin x, Fin y =>
      if decide (y = 0) then inf_times false x
      else round_units (Z.sgn y * x * f64_unit) (Z.abs y)
  end.

(** [a.mul_add(b, c)]: one rounding. *)
Definition fmul_add (a b c : f64) : f64 :=
  match a, b, c with
  | Fin x, Fin y, Fin z => round_units (x * y + z * f64_unit) f64_unit
  | Fin _, Fin _, _ => c
  | _, _, _ => fadd (fmul a b) c
  end.

Definition fcompare (a b : f64) : option comparison :=
  match a, b with
  | NaN, _ | _, NaN => None
  | Inf s, Inf t => Some (if Bool.eqb s t then Eq else if s then Lt else Gt)
  | Inf s, Fin _ => Some (if s then Lt else Gt)
  | Fin _, Inf s => Some (if s then Gt else Lt)
  | Fin x, Fin y => Some (Z.compare x y)
  end.

Definition flt (a b : f64) : bool :=
  match fcompare a b with Some Lt => true | _ => false end.
Definition fle (a b : f64) : bool :=
  match fcompare a b with Some Lt | Some Eq => true | _ => false end.

Definition is_finite (a : f64) : bool := match a with Fin _ => true | _ => false end.

(** [f64::min] and [f64::max] return the other argument when one is NaN. *)
Definition fmin (a b : f64) : f64 :=
  match a, b with NaN, _ => b | _, NaN => a | _, _ => if flt b a then b else a end.
Definition fmax (a b : f64) : f64 :=
  match a, b with NaN, _ => b | _, NaN => a | _, _ => if flt a b then b else a end.

(** [f64::clamp]: a NaN stays NaN. *)
Definition fclamp (x lo hi : f64) : f64 :=
  if flt x lo then lo else if flt hi x then hi else x.

Definition fzero : f64 := Fin 0.
Definition fone : f64 := f64_lit 1 1.

(** * Rounding *)

Lemma f64_unit_pos : 0 < f64_unit.
Proof. unfold f64_unit. lia. Qed.

Lemma f64_unit_large : 2 ^ 200 < f64_unit < 2 ^ 1075.
Proof. unfold f64_unit. split; apply Z.pow_lt_mono_r; lia. Qed.

Lemma f64_unit_eq : f64_unit = 2 ^ 1074.
Proof. done. Qed.

#[global] Opaque f64_unit.

Section rounding.
Context (d : Z) (Hd : 0 < d).

Lemma div_rne_spec (n : Z) : 2 * Z.abs (div_rne n d * d - n) <= d.
Proof using Hd.
  unfold div_rne. pose proof (Z.div_mod n d ltac:(lia)).
  pose proof (Z.mod_pos_bound n d Hd).
  destruct (Z.compare_spec (2 * (n mod d)) d); [destruct (Z.even _)| |]; nia.
Qed.

Lemma div_rne_near (n v : Z) : 2 * Z.abs (n - v * d) < d -> div_rne n d = v.
Proof using Hd.
  intros H. pose proof (div_rne_spec n). nia.
Qed.

Lemma div_rne_exact (v : Z) : div_rne (v * d) d = v.
Proof using Hd. apply div_rne_near. lia. Qed.

Lemma div_rne_mono (m n : Z) : m <= n -> div_rne m d <= div_rne n d.
Proof using Hd.
  intros H. destruct (decide (m = n)) as [->|]; [lia|].
  destruct (decide (div_rne m d <= div_rne n d)); [lia|exfalso].
  pose proof (div_rne_spec m). pose proof (div_rne_spec n).
  assert (div_rne m d = div_rne n d + 1) by nia.
  assert (n - m = 0 \/ n - m < 0) by nia. lia.
Qed.

Lemma div_rne_nonneg (n : Z) : 0 <= n -> 0 <= div_rne n d.
Proof using Hd.
  intros H. pose proof (div_rne_mono 0 n H). pose proof (div_rne_exact 0).
  rewrite Z.mul_0_l in *. lia.
Qed.
End rounding.

(** The exponent chosen by [round_units] is the one of [n / d]. *)
Lemma round_shift_bound (n d : Z) :
  0 < d ->
  let s := Z.max 0 (Z.log2 (Z.abs n / d) - 52) in
  2 ^ 52 * (d * 2 ^ s) <= Z.max (2 ^ 52 * d) (Z.abs n).
Proof.
  intros Hd s. subst s. set (q := Z.abs n / d).
  assert (Hq : q * d <= Z.abs n) by (subst q; pose proof (Z.mul_div_le (Z.abs n) d Hd); lia).
  destruct (Z.max_spec 0 (Z.log2 q - 52)) as [[Hlt ->]|[_ ->]]; [|rewrite Z.pow_0_r; lia].
  assert (0 < q) by (apply Z.log2_lt_cancel; change (Z.log2 0) with 0; lia).
  pose proof (Z.log2_spec q ltac:(lia)) as [Hlog _].
  replace (Z.log2 q) with (52 + (Z.log2 q - 52)) in Hlog by lia.
  rewrite Z.pow_add_r in Hlog by lia.
  enough (2 ^ 52 * (d * 2 ^ (Z.log2 q - 52)) <= Z.abs n) by lia. nia.
Qed.

(** Relative error of one rounding: at most [2^-53], or half a unit. *)
Lemma round_units_err (n d m : Z) :
  0 < d -> round_units n d = Fin m ->
  2 ^ 53 * Z.abs (m * d - n) <= Z.max (2 ^ 52 * d) (Z.abs n).
Proof.
  intros Hd. unfold round_units. case_decide; [|done]. intros [= <-].
  pose proof (round_shift_bound n d Hd) as Hs. cbv zeta in Hs.
  set (s := Z.max 0 _) in *.
  assert (0 < 2 ^ s) by (apply Z.pow_pos_nonneg; lia).
  pose proof (div_rne_spec (d * 2 ^ s) ltac:(lia) n). nia.
Qed.

Lemma round_units_small (n d : Z) :
  0 < d -> Z.abs n <= d * 2 ^ 2000 -> exists m, round_units n d = Fin m.
Proof.
  intros Hd Hn. unfold round_units. case_decide as Hc; [eauto|exfalso]. apply Hc.
  pose proof (round_shift_bound n d Hd) as Hs. cbv zeta in Hs.
  set (s := Z.max 0 _) in *.
  assert (0 < 2 ^ s) by (apply Z.pow_pos_nonneg; lia).
  pose proof (div_rne_spec (d * 2 ^ s) ltac:(lia) n) as He.
  set (m := div_rne n (d * 2 ^ s)) in *.
  assert (2 ^ 2001 < 2 ^ 2098) by (apply Z.pow_lt_mono_r; lia).
  assert (2 ^ 2001 = 2 * 2 ^ 2000) as Hp by (rewrite <- (Z.pow_add_r 2 1); [done|lia..]).
  assert (1 < 2 ^ 2000) by (apply Z.pow_gt_1; lia).
  clearbody m s. clear Hc. generalize dependent (2 ^ 2000). generalize dependent (2 ^ 2001).
  generalize dependent (2 ^ 2098). intros A B HAB C Hn HC H1.
  generalize dependent (2 ^ s). intros P Hs HP He.
  change (2 ^ 52) with 4503599627370496 in Hs. rewrite Z.abs_mul, (Z.abs_eq P) by lia.
  assert (Z.abs (m * (d * P) - n) <= Z.abs n + d) by lia.
  assert (Z.abs m * P * d <= 2 * Z.abs n + d) by nia. nia.
Qed.

(** Integers below [2^53] are represented exactly. *)
Lemma f64_of_Z_exact (n : Z) : Z.abs n < 2 ^ 53 -> f64_of_Z n = Fin (n * f64_unit).
Proof.
  intros Hn. unfold f64_of_Z, round_units. rewrite Z.div_1_r, Z.mul_1_l.
  set (s := Z.max 0 _).
  assert (Hs : 0 <= s <= 1074).
  { subst s. destruct (decide (n = 0)) as [->|]; [simpl; lia|].
    rewrite f64_unit_eq, Z.abs_mul, (Z.abs_eq (2 ^ 1074)), Z.log2_mul_pow2 by lia.
    pose proof (Z.log2_lt_pow2 (Z.abs n) 53 ltac:(lia)) as [Hl _]. lia. }
  assert (Hf : f64_unit = 2 ^ (1074 - s) * 2 ^ s)
    by (rewrite f64_unit_eq, <- Z.pow_add_r by lia; f_equal; lia).
  assert (0 < 2 ^ s) by (apply Z.pow_pos_nonneg; lia).
  rewrite Hf, Z.mul_assoc, div_rne_exact by done. rewrite <- Z.mul_assoc, <- Hf.
  assert (Z.abs (n * f64_unit) < 2 ^ 2098).
  { rewrite Z.abs_mul, f64_unit_eq, (Z.abs_eq (2 ^ 1074)) by lia.
    apply Z.lt_trans with (2 ^ 53 * 2 ^ 1074);
      [apply Z.mul_lt_mono_pos_r; [lia|done] |]. 
    rewrite <- Z.pow_add_r by lia. apply Z.pow_lt_mono_r; lia. }
  by rewrite decide_True.
Qed.

Lemma fone_eq : fone = Fin f64_unit.
Proof. change fone with (f64_of_Z 1). by rewrite f64_of_Z_exact, Z.mul_1_l. Qed.

Lemma f64_lit_round (p q : Z) : f64_lit p q = round_units (p * f64_unit) q.
Proof. done. Qed.

Lemma f64_of_Z_round (n : Z) : f64_of_Z n = round_units (n * f64_unit) 1.
Proof. done. Qed.

#[global] Opaque fone f64_of_Z f64_lit.

(** * Order *)

Lemma flt_fin (x y : Z) : flt (Fin x) (Fin y) = bool_decide (x < y).
Proof.
  unfold flt; simpl. destruct (Z.compare_spec x y); case_bool_decide; try done; lia.
Qed.

Lemma fle_fin (x y : Z) : fle (Fin x) (Fin y) = bool_decide (x <= y).
Proof.
  unfold fle; simpl. destruct (Z.compare_spec x y); case_bool_decide; try done; lia.
Qed.

Lemma fmin_fin (x y : Z) : fmin (Fin x) (Fin y) = Fin (Z.min x y).
Proof. unfold fmin. rewrite flt_fin. case_bool_decide; f_equal; lia. Qed.

Lemma fmax_fin (x y : Z) : fmax (Fin x) (Fin y) = Fin (Z.max x y).
Proof. unfold fmax. rewrite flt_fin. case_bool_decide; f_equal; lia. Qed.

(** Clamping into [[0, c]] yields a finite number of that interval whatever the
    argument is: NaN and both infinities included. *)
Lemma fmin_fmax_clamp (x : f64) (c : Z) :
  0 <= c -> exists r, fmax (fmin x (Fin c)) fzero = Fin r /\ 0 <= r <= c.
Proof.
  intros Hc. unfold fzero. destruct x as [|[]|k].
  - exists c. simpl. rewrite flt_fin. rewrite bool_decide_false; [auto with lia|lia].
  - exists 0. simpl. auto with lia.
  - exists c. unfold fmin, flt. simpl.
    rewrite flt_fin. rewrite bool_decide_false; [auto with lia|lia].
  - exists (Z.max (Z.min k c) 0). rewrite fmin_fin, fmax_fin. auto with lia.
Qed.
