(* ===== verification/Duration.v ===== *)
(** [std::time::Duration]: a number of nanoseconds whose whole seconds fit in a
    [u64].  The model keeps the total in nanoseconds; the operations are the ones
    the crate calls, with their overflow behaviour, and the [f64] conversions go
    through the rounding of [F64]. *)
From S2P Require Import Prelude F64.

Abbreviation Duration := Z (only parsing).

Definition nanos_per_sec : Z := 1000000000.

(** [Duration::MAX] is one nanosecond below this bound. *)
Definition dur_bound : Z := (u64_max + 1) * nanos_per_sec.

Definition dur_ok (d : Z) : Prop := 0 <= d < dur_bound.

Definition from_secs (s : Z) : Duration := s * nanos_per_sec.
Definition from_millis (ms : Z) : Duration := ms * 1000000.

Definition checked_add (a b : Duration) : option Duration :=
  if decide (a + b < dur_bound) then Some (a + b) else None.
Definition checked_sub (a b : Duration) : option Duration :=
  if decide (b <= a) then Some (a - b) else None.
Definition checked_mul (a n : Z) : option Duration :=
  if decide (a * n < dur_bound) then Some (a * n) else None.
Definition saturating_mul (a n : Z) : Duration := Z.min (a * n) (dur_bound - 1).

(** [Duration / u32] by a non-zero divisor. *)
Definition dur_div (a n : Z) : Duration := a / n.

Definition as_micros (d : Duration) : Z := d / 1000.
Definition as_millis (d : Duration) : Z := d / 1000000.

(** [(secs as f64) + (nanos as f64) / (NANOS_PER_SEC as f64)]. *)
Definition as_secs_f64 (d : Duration) : f64 :=
  fadd (f64_of_Z (d / nanos_per_sec))
       (fdiv (f64_of_Z (d mod nanos_per_sec)) (f64_of_Z nanos_per_sec)).

(** [Duration::from_secs_f64]: rounds to the nearest nanosecond; [None] is its
    panic, on a negative, non-finite or too large argument. *)
Definition from_secs_f64 (x : f64) : option Duration :=
  match x with
  | NaN | Inf _ => None
  | Fin k =>
      if decide (k < 0) then None else
      let ns := div_rne (k * nanos_per_sec) f64_unit in
      if decide (ns < dur_bound) then Some ns else None
  end.

(** [Duration::mul_f64]. *)
Definition mul_f64 (d : Duration) (x : f64) : option Duration :=
  from_secs_f64 (fmul x (as_secs_f64 d)).

(** [Ord::clamp]: asserts that the bounds are ordered. *)
Definition dur_clamp (d lo hi : Duration) : option Duration :=
  if decide (lo <= hi) then Some (Z.min (Z.max d lo) hi) else None.

(** * The conversions to and from [f64] *)

Lemma f64_of_Z_rel (n a : Z) :
  0 <= n -> f64_of_Z n = Fin a -> 2 ^ 53 * Z.abs (a - n * f64_unit) <= n * f64_unit.
Proof.
  intros Hn Ha. pose proof f64_unit_large as [Hu _].
  destruct (decide (n = 0)) as [->|].
  { rewrite f64_of_Z_exact in Ha by done. simplify_eq. lia. }
  rewrite f64_of_Z_round in Ha. apply round_units_err in Ha; [|lia]. rewrite Z.mul_1_r in Ha.
  assert (2 ^ 52 < 2 ^ 200) by (apply Z.pow_lt_mono_r; lia).
  assert (f64_unit <= n * f64_unit) by nia. lia.
Qed.

Lemma f64_of_Z_fin (n : Z) : 0 <= n <= u64_max -> exists a, f64_of_Z n = Fin a.
Proof.
  intros Hn. rewrite f64_of_Z_round. apply round_units_small; [lia|]. pose proof f64_unit_large as [Hl Hu].
  assert (u64_max < 2 ^ 64) by done.
  assert (2 ^ 64 * 2 ^ 1075 <= 2 ^ 2000) by
    (rewrite <- Z.pow_add_r by lia; apply Z.pow_le_mono_r; lia).
  rewrite Z.abs_eq by lia. rewrite Z.mul_1_l.
  etrans; [|done]. apply Z.mul_le_mono_nonneg; lia.
Qed.

(** The fraction of a second is correctly rounded. *)
Lemma nanos_div_rel (n : Z) :
  0 <= n < nanos_per_sec ->
  exists b, fdiv (f64_of_Z n) (f64_of_Z nanos_per_sec) = Fin b /\
    2 ^ 53 * Z.abs (b * nanos_per_sec - n * f64_unit) <= n * f64_unit.
Proof.
  intros Hn. pose proof f64_unit_large as [Hl Hu].
  assert (2 ^ 30 = 1073741824) as H30 by done.
  assert (nanos_per_sec = 1000000000) as HG by done.
  rewrite !f64_of_Z_exact by (change (2 ^ 53) with 9007199254740992; lia).
  unfold fdiv. rewrite decide_False by nia.
  rewrite Z.sgn_pos, Z.abs_eq by nia.
  assert (2 ^ 52 * 2 ^ 30 < 2 ^ 200) by
    (rewrite <- Z.pow_add_r by lia; apply Z.pow_lt_mono_r; lia).
  destruct (round_units_small (1 * (n * f64_unit) * f64_unit)
             (nanos_per_sec * f64_unit)) as [b Hb]; [nia| |].
  { assert (2 ^ 1075 <= 2 ^ 2000) by (apply Z.pow_le_mono_r; lia).
    generalize dependent (2 ^ 2000). generalize dependent (2 ^ 1075).
    generalize dependent (2 ^ 200). intros. rewrite Z.abs_eq by nia. nia. }
  exists b. split; [done|]. apply round_units_err in Hb; [|nia].
  rewrite Z.mul_1_l in Hb.
  replace (b * (nanos_per_sec * f64_unit) - n * f64_unit * f64_unit)
    with ((b * nanos_per_sec - n * f64_unit) * f64_unit) in Hb by ring.
  rewrite Z.abs_mul, (Z.abs_eq f64_unit), (Z.abs_eq (_ * _ * _)) in Hb by nia.
  destruct (decide (n = 0)) as [->|].
  - rewrite !Z.mul_0_l, Z.sub_0_r in *. 
    generalize dependent (2 ^ 200). generalize dependent (2 ^ 1075).
    change (2 ^ 53) with 9007199254740992 in *. change (2 ^ 52) with 4503599627370496 in *.
    rewrite H30, HG in *. intros.
    assert (b = 0); nia.
  - set (e := Z.abs _) in *. clearbody e.
    generalize dependent (2 ^ 200). generalize dependent (2 ^ 1075).
    change (2 ^ 53) with 9007199254740992 in *. change (2 ^ 52) with 4503599627370496 in *.
    rewrite H30, HG in *. intros.
    assert (Z.max (4503599627370496 * (1000000000 * f64_unit)) (n * f64_unit * f64_unit)
            = n * f64_unit * f64_unit) as Hm by (apply Z.max_r; nia).
    rewrite Hm in Hb. nia.
Qed.

(** Composition of three roundings of relative error [2^-53], on abstract numbers. *)
Lemma three_roundings (secs nanos a b k : Z) :
  0 <= secs -> 0 <= nanos ->
  2 ^ 53 * Z.abs (a - secs * f64_unit) <= secs * f64_unit ->
  2 ^ 53 * Z.abs (b * nanos_per_sec - nanos * f64_unit) <= nanos * f64_unit ->
  2 ^ 53 * Z.abs (k - (a + b)) <= Z.max (2 ^ 52) (Z.abs (a + b)) ->
  2 ^ 51 * Z.abs (k * nanos_per_sec - (secs * nanos_per_sec + nanos) * f64_unit)
  <= (secs * nanos_per_sec + nanos) * f64_unit.
Proof.
  intros Hs Hn Ha Hb Hk. pose proof f64_unit_large as [Hl _].
  assert (2 ^ 100 < 2 ^ 200) by (apply Z.pow_lt_mono_r; lia).
  change nanos_per_sec with 1000000000 in *.
  change (2 ^ 53) with 9007199254740992 in *. change (2 ^ 52) with 4503599627370496 in *.
  change (2 ^ 51) with 2251799813685248 in *.
  change (2 ^ 100) with 1267650600228229401496703205376 in *.
  assert (0 <= a) by lia. assert (0 <= b) by lia.
  generalize dependent (2 ^ 200). intros W HW HW'.
  destruct (decide (secs = 0 /\ nanos = 0)) as [[-> ->]|Hnz]; [lia|].
  assert (secs >= 1 \/ nanos >= 1) as Hnz' by lia.
  assert (f64_unit <= (secs * 1000000000 + nanos) * f64_unit) by nia.
  set (X := secs * f64_unit) in *. set (Y := nanos * f64_unit) in *.
  replace ((secs * 1000000000 + nanos) * f64_unit) with (X * 1000000000 + Y) in *
    by (subst X Y; ring).
  assert (0 <= X) by (subst X; nia). assert (0 <= Y) by (subst Y; nia).
  clearbody X Y. lia.
Qed.

Lemma as_secs_f64_rel (d : Z) :
  dur_ok d ->
  exists k, as_secs_f64 d = Fin k /\ 0 <= k /\
    2 ^ 51 * Z.abs (k * nanos_per_sec - d * f64_unit) <= d * f64_unit.
Proof.
  intros [Hd0 Hd]. unfold as_secs_f64. pose proof f64_unit_large as [Hl Hu].
  assert (HG : 0 < nanos_per_sec) by done.
  pose proof (Z.div_mod d nanos_per_sec ltac:(lia)) as Hdm.
  pose proof (Z.mod_pos_bound d nanos_per_sec HG) as Hm.
  assert (0 <= d / nanos_per_sec <= u64_max) as Hq.
  { split; [apply Z.div_pos; lia|].
    apply Z.lt_succ_r, Z.div_lt_upper_bound; unfold dur_bound in *; lia. }
  destruct (f64_of_Z_fin _ Hq) as [a Ha]. destruct (nanos_div_rel _ Hm) as (b & Hb & Hbe).
  rewrite Ha, Hb. apply f64_of_Z_rel in Ha; [|lia].
  set (s := d / nanos_per_sec) in *. set (n := d mod nanos_per_sec) in *.
  destruct (round_units_small (a + b) 1) as [k Hk]; [lia| |].
  { assert (2 ^ 1075 * 2 ^ 66 <= 2 ^ 2000)
      by (rewrite <- Z.pow_add_r by lia; apply Z.pow_le_mono_r; lia).
    assert (s * f64_unit <= u64_max * 2 ^ 1075) by (apply Z.mul_le_mono_nonneg; lia).
    change nanos_per_sec with 1000000000 in *. change u64_max with 18446744073709551615 in *.
    change (2 ^ 53) with 9007199254740992 in *. change (2 ^ 66) with 73786976294838206464 in *.
    assert (n * f64_unit <= 1000000000 * 2 ^ 1075) by (apply Z.mul_le_mono_nonneg; lia).
    generalize dependent (2 ^ 2000). generalize dependent (2 ^ 1075).
    intros B ? ? ? C ?. lia. }
  exists k. simpl. split; [done|]. apply round_units_err in Hk; [|lia].
  rewrite !Z.mul_1_r in Hk.
  pose proof (three_roundings s n a b k ltac:(lia) ltac:(lia) Ha Hbe Hk) as Ht.
  replace d with (s * nanos_per_sec + n) by lia. split; [|done].
  change nanos_per_sec with 1000000000 in *. change (2 ^ 51) with 2251799813685248 in *.
  clear -Ht Hm Hq. assert (0 < f64_unit) by apply f64_unit_pos. nia.
Qed.

(** Below 2^47 ns (more than a day and a half) the conversion to seconds and back
    is the identity, and a float near [v] nanoseconds converts to [v]. *)
Lemma from_secs_f64_near (k v : Z) :
  0 <= k -> 0 <= v < 2 ^ 47 ->
  4 * Z.abs (k * nanos_per_sec - v * f64_unit) <= f64_unit ->
  from_secs_f64 (Fin k) = Some v.
Proof.
  intros Hk Hv He. pose proof f64_unit_pos. unfold from_secs_f64.
  rewrite decide_False by lia. rewrite (div_rne_near f64_unit f64_unit_pos _ v) by lia.
  rewrite decide_True; [done|]. trans (2 ^ 47); [lia|done].
Qed.

Lemma from_secs_f64_le (k c v : Z) :
  0 <= k <= c -> from_secs_f64 (Fin c) = Some v ->
  exists v', from_secs_f64 (Fin k) = Some v' /\ 0 <= v' <= v.
Proof.
  intros Hk. pose proof f64_unit_pos. unfold from_secs_f64. rewrite (decide_False (P := c < 0)) by lia.
  destruct (decide (div_rne (c * nanos_per_sec) f64_unit < dur_bound)); [|done].
  intros [= <-].
  assert (div_rne (k * nanos_per_sec) f64_unit <= div_rne (c * nanos_per_sec) f64_unit)
    by (apply div_rne_mono; [lia|]; change nanos_per_sec with 1000000000; lia).
  eexists. rewrite decide_False, decide_True by lia. split; [done|]. split; [|done].
  apply div_rne_nonneg; [lia|]. change nanos_per_sec with 1000000000. lia.
Qed.

Lemma duration_f64_roundtrip_aux (d : Z) :
  0 <= d < 2 ^ 47 -> from_secs_f64 (as_secs_f64 d) = Some d.
Proof.
  intros Hd. destruct (as_secs_f64_rel d) as (k & -> & Hk & He).
  { split; [lia|]. trans (2 ^ 47); [lia|done]. }
  pose proof f64_unit_pos. apply from_secs_f64_near; [done..|].
  change (2 ^ 51) with 2251799813685248 in *. change (2 ^ 47) with 140737488355328 in *. nia.
Qed.

(** [mul_f64(0.8)] never panics and is four fifths of the duration up to half a
    nanosecond and the relative error of the roundings. *)
Lemma four_fifths_product (d k c r : Z) :
  0 < d -> 0 <= k ->
  2 ^ 51 * Z.abs (k * nanos_per_sec - d * f64_unit) <= d * f64_unit ->
  2 ^ 53 * Z.abs (c * 10 - 8 * f64_unit) <= 8 * f64_unit ->
  2 ^ 53 * Z.abs (r * f64_unit - c * k) <= Z.max (2 ^ 52 * f64_unit) (Z.abs (c * k)) ->
  2 ^ 49 * Z.abs (r * (10 * nanos_per_sec) - 8 * (d * f64_unit)) <= 8 * (d * f64_unit).
Proof.
  intros Hd Hk Hke Hce Hre. pose proof f64_unit_large as [Hl _].
  assert (H100 : 2 ^ 100 < 2 ^ 200) by (apply Z.pow_lt_mono_r; lia).
  change nanos_per_sec with 1000000000 in *.
  change (2 ^ 53) with 9007199254740992 in *. change (2 ^ 52) with 4503599627370496 in *.
  change (2 ^ 51) with 2251799813685248 in *. change (2 ^ 49) with 562949953421312 in *.
  change (2 ^ 100) with 1267650600228229401496703205376 in *.
  assert (Hu : 1267650600228229401496703205376 < f64_unit) by lia. clear Hl H100.
  assert (Hc : 0 <= c) by lia.
  set (X := d * f64_unit) in *. assert (HX : f64_unit <= X) by (subst X; nia). clearbody X.
  set (K := k * 1000000000) in *. set (C := c * 10) in *.
  assert (HP : c * k * 10000000000 = C * K) by (subst C K; ring).
  assert (HK : 0 <= K <= 2 * X) by lia. assert (HC : 0 <= C) by lia.
  assert (Hprod : 1125899906842624 * Z.abs (C * K - 8 * f64_unit * X) <= 8 * f64_unit * X).
  { replace (C * K - 8 * f64_unit * X)
      with ((C - 8 * f64_unit) * K + 8 * f64_unit * (K - X)) by ring.
    assert (H1 : 9007199254740992 * (Z.abs (C - 8 * f64_unit) * K) <= 8 * f64_unit * K)
      by (rewrite Z.mul_assoc; apply Z.mul_le_mono_nonneg_r; lia).
    assert (H2 : 2251799813685248 * (f64_unit * Z.abs (K - X)) <= f64_unit * X).
    { rewrite (Z.mul_comm f64_unit (Z.abs _)), Z.mul_assoc, (Z.mul_comm f64_unit X).
      apply Z.mul_le_mono_nonneg_r; lia. }
    assert (H3 : f64_unit * K <= f64_unit * (2 * X)) by (apply Z.mul_le_mono_nonneg_l; lia).
    pose proof (Z.abs_triangle ((C - 8 * f64_unit) * K) (8 * f64_unit * (K - X))) as Ht.
    rewrite !Z.abs_mul, (Z.abs_eq K), (Z.abs_eq f64_unit) in Ht by lia.
    change (Z.abs 8) with 8 in Ht. lia. }
  assert (HPpos : 0 <= c * k) by nia. rewrite (Z.abs_eq (c * k)) in Hre by lia.
  assert (HuX : f64_unit * f64_unit <= f64_unit * X) by (apply Z.mul_le_mono_nonneg_l; lia).
  assert (Hbig : 4503599627370496 * f64_unit * 10000000000 <= C * K).
  { assert (1267650600228229401496703205376 * f64_unit <= f64_unit * f64_unit)
      by (apply Z.mul_le_mono_nonneg_r; lia). lia. }
  rewrite Z.max_r in Hre by lia.
  assert (Hfin : 562949953421312 * Z.abs ((r * 10000000000 - 8 * X) * f64_unit) <= 8 * X * f64_unit).
  { replace ((r * 10000000000 - 8 * X) * f64_unit)
      with ((r * f64_unit - c * k) * 10000000000 + (C * K - 8 * f64_unit * X)) by lia. lia. }
  rewrite Z.abs_mul, (Z.abs_eq f64_unit) in Hfin by lia.
  apply (Z.mul_le_mono_pos_r _ _ f64_unit); lia.
Qed.

(** The literal 0.8 and its relative error. *)
Lemma four_fifths_lit :
  exists c, f64_lit 8 10 = Fin c /\ 0 <= c <= f64_unit /\
    2 ^ 53 * Z.abs (c * 10 - 8 * f64_unit) <= 8 * f64_unit.
Proof.
  pose proof f64_unit_large as [Hl Hu]. rewrite f64_lit_round.
  assert (H60 : 2 ^ 60 < 2 ^ 200) by (apply Z.pow_lt_mono_r; lia).
  destruct (round_units_small (8 * f64_unit) 10) as [c Hc]; [lia| |].
  { rewrite Z.abs_eq by lia.
    assert (8 * 2 ^ 1075 <= 2 ^ 2000)
      by (change 8 with (2 ^ 3); rewrite <- Z.pow_add_r by lia; apply Z.pow_le_mono_r; lia). lia. }
  exists c. split; [done|]. apply round_units_err in Hc; [|lia].
  assert (Hce : 2 ^ 53 * Z.abs (c * 10 - 8 * f64_unit) <= 8 * f64_unit).
  { etrans; [exact Hc|]. rewrite (Z.abs_eq (8 * f64_unit)) by lia.
    change (2 ^ 52) with 4503599627370496 in *. change (2 ^ 60) with 1152921504606846976 in *. lia. }
  split; [|done]. change (2 ^ 53) with 9007199254740992 in Hce. lia.
Qed.

(** The product with a duration in seconds stays finite. *)
Lemma four_fifths_small (d k c : Z) :
  dur_ok d -> 0 <= k -> 0 <= c <= f64_unit ->
  2 ^ 51 * Z.abs (k * nanos_per_sec - d * f64_unit) <= d * f64_unit ->
  Z.abs (c * k) <= 2 ^ 2000 * f64_unit.
Proof.
  intros [Hd0 Hdb] Hk0 Hc Hke. pose proof f64_unit_large as [Hl Hu].
  assert (HkB : k * 1 <= 2 ^ 100 * f64_unit).
  { change (2 ^ 51) with 2251799813685248 in Hke. change nanos_per_sec with 1000000000 in *.
    unfold dur_bound, u64_max in Hdb. change nanos_per_sec with 1000000000 in *.
    change (2 ^ 100) with 1267650600228229401496703205376. nia. }
  assert (2 ^ 100 * 2 ^ 1075 <= 2 ^ 2000)
    by (rewrite <- Z.pow_add_r by lia; apply Z.pow_le_mono_r; lia).
  assert (k <= 2 ^ 2000).
  { etrans; [|done]. etrans; [|apply Z.mul_le_mono_nonneg_l; [lia|apply Z.lt_le_incl, Hu]]. lia. }
  rewrite Z.abs_eq by nia. rewrite (Z.mul_comm (2 ^ 2000)). apply Z.mul_le_mono_nonneg; lia.
Qed.

(** [from_secs_f64] of a float close to four fifths of a duration. *)
Lemma from_secs_four_fifths (d r : Z) :
  dur_ok d ->
  2 ^ 49 * Z.abs (r * (10 * nanos_per_sec) - 8 * (d * f64_unit)) <= 8 * (d * f64_unit) ->
  exists v, from_secs_f64 (Fin r) = Some v /\ 0 <= v <= d /\
    2 ^ 49 * Z.abs (10 * v - 8 * d) <= 5 * 2 ^ 49 + 8 * d.
Proof.
  intros [Hd0 Hdb] Hrel. pose proof f64_unit_pos as Hup.
  change (2 ^ 49) with 562949953421312 in *. change nanos_per_sec with 1000000000 in *.
  assert (Hr0 : 0 <= r) by nia.
  pose proof (div_rne_spec f64_unit Hup (r * 1000000000)) as Hns.
  set (ns := div_rne (r * 1000000000) f64_unit) in *.
  assert (Hv : 562949953421312 * Z.abs (10 * ns - 8 * d) <= 5 * 562949953421312 + 8 * d).
  { assert (562949953421312 * Z.abs ((10 * ns - 8 * d) * f64_unit)
            <= (5 * 562949953421312 + 8 * d) * f64_unit) as H1.
    { replace ((10 * ns - 8 * d) * f64_unit)
        with (10 * (ns * f64_unit - r * 1000000000) + (r * 10000000000 - 8 * (d * f64_unit))) by ring.
      lia. }
    rewrite Z.abs_mul, (Z.abs_eq f64_unit) in H1 by lia.
    apply (Z.mul_le_mono_pos_r _ _ f64_unit); lia. }
  assert (0 <= ns) by (apply div_rne_nonneg; lia).
  assert (ns <= d) by lia.
  exists ns. unfold from_secs_f64. rewrite decide_False by lia.
  change nanos_per_sec with 1000000000. fold ns. rewrite decide_True by lia. auto.
Qed.

Lemma mul_four_fifths (d : Z) :
  dur_ok d ->
  exists v, mul_f64 d (f64_lit 8 10) = Some v /\ 0 <= v <= d /\
    2 ^ 49 * Z.abs (10 * v - 8 * d) <= 5 * 2 ^ 49 + 8 * d.
Proof.
  intros Hd. pose proof f64_unit_large as [Hl _].
  destruct (as_secs_f64_rel d Hd) as (k & Hk & Hk0 & Hke).
  destruct four_fifths_lit as (c & -> & Hc & Hce). unfold mul_f64. rewrite Hk. unfold fmul.
  destruct (round_units_small (c * k) f64_unit) as [r Hr]; [lia| |].
  { rewrite (Z.mul_comm f64_unit). by eapply four_fifths_small. }
  rewrite Hr. apply round_units_err in Hr; [|lia]. apply from_secs_four_fifths; [done|].
  destruct Hd as [? ?].
  destruct (decide (d = 0)) as [->|]; [|apply four_fifths_product with k c; (done || lia)].
  assert (k = 0) as -> by (change (2 ^ 51) with 2251799813685248 in Hke;
    change nanos_per_sec with 1000000000 in *; lia).
  assert (r = 0) as ->; [|lia]. rewrite Z.mul_0_r, Z.sub_0_r in Hr. simpl Z.abs in Hr.
  change (2 ^ 53) with (2 * 2 ^ 52) in Hr. change (2 ^ 52) with 4503599627370496 in *.
  rewrite Z.abs_mul, (Z.abs_eq f64_unit) in Hr by lia. nia.
Qed.
