(* ===== verification/Errors.v ===== *)
(** [src/limits.rs], [src/error.rs] and the SQL error classification of
    [src/worker.rs]: the size bounds, the public error enums and [is_fatal_sqlx]. *)
From S2P Require Import Prelude Duration.

(** * [src/limits.rs] *)
Module limits.
Definition MAX_PAYLOAD_BYTES : Z := 1024 * 1024.
Definition MAX_BATCH_SIZE : Z := 10000.
Definition MAX_QUEUE_LEN : Z := 64.
Definition MAX_CONCURRENCY_KEY_LEN : Z := 128.
Definition MAX_LAST_ERROR_LEN : Z := 8 * 1024.
Definition MIN_POLL_INTERVAL : Duration := from_millis 10.
Definition MIN_HANDLER_TIMEOUT : Duration := from_secs 1.
Definition MIN_MARK_TIMEOUT : Duration := from_millis 100.
Definition REAPER_BATCH_SIZE : Z := 1024.
Definition MAX_BATCH_BYTES : Z := 64 * 1024 * 1024.
Definition PURGE_CHUNK_SIZE : Z := 10000.
Definition MAX_CONSECUTIVE_CLAIM_ERRORS : Z := 30.
End limits.
Export limits.

(** * [sqlx::Error]

    The variants the sources name; [OtherSqlx] stands for every other one.  A
    database error is seen through its SQLSTATE. *)
Inductive sqlx_error : Type :=
| PoolClosed | WorkerCrashed | Configuration | Migrate | ColumnDecode | Decode
| TypeNotFound | ColumnNotFound | Protocol
| Database (code : option string)
| Io | Tls | PoolTimedOut
| OtherSqlx.

Definition starts_with (p c : string) : bool := String.prefix p c.

(** [is_fatal_sqlx] of [src/worker.rs]. *)
Definition is_fatal_sqlx (e : sqlx_error) : bool :=
  match e with
  | PoolClosed | WorkerCrashed | Configuration | Migrate | ColumnDecode | Decode
  | TypeNotFound | ColumnNotFound | Protocol => true
  | Database (Some c) =>
      (starts_with "42" c || starts_with "0A" c || starts_with "23" c)
      || (bool_decide (c = "57P01"%string) || bool_decide (c = "57P02"%string)
          || bool_decide (c = "57P03"%string))
  | _ => false
  end.

(** * [src/error.rs] *)

(** [BoxError] is seen through its [Display] text. *)
Inductive PushError : Type :=
| PayloadTooLarge (index size max : Z)
| BatchTooLarge (size max : Z)
| BatchPayloadTooLarge (total_bytes max : Z)
| BatchEmpty
| PushQueueNameInvalid (q : list Z)
| PushConcurrencyKeyInvalid (k : list Z)
| CodecError (e : list Z)
| BatchCodec (index : Z) (source : list Z)
| Constraint (e : sqlx_error)
| Transient (e : sqlx_error)
| BatchPartial (inserted expected : Z).

Definition is_retriable (e : PushError) : bool :=
  match e with Transient _ => true | _ => false end.

(** [impl From<sqlx::Error> for PushError]. *)
Definition push_error_from (e : sqlx_error) : PushError :=
  match e with
  | Database (Some c) => if starts_with "23" c then Constraint e else Transient e
  | _ => Transient e
  end.

Inductive JobError : Type :=
| Retry (reason : list Z) (retry_in : option Duration)
| Abort (reason : list Z).

Definition job_error_retry (reason : list Z) : JobError := Retry reason None.
Definition job_error_retry_in (reason : list Z) (d : Duration) : JobError := Retry reason (Some d).
Definition job_error_abort (reason : list Z) : JobError := Abort reason.

Inductive BuildError : Type :=
| MaxAttemptsZero
| LeaseTimeoutBelowFloor
| LeaseTimeoutTooShort
| QueueNameInvalid (q : list Z)
| HandlerMissing
| PoolMissing
| BatchSizeOutOfRange (actual min max : Z)
| PollIntervalTooShort (min : Duration)
| ConcurrencyZero
| PoolTooSmall (actual required : Z)
| HandlerTimeoutBelowFloor (min : Duration)
| HandlerTimeoutTooLong (handler lease : Duration)
| MarkTimeoutTooShort
| MarkTimeoutTooLong (mark budget : Duration)
| ReaperIntervalTooShort
| ReaperIntervalTooLong (actual max : Duration)
| LeaseTimeoutTooShortForReaper (lease : Duration)
| BackoffInvalid (reason : string)
| ConcurrencyKeyInvalid (k : list Z)
| ConcurrencyLimitInvalid (key : list Z) (limit : Z).

Inductive StartError : Type :=
| SchemaMissing (e : sqlx_error)
| StartDatabase (e : sqlx_error).

Inductive ShutdownError : Type :=
| Fatal (e : sqlx_error)
| ShutdownTimeout (timeout : Duration)
| AlreadyShutdown
| ReaperPanicEscalation (consecutive_panics : Z).

Inductive PurgeError : Type :=
| PurgeDatabase (e : sqlx_error).

#[global] Instance sqlx_error_eq_dec : EqDecision sqlx_error.
Proof. solve_decision. Defined.

(** SQLSTATEs raised by the statements of the crate. *)
Definition check_violation : sqlx_error := Database (Some "23514"%string).
Definition unique_violation : sqlx_error := Database (Some "23505"%string).
Definition numeric_value_out_of_range : sqlx_error := Database (Some "22003"%string).
Definition datetime_field_overflow : sqlx_error := Database (Some "22008"%string).
Definition character_not_in_repertoire : sqlx_error := Database (Some "22021"%string).
Definition in_failed_sql_transaction : sqlx_error := Database (Some "25P02"%string).

(** An error that a retry of the same push cannot cure by the [PushError]
    classification is one on which a worker shuts itself down. *)
Lemma constraint_is_fatal (e : sqlx_error) :
  is_retriable (push_error_from e) = false -> is_fatal_sqlx e = true.
Proof.
  destruct e as [| | | | | | | | |[c|]| | | |]; simpl; try done.
  destruct (starts_with "23" c) eqn:E; simpl; [|done]. by rewrite !orb_true_r.
Qed.
