(* ===== verification/Backoff.v ===== *)
(** [src/backoff.rs]: the retry backoff policy.

    [factor.powi] and the random generator are not code of the repository: they are
    parameters.  Nothing is assumed of [powi]; of [random_range] only what its
    documentation says, and only where a theorem needs it. *)
From S2P Require Import Prelude F64 Duration Errors.

Definition MIN_BACKOFF_BASE : Duration := from_millis 100.
Definition MAX_BACKOFF_CAP : Duration := from_secs (24 * 3600).

Inductive BackoffPolicy : Type :=
| Linear (base increment cap : Duration)
| Exponential (base : Duration) (factor : f64) (cap : Duration) (jitter : f64).

Inductive PanicPolicy : Type := PanicRetry | PanicDead.

Definition panic_policy_default : PanicPolicy := PanicRetry.

Definition backoff_default : BackoffPolicy :=
  Exponential (from_secs 1) (f64_lit 2 1) (from_secs (5 * 60)) (f64_lit 2 10).

Definition fixed (d : Duration) : BackoffPolicy := Linear d 0 d.

Definition policy_cap (p : BackoffPolicy) : Duration :=
  match p with Linear _ _ cap => cap | Exponential _ _ cap _ => cap end.

(** The parts of [std] and [rand] the policy calls: [f64::powi] and
    [rng.random_range(lo..=hi)], where [None] is a panic. *)
Class BackoffEnv : Type := {
  powi : f64 -> Z -> f64;
  random_range : f64 -> f64 -> option f64;
}.

(** [rand]'s documentation: on a non-empty range with finite bounds the sample
    exists and lies in the range. *)
Class RandomRangeSpec (env : BackoffEnv) : Prop := {
  random_range_in : forall lo hi, lo <= hi ->
    exists x, random_range (Fin lo) (Fin hi) = Some (Fin x) /\ lo <= x <= hi;
}.

Section backoff.
Context `{env : BackoffEnv}.

(** [None] is a panic of [random_range]. *)
Definition apply_jitter (p : BackoffPolicy) (secs : f64) : option f64 :=
  match p with
  | Linear _ _ _ => Some secs
  | Exponential _ _ _ jitter =>
      if fle jitter fzero then Some secs else
      let j := fclamp jitter fzero fone in
      match random_range (fopp j) j with
      | None => None
      | Some delta => Some (fmul secs (fadd fone delta))
      end
  end.

Definition raw_secs (p : BackoffPolicy) (attempt : Z) : f64 :=
  match p with
  | Linear base increment _ =>
      fmul_add (as_secs_f64 increment) (f64_of_Z attempt) (as_secs_f64 base)
  | Exponential base factor _ _ =>
      let exp := clamp_i32 attempt in
      fmul (as_secs_f64 base) (powi factor exp)
  end.

Definition clamp_secs (raw cap_secs : f64) : f64 :=
  if is_finite raw then fmax (fmin raw cap_secs) fzero else cap_secs.

(** [BackoffPolicy::next]; [None] is a panic, of [random_range] or of
    [Duration::from_secs_f64]. *)
Definition next (p : BackoffPolicy) (attempt : Z) : option Duration :=
  let cap_secs := as_secs_f64 (policy_cap p) in
  match apply_jitter p (clamp_secs (raw_secs p attempt) cap_secs) with
  | None => None
  | Some jittered => from_secs_f64 (fmax (fmin jittered cap_secs) fzero)
  end.
End backoff.

Definition validate (p : BackoffPolicy) : result unit BuildError :=
  let? (base, cap) :=
    match p with
    | Linear base _ cap => Ok (base, cap)
    | Exponential base factor cap jitter =>
        if negb (is_finite factor) || fle factor fone then
          Err (BackoffInvalid "Exponential.factor must be finite and > 1.0")
        else if negb (is_finite jitter) || negb (fle fzero jitter && fle jitter fone) then
          Err (BackoffInvalid "Exponential.jitter must be in [0.0, 1.0]")
        else Ok (base, cap)
    end in
  if decide (cap = 0) then Err (BackoffInvalid "cap must be > 0") else
  if decide (MAX_BACKOFF_CAP < cap) then Err (BackoffInvalid "cap must be <= 24h") else
  if decide (base < MIN_BACKOFF_BASE) then Err (BackoffInvalid "base must be >= 100ms") else
  Ok tt.

(** The durations a policy carries are durations. *)
Definition policy_ok (p : BackoffPolicy) : Prop :=
  match p with
  | Linear base increment cap => dur_ok base /\ dur_ok increment /\ dur_ok cap
  | Exponential base _ cap _ => dur_ok base /\ dur_ok cap
  end.

(** * What the policy computes *)

Lemma validate_ok (p : BackoffPolicy) :
  validate p = Ok tt <->
  0 <> policy_cap p /\ policy_cap p <= MAX_BACKOFF_CAP /\
  match p with
  | Linear base _ _ => MIN_BACKOFF_BASE <= base
  | Exponential base factor _ jitter =>
      MIN_BACKOFF_BASE <= base /\ is_finite factor = true /\ fle factor fone = false /\
      exists j, jitter = Fin j /\ 0 <= j <= f64_unit
  end.
Proof.
  unfold validate. destruct p as [base inc cap|base factor cap jitter]; simpl.
  - repeat case_decide; split; try done; [lia..|]. intros _. split_and!; lia.
  - rewrite fone_eq. destruct (is_finite factor); simpl; [|split; [done|by intros (?&?&?&?&?)]].
    destruct (fle factor (Fin f64_unit)); simpl; [split; [done|by intros (?&?&?&?&?&?)]|].
    destruct jitter as [| |j]; simpl; [split; [done|by intros (?&?&?&?&?&?&?&?)]..|].
    unfold fzero. rewrite !fle_fin.
    repeat case_bool_decide; simpl; repeat case_decide; split; try done;
      try (intros (?&?&?&?&?&?&?&?&?); simplify_eq; lia).
    intros _. split_and!; try done; try lia. exists j. split_and!; done.
Qed.

Section next_facts.
Context `{env : BackoffEnv}.

Lemma cap_secs_bounded (p : BackoffPolicy) :
  policy_ok p -> policy_cap p <= MAX_BACKOFF_CAP ->
  exists c, as_secs_f64 (policy_cap p) = Fin c /\ 0 <= c /\
    from_secs_f64 (Fin c) = Some (policy_cap p).
Proof.
  intros Hok Hcap. assert (dur_ok (policy_cap p)) as Hd by (destruct p; simpl in *; intuition).
  destruct (as_secs_f64_rel _ Hd) as (c & Hc & ? & ?). exists c. split_and!; [done..|].
  rewrite <- Hc. apply duration_f64_roundtrip_aux. destruct Hd. split; [done|].
  apply Z.le_lt_trans with MAX_BACKOFF_CAP; done.
Qed.

(** The final clamp makes every jittered value a duration of at most the cap. *)
Lemma next_bounded (p : BackoffPolicy) (attempt : Z) :
  policy_ok p -> policy_cap p <= MAX_BACKOFF_CAP ->
  is_Some (apply_jitter p (clamp_secs (raw_secs p attempt) (as_secs_f64 (policy_cap p)))) ->
  exists d, next p attempt = Some d /\ 0 <= d <= policy_cap p.
Proof.
  intros Hok Hcap [x Hx]. unfold next. rewrite Hx.
  destruct (cap_secs_bounded p Hok Hcap) as (c & -> & Hc & Hfrom).
  destruct (fmin_fmax_clamp x c Hc) as (r & -> & Hr).
  destruct (from_secs_f64_le r c _ Hr Hfrom) as (d & Hd & ?). eauto.
Qed.

Lemma clamp_secs_fin (raw : f64) (c : Z) :
  0 <= c -> exists r, clamp_secs raw (Fin c) = Fin r /\ 0 <= r <= c.
Proof.
  intros Hc. unfold clamp_secs. destruct (is_finite raw); [|eauto with lia].
  by apply fmin_fmax_clamp.
Qed.
End next_facts.

(** A jitter ratio that validation accepts always yields a sample. *)
Lemma apply_jitter_total `{env : BackoffEnv, !RandomRangeSpec env}
    (p : BackoffPolicy) (secs : f64) :
  validate p = Ok tt -> is_Some (apply_jitter p secs).
Proof.
  intros (_ & _ & Hv)%validate_ok. destruct p as [|? ? ? jitter]; simpl; [done|].
  destruct Hv as (_ & _ & _ & j & -> & Hj). unfold fzero. rewrite fle_fin, fone_eq.
  case_bool_decide; [done|].
  unfold fclamp. rewrite !flt_fin, !bool_decide_false by lia.
  destruct (random_range_in (-j) j) as (x & Hx & _); [lia|].
  simpl. by rewrite Hx.
Qed.

(** [base + increment * n], the specification of the linear policy. *)
Definition linear_spec (base increment cap : Duration) (n : Z) : Duration :=
  Z.min (base + increment * n) cap.

(** Relative errors add up through [inc * n + base]. *)
Lemma linear_sum_rel (base inc n i b : Z) :
  0 <= n ->
  2 ^ 51 * Z.abs (i * nanos_per_sec - inc * f64_unit) <= inc * f64_unit ->
  2 ^ 51 * Z.abs (b * nanos_per_sec - base * f64_unit) <= base * f64_unit ->
  2 ^ 51 * Z.abs ((i * n + b) * nanos_per_sec - (base + inc * n) * f64_unit)
  <= (base + inc * n) * f64_unit.
Proof.
  intros Hn Hie Hbe.
  replace ((i * n + b) * nanos_per_sec - (base + inc * n) * f64_unit)
    with ((i * nanos_per_sec - inc * f64_unit) * n + (b * nanos_per_sec - base * f64_unit)) by ring.
  assert (2 ^ 51 * (Z.abs (i * nanos_per_sec - inc * f64_unit) * n) <= inc * f64_unit * n)
    by (rewrite Z.mul_assoc; by apply Z.mul_le_mono_nonneg_r).
  pose proof (Z.abs_triangle ((i * nanos_per_sec - inc * f64_unit) * n)
                (b * nanos_per_sec - base * f64_unit)) as Ht.
  rewrite Z.abs_mul, (Z.abs_eq n) in Ht by lia.
  change (2 ^ 51) with 2251799813685248 in *. lia.
Qed.

(** The fused multiply-add of the linear policy, on the errors of its operands. *)
Lemma linear_raw_rel (base inc n : Z) :
  dur_ok base -> dur_ok inc -> is_u32 n ->
  exists r, fmul_add (as_secs_f64 inc) (f64_of_Z n) (as_secs_f64 base) = Fin r /\ 0 <= r /\
    2 ^ 50 * Z.abs (r * nanos_per_sec - (base + inc * n) * f64_unit)
    <= (base + inc * n) * f64_unit.
Proof.
  intros Hb Hi Hn. pose proof f64_unit_large as [Hl Hu].
  destruct (as_secs_f64_rel _ Hi) as (i & -> & Hi0 & Hie).
  destruct (as_secs_f64_rel _ Hb) as (b & -> & Hb0 & Hbe).
  unfold is_u32, u32_max, dur_ok, dur_bound, u64_max in *.
  pose proof (linear_sum_rel base inc n i b ltac:(lia) Hie Hbe) as Hsum.
  rewrite f64_of_Z_exact by (change (2 ^ 53) with 9007199254740992; lia).
  unfold fmul_add. change nanos_per_sec with 1000000000 in *.
  assert (H100 : 2 ^ 100 < 2 ^ 200) by (apply Z.pow_lt_mono_r; lia).
  change (2 ^ 100) with 1267650600228229401496703205376 in H100.
  assert (H2000 : 2 ^ 200 * 2 ^ 1075 <= 2 ^ 2000)
    by (rewrite <- Z.pow_add_r by lia; apply Z.pow_le_mono_r; lia).
  change (2 ^ 51) with 2251799813685248 in *. change (2 ^ 50) with 1125899906842624.
  assert (HV : 0 <= base + inc * n <= 2 ^ 190) by
    (change (2 ^ 190) with (1569275433846670190958947355801916604025588861116008628224); nia).
  replace (i * (n * f64_unit) + b * f64_unit) with ((i * n + b) * f64_unit) by ring.
  set (s := i * n + b) in *. assert (0 <= s) by (subst s; nia). clearbody s.
  set (V := base + inc * n) in *. clearbody V.
  destruct (round_units_small (s * f64_unit) f64_unit) as [r Hr]; [lia| |].
  { rewrite Z.abs_eq by nia. rewrite Z.mul_comm. apply Z.mul_le_mono_nonneg_l; [lia|].
    assert (V * f64_unit <= 2 ^ 190 * 2 ^ 1075) by (apply Z.mul_le_mono_nonneg; lia).
    assert (2 ^ 191 * 2 ^ 1075 <= 2 ^ 2000)
      by (rewrite <- Z.pow_add_r by lia; apply Z.pow_le_mono_r; lia).
    change (2 ^ 191) with (2 * 2 ^ 190) in *.
    generalize dependent (2 ^ 2000). intros. nia. }
  exists r. split; [done|]. apply round_units_err in Hr; [|lia].
  replace (r * f64_unit - s * f64_unit) with ((r - s) * f64_unit) in Hr by ring.
  rewrite !Z.abs_mul, (Z.abs_eq f64_unit), (Z.abs_eq s) in Hr by lia.
  rewrite Z.mul_max_distr_nonneg_r in Hr by lia.
  assert (Hr' : 2 ^ 53 * Z.abs (r - s) <= Z.max (2 ^ 52) s) by nia.
  change (2 ^ 53) with 9007199254740992 in *. change (2 ^ 52) with 4503599627370496 in *.
  clear Hr H2000 Hu. generalize dependent (2 ^ 200). intros W HW HW'.
  destruct (decide (V = 0)) as [->|]; [lia|].
  assert (f64_unit <= V * f64_unit) by nia.
  set (X := V * f64_unit) in *. clearbody X. lia.
Qed.

(** The decision between the progression and the cap, on the computed floats. *)
Lemma linear_min_near (V cap r c : Z) :
  0 <= V -> 0 <= cap < 2 ^ 47 -> 0 <= r -> 0 <= c ->
  2 ^ 50 * Z.abs (r * nanos_per_sec - V * f64_unit) <= V * f64_unit ->
  2 ^ 51 * Z.abs (c * nanos_per_sec - cap * f64_unit) <= cap * f64_unit ->
  4 * Z.abs (Z.min r c * nanos_per_sec - Z.min V cap * f64_unit) <= f64_unit.
Proof.
  intros HV Hcap Hr Hc Hre Hce. pose proof f64_unit_pos.
  change nanos_per_sec with 1000000000 in *.
  change (2 ^ 50) with 1125899906842624 in *. change (2 ^ 51) with 2251799813685248 in *.
  change (2 ^ 47) with 140737488355328 in *.
  destruct (decide (V <= cap)).
  - rewrite (Z.min_l V) by lia. assert (V * f64_unit <= cap * f64_unit) by nia.
    assert (cap * f64_unit <= 140737488355328 * f64_unit) by nia.
    set (X := V * f64_unit) in *. set (Y := cap * f64_unit) in *. clearbody X Y. lia.
  - rewrite (Z.min_r V) by lia. assert (V * f64_unit >= cap * f64_unit + f64_unit) by nia.
    assert (cap * f64_unit <= 140737488355328 * f64_unit) by nia.
    set (X := V * f64_unit) in *. set (Y := cap * f64_unit) in *. clearbody X Y. lia.
Qed.

Lemma next_linear `{env : BackoffEnv} (base inc cap n : Z) :
  dur_ok base -> dur_ok inc -> dur_ok cap -> cap <= MAX_BACKOFF_CAP -> is_u32 n ->
  next (Linear base inc cap) n = Some (linear_spec base inc cap n).
Proof.
  intros Hb Hi Hc Hcap Hn. unfold next, clamp_secs, raw_secs. cbn [policy_cap].
  destruct (linear_raw_rel base inc n Hb Hi Hn) as (r & -> & Hr & Hre).
  destruct (as_secs_f64_rel _ Hc) as (c & -> & Hc0 & Hce).
  assert (MAX_BACKOFF_CAP < 2 ^ 47) by done.
  unfold fzero. cbn [apply_jitter is_finite].
  repeat (rewrite fmin_fin || rewrite fmax_fin).
  replace (Z.max (Z.min (Z.max (Z.min r c) 0) c) 0) with (Z.min r c) by lia.
  assert (0 <= base + inc * n) by (unfold dur_ok, is_u32 in *; nia).
  apply from_secs_f64_near; [lia| |]; unfold linear_spec.
  - destruct Hc. lia.
  - destruct Hc. apply linear_min_near; try done; lia.
Qed.

(** * Claims *)

(** C31: [BackoffPolicy::next] on a policy that [validate] accepts never panics, for
    every attempt number, every behaviour of [f64::powi] (overflow to infinity and
    NaN included) and every sample of the generator, and the delay it returns never
    exceeds the policy's [cap]. *)
Theorem next_total_and_capped (env : BackoffEnv) (Hrng : RandomRangeSpec env)
    (p : BackoffPolicy) (attempt : Z) :
  policy_ok p -> validate p = Ok tt ->
  exists d, next p attempt = Some d /\ 0 <= d <= policy_cap p.
Proof.
  intros Hok Hv. apply next_bounded; [done| |by apply apply_jitter_total].
  by apply validate_ok in Hv as (_ & ? & _).
Qed.

(** C32: The linear policy is exact to the nanosecond: although it computes with
    [f64] (a fused multiply-add of converted durations), for every base, increment
    and attempt number and every cap that validation accepts, [next] is
    [min (base + increment * n) cap]. *)
Theorem next_linear_exact (env : BackoffEnv) (base inc cap n : Z) :
  policy_ok (Linear base inc cap) -> validate (Linear base inc cap) = Ok tt -> is_u32 n ->
  next (Linear base inc cap) n = Some (linear_spec base inc cap n).
Proof.
  intros (Hb & Hi & Hc) (_ & Hcap & _)%validate_ok Hn. by apply next_linear.
Qed.

(** Without validation [next] does panic, although its documentation says it
    never does: converting a cap of [Duration::MAX] to [f64] rounds it up to [2^64]
    seconds, which [Duration::from_secs_f64] refuses. *)
Theorem next_panics_on_max_cap (env : BackoffEnv) :
  policy_ok (fixed (dur_bound - 1)) /\ next (fixed (dur_bound - 1)) 0 = None.
Proof. split; [done|]. unfold next. vm_compute. done. Qed.
