(* ===== verification/Schema.v ===== *)
(** The table [pgwq.jobs] of [migrations/]: columns, CHECK constraints, triggers,
    and what INSERT, UPDATE and DELETE do to it.

    Timestamps are microseconds since 2000-01-01 UTC, Postgres' own unit.  A
    statement that violates a constraint fails as a whole and leaves the rows as
    they were. *)
From S2P Require Import Prelude Duration Errors.

Abbreviation Uuid := Z (only parsing).

Inductive job_status : Type := Queued | Running | AwaitingRetry | Done | Dead.

#[global] Instance job_status_eq_dec : EqDecision job_status.
Proof. solve_decision. Defined.

(** A row; its primary key [id] is the key of the table. *)
Record Row : Type := mkRow {
  public_id : Uuid;
  queue : list Z;
  payload : list Z;
  status : job_status;
  attempts : Z;
  max_attempts : Z;
  lease_token : option Uuid;
  lease_expires_at : option Z;
  last_error : option (list Z);
  last_attempted_at : option Z;
  first_attempted_at : option Z;
  finished_at : option Z;
  run_at : Z;
  created_at : Z;
  updated_at : Z;
  concurrency_key : option (list Z);
}.

#[global] Instance row_eq_dec : EqDecision Row.
Proof. solve_decision. Defined.

(** A transaction that a session has open: what [now()] is in it, and whether one of its
    statements has failed, after which the server refuses all but its end. *)
Record Tx : Type := mkTx {
  tx_start : Z;
  tx_failed : bool;
}.

(** The committed rows, the identity sequence of the primary key, the rows of the
    transactions still open (each with the session that inserted it), and those
    transactions by session. *)
Record Db : Type := mkDb {
  jobs : gmap Z Row;
  next_id : Z;
  uncommitted : gmap Z (Z * Row);
  open_txs : gmap Z Tx;
}.

Definition set_jobs (t : gmap Z Row) (db : Db) : Db :=
  mkDb t (next_id db) (uncommitted db) (open_txs db).

(** The table after the migrations. *)
Definition empty_db : Db := mkDb ∅ 1 ∅ ∅.

(** * CHECK constraints *)

Definition is_null {A} (o : option A) : bool := match o with None => true | Some _ => false end.
Definition not_null {A} (o : option A) : bool := negb (is_null o).

Definition jobs_queue_nonempty (r : Row) : bool := bool_decide (0 < chars_count (queue r)).
Definition jobs_queue_max_len (r : Row) : bool := bool_decide (chars_count (queue r) <= 64).
Definition jobs_payload_max_size (r : Row) : bool :=
  bool_decide (Z.of_nat (length (payload r)) <= 1048576).
Definition jobs_last_error_max_len (r : Row) : bool :=
  match last_error r with None => true | Some e => bool_decide (chars_count e <= 8192) end.
Definition jobs_attempts_nonneg (r : Row) : bool := bool_decide (0 <= attempts r).
Definition jobs_max_attempts_nonneg (r : Row) : bool := bool_decide (0 <= max_attempts r).

Definition jobs_temporal (r : Row) : bool :=
  match first_attempted_at r with None => true | Some f => bool_decide (created_at r <= f) end
  && match last_attempted_at r with
     | None => true
     | Some l => bool_decide (default (created_at r) (first_attempted_at r) <= l)
     end
  && match finished_at r with
     | None => true
     | Some f => bool_decide (default (created_at r) (last_attempted_at r) <= f)
     end
  && bool_decide (created_at r <= updated_at r)
  && bool_decide (created_at r <= run_at r).

Definition jobs_status_invariants (r : Row) : bool :=
  match status r with
  | Queued =>
      bool_decide (attempts r = 0) && is_null (last_attempted_at r)
      && is_null (first_attempted_at r) && is_null (finished_at r)
      && is_null (lease_token r) && is_null (lease_expires_at r)
  | Running =>
      bool_decide (0 < attempts r) && not_null (last_attempted_at r)
      && not_null (first_attempted_at r) && is_null (finished_at r)
      && not_null (lease_token r) && not_null (lease_expires_at r)
  | AwaitingRetry =>
      bool_decide (0 < attempts r) && not_null (last_attempted_at r)
      && not_null (first_attempted_at r) && is_null (finished_at r)
      && is_null (lease_token r) && is_null (lease_expires_at r)
  | Done | Dead =>
      not_null (finished_at r) && is_null (lease_token r) && is_null (lease_expires_at r)
  end.

Definition jobs_concurrency_key_len (r : Row) : bool :=
  match concurrency_key r with
  | None => true
  | Some k => bool_decide (1 <= chars_count k) && bool_decide (chars_count k <= 128)
  end.

Definition check_row (r : Row) : bool :=
  jobs_queue_nonempty r && jobs_queue_max_len r && jobs_payload_max_size r
  && jobs_last_error_max_len r && jobs_attempts_nonneg r && jobs_max_attempts_nonneg r
  && jobs_temporal r && jobs_status_invariants r && jobs_concurrency_key_len r.

(** * Column types and functions of the statements *)

(** TEXT holds no NUL character: Postgres rejects the parameter. *)
Definition bind_text (s : list Z) : result (list Z) sqlx_error :=
  if decide (0 ∈ s) then Err character_not_in_repertoire else Ok s.

Definition bind_opt_text (o : option (list Z)) : result (option (list Z)) sqlx_error :=
  match o with
  | None => Ok None
  | Some s => let? s := bind_text s in Ok (Some s)
  end.

(** INTEGER addition. *)
Definition int4_add (a b : Z) : result Z sqlx_error :=
  if decide (a + b <= i32_max) then Ok (a + b) else Err numeric_value_out_of_range.

(** The range of TIMESTAMPTZ. *)
Definition min_timestamp : Z := -211813488000000000.
Definition end_timestamp : Z := 9223371331200000000.

Definition timestamptz_pl_interval (t iv : Z) : result Z sqlx_error :=
  if decide (min_timestamp <= t + iv < end_timestamp) then Ok (t + iv)
  else Err datetime_field_overflow.

(** * Triggers *)

(** [pgwq.set_updated_at]. *)
Definition set_updated_at (now : Z) (r : Row) : Row :=
  mkRow (public_id r) (queue r) (payload r) (status r) (attempts r) (max_attempts r)
    (lease_token r) (lease_expires_at r) (last_error r) (last_attempted_at r)
    (first_attempted_at r) (finished_at r) (run_at r) (created_at r) now (concurrency_key r).

(** [pgwq.assert_concurrency_key_immutable]. *)
Definition assert_concurrency_key_immutable (old new : Row) : result Row sqlx_error :=
  if decide (concurrency_key old = concurrency_key new) then Ok new else Err check_violation.

(** * UPDATE *)

(** One row: the SET clause, the BEFORE UPDATE triggers, the CHECKs. *)
Definition update_row (now : Z) (set_clause : Z -> Row -> result Row sqlx_error)
    (i : Z) (r : Row) : result Row sqlx_error :=
  let? r1 := set_clause i r in
  let? r2 := assert_concurrency_key_immutable r r1 in
  let r3 := set_updated_at now r2 in
  if check_row r3 then Ok r3 else Err check_violation.

Fixpoint pg_update (now : Z) (set_clause : Z -> Row -> result Row sqlx_error)
    (ids : list Z) (t : gmap Z Row) : result (gmap Z Row) sqlx_error :=
  match ids with
  | [] => Ok t
  | i :: ids =>
      match t !! i with
      | None => pg_update now set_clause ids t
      | Some r =>
          let? r' := update_row now set_clause i r in
          pg_update now set_clause ids (<[i := r']> t)
      end
  end.

(** * INSERT *)

(** A row of the VALUES list: the columns the crate supplies; the others take
    their DEFAULT. *)
Record NewRow : Type := mkNewRow {
  nr_queue : list Z;
  nr_payload : list Z;
  nr_public_id : Uuid;
  nr_run_at : option Z;
  nr_concurrency_key : option (list Z);
}.

Definition row_of_new (now : Z) (n : NewRow) : Row :=
  mkRow (nr_public_id n) (nr_queue n) (nr_payload n) Queued 0 0 None None None None None None
    (default now (nr_run_at n)) now now (nr_concurrency_key n).

Definition public_ids (t : gmap Z Row) : list Uuid := (public_id ∘ snd) <$> map_to_list t.

Fixpoint insert_rows (now : Z) (ns : list NewRow) (t : gmap Z Row) (next : Z)
  : result (gmap Z Row) sqlx_error * Z :=
  match ns with
  | [] => (Ok t, next)
  | n :: ns =>
      let r := row_of_new now n in
      if negb (check_row r) then (Err check_violation, next + 1) else
      if decide (is_Some (t !! next) \/ public_id r ∈ public_ids t)
      then (Err unique_violation, next + 1) else
      insert_rows now ns (<[next := r]> t) (next + 1)
  end.

(** The rows the indexes know: committed, or of a transaction still open.  (Against a row of
    another open transaction the server waits for its end; the statement is taken to fail,
    as it does when that transaction commits.) *)
Definition heap (db : Db) : gmap Z Row := jobs db ∪ (snd <$> uncommitted db).

(** The new rows, and where the sequence stands: it is not rolled back by a failure. *)
Definition pg_insert (now : Z) (ns : list NewRow) (db : Db) : result (gmap Z Row) sqlx_error * Z :=
  let '(r, next) := insert_rows now ns (heap db) (next_id db) in
  (let? t := r in Ok (t ∖ heap db), next).

(** * DELETE *)
Definition pg_delete (ids : list Z) (t : gmap Z Row) : gmap Z Row :=
  foldr delete t ids.

(** * What the engine is free to choose

    The order in which a scan yields rows of equal sort key, and the order of the
    rows of a RETURNING clause, are not specified by SQL. *)
Class PgEngine : Type := {
  pg_scan : gmap Z Row -> list (Z * Row);
  pg_scan_perm : forall t, pg_scan t ≡ₚ map_to_list t;
  pg_returning : list (Z * Row) -> list (Z * Row);
  pg_returning_perm : forall l, pg_returning l ≡ₚ l;
}.

(** [sqlx]'s encoding of a [Duration] as INTERVAL microseconds, and its decoding of a
    TIMESTAMPTZ into a [chrono::DateTime<Utc>], whose range is narrower. *)
Class SqlxInterval : Type := {
  interval_of_duration : Duration -> result Z sqlx_error;
  timestamptz_decode : Z -> result Z sqlx_error;
}.

(** The first instant after [DateTime::<Utc>::MAX_UTC]: 262143-01-01.  (The range begins in
    the year -262143, before that of TIMESTAMPTZ.) *)
Definition chrono_end : Z := 8209320192000000000.

(** [sqlx]'s documentation: a duration of whole microseconds within the range of an
    INTERVAL is encoded exactly, and a timestamp that the Rust type can represent is decoded
    exactly; nothing is assumed of the others. *)
Class SqlxIntervalSpec (S : SqlxInterval) : Prop := {
  interval_of_duration_exact : forall us, 0 <= us <= i64_max ->
    interval_of_duration (us * 1000) = Ok us;
  timestamptz_decode_exact : forall t, min_timestamp <= t < chrono_end ->
    timestamptz_decode t = Ok t;
}.

(** * Facts *)

(** The engine used by the examples: scans in key order. *)
#[global] Instance engine_by_key : PgEngine := {|
  pg_scan := map_to_list;
  pg_scan_perm := fun t => Permutation_refl _;
  pg_returning := fun l => l;
  pg_returning_perm := fun l => Permutation_refl _;
|}.

(** The codecs used by the examples: whole microseconds, and timestamps, in range. *)
Definition interval_micros : SqlxInterval := {|
  interval_of_duration := fun d =>
    if decide (d mod 1000 = 0 /\ 0 <= d / 1000 <= i64_max) then Ok (d / 1000) else Err OtherSqlx;
  timestamptz_decode := fun t =>
    if decide (min_timestamp <= t < chrono_end) then Ok t else Err ColumnDecode;
|}.

#[global] Instance interval_micros_spec : SqlxIntervalSpec interval_micros.
Proof.
  split.
  - intros us Hus. simpl. rewrite Z.div_mul, Z.mod_mul by lia. by rewrite decide_True.
  - intros t Ht. simpl. by rewrite decide_True.
Qed.

Lemma pg_scan_elem `{!PgEngine} (t : gmap Z Row) (i : Z) (r : Row) :
  (i, r) ∈ pg_scan t <-> t !! i = Some r.
Proof. by rewrite pg_scan_perm, elem_of_map_to_list. Qed.

Lemma pg_scan_NoDup `{!PgEngine} (t : gmap Z Row) : NoDup (pg_scan t).*1.
Proof. rewrite pg_scan_perm. apply NoDup_fst_map_to_list. Qed.

(** A row that satisfies the constraints and the ranges of its INTEGER columns. *)
Definition row_ok (r : Row) : Prop :=
  check_row r = true /\ attempts r <= i32_max /\ max_attempts r <= i32_max.

Lemma update_row_inv now f i r r' :
  update_row now f i r = Ok r' ->
  exists r1, f i r = Ok r1 /\ concurrency_key r1 = concurrency_key r /\
    r' = set_updated_at now r1 /\ check_row r' = true.
Proof.
  unfold update_row, assert_concurrency_key_immutable. destruct (f i r) as [r1|]; [|done].
  case_decide; [|done]. destruct (check_row _) eqn:?; intros; simplify_eq. eauto 6.
Qed.

(** An UPDATE of distinct rows changes exactly those rows, each by [update_row]. *)
Lemma pg_update_spec now f ids t t' :
  NoDup ids -> pg_update now f ids t = Ok t' ->
  forall i,
    (i ∉ ids -> t' !! i = t !! i) /\
    (i ∈ ids -> match t !! i with
                | None => t' !! i = None
                | Some r => exists r', update_row now f i r = Ok r' /\ t' !! i = Some r'
                end).
Proof.
  intros Hnd. revert t. induction Hnd as [|j ids Hj Hnd IH]; intros t; simpl.
  { intros [= <-] i. split; [done|]. by intros ?%elem_of_nil. }
  destruct (t !! j) as [r|] eqn:Htj.
  - destruct (update_row now f j r) as [r'|] eqn:Hu; [|done]. intros Hp i.
    destruct (IH _ Hp i) as [Hout Hin]. rewrite not_elem_of_cons, elem_of_cons. split.
    + intros [Hne Hni]. rewrite (Hout Hni), lookup_insert_ne; done.
    + intros [->|Hi].
      * rewrite Htj. exists r'. split; [done|]. rewrite (Hout Hj). apply lookup_insert_eq.
      * specialize (Hin Hi). rewrite lookup_insert_ne in Hin by (by intros ->). done.
  - intros Hp i. destruct (IH _ Hp i) as [Hout Hin].
    rewrite not_elem_of_cons, elem_of_cons. split; [naive_solver|].
    intros [->|Hi]; [|by apply Hin]. rewrite Htj, <- Htj. apply Hout, Hj.
Qed.

Lemma pg_update_ok now f ids t :
  NoDup ids ->
  (forall i r, i ∈ ids -> t !! i = Some r -> exists r', update_row now f i r = Ok r') ->
  exists t', pg_update now f ids t = Ok t'.
Proof.
  intros Hnd. revert t. induction Hnd as [|j ids Hj Hnd IH]; intros t Hok; simpl; [eauto|].
  destruct (t !! j) as [r|] eqn:Htj; [|apply IH; set_solver].
  destruct (Hok j r) as [r' ->]; [set_solver|done|]. apply IH. intros i ri Hi.
  rewrite lookup_insert_ne by (by intros ->). apply Hok. set_solver.
Qed.

(** What a successful INSERT adds, and when it succeeds. *)
Lemma insert_rows_spec now ns t next t' next' :
  insert_rows now ns t next = (Ok t', next') ->
  next' = next + Z.of_nat (length ns) /\ t ⊆ t' /\
  (forall k n, ns !! k = Some n -> t' !! (next + Z.of_nat k) = Some (row_of_new now n)) /\
  (forall j, j < next \/ next' <= j -> t' !! j = t !! j) /\
  (forall n, n ∈ ns -> check_row (row_of_new now n) = true).
Proof.
  revert t next. induction ns as [|n ns IH]; intros t next; simpl.
  { intros [= <- <-]. split_and!; [lia|done|done|done|set_solver]. }
  destruct (check_row _) eqn:Hc; simpl; [|done]. case_decide as Hu; [done|].
  intros (-> & Hsub & Hnew & Hold & Hch)%IH. apply Decidable.not_or in Hu as [Hn _].
  apply eq_None_not_Some in Hn. split_and!.
  - lia.
  - etrans; [|done]. by apply insert_subseteq.
  - intros [|k] n' Hk; simplify_eq/=.
    + rewrite Z.add_0_r. rewrite Hold by lia. apply lookup_insert_eq.
    + rewrite <- (Hnew k n' Hk). f_equal. lia.
  - intros j Hj. rewrite Hold by lia. apply lookup_insert_ne. lia.
  - set_solver.
Qed.

Lemma insert_rows_next now ns t next :
  next <= (insert_rows now ns t next).2.
Proof.
  revert t next. induction ns as [|n ns IH]; intros t next; simpl; [lia|].
  destruct (check_row _); simpl; [|lia]. case_decide; simpl; [lia|].
  specialize (IH (<[next := row_of_new now n]> t) (next + 1)). lia.
Qed.

Lemma public_ids_insert i r t : t !! i = None ->
  public_ids (<[i := r]> t) ≡ₚ public_id r :: public_ids t.
Proof. intros Hi. unfold public_ids. by rewrite map_to_list_insert. Qed.

Lemma insert_rows_ok now ns t next :
  (forall n, n ∈ ns -> check_row (row_of_new now n) = true) ->
  NoDup (nr_public_id <$> ns) -> (forall n, n ∈ ns -> nr_public_id n ∉ public_ids t) ->
  (forall j, next <= j -> t !! j = None) ->
  exists t', insert_rows now ns t next = (Ok t', next + Z.of_nat (length ns)).
Proof.
  revert t next. induction ns as [|n ns IH]; intros t next Hc Hnd Hfr Hno; simpl.
  { exists t. f_equal. lia. }
  rewrite Hc by set_solver. simpl. rewrite decide_False.
  2: { rewrite (Hno next) by lia. intros [[? [=]]|Hin]. by apply (Hfr n); [set_solver|]. }
  simpl in Hnd. apply NoDup_cons in Hnd as [Hn Hnd].
  destruct (IH (<[next := row_of_new now n]> t) (next + 1)) as [t' ->]; [set_solver|done|..].
  - intros n' Hn'. rewrite public_ids_insert by (apply Hno; lia). rewrite elem_of_cons.
    intros [Heq|Hin]; [|apply (Hfr n'); [set_solver|done]]. apply Hn. simpl in Heq.
    rewrite <- Heq. by apply list_elem_of_fmap_2.
  - intros j Hj. rewrite lookup_insert_ne by lia. apply Hno. lia.
  - exists t'. f_equal. lia.
Qed.

(** A change of the rows of a table row by row: every row is kept, and each is either
    unchanged or related by [P] to what it was. *)
Definition rows_step (P : Z -> Row -> Row -> Prop) (t t' : gmap Z Row) : Prop :=
  forall i, match t !! i, t' !! i with
            | Some r, Some r' => r' = r \/ P i r r'
            | None, None => True
            | _, _ => False
            end.

Lemma rows_step_refl P t : rows_step P t t.
Proof. intros i. by destruct (t !! i); [left|]. Qed.

Lemma rows_step_impl (P Q : Z -> Row -> Row -> Prop) t t' :
  (forall i r r', P i r r' -> Q i r r') -> rows_step P t t' -> rows_step Q t t'.
Proof. intros HPQ H i. specialize (H i). repeat case_match; naive_solver. Qed.

Lemma pg_update_rows_step now f ids t t' :
  NoDup ids -> pg_update now f ids t = Ok t' ->
  rows_step (fun i r r' => i ∈ ids /\ t !! i = Some r /\ update_row now f i r = Ok r') t t'.
Proof.
  intros Hnd Hu i. destruct (pg_update_spec _ _ _ _ _ Hnd Hu i) as [Hout Hin].
  destruct (decide (i ∈ ids)) as [Hi|Hi].
  - specialize (Hin Hi). destruct (t !! i) eqn:Ht; [|by rewrite Hin].
    destruct Hin as (r' & Hr' & ->). by right.
  - rewrite (Hout Hi). by destruct (t !! i); [left|].
Qed.

Lemma rows_step_dom P t t' : rows_step P t t' -> dom t' = dom t.
Proof.
  intros H. apply set_eq. intros i. rewrite !elem_of_dom. specialize (H i).
  destruct (t !! i), (t' !! i); naive_solver.
Qed.

Lemma rows_step_forall (P : Z -> Row -> Row -> Prop) (Q : Z -> Row -> Prop) t t' :
  rows_step P t t' -> map_Forall Q t ->
  (forall i r r', Q i r -> P i r r' -> Q i r') -> map_Forall Q t'.
Proof.
  intros H HQ HPQ i r' Hr'. specialize (H i). rewrite Hr' in H.
  destruct (t !! i) as [r|] eqn:Hr; [|done]. specialize (HQ i r Hr).
  destruct H as [->|?]; eauto.
Qed.
