(* ===== verification/Lifecycle.v ===== *)
(** The contract of the queue, as an abstract specification: the state machine of a
    job and the changes of the table any session is allowed to make.

    The statements of the crate are proved to be steps of this machine in the files
    that model them; what every step preserves is proved here once. *)
From S2P Require Import Prelude Errors Schema.

(** queued -> running -> done | dead | awaiting_retry -> running. *)
Inductive lifecycle : job_status -> job_status -> Prop :=
| lc_first_claim : lifecycle Queued Running
| lc_claim_again : lifecycle AwaitingRetry Running
| lc_done : lifecycle Running Done
| lc_retry : lifecycle Running AwaitingRetry
| lc_dead : lifecycle Running Dead.

Definition terminal (s : job_status) : Prop := s = Done \/ s = Dead.
#[global] Instance terminal_dec s : Decision (terminal s) := _.

(** What no statement of the crate changes. *)
Definition same_job (r r' : Row) : Prop :=
  public_id r' = public_id r /\ queue r' = queue r /\ payload r' = payload r /\
  created_at r' = created_at r /\ concurrency_key r' = concurrency_key r.

(** One transition of one row. *)
Record row_step (r r' : Row) : Prop := mkRowStep {
  rs_lifecycle : lifecycle (status r) (status r');
  rs_same : same_job r r';
  rs_attempts : attempts r' = if decide (status r' = Running) then attempts r + 1 else attempts r;
  rs_max : status r' <> Running -> max_attempts r' = max_attempts r;
  rs_first : forall t, first_attempted_at r = Some t -> first_attempted_at r' = Some t;
  rs_check : check_row r' = true;
  rs_int4 : attempts r <= i32_max /\ max_attempts r <= i32_max ->
            attempts r' <= i32_max /\ max_attempts r' <= i32_max;
}.

(** A new job: unclaimed, and within the constraints. *)
Definition fresh_row (r : Row) : Prop :=
  status r = Queued /\ attempts r = 0 /\ max_attempts r = 0 /\ row_ok r.

(** The session [c] has a transaction open, and no statement of it has failed. *)
Definition tx_live (c : Z) (db : Db) : Prop :=
  exists tx, open_txs db !! c = Some tx /\ tx_failed tx = false.

(** One committed change of the table. *)
Inductive db_step : Db -> Db -> Prop :=
| ds_rows db t' :
    rows_step (fun _ => row_step) (jobs db) t' ->
    db_step db (set_jobs t' db)
| ds_insert db db' :
    next_id db <= next_id db' ->
    jobs db ⊆ jobs db' ->
    (forall i r, jobs db' !! i = Some r -> jobs db !! i = None ->
       uncommitted db' !! i = None /\
       (next_id db <= i < next_id db' /\ fresh_row r \/ exists c, uncommitted db !! i = Some (c, r))) ->
    (forall i c r, uncommitted db' !! i = Some (c, r) ->
       uncommitted db !! i = Some (c, r) /\ (tx_live c db -> tx_live c db') \/
       next_id db <= i < next_id db' /\ jobs db' !! i = None /\ fresh_row r /\ tx_live c db') ->
    db_step db db'
| ds_delete db t' :
    t' ⊆ jobs db ->
    (forall i r, jobs db !! i = Some r -> t' !! i = None -> terminal (status r)) ->
    db_step db (set_jobs t' db).

Abbreviation db_steps := (rtc db_step).

(** Well-formed tables: constraints hold, keys come from the sequence, and an uncommitted row
    is a new job of a live transaction. *)
Record db_ok (db : Db) : Prop := mkDbOk {
  dk_rows : forall i r, jobs db !! i = Some r -> row_ok r /\ i < next_id db;
  dk_uncommitted : forall i c r, uncommitted db !! i = Some (c, r) ->
    i < next_id db /\ jobs db !! i = None /\ fresh_row r /\ tx_live c db;
}.

Coercion dk_rows : db_ok >-> Funclass.

(** The key has been given to a row that was committed, or to none. *)
Definition spent (i : Z) (db : Db) : Prop := i < next_id db /\ uncommitted db !! i = None.

(** * Facts *)

Lemma lifecycle_terminal s s' : terminal s -> ~ lifecycle s s'.
Proof. intros [-> | ->]; inversion 1. Qed.

Lemma same_job_refl r : same_job r r.
Proof. by repeat split. Qed.

Lemma same_job_trans r1 r2 r3 : same_job r1 r2 -> same_job r2 r3 -> same_job r1 r3.
Proof. unfold same_job. intuition congruence. Qed.

#[export] Instance same_job_preorder : PreOrder same_job.
Proof. split; [exact same_job_refl | exact same_job_trans]. Qed.

Lemma row_step_ok r r' : row_step r r' -> row_ok r -> row_ok r'.
Proof. intros Hs [? ?]. split; [apply Hs|by apply (rs_int4 _ _ Hs)]. Qed.

Lemma db_step_ok db db' : db_step db db' -> db_ok db -> db_ok db'.
Proof.
  intros Hs [Hok Hun]. destruct Hs as [db t' Ht|db db' Hn Hsub Hnew Hunc|db t' Hsub Hterm]; split.
  - apply (rows_step_forall _ (fun i r => row_ok r /\ i < next_id db) _ _ Ht Hok).
    intros i r r' [? ?] Hst. split; [by eapply row_step_ok|done].
  - intros i c r Hi. destruct (Hun i c r Hi) as (? & Hno & ?). split_and!; try done; try tauto.
    simpl. specialize (Ht i). rewrite Hno in Ht. by destruct (t' !! i).
  - intros i r Hr. destruct (jobs db !! i) as [r0|] eqn:Hr0.
    + assert (jobs db' !! i = Some r0) by by eapply lookup_weaken.
      destruct (Hok i r0 Hr0). simplify_eq. split; [done|lia].
    + destruct (Hnew i r Hr Hr0) as [_ [[? (? & ? & ? & ?)]|[c Hc]]]; [split; [done|lia]|].
      destruct (Hun i c r Hc) as (? & _ & (? & ? & ? & ?) & _). split; [done|lia].
  - intros i c r Hi. destruct (Hunc i c r Hi) as [[Hold Hlive]|(? & ? & ? & ?)]; [|by split_and!; [lia|..]].
    destruct (Hun i c r Hold) as (? & Hno & ? & ?). split_and!; [lia| |done|by apply Hlive].
    destruct (jobs db' !! i) as [r'|] eqn:Hr'; [|done]. destruct (Hnew i r' Hr' Hno). congruence.
  - intros i r Hr. simpl in Hr. eapply Hok, lookup_weaken; done.
  - intros i c r Hi. destruct (Hun i c r Hi) as (? & Hno & ?). split_and!; try done; try tauto.
    by eapply lookup_weaken_None.
Qed.

(** Without open transactions. *)
Lemma db_ok_closed db :
  uncommitted db = ∅ -> (forall i r, jobs db !! i = Some r -> row_ok r /\ i < next_id db) -> db_ok db.
Proof. intros Hu Hok. split; [done|]. intros i c r. by rewrite Hu. Qed.

Lemma db_ok_spent db i r : db_ok db -> jobs db !! i = Some r -> spent i db.
Proof.
  intros Hok Hr. split; [by apply (Hok i r)|]. destruct (uncommitted db !! i) as [[c r0]|] eqn:Hu; [|done].
  destruct (dk_uncommitted _ Hok _ _ _ Hu) as (_ & ? & _). congruence.
Qed.

(** Keys are never reused: the sequence only grows. *)
Lemma db_step_next db db' : db_step db db' -> next_id db <= next_id db'.
Proof. destruct 1; simpl; lia. Qed.

(** The fate of a row in one step: kept, moved along the state machine, or deleted
    once terminal. *)
Lemma db_step_row db db' i r :
  db_step db db' -> jobs db !! i = Some r ->
  jobs db' !! i = Some r \/
  (exists r', jobs db' !! i = Some r' /\ row_step r r') \/
  (jobs db' !! i = None /\ terminal (status r)).
Proof.
  intros Hs Hr. destruct Hs as [db t' Ht|db db' Hn Hsub Hnew _|db t' Hsub Hterm]; simpl.
  - specialize (Ht i). rewrite Hr in Ht. destruct (t' !! i) as [r'|]; [|done].
    destruct Ht as [->|?]; eauto.
  - left. by eapply lookup_weaken.
  - destruct (t' !! i) as [r'|] eqn:Hr'; [|eauto].
    left. pose proof (lookup_weaken _ _ _ _ Hr' Hsub). congruence.
Qed.

Lemma db_step_spent db db' i : db_step db db' -> spent i db -> spent i db'.
Proof.
  intros Hs [Hi Hn]. destruct Hs as [| db db' ? _ _ Hunc |]; [by split| |by split]. split; [lia|].
  destruct (uncommitted db' !! i) as [[c r]|] eqn:Hu; [|done].
  destruct (Hunc i c r Hu) as [[? _]|[? _]]; [congruence|lia].
Qed.

(** A key of the past is not given to another job. *)
Lemma db_step_gone db db' i :
  db_step db db' -> spent i db -> jobs db !! i = None -> jobs db' !! i = None.
Proof.
  intros Hs [Hi Hu] Hn. destruct (jobs db' !! i) as [r|] eqn:Hr; [|done]. exfalso.
  destruct Hs as [db t' Ht|db db' ? Hsub Hnew _|db t' Hsub Hterm]; simpl in *.
  - specialize (Ht i). by rewrite Hn, Hr in Ht.
  - destruct (Hnew i r Hr Hn) as [_ [[? _]|[c Hc]]]; [lia|congruence].
  - pose proof (lookup_weaken _ _ _ _ Hr Hsub). congruence.
Qed.

Lemma db_steps_next db db' : db_steps db db' -> next_id db <= next_id db'.
Proof. induction 1 as [|? ? ? Hs]; [done|]. apply db_step_next in Hs. lia. Qed.

Lemma db_steps_ok db db' : db_steps db db' -> db_ok db -> db_ok db'.
Proof. induction 1; eauto using db_step_ok. Qed.

Lemma db_steps_spent db db' i : db_steps db db' -> spent i db -> spent i db'.
Proof. induction 1; eauto using db_step_spent. Qed.

Lemma db_steps_gone db db' i :
  db_steps db db' -> spent i db -> jobs db !! i = None -> jobs db' !! i = None.
Proof. induction 1; eauto using db_step_spent, db_step_gone. Qed.

Lemma row_step_attempts r r' : row_step r r' -> attempts r <= attempts r'.
Proof. intros Hs. rewrite (rs_attempts _ _ Hs). case_decide; lia. Qed.

(** A terminal row only stays or goes. *)
Lemma db_steps_terminal db db' i r :
  db_steps db db' -> db_ok db -> jobs db !! i = Some r -> terminal (status r) ->
  jobs db' !! i = Some r \/ jobs db' !! i = None.
Proof.
  intros Hs. revert r. induction Hs as [|db db1 db' H1 Hs IH]; [eauto|].
  intros r Hok Hr Ht. pose proof (db_step_ok _ _ H1 Hok) as Hok1.
  destruct (db_step_row _ _ _ _ H1 Hr) as [Hr1|[(r1 & _ & Hst)|[Hn _]]].
  - by apply IH.
  - by destruct (lifecycle_terminal _ _ Ht (rs_lifecycle _ _ Hst)).
  - right. eapply db_steps_gone; [done| |done]. by eapply db_step_spent, db_ok_spent.
Qed.

Lemma empty_db_ok : db_ok empty_db.
Proof. by apply db_ok_closed. Qed.

(** The keys of the sequence: from [lo] on. *)
Definition keys_from (lo : Z) (db : Db) : Prop :=
  lo <= next_id db /\ (forall i r, jobs db !! i = Some r -> lo <= i) /\
  (forall i p, uncommitted db !! i = Some p -> lo <= i).

Lemma db_step_keys lo db db' : db_step db db' -> keys_from lo db -> keys_from lo db'.
Proof.
  intros Hs (Hn & Hj & Hu). destruct Hs as [db t' Ht|db db' ? Hsub Hnew Hunc|db t' Hsub _]; split_and!; simpl; try done.
  - intros i r Hr. specialize (Ht i). rewrite Hr in Ht. destruct (jobs db !! i) as [r0|] eqn:?; [|done]. by eapply Hj.
  - lia.
  - intros i r Hr. destruct (jobs db !! i) as [r0|] eqn:Hr0; [by eapply Hj|].
    destruct (Hnew i r Hr Hr0) as [_ [[? _]|[c Hc]]]; [lia|by eapply Hu].
  - intros i [c r] Hr. destruct (Hunc i c r Hr) as [[? _]|[? _]]; [by eapply Hu|lia].
  - intros i r Hr. eapply Hj, lookup_weaken; done.
Qed.

(** The keys of a table that began empty. *)
Lemma db_steps_keys db i r :
  db_steps empty_db db -> jobs db !! i = Some r -> 1 <= i < next_id db.
Proof.
  intros Hs Hr. assert (Hk : keys_from 1 db).
  { assert (Hgen : forall d d', db_steps d d' -> keys_from 1 d -> keys_from 1 d')
      by (induction 1; eauto using db_step_keys).
    apply (Hgen _ _ Hs). by split_and!. }
  pose proof (db_steps_ok _ _ Hs empty_db_ok) as Hok. destruct (Hok i r Hr) as [_ ?].
  destruct Hk as (_ & Hj & _). specialize (Hj i r Hr). lia.
Qed.

(** While a row exists it is the same job with a growing attempt count. *)
Lemma db_steps_same db db' i r r' :
  db_steps db db' -> db_ok db -> jobs db !! i = Some r -> jobs db' !! i = Some r' ->
  same_job r r' /\ attempts r <= attempts r' /\
  (forall t, first_attempted_at r = Some t -> first_attempted_at r' = Some t).
Proof.
  intros Hs. revert r. induction Hs as [|db db1 db' H1 Hs IH]; intros r Hok Hr Hr'.
  { simplify_eq. split_and!; [done|lia|done]. }
  pose proof (db_step_ok _ _ H1 Hok) as Hok1.
  destruct (db_step_row _ _ _ _ H1 Hr) as [Hr1|[(r1 & Hr1 & Hst)|[Hn _]]].
  - by apply IH.
  - destruct (IH r1 Hok1 Hr1 Hr') as (? & ? & Hf).
    pose proof (row_step_attempts _ _ Hst). destruct Hst as [_ ? _ _ Hfirst _ _].
    split_and!; [by etrans|lia|]. intros t Ht. by apply Hf, Hfirst.
  - rewrite (db_steps_gone db1 db' i) in Hr'; [done|done| |done]. by eapply db_step_spent, db_ok_spent.
Qed.

(** A row that has disappeared had reached a terminal status. *)
Lemma db_steps_lost db db' i r :
  db_steps db db' -> db_ok db -> jobs db !! i = Some r -> jobs db' !! i = None ->
  exists db1 r1, db_steps db db1 /\ db_steps db1 db' /\ jobs db1 !! i = Some r1 /\
    same_job r r1 /\ terminal (status r1).
Proof.
  intros Hs. revert r. induction Hs as [|db db1 db' H1 Hs IH]; intros r Hok Hr Hn; [congruence|].
  destruct (db_step_row _ _ _ _ H1 Hr) as [Hr1|[(r1 & Hr1 & Hst)|[_ Ht]]].
  - destruct (IH r) as (db2 & r2 & ? & ? & ? & ? & ?); [by eapply db_step_ok|done..|].
    exists db2, r2. split_and!; [by eapply rtc_l|done..].
  - destruct (IH r1) as (db2 & r2 & ? & ? & ? & ? & ?); [by eapply db_step_ok|done..|].
    exists db2, r2. split_and!; try done; [by eapply rtc_l|].
    etrans; [apply (rs_same _ _ Hst)|done].
  - exists db, r. split_and!; try done. by eapply rtc_l.
Qed.

(** An uncommitted row that becomes visible is, from then on, the same job. *)
Lemma db_steps_commit db db' i c r r' :
  db_steps db db' -> db_ok db -> uncommitted db !! i = Some (c, r) -> jobs db' !! i = Some r' ->
  same_job r r' /\ attempts r <= attempts r'.
Proof.
  induction 1 as [db|db db1 db' H1 Hs IH]; intros Hok Hu Hr'.
  { destruct (dk_uncommitted _ Hok _ _ _ Hu) as (_ & ? & _). congruence. }
  pose proof (db_step_ok _ _ H1 Hok) as Hok1.
  destruct (dk_uncommitted _ Hok _ _ _ Hu) as (Hi & Hno & _).
  destruct (uncommitted db1 !! i) as [[c1 r1]|] eqn:Hu1.
  - apply IH; [done| |done]. destruct H1 as [| db db1 ? _ _ Hunc |]; simpl in *; [congruence| |congruence].
    destruct (Hunc i c1 r1 Hu1) as [[? _]|[? _]]; [congruence|lia].
  - destruct (jobs db1 !! i) as [r1|] eqn:Hr1.
    + assert (r1 = r) as ->.
      { destruct H1 as [db t' Ht|db db1 ? _ Hnew _|db t' Hsub _]; simpl in *; [congruence| |congruence].
        destruct (Hnew i r1 Hr1 Hno) as [_ [[? _]|[c' ?]]]; [lia|congruence]. }
      by destruct (db_steps_same _ _ _ _ _ Hs Hok1 Hr1 Hr') as (? & ? & _).
    + rewrite (db_steps_gone db1 db' i) in Hr'; [done|done| |done]. split; [|done].
      pose proof (db_step_next _ _ H1). lia.
Qed.
