(* ===== verification/Migrations.v ===== *)
(** [src/migrator.rs] and the two files of [migrations/]: from an empty database, or from the
    schema of the first release with its jobs, to the table of [Schema].

    The runner, [sqlx::migrate::Migrator::run], is a parameter. *)
From S2P Require Import Prelude Errors Schema Lifecycle.

(** * The schema of the first migration *)

(** A row before [concurrency_key]. *)
Record RowV1 : Type := mkRowV1 {
  v1_public_id : Uuid;
  v1_queue : list Z;
  v1_payload : list Z;
  v1_status : job_status;
  v1_attempts : Z;
  v1_max_attempts : Z;
  v1_lease_token : option Uuid;
  v1_lease_expires_at : option Z;
  v1_last_error : option (list Z);
  v1_last_attempted_at : option Z;
  v1_first_attempted_at : option Z;
  v1_finished_at : option Z;
  v1_run_at : Z;
  v1_created_at : Z;
  v1_updated_at : Z;
}.

(** ALTER TABLE pgwq.jobs ADD COLUMN concurrency_key TEXT. *)
Definition add_column (r : RowV1) : Row :=
  mkRow (v1_public_id r) (v1_queue r) (v1_payload r) (v1_status r) (v1_attempts r) (v1_max_attempts r)
    (v1_lease_token r) (v1_lease_expires_at r) (v1_last_error r) (v1_last_attempted_at r)
    (v1_first_attempted_at r) (v1_finished_at r) (v1_run_at r) (v1_created_at r) (v1_updated_at r) None.

(** The CHECKs of the first migration; none of them mentions the later column. *)
Definition check_v1 (r : RowV1) : bool :=
  let r := add_column r in
  jobs_queue_nonempty r && jobs_queue_max_len r && jobs_payload_max_size r
  && jobs_last_error_max_len r && jobs_attempts_nonneg r && jobs_max_attempts_nonneg r
  && jobs_temporal r && jobs_status_invariants r.

Inductive Table : Type :=
| NoTable
| TableV1 (rows : gmap Z RowV1) (next : Z)
| TableV2 (db : Db).

(** [sv_applied]: the versions in [_sqlx_migrations], those of other crates included. *)
Record Server : Type := mkServer {
  sv_version_num : Z;
  sv_table : Table;
  sv_applied : list Z;
}.

(** * The migrations *)

Definition raise_exception : sqlx_error := Database (Some "P0001"%string).
Definition duplicate_object : sqlx_error := Database (Some "42710"%string).
Definition duplicate_column : sqlx_error := Database (Some "42701"%string).
Definition undefined_table : sqlx_error := Database (Some "42P01"%string).

(** [20260513000000_v01_init.sql]. *)
Definition v01_init (s : Server) : result Table sqlx_error :=
  if decide (sv_version_num s < 180000) then Err raise_exception else
  match sv_table s with
  | NoTable => Ok (TableV1 ∅ 1)
  | _ => Err duplicate_object
  end.

(** [20260521000000_v01_concurrency_key.sql]: the CHECK is added NOT VALID, so no row is
    looked at.  The lock of ALTER TABLE waits for the transactions that hold new rows. *)
Definition v01_concurrency_key (s : Server) : result Table sqlx_error :=
  match sv_table s with
  | NoTable => Err undefined_table
  | TableV1 rows next => Ok (TableV2 (mkDb (add_column <$> rows) next ∅ ∅))
  | TableV2 _ => Err duplicate_column
  end.

Record Migrator : Type := mkMigrator {
  migrations : list (Z * (Server -> result Table sqlx_error));
  ignore_missing : bool;
}.

Definition set_ignore_missing (b : bool) (m : Migrator) : Migrator := mkMigrator (migrations m) b.

(** [sqlx::migrate!("./migrations")]. *)
Definition embedded : Migrator :=
  mkMigrator [(20260513000000, v01_init); (20260521000000, v01_concurrency_key)] false.

Definition migrator : Migrator := set_ignore_missing true embedded.

(** * The runner *)

Inductive MigrateError : Type :=
| MigrateExecute (e : sqlx_error)
| VersionMissing (v : Z).

Definition record_applied (v : Z) (t : Table) (s : Server) : Server :=
  mkServer (sv_version_num s) t (sv_applied s ++ [v]).

Definition pending (m : Migrator) (s : Server) : list (Z * (Server -> result Table sqlx_error)) :=
  filter (fun vm => vm.1 ∉ sv_applied s) (migrations m).

Definition foreign (m : Migrator) (s : Server) : list Z :=
  filter (fun v => v ∉ (migrations m).*1) (sv_applied s).

Class SqlxMigrate : Type := {
  migrate_run : Migrator -> Server -> result unit MigrateError * Server;
}.

(** [sqlx]'s documentation: an applied version that the source does not have is an error unless
    [ignore_missing]; migrations not yet applied run in the order of their versions, each in
    a transaction that also records it, up to the first that fails. *)
Class SqlxMigrateSpec (S : SqlxMigrate) : Prop := {
  migrate_missing : forall m s v vs, ignore_missing m = false -> foreign m s = v :: vs ->
    migrate_run m s = (Err (VersionMissing v), s);
  migrate_done : forall m s, ignore_missing m = true \/ foreign m s = [] -> pending m s = [] ->
    migrate_run m s = (Ok tt, s);
  migrate_next : forall m s v sql rest t, ignore_missing m = true \/ foreign m s = [] ->
    pending m s = (v, sql) :: rest -> sql s = Ok t ->
    migrate_run m s = migrate_run m (record_applied v t s);
  migrate_fails : forall m s v sql rest e, ignore_missing m = true \/ foreign m s = [] ->
    pending m s = (v, sql) :: rest -> sql s = Err e ->
    migrate_run m s = (Err (MigrateExecute e), s);
}.

(** * Facts *)

(** The constraint added without a scan holds of every row there is. *)
Lemma add_column_check r : check_row (add_column r) = check_v1 r.
Proof. unfold check_row, check_v1. by rewrite andb_true_r. Qed.

Definition v1_ok (rows : gmap Z RowV1) (next : Z) : Prop :=
  forall i r, rows !! i = Some r ->
    check_v1 r = true /\ v1_attempts r <= i32_max /\ v1_max_attempts r <= i32_max /\ i < next.

Lemma add_column_ok rows next : v1_ok rows next -> db_ok (mkDb (add_column <$> rows) next ∅ ∅).
Proof.
  intros Hok. apply db_ok_closed; [done|]. simpl. intros i r (r1 & <- & Hr1)%lookup_fmap_Some.
  destruct (Hok i r1 Hr1) as (? & ? & ? & ?). split; [|done]. split; [by rewrite add_column_check|done].
Qed.

Lemma pending_migrator n t applied :
  pending migrator (mkServer n t applied) =
  (if decide (20260513000000 ∈ applied) then [] else [(20260513000000, v01_init)]) ++
  (if decide (20260521000000 ∈ applied) then [] else [(20260521000000, v01_concurrency_key)]).
Proof.
  unfold pending. simpl. rewrite !filter_cons, filter_nil. simpl. by repeat case_decide.
Qed.

Section migrate.
Context `{HS : SqlxMigrateSpec}.

(** C40: [migrator().run(&pool)] brings every database the crate can have left behind to the current table,
    whatever migrations of other crates the history holds: an empty one to the empty table; the
    table of the first release to one with the same jobs under the same keys, none of them
    with a concurrency key, in which every CHECK holds of every row, the one that was added
    without validation included.  A second run changes nothing, and a server before
    PostgreSQL 18 is refused before anything is created. *)
Theorem migrator_run n applied :
  (20260513000000 ∉ applied) -> (20260521000000 ∉ applied) ->
  (n < 180000 ->
     migrate_run migrator (mkServer n NoTable applied)
     = (Err (MigrateExecute raise_exception), mkServer n NoTable applied)) /\
  (180000 <= n ->
     migrate_run migrator (mkServer n NoTable applied)
     = (Ok tt, mkServer n (TableV2 empty_db) (applied ++ [20260513000000; 20260521000000])) /\
     forall rows next, v1_ok rows next ->
     let s := mkServer n (TableV1 rows next) (20260513000000 :: applied) in
     exists db s', migrate_run migrator s = (Ok tt, s') /\ sv_table s' = TableV2 db /\ db_ok db /\
       jobs db = add_column <$> rows /\ next_id db = next /\ migrate_run migrator s' = (Ok tt, s')).
Proof.
  intros H1 H2.
  assert (Hpend : forall t, pending migrator (mkServer n t applied) = migrations migrator).
  { intros t. by rewrite pending_migrator, !decide_False. }
  split; [|intros Hn; split].
  - intros Hn. eapply migrate_fails; [by left|apply Hpend|]. unfold v01_init. simpl. by rewrite decide_True.
  - rewrite (migrate_next migrator _ 20260513000000 v01_init [(20260521000000, v01_concurrency_key)] (TableV1 ∅ 1));
      [|by left|apply Hpend|unfold v01_init; simpl; by rewrite decide_False by lia].
    unfold record_applied. simpl.
    rewrite (migrate_next migrator _ 20260521000000 v01_concurrency_key [] (TableV2 empty_db)); [|by left| |].
    + unfold record_applied. simpl. rewrite <- (assoc_L (++)). apply migrate_done; [by left|].
      rewrite pending_migrator, !decide_True by set_solver. done.
    + rewrite pending_migrator, decide_True, decide_False by set_solver. done.
    + unfold v01_concurrency_key, empty_db. simpl. by rewrite fmap_empty.
  - intros rows next Hok s. set (db := mkDb (add_column <$> rows) next ∅ ∅).
    set (s' := mkServer n (TableV2 db) ((20260513000000 :: applied) ++ [20260521000000])).
    assert (Hlast : migrate_run migrator s' = (Ok tt, s')).
    { apply migrate_done; [by left|]. unfold s'. rewrite pending_migrator, !decide_True by set_solver. done. }
    exists db, s'. split_and!; [|done|by apply add_column_ok|done|done|exact Hlast].
    rewrite (migrate_next migrator s 20260521000000 v01_concurrency_key [] (TableV2 db)); [exact Hlast|by left| |done].
    unfold s. rewrite pending_migrator, decide_True, decide_False by set_solver. done.
Qed.
End migrate.
