(* ===== verification/Transition.v ===== *)
(** [src/transition.rs]: the structured event emitted for every status change. *)
From S2P Require Import Prelude Schema.

Inductive TransitionSource : Type := SrcWorker | SrcReaper | SrcPurge.

Record TransitionCtx : Type := mkTransitionCtx {
  tc_job_id : Z;
  tc_public_id : Uuid;
  tc_queue : list Z;
  tc_attempts : Z;
  tc_source : TransitionSource;
  tc_reason : option (list Z);
  tc_lost_race : bool;
}.

Inductive Level : Type := ERROR | INFO | DEBUG.

(** The event with its attributes; [ev_reason] is the [reason] attribute, absent at
    level ERROR. *)
Record TransitionEvent : Type := mkTransitionEvent {
  ev_level : Level;
  ev_worker_id : option Uuid;
  ev_job_id : Z;
  ev_public_id : Uuid;
  ev_queue : list Z;
  ev_attempts : Z;
  ev_from : string;
  ev_to : string;
  ev_source : string;
  ev_lost_race : bool;
  ev_reason_length : Z;
  ev_reason_present : bool;
  ev_reason : option (list Z);
}.

Definition source_attr (s : TransitionSource) : string :=
  match s with SrcWorker => "worker" | SrcReaper => "reaper" | SrcPurge => "purge" end.

Definition emit_transition (from : option string) (to : string) (worker : option Uuid)
    (ctx : TransitionCtx) : TransitionEvent :=
  let from_attr := default "none"%string from in
  let reason_present := not_null (tc_reason ctx) in
  let reason_length := match tc_reason ctx with None => 0 | Some r => str_len r end in
  let event level reason :=
    mkTransitionEvent level worker (tc_job_id ctx) (tc_public_id ctx) (tc_queue ctx)
      (tc_attempts ctx) from_attr to (source_attr (tc_source ctx)) (tc_lost_race ctx)
      reason_length reason_present reason in
  if decide (to = "dead"%string) then event ERROR None else
  if decide (to = "done"%string \/ to = "awaiting_retry"%string)
  then event INFO (tc_reason ctx)
  else event DEBUG (tc_reason ctx).

(** The text of a status, [status::text]. *)
Definition status_text (s : job_status) : string :=
  match s with
  | Queued => "queued" | Running => "running" | AwaitingRetry => "awaiting_retry"
  | Done => "done" | Dead => "dead"
  end.

(** The text of an error never leaves at level ERROR: a transition event is at that level exactly when
    the job goes to [dead], and then it carries the length of the reason but not the reason;
    at the lower levels the reason is there in full. *)
Theorem emit_transition_redacts from to worker ctx :
  let e := emit_transition from to worker ctx in
  (ev_level e = ERROR <-> to = "dead"%string) /\
  (ev_level e = ERROR -> ev_reason e = None) /\ (ev_level e <> ERROR -> ev_reason e = tc_reason ctx) /\
  ev_reason_present e = bool_decide (is_Some (tc_reason ctx)).
Proof.
  unfold emit_transition. assert (Hp : not_null (tc_reason ctx) = bool_decide (is_Some (tc_reason ctx)))
    by (by destruct (tc_reason ctx)).
  case_decide; [|case_decide]; simpl; split_and!; done.
Qed.

