(* ===== verification/Exec.v ===== *)
(** How the crate's code meets the database.

    Every [.await] on a statement is a round trip of a session to a server that other
    sessions use too.  A run is therefore driven by a script, one [RoundTrip] per
    statement: what other sessions committed in between, the server's [now()], which
    rows they hold locks on, what the snapshot of the statement shows of the table (other
    sessions may have committed since it was taken), the values of [gen_random_uuid()],
    whether the request or its answer is lost, and how long the answer takes.  A theorem
    that holds for every script holds for every interleaving and every fault. *)
From S2P Require Import Prelude Duration Errors Schema Transition.

(** A failed round trip: the statement did not run, or it ran and its answer was lost. *)
Inductive fault : Type :=
| NoFault
| FailBefore (e : sqlx_error)
| FailAfter (e : sqlx_error).

Record RoundTrip : Type := mkRoundTrip {
  rt_env : Db -> Db;
  rt_now : Z;
  rt_locked : gset Z;
  rt_uuid : Z -> Uuid;
  rt_fault : fault;
  rt_latency : Duration;
  rt_cancel_applied : bool;
  rt_snap : gmap Z Row -> gmap Z Row;
}.

Record World : Type := mkWorld {
  w_db : Db;
  w_script : list RoundTrip;
  w_log : list TransitionEvent;
}.

(** Code that talks to the database. *)
Definition M (A : Type) : Type := World -> A * World.
Definition mreturn {A} (a : A) : M A := fun w => (a, w).
Definition mcompose {A B} (m : M A) (k : A -> M B) : M B :=
  fun w => let '(a, w') := m w in k a w'.

Notation "'let!' x ':=' c 'in' k" :=
  (mcompose c (fun x => k))
  (at level 10, x pattern, c at level 200, k at level 200,
   format "'[v' 'let!'  x  ':='  c  'in' '/' k ']'") : pgwq_scope.
Notation "c ';!' k" := (mcompose c (fun _ => k))
  (at level 100, k at level 200, right associativity) : pgwq_scope.

(** What a statement does when it runs at the server. *)
Definition Stmt (A : Type) : Type := RoundTrip -> Db -> result A sqlx_error * Db.

Definition emit (e : TransitionEvent) : M unit :=
  fun w => (tt, mkWorld (w_db w) (w_script w) (w_log w ++ [e])).

(** One round trip.  A script that ends stands for a pool that no longer answers. *)
Definition sql {A} (stmt : Stmt A) : M (result A sqlx_error) :=
  fun w =>
    match w_script w with
    | [] => (Err PoolTimedOut, w)
    | rt :: script =>
        let db := rt_env rt (w_db w) in
        match rt_fault rt with
        | NoFault => let '(r, db') := stmt rt db in (r, mkWorld db' script (w_log w))
        | FailBefore e => (Err e, mkWorld db script (w_log w))
        | FailAfter e => (Err e, mkWorld (stmt rt db).2 script (w_log w))
        end
    end.

(** [tokio::time::timeout(limit, statement)]: [None] is [Elapsed]; the statement may
    or may not have been applied by the time its future is dropped. *)
Definition sql_timeout {A} (limit : Duration) (stmt : Stmt A)
  : M (option (result A sqlx_error)) :=
  fun w =>
    match w_script w with
    | [] => (Some (Err PoolTimedOut), w)
    | rt :: script =>
        if decide (rt_latency rt <= limit) then
          let '(r, w') := sql stmt w in (Some r, w')
        else
          let db := rt_env rt (w_db w) in
          (None, mkWorld (if rt_cancel_applied rt then (stmt rt db).2 else db) script (w_log w))
    end.

(** A future dropped in the middle, by [select!] or [abort]: of its statements the first
    [n] reached the server, and nobody sees its result. *)
Definition abort_after {A} (n : nat) (m : M A) : M unit :=
  fun w =>
    let w1 := (m (mkWorld (w_db w) (take n (w_script w)) (w_log w))).2 in
    (tt, mkWorld (w_db w1) (w_script w1 ++ drop n (w_script w)) (w_log w1)).

(** An UPDATE of the rows [ids]; the answer is [rows_affected]. *)
Definition run_update (now : Z) (set_clause : Z -> Row -> result Row sqlx_error)
    (ids : list Z) (db : Db) : result Z sqlx_error * Db :=
  match pg_update now set_clause ids (jobs db) with
  | Ok t => (Ok (Z.of_nat (length ids)), set_jobs t db)
  | Err e => (Err e, db)
  end.

(** * Reasoning about runs *)

(** An answer with a result. *)
Lemma sql_ok_inv {A} (stmt : Stmt A) w a w' :
  sql stmt w = (Ok a, w') ->
  exists rt script, w_script w = rt :: script /\ rt_fault rt = NoFault /\
    stmt rt (rt_env rt (w_db w)) = (Ok a, w_db w') /\ w_script w' = script /\ w_log w' = w_log w.
Proof.
  unfold sql. destruct (w_script w) as [|rt script]; [done|]. destruct (rt_fault rt) eqn:Hf; [|done..].
  destruct (stmt rt _) as [r db'] eqn:Hs. intros [= -> <-]. eauto 10.
Qed.

(** ** Effects on the database

    [guarantee R m]: every effect of [m] on the database is an [R] step, whatever the
    script, provided the interference of other sessions is made of [R] steps too. *)
Definition guarantee {A} (R : relation Db) (m : M A) : Prop :=
  forall w,
    Forall (fun rt => forall db, R db (rt_env rt db)) (w_script w) ->
    R (w_db w) (w_db (m w).2) /\
    Forall (fun rt => forall db, R db (rt_env rt db)) (w_script (m w).2).

Section guarantee.
Context (R : relation Db) `{!PreOrder R}.

Lemma guarantee_return {A} (a : A) : guarantee R (mreturn a).
Proof. intros w Hw. by split. Qed.

Lemma guarantee_emit (e : TransitionEvent) : guarantee R (emit e).
Proof. intros w Hw. by split. Qed.

Lemma guarantee_bind {A B} (m : M A) (k : A -> M B) :
  guarantee R m -> (forall a, guarantee R (k a)) -> guarantee R (mcompose m k).
Proof.
  intros Hm Hk w Hw. unfold mcompose. destruct (Hm w Hw) as [H1 H2].
  destruct (m w) as [a w']. simpl in *. destruct (Hk a w' H2) as [H3 H4].
  split; [by etrans|done].
Qed.

Lemma guarantee_sql {A} (stmt : Stmt A) :
  (forall rt db, R db (stmt rt db).2) -> guarantee R (sql stmt).
Proof.
  intros Hs w Hw. unfold sql. destruct (w_script w) as [|rt script] eqn:Hscript.
  { simpl. rewrite Hscript. by split. }
  apply Forall_cons in Hw as [Hrt Hw]. specialize (Hrt (w_db w)).
  specialize (Hs rt (rt_env rt (w_db w))).
  destruct (rt_fault rt), (stmt rt (rt_env rt (w_db w))) as [r db'];
    simpl in *; (split; [|done]); by etrans.
Qed.

Lemma guarantee_sql_timeout {A} limit (stmt : Stmt A) :
  (forall rt db, R db (stmt rt db).2) -> guarantee R (sql_timeout limit stmt).
Proof.
  intros Hs w Hw. unfold sql_timeout. destruct (w_script w) as [|rt script] eqn:Hscript.
  { simpl. rewrite Hscript. by split. }
  case_decide.
  - rewrite <- Hscript in Hw. pose proof (guarantee_sql stmt Hs w Hw) as [H1 H2].
    by destruct (sql stmt w).
  - apply Forall_cons in Hw as [Hrt Hw]. specialize (Hrt (w_db w)).
    specialize (Hs rt (rt_env rt (w_db w))).
    destruct (rt_cancel_applied rt); simpl; (split; [|done]); [by etrans|done].
Qed.

Lemma guarantee_abort_after {A} n (m : M A) : guarantee R m -> guarantee R (abort_after n m).
Proof.
  intros Hm w Hw. unfold abort_after. simpl.
  destruct (Hm (mkWorld (w_db w) (take n (w_script w)) (w_log w))) as [H1 H2].
  { simpl. by apply Forall_take. }
  split; [done|]. apply Forall_app. split; [done|]. by apply Forall_drop.
Qed.
End guarantee.

(** The database effects of the statements are registered in [guarantee]; the tactic
    walks through a program. *)
Create HintDb guarantee.

Ltac guarantee_step :=
  lazymatch goal with
  | |- guarantee _ (mreturn _) => apply guarantee_return; apply _
  | |- guarantee _ (emit _) => apply guarantee_emit; apply _
  | |- guarantee _ (mcompose _ _) => apply guarantee_bind; [apply _| |intros ?]
  | |- guarantee _ (sql _) => apply guarantee_sql; [apply _|intros ? ?; by eauto with guarantee]
  | |- guarantee _ (sql_timeout _ _) =>
      apply guarantee_sql_timeout; [apply _|intros ? ?; by eauto with guarantee]
  | |- guarantee _ (abort_after _ _) => apply guarantee_abort_after
  | |- guarantee _ (match ?x with _ => _ end) => destruct x
  | |- guarantee _ _ => by eauto with guarantee
  end.
Ltac solve_guarantee := repeat guarantee_step.
