(* ===== verification/Select.v ===== *)
(** SELECT id ... WHERE ... ORDER BY ... LIMIT n FOR UPDATE SKIP LOCKED: the way the claim, the
    reaper and the retention sweeps choose their rows.

    At READ COMMITTED, Postgres' default, a statement finds and sorts its rows as its snapshot
    shows them.  A row that another transaction has locked is skipped; another row is locked
    as it is by then, and the WHERE clause is tested again on that version. *)
From S2P Require Import Prelude Errors Schema Lifecycle Transition Exec.

(** The row can be locked, and its current version still satisfies the WHERE clause. *)
Definition lockable (P : Z * Row -> Prop) (locked : gset Z) (t : gmap Z Row) (p : Z * Row) : Prop :=
  (p.1 ∉ locked) /\ match t !! p.1 with Some r => P (p.1, r) | None => False end.
#[global] Instance lockable_dec P `{!forall p, Decision (P p)} locked t p : Decision (lockable P locked t p).
Proof. unfold lockable. destruct (t !! p.1); apply _. Defined.

Definition unlocked (locked : gset Z) (p : Z * Row) : Prop := p.1 ∉ locked.
#[global] Instance unlocked_dec locked p : Decision (unlocked locked p).
Proof. unfold unlocked. apply _. Defined.

Definition select_for_update `{!PgEngine} (R : relation (Z * Row)) `{!RelDecision R}
    (P : Z * Row -> Prop) `{!forall p, Decision (P p)} (limit : Z) (rt : RoundTrip) (t : gmap Z Row)
  : list Z :=
  (order_limit R (lockable P (rt_locked rt) t) limit (filter P (pg_scan (rt_snap rt t)))).*1.

(** What stays true of a row between the snapshot and the lock: the queue, which no statement
    changes, and the concurrency key, which a trigger protects. *)
Definition snap_ok (snap t : gmap Z Row) : Prop :=
  forall i r r', snap !! i = Some r -> t !! i = Some r' ->
    queue r' = queue r /\ concurrency_key r' = concurrency_key r.

Definition snaps_ok (script : list RoundTrip) : Prop :=
  Forall (fun rt => forall t, snap_ok (rt_snap rt t) t) script.

Lemma snap_ok_refl t : snap_ok t t.
Proof. intros i r r' ? ?. by simplify_eq. Qed.

(** A snapshot is a state the table was in. *)
Lemma snap_ok_past db db' : db_ok db -> db_steps db db' -> snap_ok (jobs db) (jobs db').
Proof.
  intros Hok Hs i r r' Hr Hr'. by destruct (db_steps_same _ _ _ _ _ Hs Hok Hr Hr') as ((_ & ? & _ & _ & ?) & _).
Qed.

Section select.
Context `{!PgEngine} (R : relation (Z * Row)) `{!RelDecision R}.
Context (P : Z * Row -> Prop) `{!forall p, Decision (P p)}.
Implicit Types (limit : Z) (rt : RoundTrip) (t : gmap Z Row).

(** A row that is taken satisfies the WHERE clause now. *)
Lemma select_elem limit rt t i :
  i ∈ select_for_update R P limit rt t ->
  exists r, t !! i = Some r /\ P (i, r) /\ i ∉ rt_locked rt.
Proof.
  unfold select_for_update. intros ([i' r0] & -> & Hin)%list_elem_of_fmap.
  apply order_limit_elem in Hin as [_ [Hl HP]]. simpl in *. destruct (t !! i') as [r|]; [|done]. eauto.
Qed.

Lemma select_NoDup limit rt t : NoDup (select_for_update R P limit rt t).
Proof. apply order_limit_NoDup_fmap, NoDup_fmap_filter, pg_scan_NoDup. Qed.

Lemma select_length limit rt t : Z.of_nat (length (select_for_update R P limit rt t)) <= Z.max 0 limit.
Proof. unfold select_for_update. rewrite length_fmap. apply order_limit_length. Qed.

(** The statement leaves behind a row that it saw and could take only when it is full. *)
Lemma select_exhaust limit rt t i r r0 :
  Z.of_nat (length (select_for_update R P limit rt t)) < limit ->
  rt_snap rt t !! i = Some r0 -> P (i, r0) -> t !! i = Some r -> P (i, r) -> i ∉ rt_locked rt ->
  i ∈ select_for_update R P limit rt t.
Proof.
  unfold select_for_update. rewrite length_fmap. intros Hlen Hs0 HP0 Hr HP Hl.
  apply (list_elem_of_fmap_2 fst _ (i, r0)). apply order_limit_exhaust; [done| |].
  - apply list_elem_of_filter. split; [done|]. by apply pg_scan_elem.
  - split; [done|]. simpl. by rewrite Hr.
Qed.

(** When nothing has changed since the snapshot. *)
Lemma select_current limit rt t :
  rt_snap rt t = t ->
  select_for_update R P limit rt t
  = (order_limit R (unlocked (rt_locked rt)) limit (filter P (pg_scan t))).*1.
Proof.
  intros Hs. unfold select_for_update, order_limit. rewrite Hs. do 2 f_equal.
  apply list_filter_ext_elem. intros [i r]. rewrite merge_sort_Permutation.
  intros [HP Hi%pg_scan_elem]%list_elem_of_filter. unfold lockable, unlocked. simpl. rewrite Hi. tauto.
Qed.
End select.
