(* ===== verification/Session.v ===== *)
(** What a session does to the table besides claiming, marking, sweeping and purging: INSERTs,
    inside a transaction of the caller ([tx: &mut PgConnection] of [src/pusher.rs]) or as
    statements of their own, and the BEGIN, COMMIT and ROLLBACK around them.

    Inside a transaction [now()] is its start; keys come from the sequence at once, rows become
    visible at COMMIT; a statement that fails takes the transaction with it: the server then
    answers 25P02 to everything but its end, and COMMIT rolls back.  Savepoints are not
    modelled. *)
From S2P Require Import Prelude Duration Errors Schema Lifecycle Transition Exec.

(** * Statements *)

(** INSERT INTO pgwq.jobs, the TEXT parameters bound first. *)
Definition bind_new (n : NewRow) : result NewRow sqlx_error :=
  let? q := bind_text (nr_queue n) in
  let? k := bind_opt_text (nr_concurrency_key n) in
  Ok (mkNewRow q (nr_payload n) (nr_public_id n) (nr_run_at n) k).

Fixpoint bind_news (ns : list NewRow) : result (list NewRow) sqlx_error :=
  match ns with
  | [] => Ok []
  | n :: ns => let? n := bind_new n in let? ns := bind_news ns in Ok (n :: ns)
  end.

Definition bound_insert (now : Z) (ns : list NewRow) (db : Db)
  : result (gmap Z Row) sqlx_error * Z :=
  match bind_news ns with
  | Err e => (Err e, next_id db)
  | Ok ns => pg_insert now ns db
  end.

Definition rows_of (c : Z) (u : gmap Z (Z * Row)) : gmap Z Row :=
  snd <$> filter (fun p => p.2.1 = c) u.
Definition without (c : Z) (u : gmap Z (Z * Row)) : gmap Z (Z * Row) :=
  filter (fun p => p.2.1 <> c) u.

(** The session's transaction, if it has one, has failed. *)
Definition conn_failed (c : Z) (db : Db) : bool :=
  match open_txs db !! c with Some tx => tx_failed tx | None => false end.

(** [now()] in a statement of the session. *)
Definition now_in (c : Z) (rt : RoundTrip) (db : Db) : Z :=
  match open_txs db !! c with Some tx => tx_start tx | None => rt_now rt end.

(** The new rows: committed with the statement, or with the transaction around it. *)
Definition add_rows (c : Z) (new : gmap Z Row) (next : Z) (db : Db) : Db :=
  match open_txs db !! c with
  | None => mkDb (jobs db ∪ new) next (uncommitted db) (open_txs db)
  | Some _ => mkDb (jobs db) next (uncommitted db ∪ (pair c <$> new)) (open_txs db)
  end.

(** A statement has failed, and with it the transaction around it. *)
Definition fail_stmt (c : Z) (next : Z) (db : Db) : Db :=
  match open_txs db !! c with
  | None => mkDb (jobs db) next (uncommitted db) (open_txs db)
  | Some tx =>
      mkDb (jobs db) next (without c (uncommitted db)) (<[c := mkTx (tx_start tx) true]> (open_txs db))
  end.

(** The session [c] runs the INSERT; the answer is [rows_affected]. *)
Definition insert_stmt (c : Z) (ns : list NewRow) : Stmt Z := fun rt db =>
  if conn_failed c db then (Err in_failed_sql_transaction, db) else
  match bound_insert (now_in c rt db) ns db with
  | (Ok new, next) => (Ok (Z.of_nat (length ns)), add_rows c new next db)
  | (Err e, next) => (Err e, fail_stmt c next db)
  end.

(** A BEGIN inside a transaction only warns. *)
Definition begin_stmt (c : Z) : Stmt unit := fun rt db =>
  (Ok tt,
   match open_txs db !! c with
   | Some _ => db
   | None => mkDb (jobs db) (next_id db) (uncommitted db) (<[c := mkTx (rt_now rt) false]> (open_txs db))
   end).

Definition end_tx (c : Z) (t : gmap Z Row) (db : Db) : Db :=
  mkDb t (next_id db) (without c (uncommitted db)) (delete c (open_txs db)).

(** The answer is the command tag: COMMIT, or ROLLBACK for a failed transaction. *)
Definition commit_stmt (c : Z) : Stmt bool := fun rt db =>
  match open_txs db !! c with
  | None => (Ok true, db)
  | Some tx =>
      if tx_failed tx then (Ok false, end_tx c (jobs db) db)
      else (Ok true, end_tx c (jobs db ∪ rows_of c (uncommitted db)) db)
  end.

(** Also what the server does when the connection is lost. *)
Definition rollback_stmt (c : Z) : Stmt unit := fun rt db => (Ok tt, end_tx c (jobs db) db).

Inductive SessionOp : Type := OpBegin | OpInsert (ns : list NewRow) | OpCommit | OpRollback.

Definition session_op (c : Z) (op : SessionOp) (rt : RoundTrip) (db : Db) : Db :=
  match op with
  | OpBegin => (begin_stmt c rt db).2
  | OpInsert ns => (insert_stmt c ns rt db).2
  | OpCommit => (commit_stmt c rt db).2
  | OpRollback => (rollback_stmt c rt db).2
  end.

(** * Facts *)

Lemma bind_text_ok s : 0 ∉ s -> bind_text s = Ok s.
Proof. intros Hs. unfold bind_text. by rewrite decide_False. Qed.

Lemma bind_new_inv n n' : bind_new n = Ok n' -> n' = n.
Proof.
  unfold bind_new, bind_opt_text, bind_text. destruct n as [q pl u ra [k|]]; simpl;
    repeat case_decide; by intros; simplify_eq.
Qed.

Lemma bind_news_inv ns ns' : bind_news ns = Ok ns' -> ns' = ns.
Proof.
  revert ns'. induction ns as [|n ns IH]; intros ns'; simpl; [by intros [= <-]|].
  destruct (bind_new n) as [n'|] eqn:Hn; [|done]. destruct (bind_news ns); [|done].
  intros [= <-]. by rewrite (bind_new_inv _ _ Hn), (IH _ eq_refl).
Qed.

(** The texts of the row hold no NUL. *)
Definition bindable (n : NewRow) : Prop :=
  (0 ∉ nr_queue n) /\ match nr_concurrency_key n with None => True | Some k => 0 ∉ k end.

Lemma bind_news_ok ns : Forall bindable ns -> bind_news ns = Ok ns.
Proof.
  induction 1 as [|[q pl u ra k] ns [Hq Hk] _ IH]; simpl; [done|]. rewrite IH.
  unfold bind_new, bind_opt_text. simpl in *. rewrite bind_text_ok by done.
  destruct k; by rewrite ?bind_text_ok.
Qed.

Lemma without_lookup c u i c' r :
  without c u !! i = Some (c', r) <-> u !! i = Some (c', r) /\ c' <> c.
Proof. unfold without. rewrite map_lookup_filter_Some. simpl. done. Qed.

Lemma without_lookup_None c u i : u !! i = None -> without c u !! i = None.
Proof. intros Hu. unfold without. apply map_lookup_filter_None. by left. Qed.

Lemma rows_of_lookup c u i r : rows_of c u !! i = Some r <-> u !! i = Some (c, r).
Proof.
  unfold rows_of. rewrite lookup_fmap_Some. split.
  - intros ([c' r'] & <- & [Hu Heq]%map_lookup_filter_Some). simpl in *. by subst.
  - intros Hu. exists (c, r). split; [done|]. by apply map_lookup_filter_Some.
Qed.

Lemma heap_None db i : heap db !! i = None <-> jobs db !! i = None /\ uncommitted db !! i = None.
Proof. unfold heap. by rewrite lookup_union_None, lookup_fmap, fmap_None. Qed.

(** The new rows of an INSERT: the keys are new, in the order of the VALUES list. *)
Record inserted (now : Z) (ns : list NewRow) (db : Db) (new : gmap Z Row) (next : Z) : Prop := mkInserted {
  in_next : next = next_id db + Z.of_nat (length ns);
  in_range : forall i r, new !! i = Some r ->
    next_id db <= i < next /\ heap db !! i = None /\ fresh_row r /\ created_at r = now;
  in_rows : forall k n, ns !! k = Some n -> heap db !! (next_id db + Z.of_nat k) = None ->
    new !! (next_id db + Z.of_nat k) = Some (row_of_new now n);
}.

Lemma bound_insert_inv now ns db new next :
  bound_insert now ns db = (Ok new, next) -> inserted now ns db new next.
Proof.
  unfold bound_insert. destruct (bind_news ns) as [ns'|] eqn:Hb; [|done].
  apply bind_news_inv in Hb as ->. unfold pg_insert.
  destruct (insert_rows _ _ _ _) as [[t|e] nx] eqn:Hi; [|done]. intros [= <- <-].
  apply insert_rows_spec in Hi as (-> & _ & Hnew & Hold & Hch). split; [done| |].
  - intros i r [Hr Hh]%lookup_difference_Some. 
    destruct (decide (i < next_id db \/ next_id db + Z.of_nat (length ns) <= i)) as [Ho|Ho].
    { rewrite Hold in Hr by done. congruence. }
    destruct (lookup_lt_is_Some_2 ns (Z.to_nat (i - next_id db))) as [n Hk]; [lia|].
    pose proof (Hnew _ _ Hk) as Hri.
    replace (next_id db + Z.of_nat (Z.to_nat (i - next_id db))) with i in Hri by lia.
    rewrite Hr in Hri. simplify_eq. do 2 (split; [done || lia|]). split; [|done].
    do 3 (split; [done|]). split; [|done]. eapply Hch, list_elem_of_lookup_2, Hk.
  - intros k n Hk Hh. apply lookup_difference_Some. split; [by apply Hnew|done].
Qed.

Lemma bound_insert_next now ns db : next_id db <= (bound_insert now ns db).2.
Proof.
  unfold bound_insert. destruct (bind_news ns) as [ns'|]; simpl; [|lia]. unfold pg_insert.
  pose proof (insert_rows_next now ns' (heap db) (next_id db)). by destruct (insert_rows _ _ _ _).
Qed.

(** Every one of these statements is a step of the queue's contract. *)
Lemma end_tx_step c t db :
  jobs db ⊆ t ->
  (forall i r, t !! i = Some r -> jobs db !! i = None -> uncommitted db !! i = Some (c, r)) ->
  db_step db (end_tx c t db).
Proof.
  intros Hsub Hnew. apply ds_insert; simpl; [lia|done| |].
  - intros i r Hr Hn. specialize (Hnew i r Hr Hn). split; [|eauto].
    destruct (without c _ !! i) as [[c' r']|] eqn:Hw; [|done].
    apply without_lookup in Hw as [? ?]. congruence.
  - intros i c' r [Hu Hne]%without_lookup. left. split; [done|]. intros (tx & Htx & Hf).
    exists tx. split; [|done]. simpl. by rewrite lookup_delete_ne.
Qed.

Lemma fail_step c next db : next_id db <= next -> db_step db (fail_stmt c next db).
Proof.
  intros Hle. unfold fail_stmt. destruct (open_txs db !! c) as [tx|] eqn:Htx; apply ds_insert; simpl; try done.
  1,3: intros; congruence.
  - intros i c' r [Hu Hne]%without_lookup. left. split; [done|]. intros (tx' & Htx' & Hf').
    exists tx'. split; [|done]. simpl. by rewrite lookup_insert_ne.
  - intros i c' r Hu. by left.
Qed.

Lemma add_step c now ns db new next :
  conn_failed c db = false -> inserted now ns db new next -> db_step db (add_rows c new next db).
Proof.
  intros Hf [-> Hr _]. unfold add_rows, conn_failed in *. destruct (open_txs db !! c) as [tx|] eqn:Htx; apply ds_insert; simpl; try lia; try done.
  - congruence.
  - intros i c' r [Hu|[Hu Hn]]%lookup_union_Some_raw; [by left|]. right.
    apply lookup_fmap_Some in Hn as (r' & [= <- <-] & Hn). destruct (Hr i r' Hn) as (? & [? _]%heap_None & ? & _).
    split_and!; try done; [lia|lia|]. by exists tx.
  - apply map_union_subseteq_l.
  - intros i r [?|[_ Hn]]%lookup_union_Some_raw Hno; [congruence|].
    destruct (Hr i r Hn) as (? & [_ ?]%heap_None & ? & _). split; [done|]. left. split; [lia|done].
  - intros i c' r Hu. by left.
Qed.

Lemma insert_step c ns rt db : db_steps db (insert_stmt c ns rt db).2.
Proof.
  unfold insert_stmt. destruct (conn_failed c db) eqn:Hf; [done|].
  pose proof (bound_insert_next (now_in c rt db) ns db) as Hle.
  destruct (bound_insert _ ns db) as [[new|e] next] eqn:Hi; simpl in *; apply rtc_once; [|by apply fail_step].
  by eapply add_step, bound_insert_inv.
Qed.

Lemma session_step c op rt db : db_steps db (session_op c op rt db).
Proof.
  destruct op; simpl; [|apply insert_step| |].
  - destruct (open_txs db !! c) as [tx|] eqn:Htx; [done|]. apply rtc_once, ds_insert; simpl; [lia|done|congruence|].
    intros i c' r Hu. left. split; [done|]. intros (tx & Htx' & Hf). exists tx. split; [|done]. simpl.
    rewrite lookup_insert_ne; [done|congruence].
  - unfold commit_stmt. destruct (open_txs db !! c) as [tx|]; [|done].
    destruct (tx_failed tx); simpl; apply rtc_once, end_tx_step; try done; [congruence|apply map_union_subseteq_l|].
    intros i r [?|[_ ?%rows_of_lookup]]%lookup_union_Some_raw ?; [congruence|done].
  - apply rtc_once, end_tx_step; [done|congruence].
Qed.

(** What they do to one committed row: nothing; the rows they add are new jobs. *)
Lemma session_keeps c op rt db i r :
  jobs db !! i = Some r -> jobs (session_op c op rt db) !! i = Some r.
Proof.
  intros Hi. destruct op as [|ns| |]; simpl.
  - by destruct (open_txs db !! c).
  - unfold insert_stmt, add_rows, fail_stmt. destruct (conn_failed c db); [done|].
    destruct (bound_insert _ ns db) as [[new|e] next], (open_txs db !! c); simpl; try done.
    by apply lookup_union_Some_l.
  - unfold commit_stmt. destruct (open_txs db !! c) as [tx|]; [|done].
    destruct (tx_failed tx); simpl; [done|by apply lookup_union_Some_l].
  - done.
Qed.

Lemma session_row_cases c op rt db i r' :
  db_ok db -> jobs (session_op c op rt db) !! i = Some r' ->
  jobs db !! i = Some r' \/ (jobs db !! i = None /\ fresh_row r').
Proof.
  intros Hok. destruct (jobs db !! i) as [r|] eqn:Hr.
  { rewrite (session_keeps _ _ _ _ _ _ Hr). by left. }
  intros Hr'. right. split; [done|]. revert Hr'. destruct op as [|ns| |]; simpl.
  - destruct (open_txs db !! c); simpl; congruence.
  - unfold insert_stmt, add_rows, fail_stmt. destruct (conn_failed c db); [simpl; congruence|].
    destruct (bound_insert _ ns db) as [[new|e] next] eqn:Hi, (open_txs db !! c); simpl; try congruence.
    intros [?|[_ Hn]]%lookup_union_Some_raw; [congruence|]. apply bound_insert_inv in Hi as [_ Hrange _].
    by destruct (Hrange i r' Hn) as (_ & _ & ? & _).
  - unfold commit_stmt. destruct (open_txs db !! c) as [tx|]; simpl; [|congruence].
    destruct (tx_failed tx); simpl; [congruence|].
    intros [?|[_ ?%rows_of_lookup]]%lookup_union_Some_raw; [congruence|]. by eapply dk_uncommitted.
  - congruence.
Qed.

Lemma fresh_row_lease r : fresh_row r -> lease_token r = None.
Proof.
  intros (Hs & _ & _ & Hc & _). unfold check_row, jobs_status_invariants in Hc. rewrite Hs in Hc.
  destruct (lease_token r); [|done]. simpl in Hc. by rewrite !andb_false_r in Hc.
Qed.

Lemma heap_fresh db j : db_ok db -> next_id db <= j -> heap db !! j = None.
Proof.
  intros Hok Hj. apply heap_None. split.
  - destruct (jobs db !! j) as [r|] eqn:Hr; [|done]. destruct (Hok j r Hr). lia.
  - destruct (uncommitted db !! j) as [[c r]|] eqn:Hr; [|done]. destruct (dk_uncommitted _ Hok _ _ _ Hr). lia.
Qed.

(** When an INSERT succeeds, and what it adds then. *)
Lemma insert_stmt_ok c ns rt db :
  conn_failed c db = false -> Forall bindable ns ->
  (forall n, n ∈ ns -> check_row (row_of_new (now_in c rt db) n) = true) ->
  NoDup (nr_public_id <$> ns) -> (forall n, n ∈ ns -> nr_public_id n ∉ public_ids (heap db)) ->
  db_ok db ->
  exists new next, insert_stmt c ns rt db = (Ok (Z.of_nat (length ns)), add_rows c new next db) /\
    inserted (now_in c rt db) ns db new next.
Proof.
  intros Hf Hb Hc Hnd Hfr Hok. unfold insert_stmt. rewrite Hf.
  destruct (bound_insert (now_in c rt db) ns db) as [[new|e] next] eqn:Hi.
  { exists new, next. split; [done|by apply bound_insert_inv]. }
  revert Hi. unfold bound_insert, pg_insert. rewrite bind_news_ok by done.
  destruct (insert_rows_ok (now_in c rt db) ns (heap db) (next_id db) Hc Hnd Hfr) as [t Ht].
  { intros j Hj. by apply heap_fresh. }
  by rewrite Ht.
Qed.

Lemma insert_stmt_inv c ns rt db a db' :
  insert_stmt c ns rt db = (Ok a, db') ->
  a = Z.of_nat (length ns) /\ conn_failed c db = false /\
  exists new next, db' = add_rows c new next db /\ inserted (now_in c rt db) ns db new next.
Proof.
  unfold insert_stmt. destruct (conn_failed c db); [done|].
  destruct (bound_insert _ ns db) as [[new|e] next] eqn:Hi; [|done]. intros [= <- <-].
  apply bound_insert_inv in Hi. eauto 6.
Qed.

(** The rows of a VALUES list under consecutive keys. *)
Definition new_rows (now : Z) (ns : list NewRow) (first : Z) : gmap Z Row :=
  list_to_map (zip (seqZ first (Z.of_nat (length ns))) (row_of_new now <$> ns)).

Lemma new_rows_lookup now ns first i r :
  new_rows now ns first !! i = Some r <->
  exists k n, i = first + Z.of_nat k /\ ns !! k = Some n /\ r = row_of_new now n.
Proof.
  unfold new_rows. rewrite <- elem_of_list_to_map.
  2: { rewrite fst_zip; [apply NoDup_seqZ|]. rewrite length_seqZ, length_fmap. lia. }
  rewrite elem_of_lookup_zip_with. split.
  - intros (k & x & y & [= <- <-] & Hx & Hy). apply lookup_seqZ in Hx as [-> Hk].
    apply list_lookup_fmap_Some in Hy as (n & -> & Hn). eauto.
  - intros (k & n & -> & Hn & ->). exists k, (first + Z.of_nat k), (row_of_new now n). split_and!; [done| |].
    + apply lookup_seqZ. apply lookup_lt_Some in Hn. lia.
    + by rewrite list_lookup_fmap, Hn.
Qed.

Lemma inserted_eq now ns db new next :
  db_ok db -> inserted now ns db new next ->
  new = new_rows now ns (next_id db) /\ next = next_id db + Z.of_nat (length ns).
Proof.
  intros Hok [-> Hr Hrows]. split; [|done]. apply map_eq. intros i. apply option_eq. intros r.
  rewrite new_rows_lookup. split.
  - intros Hi. destruct (Hr i r Hi) as [Hrange _].
    destruct (lookup_lt_is_Some_2 ns (Z.to_nat (i - next_id db))) as [n Hk]; [lia|].
    assert (i = next_id db + Z.of_nat (Z.to_nat (i - next_id db))) as Heq by lia.
    exists (Z.to_nat (i - next_id db)), n. split_and!; [done|done|].
    rewrite Heq, (Hrows _ _ Hk) in Hi; [congruence|]. apply heap_fresh; [done|lia].
  - intros (k & n & -> & Hk & ->). apply Hrows; [done|]. apply heap_fresh; [done|lia].
Qed.

(** The rows a transaction holds, after one of its INSERTs and after a failure. *)
Lemma rows_of_add c tx now ns db new next :
  open_txs db !! c = Some tx -> inserted now ns db new next ->
  rows_of c (uncommitted (add_rows c new next db)) = rows_of c (uncommitted db) ∪ new.
Proof.
  intros Htx Hin. unfold add_rows. rewrite Htx. simpl. apply map_eq. intros i. apply option_eq. intros r.
  assert (Hd : forall r, new !! i = Some r -> uncommitted db !! i = None).
  { intros r' Hr'. destruct (in_range _ _ _ _ _ Hin i r' Hr') as (_ & Hh & _). by apply heap_None in Hh as [_ ?]. }
  rewrite rows_of_lookup, !lookup_union_Some_raw, rows_of_lookup, lookup_fmap_Some. split.
  - intros [Hu|[Hu (r' & [= <-] & Hr')]]; [by left|]. right. split; [|done].
    apply eq_None_not_Some. intros [r0 Hr0%rows_of_lookup]. congruence.
  - intros [Hu|[_ Hr']]; [by left|]. right. split; [by eapply Hd|by exists r].
Qed.

Lemma rows_of_without c u : rows_of c (without c u) = ∅.
Proof.
  apply map_empty. intros i. apply eq_None_not_Some. intros [r Hr].
  apply rows_of_lookup, without_lookup in Hr as [_ Hr]. done.
Qed.

Lemma rows_of_without_ne c c' u : c <> c' -> rows_of c (without c' u) = rows_of c u.
Proof.
  intros Hne. apply map_eq. intros i. apply option_eq. intros r.
  rewrite !rows_of_lookup, without_lookup. naive_solver.
Qed.

(** A session does nothing to the transaction of another one. *)
Lemma session_other c c' op rt db :
  c <> c' -> open_txs (session_op c' op rt db) !! c = open_txs db !! c /\
  rows_of c (uncommitted (session_op c' op rt db)) = rows_of c (uncommitted db).
Proof.
  intros Hne. destruct op as [|ns| |]; simpl.
  - destruct (open_txs db !! c'); simpl; [done|]. by rewrite lookup_insert_ne.
  - unfold insert_stmt, add_rows, fail_stmt. destruct (conn_failed c' db); [done|].
    destruct (bound_insert _ ns db) as [[new|e] next] eqn:Hi, (open_txs db !! c') as [tx|]; simpl; try done.
    + split; [done|]. apply map_eq. intros i. apply option_eq. intros r.
      rewrite !rows_of_lookup, lookup_union_Some_raw, lookup_fmap_Some. naive_solver.
    + by rewrite lookup_insert_ne, rows_of_without_ne.
  - unfold commit_stmt. destruct (open_txs db !! c') as [tx|]; simpl; [|done].
    destruct (tx_failed tx); simpl; by rewrite lookup_delete_ne, rows_of_without_ne.
  - by rewrite lookup_delete_ne, rows_of_without_ne.
Qed.

(** Where the row of a successful one-row INSERT is. *)
Lemma insert_one_where c n rt db a db' :
  db_ok db -> insert_stmt c [n] rt db = (Ok a, db') ->
  let row := row_of_new (now_in c rt db) n in
  jobs db' !! next_id db = Some row \/ uncommitted db' !! next_id db = Some (c, row).
Proof.
  intros Hok (_ & _ & new & next & -> & Hin)%insert_stmt_inv.
  destruct (inserted_eq _ _ _ _ _ Hok Hin) as [-> _]. intros row.
  assert (Hrow : new_rows (now_in c rt db) [n] (next_id db) !! next_id db = Some row).
  { apply new_rows_lookup. exists 0%nat, n. split_and!; [lia|done|done]. }
  destruct (proj1 (heap_None db (next_id db))) as [Hfr1 Hfr2]; [apply heap_fresh; [done|lia]|].
  unfold add_rows. destruct (open_txs _ !! c); [right|left]; simpl; rewrite lookup_union_r by done; [|done].
  by rewrite lookup_fmap, Hrow.
Qed.

#[export] Hint Resolve insert_step session_step : guarantee.
