(* ===== verification/Mark.v ===== *)
(** [src/mark.rs]: the fenced UPDATEs that end a claim. *)
From Stdlib Require Import Btauto.
From S2P Require Import Prelude Duration Errors Schema Lifecycle Transition Exec.

(** WHERE id = $1 AND status = 'running' AND lease_token = $2. *)
Definition mark_targets (id : Z) (tok : Uuid) (t : gmap Z Row) : list Z :=
  match t !! id with
  | None => []
  | Some r =>
      if decide (status r = Running /\ lease_token r = Some tok) then [id] else []
  end.

Definition set_dead (now : Z) (reason : list Z) (_ : Z) (r : Row) : result Row sqlx_error :=
  Ok (mkRow (public_id r) (queue r) (payload r) Dead (attempts r) (max_attempts r)
        None None (Some reason) (last_attempted_at r) (first_attempted_at r) (Some now)
        (run_at r) (created_at r) (updated_at r) (concurrency_key r)).

Definition set_done (now : Z) (_ : Z) (r : Row) : result Row sqlx_error :=
  Ok (mkRow (public_id r) (queue r) (payload r) Done (attempts r) (max_attempts r)
        None None None (last_attempted_at r) (first_attempted_at r) (Some now)
        (run_at r) (created_at r) (updated_at r) (concurrency_key r)).

Definition set_retry (now : Z) (reason : list Z) (micros : Z) (_ : Z) (r : Row)
  : result Row sqlx_error :=
  let? at_ := timestamptz_pl_interval now micros in
  Ok (mkRow (public_id r) (queue r) (payload r) AwaitingRetry (attempts r) (max_attempts r)
        None None (Some reason) (last_attempted_at r) (first_attempted_at r) (finished_at r)
        at_ (created_at r) (updated_at r) (concurrency_key r)).

Definition mark_dead_stmt (id : Z) (tok : Uuid) (reason : list Z) : Stmt Z := fun rt db =>
  match bind_text reason with
  | Err e => (Err e, db)
  | Ok reason =>
      run_update (rt_now rt) (set_dead (rt_now rt) reason) (mark_targets id tok (jobs db)) db
  end.

Definition mark_done_stmt (id : Z) (tok : Uuid) : Stmt Z := fun rt db =>
  run_update (rt_now rt) (set_done (rt_now rt)) (mark_targets id tok (jobs db)) db.

(** [i64::try_from(delay.as_micros()).unwrap_or(i64::MAX)]. *)
Definition retry_micros (delay : Duration) : Z := Z.min (as_micros delay) i64_max.

Definition mark_retry_stmt (id : Z) (tok : Uuid) (reason : list Z) (delay : Duration)
  : Stmt Z := fun rt db =>
  match bind_text reason with
  | Err e => (Err e, db)
  | Ok reason =>
      run_update (rt_now rt) (set_retry (rt_now rt) reason (retry_micros delay))
        (mark_targets id tok (jobs db)) db
  end.

Definition mark_dead (id : Z) (tok : Uuid) (reason : list Z) : M (result Z sqlx_error) :=
  sql (mark_dead_stmt id tok reason).
Definition mark_done (id : Z) (tok : Uuid) : M (result Z sqlx_error) :=
  sql (mark_done_stmt id tok).
Definition mark_retry (id : Z) (tok : Uuid) (reason : list Z) (delay : Duration)
  : M (result Z sqlx_error) :=
  sql (mark_retry_stmt id tok reason delay).

(** * Facts *)

(** The row [id] is running under the claim [tok]. *)
Definition holds_lease (t : gmap Z Row) (id : Z) (tok : Uuid) (r : Row) : Prop :=
  t !! id = Some r /\ status r = Running /\ lease_token r = Some tok.

Lemma mark_targets_held id tok t r : holds_lease t id tok r -> mark_targets id tok t = [id].
Proof. intros (Hr & Hs & Hl). unfold mark_targets. rewrite Hr. by rewrite decide_True. Qed.

Lemma mark_targets_fenced id tok t :
  (forall r, ~ holds_lease t id tok r) -> mark_targets id tok t = [].
Proof.
  intros Hno. unfold mark_targets. destruct (t !! id) as [r|] eqn:Hr; [|done].
  case_decide as Hd; [|done]. exfalso. apply (Hno r). by split.
Qed.

Lemma mark_targets_elem id tok t i :
  i ∈ mark_targets id tok t -> i = id /\ exists r, holds_lease t id tok r.
Proof.
  unfold mark_targets. destruct (t !! id) as [r|] eqn:Hr; [|by intros ?%elem_of_nil].
  case_decide as Hd; [|by intros ?%elem_of_nil]. intros ->%list_elem_of_singleton.
  split; [done|]. exists r. by split.
Qed.

Lemma mark_targets_NoDup id tok t : NoDup (mark_targets id tok t).
Proof.
  unfold mark_targets. destruct (t !! id); [case_decide|]; repeat constructor; set_solver.
Qed.

Lemma run_update_nil now f db : run_update now f [] db = (Ok 0, db).
Proof. unfold run_update. simpl. by destruct db. Qed.

Lemma run_update_one now f id db r r' :
  jobs db !! id = Some r -> update_row now f id r = Ok r' ->
  run_update now f [id] db = (Ok 1, set_jobs (<[id := r']> (jobs db)) db).
Proof. intros Hr Hu. unfold run_update. simpl. by rewrite Hr, Hu. Qed.

(** An UPDATE of running rows that sets one of the three outcomes is a step of the
    state machine. *)
Definition ends_claim (f : Z -> Row -> result Row sqlx_error) : Prop :=
  forall i r r1, f i r = Ok r1 -> lifecycle Running (status r1) /\ same_job r r1 /\
    attempts r1 = attempts r /\ max_attempts r1 = max_attempts r /\
    first_attempted_at r1 = first_attempted_at r.

Lemma set_dead_ends now reason : ends_claim (set_dead now reason).
Proof. intros i r r1 [= <-]. by repeat constructor. Qed.
Lemma set_done_ends now : ends_claim (set_done now).
Proof. intros i r r1 [= <-]. by repeat constructor. Qed.
Lemma set_retry_ends now reason us : ends_claim (set_retry now reason us).
Proof.
  intros i r r1. unfold set_retry. destruct (timestamptz_pl_interval _ _); [|done].
  intros [= <-]. by repeat constructor.
Qed.

Lemma ends_claim_row_step now f i r r' :
  ends_claim f -> status r = Running -> update_row now f i r = Ok r' -> row_step r r'.
Proof.
  intros Hf Hs (r1 & Hr1 & Hk & -> & Hc)%update_row_inv.
  destruct (Hf _ _ _ Hr1) as (Hl & (? & ? & ? & ? & ?) & Ha & Hm & Hfi).
  assert (status r1 <> Running) by (intros E; rewrite E in Hl; inversion Hl).
  split; simpl; try done.
  - by rewrite Hs.
  - by rewrite decide_False.
  - intros t. by rewrite Hfi.
  - by rewrite Ha, Hm.
Qed.

Lemma run_update_mark_step now f id tok db :
  ends_claim f -> db_steps db (run_update now f (mark_targets id tok (jobs db)) db).2.
Proof.
  intros Hf. unfold run_update. destruct (pg_update _ _ _ _) as [t'|] eqn:Hu; [|done].
  apply rtc_once, ds_rows. eapply rows_step_impl;
    [|apply pg_update_rows_step; [apply mark_targets_NoDup|done]].
  intros i r r' (Hi & Ht & Hr). apply mark_targets_elem in Hi as [-> (r0 & H0 & Hs & _)].
  simplify_eq. by eapply ends_claim_row_step.
Qed.

Lemma mark_dead_step id tok reason rt db : db_steps db (mark_dead_stmt id tok reason rt db).2.
Proof.
  unfold mark_dead_stmt. destruct (bind_text reason); [|done].
  apply run_update_mark_step, set_dead_ends.
Qed.
Lemma mark_done_step id tok rt db : db_steps db (mark_done_stmt id tok rt db).2.
Proof. apply run_update_mark_step, set_done_ends. Qed.
Lemma mark_retry_step id tok reason delay rt db :
  db_steps db (mark_retry_stmt id tok reason delay rt db).2.
Proof.
  unfold mark_retry_stmt. destruct (bind_text reason); [|done].
  apply run_update_mark_step, set_retry_ends.
Qed.
#[export] Hint Resolve mark_dead_step mark_done_step mark_retry_step : guarantee.

(** When the UPDATE of a well-formed running row passes the CHECKs. *)
Lemma check_row_running r :
  check_row r = true -> status r = Running ->
  0 < attempts r /\ exists l fa tok ex, last_attempted_at r = Some l /\
    first_attempted_at r = Some fa /\ lease_token r = Some tok /\
    lease_expires_at r = Some ex /\ finished_at r = None /\
    created_at r <= fa /\ fa <= l /\ created_at r <= run_at r.
Proof.
  unfold check_row, jobs_status_invariants, jobs_temporal. intros Hc Hs. rewrite Hs in Hc.
  destruct (last_attempted_at r), (first_attempted_at r), (finished_at r), (lease_token r),
    (lease_expires_at r); simpl in Hc; rewrite ?andb_false_r in Hc; try done.
  rewrite ?andb_true_r in Hc. rewrite !andb_true_iff, !bool_decide_eq_true in Hc.
  split; [lia|]. eexists _, _, _, _. split_and!; try done; lia.
Qed.

(** The CHECKs that constrain neither status nor time. *)
Definition static_checks (r : Row) : bool :=
  jobs_queue_nonempty r && jobs_queue_max_len r && jobs_payload_max_size r
  && jobs_attempts_nonneg r && jobs_max_attempts_nonneg r && jobs_concurrency_key_len r.

Lemma check_row_split r :
  check_row r = static_checks r && jobs_last_error_max_len r && jobs_temporal r
                && jobs_status_invariants r.
Proof. unfold check_row, static_checks. btauto. Qed.

(** The row [mark_*] writes, for a given outcome. *)
Definition marked (now : Z) (s : job_status) (err : option (list Z)) (fin : option Z) (ra : Z)
    (r : Row) : Row :=
  mkRow (public_id r) (queue r) (payload r) s (attempts r) (max_attempts r) None None err
    (last_attempted_at r) (first_attempted_at r) fin ra (created_at r) now (concurrency_key r).

Lemma marked_check now s err fin ra r :
  check_row r = true -> status r = Running ->
  (forall l, last_attempted_at r = Some l -> l <= now) ->
  match err with None => True | Some e => chars_count e <= 8192 end ->
  created_at r <= ra ->
  (s = AwaitingRetry /\ fin = None \/ (s = Done \/ s = Dead) /\ fin = Some now) ->
  check_row (marked now s err fin ra r) = true.
Proof.
  intros Hc Hs Hnow Herr Hra Hout.
  destruct (check_row_running r Hc Hs) as (Ha & l & fa & tok & ex & Hl & Hfa & _ & _ & _ & H1 & H2 & H3).
  specialize (Hnow l Hl).
  rewrite check_row_split in *. apply andb_true_iff in Hc as [[[Hst _]%andb_true_iff _]%andb_true_iff _].
  change (static_checks (marked now s err fin ra r)) with (static_checks r). rewrite Hst. simpl.
  unfold jobs_last_error_max_len, jobs_temporal, jobs_status_invariants. simpl. rewrite Hl, Hfa.
  destruct err; simpl; rewrite ?(bool_decide_true (_ <= 8192)) by done;
    destruct Hout as [[-> ->]|[[-> | ->] ->]]; simpl;
    rewrite ?bool_decide_true by lia; done.
Qed.

Lemma run_mark_held now f id tok db r r' :
  holds_lease (jobs db) id tok r -> f id r = Ok r' ->
  concurrency_key r = concurrency_key r' -> check_row (set_updated_at now r') = true ->
  run_update now f (mark_targets id tok (jobs db)) db
  = (Ok 1, set_jobs (<[id := set_updated_at now r']> (jobs db)) db).
Proof.
  intros Hh Hf Hk Hc. rewrite (mark_targets_held _ _ _ _ Hh).
  apply run_update_one with r; [apply Hh|].
  unfold update_row, assert_concurrency_key_immutable.
  rewrite Hf, decide_True by done. by rewrite Hc.
Qed.

(** The clock of the server has not gone back behind the claim of the row. *)
Definition clock_after_claim (now : Z) (r : Row) : Prop :=
  forall l, last_attempted_at r = Some l -> l <= now.

Lemma mark_done_held id tok rt db r :
  holds_lease (jobs db) id tok r -> row_ok r -> clock_after_claim (rt_now rt) r ->
  mark_done_stmt id tok rt db =
  (Ok 1, set_jobs (<[id := marked (rt_now rt) Done None (Some (rt_now rt)) (run_at r) r]> (jobs db)) db).
Proof.
  intros Hh [Hc _] Hclk. destruct Hh as (Hr & Hs & Hl).
  destruct (check_row_running r Hc Hs) as (_ & ? & ? & ? & ? & ?).
  apply (run_mark_held _ _ _ _ _ r
           (mkRow (public_id r) (queue r) (payload r) Done (attempts r) (max_attempts r)
              None None None (last_attempted_at r) (first_attempted_at r) (Some (rt_now rt))
              (run_at r) (created_at r) (updated_at r) (concurrency_key r))); try done.
  apply (marked_check (rt_now rt) Done None (Some (rt_now rt)) (run_at r) r); try done; naive_solver.
Qed.

Lemma mark_dead_held id tok reason rt db r :
  holds_lease (jobs db) id tok r -> row_ok r -> clock_after_claim (rt_now rt) r ->
  0 ∉ reason -> chars_count reason <= MAX_LAST_ERROR_LEN ->
  mark_dead_stmt id tok reason rt db =
  (Ok 1, set_jobs (<[id := marked (rt_now rt) Dead (Some reason) (Some (rt_now rt)) (run_at r) r]> (jobs db)) db).
Proof.
  intros Hh [Hc _] Hclk Hnul Hlen. destruct Hh as (Hr & Hs & Hl).
  destruct (check_row_running r Hc Hs) as (_ & ? & ? & ? & ? & ?).
  unfold mark_dead_stmt, bind_text. rewrite decide_False by done.
  apply (run_mark_held _ _ _ _ _ r
           (mkRow (public_id r) (queue r) (payload r) Dead (attempts r) (max_attempts r)
              None None (Some reason) (last_attempted_at r) (first_attempted_at r) (Some (rt_now rt))
              (run_at r) (created_at r) (updated_at r) (concurrency_key r))); try done.
  apply (marked_check (rt_now rt) Dead (Some reason) (Some (rt_now rt)) (run_at r) r); try done;
    naive_solver.
Qed.

Lemma mark_retry_held id tok reason delay rt db r :
  holds_lease (jobs db) id tok r -> row_ok r -> clock_after_claim (rt_now rt) r ->
  0 ∉ reason -> chars_count reason <= MAX_LAST_ERROR_LEN ->
  0 <= delay -> 0 <= rt_now rt -> rt_now rt + as_micros delay < end_timestamp ->
  mark_retry_stmt id tok reason delay rt db =
  (Ok 1, set_jobs (<[id := marked (rt_now rt) AwaitingRetry (Some reason) None
                         (rt_now rt + as_micros delay) r]> (jobs db)) db).
Proof.
  intros Hh [Hc _] Hclk Hnul Hlen Hd Hmin Hend. destruct Hh as (Hr & Hs & Hl).
  destruct (check_row_running r Hc Hs)
    as (_ & l & fa & ? & ? & Hla & Hfa & _ & _ & Hfin & ? & ? & ?).
  unfold mark_retry_stmt, bind_text. rewrite decide_False by done.
  assert (0 <= as_micros delay) by (apply Z.div_pos; lia).
  assert (retry_micros delay = as_micros delay) as ->.
  { unfold retry_micros. apply Z.min_l. unfold min_timestamp, end_timestamp, i64_max in *. lia. }
  apply (run_mark_held _ _ _ _ _ r
           (mkRow (public_id r) (queue r) (payload r) AwaitingRetry (attempts r) (max_attempts r)
              None None (Some reason) (last_attempted_at r) (first_attempted_at r) None
              (rt_now rt + as_micros delay) (created_at r) (updated_at r) (concurrency_key r)));
    try done.
  { unfold set_retry, timestamptz_pl_interval. rewrite decide_True; [by rewrite Hfin|].
    unfold min_timestamp. lia. }
  pose proof (Hclk _ Hla).
  apply (marked_check (rt_now rt) AwaitingRetry (Some reason) None
           (rt_now rt + as_micros delay) r); try done; [lia|by left].
Qed.

Lemma mark_fenced id tok reason delay rt db :
  (forall r, ~ holds_lease (jobs db) id tok r) ->
  (mark_done_stmt id tok rt db).2 = db /\
  (mark_dead_stmt id tok reason rt db).2 = db /\
  (mark_retry_stmt id tok reason delay rt db).2 = db /\
  (mark_done_stmt id tok rt db).1 = Ok 0.
Proof.
  intros Hno. unfold mark_done_stmt, mark_dead_stmt, mark_retry_stmt.
  rewrite (mark_targets_fenced _ _ _ Hno), !run_update_nil.
  destruct (bind_text reason); by rewrite ?run_update_nil.
Qed.
