(* ===== verification/Job.v ===== *)
(** [src/job.rs], [src/codec.rs], [src/util.rs] and the panic-message helpers: what a
    claimed job carries, and how error texts are prepared for [last_error]. *)
From S2P Require Import Prelude Errors Schema.

Record Job (T : Type) : Type := mkJob {
  job_id : Z;
  job_public_id : Uuid;
  job_queue : list Z;
  job_concurrency_key : option (list Z);
  job_payload : T;
  job_attempts : Z;
  job_max_attempts : Z;
  job_first_attempted_at : Z;
  job_lease_token : Uuid;
  job_lease_expires_at : Z;
}.
Arguments mkJob {T} _ _ _ _ _ _ _ _ _ _.
Arguments job_id {T} _.
Arguments job_public_id {T} _.
Arguments job_queue {T} _.
Arguments job_concurrency_key {T} _.
Arguments job_payload {T} _.
Arguments job_attempts {T} _.
Arguments job_max_attempts {T} _.
Arguments job_first_attempted_at {T} _.
Arguments job_lease_token {T} _.
Arguments job_lease_expires_at {T} _.

Record JobContext : Type := mkJobContext {
  ctx_id : Z;
  ctx_public_id : Uuid;
  ctx_idempotency_key : Uuid;
  ctx_queue : list Z;
  ctx_attempt : Z;
  ctx_max_attempts : Z;
  ctx_first_attempted_at : Z;
  ctx_lease_token : Uuid;
}.

(** [Job::context]. *)
Definition context {T} (j : Job T) : JobContext :=
  mkJobContext (job_id j) (job_public_id j) (job_public_id j) (job_queue j) (job_attempts j)
    (job_max_attempts j) (job_first_attempted_at j) (job_lease_token j).

(** * Panics *)

(** The payload of a caught panic, by what [downcast] finds in it. *)
Inductive PanicPayload : Type :=
| PanicStr (s : list Z)
| PanicString (s : list Z)
| PanicOther.

(** [extract_panic_message] of [src/claim.rs]. *)
Definition extract_panic_message (p : PanicPayload) : list Z :=
  match p with
  | PanicStr s => s
  | PanicString s => s
  | PanicOther => lit "<unknown panic payload>"
  end.

(** A task that did not return: it panicked or was cancelled. *)
Inductive JoinError : Type :=
| JoinPanic (p : PanicPayload)
| JoinCancelled.

(** [extract_panic_message] of [src/reaper.rs]. *)
Definition join_panic_message (je : JoinError) : list Z :=
  match je with
  | JoinCancelled => lit "<task cancelled before panic>"
  | JoinPanic p => extract_panic_message p
  end.

(** * The codec: user code *)

Inductive DecodeResult (T : Type) : Type :=
| DecodeOk (v : T)
| DecodeErr (display : list Z)
| DecodePanic (p : PanicPayload).
Arguments DecodeOk {T} _.
Arguments DecodeErr {T} _.
Arguments DecodePanic {T} _.

Class Codec (T : Type) : Type := {
  encode : T -> result (list Z) (list Z);
  decode : list Z -> DecodeResult T;
}.

(** [serde_json] on the payload type: [to_vec] and [from_slice]; the user's [Deserialize] may panic. *)
Class SerdeJson (T : Type) : Type := {
  to_vec : T -> result (list Z) (list Z);
  from_slice : list Z -> DecodeResult T;
}.

(** [impl Codec for JsonCodec]. *)
Definition JsonCodec {T} `{!SerdeJson T} : Codec T := {|
  encode := fun value => to_vec value;
  decode := fun bytes => from_slice bytes;
|}.

(** * [fmt_err_trimmed]

    [chars().nth(N).is_none()] keeps the text, otherwise [chars().take(N)]. *)
Definition fmt_err_trimmed (s : list Z) : list Z :=
  match s !! Z.to_nat MAX_LAST_ERROR_LEN with
  | None => s
  | Some _ => take (Z.to_nat MAX_LAST_ERROR_LEN) s
  end.

Lemma fmt_err_trimmed_take s : fmt_err_trimmed s = take (Z.to_nat MAX_LAST_ERROR_LEN) s.
Proof.
  unfold fmt_err_trimmed. destruct (s !! _) eqn:E; [done|].
  apply lookup_ge_None in E. by rewrite take_ge.
Qed.

Lemma fmt_err_trimmed_length s : chars_count (fmt_err_trimmed s) <= MAX_LAST_ERROR_LEN.
Proof. rewrite fmt_err_trimmed_take. unfold chars_count. rewrite length_take. unfold MAX_LAST_ERROR_LEN. lia. Qed.

Lemma fmt_err_trimmed_elem s c : c ∈ fmt_err_trimmed s -> c ∈ s.
Proof. rewrite fmt_err_trimmed_take. intros H. eapply elem_of_sublist; [done|apply sublist_take]. Qed.

(** [fmt_err_trimmed] returns a prefix of the text that fits the column's limit of 8192
    characters, and the text itself when it fits. *)
Theorem fmt_err_trimmed_spec s :
  fmt_err_trimmed s `prefix_of` s /\ chars_count (fmt_err_trimmed s) <= MAX_LAST_ERROR_LEN /\
  (chars_count s <= MAX_LAST_ERROR_LEN <-> fmt_err_trimmed s = s).
Proof.
  rewrite fmt_err_trimmed_take. split_and!.
  - exists (drop (Z.to_nat MAX_LAST_ERROR_LEN) s). by rewrite take_drop.
  - rewrite <- fmt_err_trimmed_take. apply fmt_err_trimmed_length.
  - unfold chars_count, MAX_LAST_ERROR_LEN. split; intros Hs; [apply take_ge; lia|].
    rewrite <- Hs, length_take. lia.
Qed.

