(* ===== verification/Claim.v ===== *)
(** [src/claim.rs]: the two claim statements, the decoding of the claimed rows. *)
From S2P Require Import Prelude Duration Errors Schema Lifecycle Transition Exec Select Mark Job.

Record RawClaimedRow : Type := mkRaw {
  raw_id : Z;
  raw_public_id : Uuid;
  raw_queue : list Z;
  raw_concurrency_key : option (list Z);
  raw_payload : list Z;
  raw_attempts : Z;
  raw_max_attempts : Z;
  raw_first_attempted_at : Z;
  raw_lease_token : Uuid;
  raw_lease_expires_at : Z;
}.

(** status IN ('queued', 'awaiting_retry') AND run_at <= now(). *)
Definition claimable (now : Z) (p : Z * Row) : Prop :=
  (status p.2 = Queued \/ status p.2 = AwaitingRetry) /\ run_at p.2 <= now.
#[global] Instance claimable_dec now p : Decision (claimable now p) := _.

(** queue = $1 AND claimable. *)
Definition runnable (q : list Z) (now : Z) (p : Z * Row) : Prop :=
  queue p.2 = q /\ claimable now p.
#[global] Instance runnable_dec q now p : Decision (runnable q now p) := _.

(** ORDER BY run_at, id. *)
Definition by_run_at (p q : Z * Row) : Prop :=
  run_at p.2 < run_at q.2 \/ (run_at p.2 = run_at q.2 /\ p.1 <= q.1).
#[global] Instance by_run_at_dec : RelDecision by_run_at.
Proof. intros p q. unfold by_run_at. apply _. Defined.

(** No lock is requested. *)
Definition any_row (p : Z * Row) : Prop := True.
#[global] Instance any_row_dec p : Decision (any_row p) := left I.

Definition has_key (k : list Z) (p : Z * Row) : Prop := concurrency_key p.2 = Some k.
#[global] Instance has_key_dec k p : Decision (has_key k p).
Proof. unfold has_key. apply _. Defined.

(** LEFT JOIN hr ON hr.concurrency_key = j.concurrency_key ... hr.concurrency_key IS NULL. *)
Definition key_unlimited (hr : gmap (list Z) Z) (p : Z * Row) : Prop :=
  match concurrency_key p.2 with None => True | Some k => hr !! k = None end.
#[global] Instance key_unlimited_dec hr p : Decision (key_unlimited hr p).
Proof. unfold key_unlimited. case_match; apply _. Defined.

Section claim_sql.
Context `{!PgEngine}.

(** [SQL_PLAIN], CTE [claimed]. *)
Definition claimed_plain (q : list Z) (limit : Z) (rt : RoundTrip) (t : gmap Z Row) : list Z :=
  select_for_update by_run_at (runnable q (rt_now rt)) limit rt t.

(** [SQL_KEYED], CTE [eligible_keyed]: for each headroom entry, the first
    [LEAST(GREATEST(h, 0), $2)] runnable rows of that key, locked or not. *)
Definition eligible_keyed (q : list Z) (now limit : Z) (hr : gmap (list Z) Z) (t : gmap Z Row)
  : list Z :=
  concat ((fun kh : list Z * Z =>
    (order_limit by_run_at any_row (Z.min (Z.max kh.2 0) limit)
       (filter (has_key kh.1) (filter (runnable q now) (pg_scan t)))).*1) <$> map_to_list hr).

(** [SQL_KEYED], CTE [eligible_unlimited]. *)
Definition eligible_unlimited (q : list Z) (now limit : Z) (hr : gmap (list Z) Z)
    (t : gmap Z Row) : list Z :=
  (order_limit by_run_at any_row limit
     (filter (key_unlimited hr) (filter (runnable q now) (pg_scan t)))).*1.

(** [SQL_KEYED], CTE [locked]. *)
Definition claimed_keyed (q : list Z) (limit : Z) (hr : gmap (list Z) Z) (rt : RoundTrip)
    (t : gmap Z Row) : list Z :=
  let now := rt_now rt in
  let snap := rt_snap rt t in
  let eligible := eligible_keyed q now limit hr snap ++ eligible_unlimited q now limit hr snap in
  select_for_update by_run_at (fun p => p.1 ∈ eligible /\ claimable now p) limit rt t.

(** The SET clause both statements share. *)
Definition set_running (now lease_us max : Z) (uuid : Z -> Uuid) (i : Z) (r : Row)
  : result Row sqlx_error :=
  let? a := int4_add (attempts r) 1 in
  let? deadline := timestamptz_pl_interval now lease_us in
  Ok (mkRow (public_id r) (queue r) (payload r) Running a max (Some (uuid i)) (Some deadline)
        None (Some now) (Some (default now (first_attempted_at r))) (finished_at r)
        (run_at r) (created_at r) (updated_at r) (concurrency_key r)).

(** [jsonb_each_text($5::jsonb)] with [value::int]: a NUL in a key is not JSON text
    Postgres accepts, and a headroom above [i32::MAX] is out of range. *)
Definition bind_headroom (hr : gmap (list Z) Z) : result (gmap (list Z) Z) sqlx_error :=
  if decide (Exists (fun kh => 0 ∈ kh.1) (map_to_list hr)) then
    Err (Database (Some "22P05"%string))
  else if decide (Exists (fun kh => i32_max < kh.2) (map_to_list hr)) then
    Err numeric_value_out_of_range
  else Ok hr.

(** The rows a claim takes: [SQL_PLAIN] on an empty headroom, [SQL_KEYED] otherwise. *)
Definition claim_targets (q : list Z) (limit : Z) (hr : gmap (list Z) Z) (rt : RoundTrip)
    (t : gmap Z Row) : list Z :=
  if decide (hr = ∅) then claimed_plain q limit rt t else claimed_keyed q limit hr rt t.

(** A row with its key, as RETURNING yields it. *)
Definition row_at (t : gmap Z Row) (i : Z) : option (Z * Row) :=
  match t !! i with Some r => Some (i, r) | None => None end.

Definition run_claim (q : list Z) (limit lease_us max : Z) (hr : gmap (list Z) Z)
    (rt : RoundTrip) (db : Db) : result (list (Z * Row)) sqlx_error * Db :=
  let ids := claim_targets q limit hr rt (jobs db) in
  match pg_update (rt_now rt) (set_running (rt_now rt) lease_us max (rt_uuid rt)) ids (jobs db) with
  | Err e => (Err e, db)
  | Ok t =>
      (Ok (pg_returning (omap (row_at t) ids)), set_jobs t db)
  end.

Context `{!SqlxInterval}.

(** The statement with its parameters bound. *)
Definition claim_stmt (q : list Z) (batch_size : Z) (lease : Duration) (max : Z)
    (headroom : gmap (list Z) Z) : Stmt (list (Z * Row)) := fun rt db =>
  match (let? q := bind_text q in
         let? lease_us := interval_of_duration lease in
         let? hr := bind_headroom headroom in
         Ok (q, lease_us, hr)) with
  | Err e => (Err e, db)
  | Ok (q, lease_us, hr) => run_claim q (clamp_i32 batch_size) lease_us (clamp_i32 max) hr rt db
  end.

(** [r.try_get(...)] on a nullable column, into a type that has no NULL. *)
Definition try_get {A B} (dec : A -> result B sqlx_error) (col : option A) : result B sqlx_error :=
  match col with None => Err ColumnDecode | Some a => dec a end.

(** The columns of a returned row, in the order of the fields. *)
Definition raw_of_row (p : Z * Row) : result RawClaimedRow sqlx_error :=
  let? fa := try_get timestamptz_decode (first_attempted_at p.2) in
  let? tok := try_get Ok (lease_token p.2) in
  let? ex := try_get timestamptz_decode (lease_expires_at p.2) in
  Ok (mkRaw p.1 (public_id p.2) (queue p.2) (concurrency_key p.2) (payload p.2)
        (u32_of_i32 (attempts p.2)) (u32_of_i32 (max_attempts p.2)) fa tok ex).

Fixpoint raws_of_rows (rows : list (Z * Row)) : result (list RawClaimedRow) sqlx_error :=
  match rows with
  | [] => Ok []
  | p :: rows =>
      let? raw := raw_of_row p in
      let? raws := raws_of_rows rows in
      Ok (raw :: raws)
  end.

Definition claim_batch_raw (q : list Z) (batch_size : Z) (lease : Duration) (max : Z)
    (headroom : gmap (list Z) Z) : M (result (list RawClaimedRow) sqlx_error) :=
  let! rows := sql (claim_stmt q batch_size lease max headroom) in
  mreturn (let? rows := rows in raws_of_rows rows).

Context {T : Type} `{!Codec T}.

Definition job_of_raw (raw : RawClaimedRow) (v : T) : Job T :=
  mkJob (raw_id raw) (raw_public_id raw) (raw_queue raw) (raw_concurrency_key raw) v
    (raw_attempts raw) (raw_max_attempts raw) (raw_first_attempted_at raw)
    (raw_lease_token raw) (raw_lease_expires_at raw).

(** One row of the loop of [claim_and_decode]: a row that does not decode is marked dead, and
    the outcome of that mark is only logged. *)
Definition decode_row (raw : RawClaimedRow) : M (option (Job T)) :=
  match decode (raw_payload raw) with
  | DecodeOk v => mreturn (Some (job_of_raw raw v))
  | DecodeErr e =>
      let reason := fmt_err_trimmed (lit "codec decode: " ++ e) in
      mark_dead (raw_id raw) (raw_lease_token raw) reason ;! mreturn None
  | DecodePanic p =>
      let msg := extract_panic_message p in
      let reason := fmt_err_trimmed (lit "codec panic: " ++ msg) in
      mark_dead (raw_id raw) (raw_lease_token raw) reason ;! mreturn None
  end.

(** The loop; [out] holds the jobs pushed so far. *)
Fixpoint decode_rows (raws : list RawClaimedRow) (out : list (Job T)) : M (list (Job T)) :=
  match raws with
  | [] => mreturn out
  | raw :: raws =>
      let! job := decode_row raw in
      decode_rows raws (out ++ option_list job)
  end.

Definition claim_and_decode (q : list Z) (batch_size : Z) (lease : Duration) (max : Z)
    (headroom : gmap (list Z) Z) : M (result (list (Job T)) sqlx_error) :=
  let! raws := claim_batch_raw q batch_size lease max headroom in
  match raws with
  | Err e => mreturn (Err e)
  | Ok raws =>
      let! out := decode_rows raws [] in
      mreturn (Ok out)
  end.
End claim_sql.

(** The timestamps of the row fit into the Rust type. *)
Definition readable `{!SqlxInterval} (r : Row) : Prop :=
  forall t, first_attempted_at r = Some t \/ lease_expires_at r = Some t -> timestamptz_decode t = Ok t.

(** * Facts *)

Lemma try_get_inv {A B} (dec : A -> result B sqlx_error) col b :
  try_get dec col = Ok b -> exists a, col = Some a /\ dec a = Ok b.
Proof. destruct col; [|done]. simpl. eauto. Qed.

(** What the conversion of a row keeps of it. *)
Lemma raw_of_row_inv `{!SqlxInterval} p raw :
  raw_of_row p = Ok raw ->
  exists fa tok ex fa' ex', first_attempted_at p.2 = Some fa /\ lease_token p.2 = Some tok /\
    lease_expires_at p.2 = Some ex /\ timestamptz_decode fa = Ok fa' /\ timestamptz_decode ex = Ok ex' /\
    raw = mkRaw p.1 (public_id p.2) (queue p.2) (concurrency_key p.2) (payload p.2)
            (u32_of_i32 (attempts p.2)) (u32_of_i32 (max_attempts p.2)) fa' tok ex'.
Proof.
  unfold raw_of_row. destruct (try_get _ (first_attempted_at _)) as [fa'|] eqn:Hfa; [|done].
  destruct (try_get Ok _) as [tok'|] eqn:Htok; [|done].
  destruct (try_get _ (lease_expires_at _)) as [ex'|] eqn:Hex; [|done]. intros [= <-].
  apply try_get_inv in Hfa as (fa & ? & ?), Htok as (tok & ? & [= ->]), Hex as (ex & ? & ?). eauto 12.
Qed.

#[export] Instance by_run_at_trans : Transitive by_run_at.
Proof. intros p q r. unfold by_run_at. lia. Qed.
#[export] Instance by_run_at_total : Total by_run_at.
Proof. intros p q. unfold by_run_at. lia. Qed.

Section selection.
Context `{!PgEngine}.
Implicit Types (q k : list Z) (now limit : Z) (t : gmap Z Row) (hr : gmap (list Z) Z).

Lemma eligible_keyed_elem q now limit hr t i :
  i ∈ eligible_keyed q now limit hr t ->
  exists k h r, hr !! k = Some h /\ t !! i = Some r /\ runnable q now (i, r) /\
    concurrency_key r = Some k /\
    i ∈ (order_limit by_run_at any_row (Z.min (Z.max h 0) limit)
           (filter (has_key k) (filter (runnable q now) (pg_scan t)))).*1.
Proof.
  unfold eligible_keyed. rewrite list_elem_of_In, in_concat.
  intros (l & Hl & Hi). rewrite <- list_elem_of_In in Hl. rewrite <- list_elem_of_In in Hi.
  apply list_elem_of_fmap in Hl as ([k h] & -> & Hkh%elem_of_map_to_list). simpl in Hi.
  exists k, h. pose proof Hi as ([i' r] & ? & Hin)%list_elem_of_fmap. simplify_eq/=.
  apply order_limit_elem in Hin as [[Hk [Hr Hs]%list_elem_of_filter]%list_elem_of_filter _].
  apply pg_scan_elem in Hs. by exists r.
Qed.

Lemma eligible_unlimited_elem q now limit hr t i :
  i ∈ eligible_unlimited q now limit hr t ->
  exists r, t !! i = Some r /\ runnable q now (i, r) /\ key_unlimited hr (i, r).
Proof.
  unfold eligible_unlimited. intros ([i' r] & -> & Hin)%list_elem_of_fmap.
  apply order_limit_elem in Hin as [[Hk [Hr Hs]%list_elem_of_filter]%list_elem_of_filter _].
  apply pg_scan_elem in Hs. eauto.
Qed.

(** Of the queue, unless rows changed their queue since the snapshot, and claimable. *)
Definition taken (q : list Z) (rt : RoundTrip) (t : gmap Z Row) (p : Z * Row) : Prop :=
  (snap_ok (rt_snap rt t) t -> queue p.2 = q) /\ claimable (rt_now rt) p.

(** Every row a claim takes is a claimable, unlocked row of the table as it is when the row is
    locked, and a row of the queue: the plain statement tests that again; the queue of a row
    that the keyed statement found in its snapshot cannot have changed since. *)
Lemma claim_targets_elem q limit hr rt t i :
  i ∈ claim_targets q limit hr rt t ->
  exists r, t !! i = Some r /\ taken q rt t (i, r) /\ i ∉ rt_locked rt.
Proof.
  unfold claim_targets. case_decide.
  - intros (r & Hr & [Hq Hc] & Hl)%select_elem. exists r. done.
  - intros (r & Hr & [Hel Hc] & Hl)%select_elem. exists r. split; [done|]. split; [|done]. split; [|done].
    simpl in Hel |- *. intros Hsnap.
    assert (exists r0, rt_snap rt t !! i = Some r0 /\ queue r0 = q) as (r0 & Hr0 & <-).
    { apply elem_of_app in Hel as [Hel|Hel].
      - apply eligible_keyed_elem in Hel as (? & ? & r0 & _ & ? & [? _] & _). eauto.
      - apply eligible_unlimited_elem in Hel as (r0 & ? & [? _] & _). eauto. }
    by destruct (Hsnap i r0 r Hr0 Hr).
Qed.

Lemma claim_targets_NoDup q limit hr rt t : NoDup (claim_targets q limit hr rt t).
Proof. unfold claim_targets. case_decide; apply select_NoDup. Qed.

Lemma claim_targets_length q limit hr rt t :
  Z.of_nat (length (claim_targets q limit hr rt t)) <= Z.max 0 limit.
Proof. unfold claim_targets. case_decide; apply select_length. Qed.

(** The rows of key [k] that [SQL_KEYED] takes are among the first [h] runnable rows of
    that key in its snapshot: the lock is requested after the ranking, and the key of a row
    does not change. *)
Lemma claim_targets_key_bound q limit hr rt t k h (ids : list Z) :
  snap_ok (rt_snap rt t) t -> hr !! k = Some h -> NoDup ids ->
  (forall i, i ∈ ids -> i ∈ claim_targets q limit hr rt t /\
     exists r, t !! i = Some r /\ concurrency_key r = Some k) ->
  Z.of_nat (length ids) <= Z.max 0 h.
Proof.
  intros Hsnap Hk Hnd Hids.
  set (top := (order_limit by_run_at any_row (Z.min (Z.max h 0) limit)
     (filter (has_key k) (filter (runnable q (rt_now rt)) (pg_scan (rt_snap rt t))))).*1).
  assert (Hsub : ids ⊆+ top).
  { apply NoDup_submseteq; [done|]. intros i Hi. destruct (Hids i Hi) as [Hc (r & Hr & Hkey)].
    unfold claim_targets in Hc. rewrite decide_False in Hc by (intros ->; done).
    apply select_elem in Hc as (r' & Hr' & [Hel _] & _). simpl in Hel.
    apply elem_of_app in Hel as [Hel|Hel].
    - apply eligible_keyed_elem in Hel as (k' & h' & r0 & Hk' & Hr0 & _ & ? & Htop).
      destruct (Hsnap i r0 r Hr0 Hr). simplify_eq. assert (k' = k) as -> by congruence. by simplify_eq.
    - apply eligible_unlimited_elem in Hel as (r0 & Hr0 & _ & Hu). destruct (Hsnap i r0 r Hr0 Hr) as [_ Hk0].
      unfold key_unlimited in Hu. simpl in Hu. rewrite <- Hk0, Hkey in Hu. congruence. }
  apply submseteq_length in Hsub. subst top. rewrite length_fmap in Hsub.
  pose proof (order_limit_length by_run_at any_row (Z.min (Z.max h 0) limit)
     (filter (has_key k) (filter (runnable q (rt_now rt)) (pg_scan (rt_snap rt t))))). lia.
Qed.
End selection.

Section claim_effect.
Context `{!PgEngine}.

(** The row a claim writes. *)
Definition claimed_row (now deadline max : Z) (tok : Uuid) (r : Row) : Row :=
  mkRow (public_id r) (queue r) (payload r) Running (attempts r + 1) max (Some tok)
    (Some deadline) None (Some now) (Some (default now (first_attempted_at r))) (finished_at r)
    (run_at r) (created_at r) now (concurrency_key r).

Lemma update_running_inv now us max uuid i r r' :
  update_row now (set_running now us max uuid) i r = Ok r' ->
  r' = claimed_row now (now + us) max (uuid i) r /\ check_row r' = true /\
  attempts r + 1 <= i32_max.
Proof.
  intros (r1 & Hr1 & _ & -> & Hc)%update_row_inv. revert Hr1 Hc.
  unfold set_running, int4_add, timestamptz_pl_interval.
  repeat case_decide; try done. by intros [= <-].
Qed.

Lemma claim_row_step now us max uuid i r r' :
  claimable now (i, r) -> max <= i32_max ->
  update_row now (set_running now us max uuid) i r = Ok r' -> row_step r r'.
Proof.
  intros [Hs _] Hmax (-> & Hc & Ha)%update_running_inv. simpl in Hs. split; simpl; try done.
  - destruct Hs as [-> | ->]; constructor.
  - by intros t ->.
Qed.

Lemma run_claim_step q limit us max hr rt db :
  max <= i32_max -> db_steps db (run_claim q limit us max hr rt db).2.
Proof.
  intros Hmax. unfold run_claim. destruct (pg_update _ _ _ _) as [t'|] eqn:Hu; [|done].
  apply rtc_once, ds_rows. eapply rows_step_impl;
    [|apply pg_update_rows_step; [apply claim_targets_NoDup|done]].
  intros i r r' (Hi & Ht & Hr). apply claim_targets_elem in Hi as (r0 & H0 & [_ Hc] & _).
  simplify_eq. by eapply claim_row_step.
Qed.

Lemma claim_step `{!SqlxInterval} q batch lease max hr rt db :
  db_steps db (claim_stmt q batch lease max hr rt db).2.
Proof.
  unfold claim_stmt. destruct (bind_text q); [|done]. destruct (interval_of_duration lease); [|done].
  destruct (bind_headroom hr); [|done]. apply run_claim_step. unfold clamp_i32. lia.
Qed.

(** What a successful claim did and returned. *)
Record claim_result (q : list Z) (limit us max : Z) (hr : gmap (list Z) Z) (rt : RoundTrip)
    (db db' : Db) (rows : list (Z * Row)) : Prop := mkClaimResult {
  cr_ids : rows.*1 ≡ₚ claim_targets q limit hr rt (jobs db);
  cr_rows : forall i r', (i, r') ∈ rows ->
    exists r, jobs db !! i = Some r /\ taken q rt (jobs db) (i, r) /\ (i ∉ rt_locked rt) /\
      r' = claimed_row (rt_now rt) (rt_now rt + us) max (rt_uuid rt i) r /\
      check_row r' = true /\ attempts r' <= i32_max /\ jobs db' !! i = Some r';
  cr_frame : forall i, i ∉ rows.*1 -> jobs db' !! i = jobs db !! i;
  cr_next : next_id db' = next_id db;
}.

Lemma omap_lookup_fst (t : gmap Z Row) ids :
  (forall i, i ∈ ids -> is_Some (t !! i)) ->
  (omap (row_at t) ids).*1 = ids.
Proof.
  induction ids as [|i ids IH]; simpl; [done|]. intros Hin. unfold row_at at 1.
  destruct (Hin i) as [r Hr]; [set_solver|]. rewrite Hr. simpl. f_equal. apply IH. set_solver.
Qed.

Lemma run_claim_ok q limit us max hr rt db db' rows :
  run_claim q limit us max hr rt db = (Ok rows, db') ->
  claim_result q limit us max hr rt db db' rows.
Proof.
  unfold run_claim. set (ids := claim_targets _ _ _ _ _).
  destruct (pg_update _ _ _ _) as [t'|] eqn:Hu; [|done]. intros [= <- <-].
  pose proof (claim_targets_NoDup q limit hr rt (jobs db)) as Hnd. fold ids in Hnd.
  pose proof (pg_update_spec _ _ _ _ _ Hnd Hu) as Hspec.
  assert (Hfst : (pg_returning (omap (row_at t') ids)).*1 ≡ₚ ids).
  { rewrite pg_returning_perm. rewrite omap_lookup_fst; [done|]. intros i Hi.
    destruct (claim_targets_elem _ _ _ _ _ _ Hi) as (r & Hr & _).
    destruct (Hspec i) as [_ Hin]. specialize (Hin Hi). rewrite Hr in Hin.
    destruct Hin as (r' & _ & ->). eauto. }
  split; simpl; [done| | |done].
  - intros i r'. rewrite pg_returning_perm, list_elem_of_omap.
    intros (j & Hj & Hrow). unfold row_at in Hrow.
    destruct (t' !! j) as [r0|] eqn:Hr0; [|done]. simplify_eq.
    destruct (claim_targets_elem _ _ _ _ _ _ Hj) as (r & Hr & Hrun & Hul).
    destruct (Hspec i) as [_ Hin]. specialize (Hin Hj). rewrite Hr in Hin.
    destruct Hin as (r1 & Hup & Hr1). simplify_eq.
    apply update_running_inv in Hup as (-> & Hc & Ha). eauto 10.
  - intros i. rewrite Hfst. apply Hspec.
Qed.

Lemma cr_NoDup q limit us max hr rt db db' rows :
  claim_result q limit us max hr rt db db' rows -> NoDup rows.*1.
Proof. intros Hcr. rewrite (cr_ids _ _ _ _ _ _ _ _ _ Hcr). apply claim_targets_NoDup. Qed.

Lemma cr_length q limit us max hr rt db db' rows :
  claim_result q limit us max hr rt db db' rows -> Z.of_nat (length rows) <= Z.max 0 limit.
Proof.
  intros Hcr. rewrite <- (length_fmap fst rows), (cr_ids _ _ _ _ _ _ _ _ _ Hcr).
  apply claim_targets_length.
Qed.

(** The columns [claim_batch_raw] reads are never NULL, so the conversion succeeds where the
    timestamps fit into the Rust type. *)
Lemma raws_of_rows_ok `{!SqlxInterval} rows :
  (forall i r, (i, r) ∈ rows -> check_row r = true /\ status r = Running /\ readable r) ->
  exists raws, raws_of_rows rows = Ok raws /\
    Forall2 (fun p raw => raw_of_row p = Ok raw) rows raws.
Proof.
  induction rows as [|[i r] rows IH]; intros Hrows; simpl; [by exists []; eauto|].
  destruct IH as (raws & -> & Hf); [set_solver|].
  destruct (Hrows i r) as (Hc & Hs & Hread); [set_solver|].
  destruct (check_row_running r Hc Hs) as (_ & l & fa & tok & ex & _ & Hfa & Htok & Hex & _).
  assert (exists raw, raw_of_row (i, r) = Ok raw) as [raw Hraw].
  { unfold raw_of_row. simpl. rewrite Hfa, Htok, Hex. simpl. rewrite !Hread by auto. eauto. }
  exists (raw :: raws). rewrite Hraw. split; [done|]. by constructor.
Qed.
End claim_effect.
#[export] Hint Resolve claim_step : guarantee.

(** The CHECKs order the times of a claimed row. *)
Lemma claimed_first_range now deadline max tok r :
  check_row (claimed_row now deadline max tok r) = true ->
  created_at r <= default now (first_attempted_at r) <= now.
Proof.
  rewrite check_row_split. intros [[_ Ht]%andb_true_iff _]%andb_true_iff.
  unfold jobs_temporal in Ht. simpl in Ht. rewrite !andb_true_iff in Ht.
  destruct (first_attempted_at r); simpl in *; rewrite !bool_decide_eq_true in Ht; lia.
Qed.

(** When the CHECKs, the attempt counter and the deadline cannot fail a claim. *)
Lemma claimed_row_check now deadline max tok r :
  check_row r = true -> (status r = Queued \/ status r = AwaitingRetry) -> run_at r <= now ->
  clock_after_claim now r -> 0 <= max ->
  check_row (claimed_row now deadline max tok r) = true.
Proof.
  intros Hc Hs Hra Hclk Hmax. rewrite check_row_split in *.
  apply andb_true_iff in Hc as [[[Hst _]%andb_true_iff Ht]%andb_true_iff Hi].
  unfold static_checks, jobs_queue_nonempty, jobs_queue_max_len, jobs_payload_max_size,
    jobs_attempts_nonneg, jobs_max_attempts_nonneg, jobs_concurrency_key_len in *. simpl.
  rewrite !andb_true_iff in Hst. destruct Hst as [[[[[-> ->] ->] Ha%bool_decide_eq_true] _] ->].
  unfold jobs_last_error_max_len, jobs_temporal, jobs_status_invariants in *. simpl.
  destruct (first_attempted_at r) as [fa|] eqn:Hfa, (last_attempted_at r) as [la|] eqn:Hla,
    (finished_at r) as [fi|] eqn:Hfi; simpl in *;
    destruct Hs as [Hs|Hs]; rewrite Hs in Hi; rewrite ?andb_false_r in *; try done;
    rewrite ?andb_true_iff, ?bool_decide_eq_true in *; simpl in *;
    try (specialize (Hclk _ Hla)); split_and!; try done; lia.
Qed.

Lemma run_claim_succeeds `{!PgEngine} q limit us max hr rt db :
  map_Forall (fun _ r => row_ok r /\ clock_after_claim (rt_now rt) r /\
                         (status r = AwaitingRetry -> attempts r < i32_max)) (jobs db) ->
  0 <= max -> min_timestamp <= rt_now rt + us < end_timestamp ->
  exists rows db', run_claim q limit us max hr rt db = (Ok rows, db').
Proof.
  intros Hall Hmax Hrange. unfold run_claim.
  destruct (pg_update_ok (rt_now rt) (set_running (rt_now rt) us max (rt_uuid rt))
              (claim_targets q limit hr rt (jobs db)) (jobs db)) as [t' ->];
    [apply claim_targets_NoDup| |eauto].
  intros i r Hi Hr. destruct (claim_targets_elem _ _ _ _ _ _ Hi) as (r0 & ? & [_ [Hs Hra]] & _).
  simplify_eq. destruct (Hall i r Hr) as ([Hc ?] & Hclk & Hatt). simpl in Hs, Hra.
  assert (attempts r + 1 <= i32_max).
  { destruct Hs as [Hs|Hs]; [|specialize (Hatt Hs); lia].
    rewrite check_row_split in Hc. unfold jobs_status_invariants in Hc. rewrite Hs in Hc.
    rewrite !andb_true_iff, bool_decide_eq_true in Hc. unfold i32_max. lia. }
  exists (claimed_row (rt_now rt) (rt_now rt + us) max (rt_uuid rt i) r).
  unfold update_row, set_running, int4_add, timestamptz_pl_interval.
  rewrite !decide_True by done. unfold assert_concurrency_key_immutable. simpl.
  rewrite decide_True by done.
  change (set_updated_at _ _) with (claimed_row (rt_now rt) (rt_now rt + us) max (rt_uuid rt i) r).
  by rewrite claimed_row_check.
Qed.

(** * Claims *)

Lemma bind_headroom_inv hr hr' : bind_headroom hr = Ok hr' -> hr' = hr.
Proof. unfold bind_headroom. repeat case_decide; by intros [= <-]. Qed.

(** A claim that was answered. *)
Lemma claim_stmt_inv `{!PgEngine, !SqlxInterval} q n lease max hr rt db rows db' :
  claim_stmt q n lease max hr rt db = (Ok rows, db') ->
  exists us, interval_of_duration lease = Ok us /\ (0 ∉ q) /\
    claim_result q (clamp_i32 n) us (clamp_i32 max) hr rt db db' rows.
Proof.
  unfold claim_stmt, bind_text. case_decide; [done|].
  destruct (interval_of_duration lease) as [us|]; [|done].
  destruct (bind_headroom hr) as [hr'|] eqn:Hh; [|done]. apply bind_headroom_inv in Hh as ->.
  intros Hc%run_claim_ok. by exists us.
Qed.

(** C12: What a claim does: every row it returns was a due, unlocked job of the queue, queued or
    awaiting a retry, also by the time it was locked; it is now running under a fresh lease token
    with one more attempt, its first attempt time kept; no row is returned twice, at most
    [batch_size] rows are, and every other row of the table is untouched. *)
Theorem claim_correct `{!PgEngine, !SqlxInterval} q n lease us max hr rt db db' rows :
  claim_stmt q n lease max hr rt db = (Ok rows, db') -> interval_of_duration lease = Ok us ->
  snap_ok (rt_snap rt (jobs db)) (jobs db) -> 0 <= n ->
  NoDup rows.*1 /\ Z.of_nat (length rows) <= n /\
  (forall i r', (i, r') ∈ rows -> jobs db' !! i = Some r' /\
     exists r, jobs db !! i = Some r /\ runnable q (rt_now rt) (i, r) /\ (i ∉ rt_locked rt) /\
       r' = claimed_row (rt_now rt) (rt_now rt + us) (clamp_i32 max) (rt_uuid rt i) r) /\
  (forall i, i ∉ rows.*1 -> jobs db' !! i = jobs db !! i).
Proof.
  intros (us' & Hus' & _ & Hc)%claim_stmt_inv Hus Hsnap Hn. rewrite Hus in Hus'. injection Hus' as <-.
  pose proof (cr_length _ _ _ _ _ _ _ _ _ Hc) as Hlen. unfold clamp_i32 in Hlen.
  split_and!; [by eapply cr_NoDup|lia| |apply Hc].
  intros i r' Hin. destruct (cr_rows _ _ _ _ _ _ _ _ _ Hc _ _ Hin) as (r & ? & [Hq ?] & ? & ? & _ & _ & ?).
  specialize (Hq Hsnap). split; [done|]. exists r. done.
Qed.

(** A claim leaves a row that was due and unlocked all the while behind only when its batch is full. *)
Lemma claim_left_full `{!PgEngine} q limit rt t i r r0 :
  0 <= limit -> t !! i = Some r -> runnable q (rt_now rt) (i, r) -> i ∉ rt_locked rt ->
  rt_snap rt t !! i = Some r0 -> runnable q (rt_now rt) (i, r0) ->
  i ∉ claim_targets q limit ∅ rt t -> Z.of_nat (length (claim_targets q limit ∅ rt t)) = limit.
Proof.
  intros Hlim Hr Hrun Hl Hr0 Hrun0. pose proof (claim_targets_length q limit ∅ rt t) as Hlen. revert Hlen.
  unfold claim_targets. rewrite decide_True by done. unfold claimed_plain. intros Hlen Hi.
  destruct (decide (Z.of_nat (length (select_for_update by_run_at (runnable q (rt_now rt)) limit rt t)) < limit));
    [|lia].
  destruct Hi. by eapply select_exhaust.
Qed.

(** First come, first served: without per-key limits, a claim takes the due jobs in the order of
    [run_at, id]: each claimed row comes before every due, unlocked row it leaves behind, and
    it leaves one behind only when the batch is full. *)
Theorem claim_fifo `{!PgEngine} q limit rt t i r i' r' :
  rt_snap rt t = t -> i ∈ claim_targets q limit ∅ rt t -> t !! i = Some r ->
  t !! i' = Some r' -> runnable q (rt_now rt) (i', r') -> i' ∉ rt_locked rt ->
  i' ∉ claim_targets q limit ∅ rt t ->
  by_run_at (i, r) (i', r') /\ Z.of_nat (length (claim_targets q limit ∅ rt t)) = limit.
Proof.
  intros Hs Hi Hr Hr' Hrun Hl Hi'.
  assert (Hpos : 0 <= limit).
  { pose proof (claim_targets_length q limit ∅ rt t). destruct (claim_targets q limit ∅ rt t); [by apply elem_of_nil in Hi|].
    simpl in *. lia. }
  split; [|by eapply claim_left_full; rewrite ?Hs].
  revert Hi Hi'. unfold claim_targets. rewrite decide_True by done. unfold claimed_plain.
  rewrite select_current by done. set (sel := order_limit _ _ _ _). intros Hi Hi'.
  assert (Hin : (i, r) ∈ sel).
  { apply list_elem_of_fmap in Hi as ([k rk] & -> & Hk).
    pose proof (order_limit_elem _ _ _ _ _ Hk) as [[_ Hsc%pg_scan_elem]%list_elem_of_filter _].
    simpl in *. congruence. }
  assert (Hcand : (i', r') ∈ filter (runnable q (rt_now rt)) (pg_scan t))
    by (apply list_elem_of_filter; split; [done|by apply pg_scan_elem]).
  assert (Hnot : (i', r') ∉ sel) by (intros Hsel; apply Hi'; by apply (list_elem_of_fmap_2 fst _ _ Hsel)).
  exact (order_limit_first _ _ _ _ _ _ Hin Hcand Hl Hnot).
Qed.

(** * Answers and decoding *)

Section decoding.
Context `{!PgEngine, !SqlxInterval} {T : Type} `{!Codec T}.
Implicit Types (raw : RawClaimedRow) (out : list (Job T)).

(** The job of a row, if its payload decodes. *)
Definition decoded raw : option (Job T) :=
  match decode (raw_payload raw) with DecodeOk v => Some (job_of_raw raw v) | _ => None end.

Lemma decoded_inv raw j : decoded raw = Some j -> exists v, j = job_of_raw raw v.
Proof. unfold decoded. destruct (decode _); [|done..]. intros [= <-]. eauto. Qed.

Lemma decode_row_result raw w : (decode_row raw w).1 = decoded raw.
Proof.
  unfold decode_row, decoded. destruct (decode _); [done|..];
    unfold mcompose; by destruct (mark_dead _ _ _ w).
Qed.

(** Dead-lettering the rows in between does not change which jobs come out. *)
Lemma decode_rows_result raws out w : (decode_rows raws out w).1 = out ++ omap decoded raws.
Proof.
  revert out w. induction raws as [|raw raws IH]; intros out w; simpl; [by rewrite app_nil_r|].
  unfold mcompose. pose proof (decode_row_result raw w) as Hr. destruct (decode_row raw w) as [job w1].
  simpl in Hr. rewrite IH, Hr. destruct (decoded raw); simpl; [by rewrite <- (assoc_L (++))|by rewrite app_nil_r].
Qed.

Lemma raws_of_rows_length rows raws :
  raws_of_rows rows = Ok raws -> length raws = length rows.
Proof.
  revert raws. induction rows as [|p rows IH]; intros raws; simpl; [by intros [= <-]|].
  destruct (raw_of_row p); [|done]. destruct (raws_of_rows rows); [|done].
  intros [= <-]. simpl. by rewrite (IH _ eq_refl).
Qed.

(** A claim that was answered with rows. *)
Lemma claim_batch_raw_inv q n lease max hr w raws w' :
  claim_batch_raw q n lease max hr w = (Ok raws, w') ->
  exists rt script rows, w_script w = rt :: script /\ w_script w' = script /\
    claim_stmt q n lease max hr rt (rt_env rt (w_db w)) = (Ok rows, w_db w') /\ raws_of_rows rows = Ok raws.
Proof.
  unfold claim_batch_raw, mcompose. destruct (sql _ w) as [[rows|e] w1] eqn:Hs; [|done].
  apply sql_ok_inv in Hs as (rt & script & Hsc & _ & Hst & Hsc' & _). unfold mreturn. intros [= Hr <-].
  exists rt, script, rows. done.
Qed.

(** It hands out what decodes of them. *)
Lemma claim_and_decode_inv q n lease max hr w js w' :
  claim_and_decode (T := T) q n lease max hr w = (Ok js, w') ->
  exists raws w1, claim_batch_raw q n lease max hr w = (Ok raws, w1) /\ js = omap decoded raws.
Proof.
  unfold claim_and_decode. unfold mcompose at 1. destruct (claim_batch_raw _ _ _ _ _ w) as [[raws|e] w1]; [|done].
  unfold mcompose. pose proof (decode_rows_result raws [] w1) as Hd.
  destruct (decode_rows raws [] w1) as [out w2]. intros [= <- _]. simpl in Hd. eauto.
Qed.

Lemma claim_stmt_length q n lease max hr rt db rows db' :
  claim_stmt q n lease max hr rt db = (Ok rows, db') -> Z.of_nat (length rows) <= Z.max 0 n.
Proof.
  intros (us & _ & _ & Hc)%claim_stmt_inv. apply cr_length in Hc. unfold clamp_i32 in Hc. lia.
Qed.

Lemma claim_batch_raw_length q n lease max hr w raws w' :
  claim_batch_raw q n lease max hr w = (Ok raws, w') -> Z.of_nat (length raws) <= Z.max 0 n.
Proof.
  intros (rt & script & rows & _ & _ & Hst & Hr)%claim_batch_raw_inv.
  rewrite (raws_of_rows_length _ _ Hr). by eapply claim_stmt_length.
Qed.

(** A claim hands out at most as many jobs as it was asked for. *)
Lemma claim_and_decode_length q n lease max hr w js w' :
  claim_and_decode (T := T) q n lease max hr w = (Ok js, w') -> Z.of_nat (length js) <= Z.max 0 n.
Proof.
  intros (raws & w1 & Hc%claim_batch_raw_length & ->)%claim_and_decode_inv.
  assert (Hs : (const () <$> omap decoded raws) `sublist_of` (const () <$> raws)) by (by apply omap_keyed_sublist).
  apply sublist_length in Hs. rewrite !length_fmap in Hs. lia.
Qed.
End decoding.
