(* ===== verification/ClaimSpec.v ===== *)
(** A reference definition for the two claim statements of [src/claim.rs]: walk the due rows in
    order and take each one whose key has room left, until the batch is full. *)
From S2P Require Import Prelude Duration Errors Schema Lifecycle Transition Exec Select Mark Job Claim.

(** The due rows of a queue, in the order of [run_at, id]. *)
Definition due `{!PgEngine} (q : list Z) (now : Z) (t : gmap Z Row) : list (Z * Row) :=
  merge_sort by_run_at (filter (runnable q now) (pg_scan t)).

(** The rows whose key has room left in [hr]; a key without an entry has no limit. *)
Fixpoint with_room (hr : gmap (list Z) Z) (l : list (Z * Row)) : list (Z * Row) :=
  match l with
  | [] => []
  | p :: l =>
      match concurrency_key p.2 ≫= (fun k => (fun h => (k, h)) <$> hr !! k) with
      | None => p :: with_room hr l
      | Some (k, h) =>
          if decide (0 < h) then p :: with_room (<[k := h - 1]> hr) l else with_room hr l
      end
  end.

Definition greedy_claim (limit : Z) (hr : gmap (list Z) Z) (l : list (Z * Row)) : list Z :=
  (take (Z.to_nat limit) (with_room hr l)).*1.

(** * Lists *)

Section lists.
Context {A : Type}.
Implicit Types (l : list A) (x : A) (n : nat).

Lemma elem_of_take_filter (P : A -> Prop) `{!forall x, Decision (P x)} n l x :
  x ∈ take n l -> P x -> x ∈ take n (filter P l).
Proof.
  revert n. induction l as [|y l IH]; intros [|n] Hx HP; simpl in *; try by apply elem_of_nil in Hx.
  rewrite filter_cons. apply elem_of_cons in Hx as [->|Hx].
  - rewrite decide_True by done. by left.
  - case_decide; [right; by apply IH|].
    specialize (IH n Hx HP). apply elem_of_take in IH as (i & ? & ?). apply elem_of_take.
    exists i. split; [done|lia].
Qed.

Lemma filter_elem_take `{!EqDecision A} n l : NoDup l -> filter (fun x => x ∈ take n l) l = take n l.
Proof.
  intros Hnd. trans (filter (fun x => x ∈ take n l) (take n l ++ drop n l)); [by rewrite take_drop|].
  rewrite filter_app.
  rewrite list_filter_all by done.
  assert (filter (fun x => x ∈ take n l) (drop n l) = []) as ->; [|by rewrite app_nil_r].
  rewrite <- (take_drop n l) in Hnd. apply NoDup_app in Hnd as (_ & Hdis & _).
  destruct (filter _ (drop n l)) as [|x l'] eqn:Hf; [done|]. exfalso.
  assert (Hx : x ∈ filter (fun x => x ∈ take n l) (drop n l)) by (rewrite Hf; by left).
  apply list_elem_of_filter in Hx as [? ?]. by eapply Hdis.
Qed.

Lemma list_filter_filter_comm (P Q : A -> Prop) `{!forall x, Decision (P x), !forall x, Decision (Q x)} l :
  filter P (filter Q l) = filter Q (filter P l).
Proof.
  induction l as [|x l IH]; [done|]. rewrite !filter_cons.
  destruct (decide (Q x)), (decide (P x)); rewrite ?filter_cons, ?decide_True, ?decide_False by done;
    congruence.
Qed.

Lemma list_filter_weaken (P Q : A -> Prop) `{!forall x, Decision (P x), !forall x, Decision (Q x)} l :
  (forall x, x ∈ l -> P x -> Q x) -> filter P (filter Q l) = filter P l.
Proof.
  induction l as [|x l IH]; intros Hi; [done|]. rewrite !filter_cons.
  assert (filter P (filter Q l) = filter P l) as IH' by (apply IH; set_solver).
  destruct (decide (Q x)) as [HQ|HQ]; rewrite ?filter_cons.
  - by rewrite IH'.
  - rewrite (decide_False (P := P x)); [done|]. intros HP. apply HQ, Hi; [by left|done].
Qed.

(** Keeping only elements that include the first [n] does not change the first [n]. *)
Lemma take_filter_prefix (P : A -> Prop) `{!forall x, Decision (P x)} n l :
  (forall x, x ∈ take n l -> P x) -> take n (filter P l) = take n l.
Proof.
  revert n. induction l as [|x l IH]; intros [|n] HP; try done.
  rewrite filter_cons, decide_True by (apply HP; by left). simpl. f_equal. apply IH.
  intros y Hy. apply HP. by right.
Qed.
End lists.

(** * The greedy walk as a selection *)

(** [p] is among the first rows of its key that the headroom allows. *)
Definition has_room (hr : gmap (list Z) Z) (l : list (Z * Row)) (p : Z * Row) : Prop :=
  match concurrency_key p.2 with
  | None => True
  | Some k =>
      match hr !! k with
      | None => True
      | Some h => p ∈ take (Z.to_nat h) (filter (has_key k) l)
      end
  end.
#[global] Instance has_room_dec hr l p : Decision (has_room hr l p).
Proof. unfold has_room. destruct (concurrency_key p.2); [destruct (hr !! _)|]; apply _. Defined.

Lemma has_room_skip hr p l y :
  (forall k, concurrency_key p.2 = Some k -> hr !! k = None \/ exists h, hr !! k = Some h /\ h <= 0) ->
  has_room hr (p :: l) y <-> has_room hr l y.
Proof.
  intros Hp. unfold has_room. destruct (concurrency_key y.2) as [k|]; [|done].
  destruct (hr !! k) as [h|] eqn:Hh; [|done]. rewrite filter_cons. unfold has_key.
  case_decide as Hk; [|done]. destruct (Hp k Hk) as [?|(h' & ? & ?)]; [congruence|].
  simplify_eq. by rewrite Z2Nat.nonpos.
Qed.

Lemma has_room_take hr p l y k h :
  concurrency_key p.2 = Some k -> hr !! k = Some h -> 0 < h -> y <> p ->
  has_room hr (p :: l) y <-> has_room (<[k := h - 1]> hr) l y.
Proof.
  intros Hk Hh Hpos Hne. unfold has_room. destruct (concurrency_key y.2) as [k'|]; [|done].
  rewrite filter_cons. unfold has_key at 1 2. destruct (decide (k = k')) as [<-|Hkk].
  - rewrite lookup_insert_eq, Hh, decide_True by done.
    replace (Z.to_nat h) with (S (Z.to_nat (h - 1))) by lia. simpl.
    rewrite elem_of_cons. naive_solver.
  - rewrite lookup_insert_ne by done. destruct (hr !! k'); [|done].
    rewrite decide_False by congruence. done.
Qed.

Lemma with_room_filter hr l : NoDup l -> with_room hr l = filter (has_room hr l) l.
Proof.
  intros Hnd. revert hr. induction Hnd as [|p l Hp Hnd IH]; intros hr; [done|]. simpl.
  assert (Hne : forall y, y ∈ l -> y <> p) by (intros y Hy ->; done).
  rewrite filter_cons. destruct (concurrency_key p.2) as [k|] eqn:Hk; simpl.
  - destruct (hr !! k) as [h|] eqn:Hh; simpl.
    + destruct (decide (0 < h)) as [Hpos|Hpos].
      * rewrite decide_True.
        -- f_equal. rewrite IH. apply list_filter_ext_elem. intros y Hy.
           by rewrite (has_room_take hr p l y k h) by auto.
        -- unfold has_room. rewrite Hk, Hh, filter_cons. unfold has_key at 1.
           rewrite decide_True by done. replace (Z.to_nat h) with (S (Z.to_nat (h - 1))) by lia. by left.
      * rewrite decide_False.
        -- rewrite IH. apply list_filter_ext_elem. intros y Hy. rewrite has_room_skip; [done|].
           intros k'. rewrite Hk. intros [= <-]. right. exists h. split; [done|lia].
        -- unfold has_room. rewrite Hk, Hh, Z2Nat.nonpos by lia. by intros ?%elem_of_nil.
    + rewrite decide_True by (unfold has_room; by rewrite Hk, Hh). f_equal. rewrite IH.
      apply list_filter_ext_elem. intros y Hy. rewrite has_room_skip; [done|].
      intros k'. rewrite Hk. intros [= <-]. by left.
  - rewrite decide_True by (unfold has_room; by rewrite Hk). f_equal. rewrite IH.
    apply list_filter_ext_elem. intros y Hy. rewrite has_room_skip; [done|].
    intros k'. by rewrite Hk.
Qed.

(** * The statements *)

Section claim_spec.
Context `{!PgEngine}.
Implicit Types (q : list Z) (now limit : Z) (t : gmap Z Row) (hr : gmap (list Z) Z).

Lemma due_elem q now t p : p ∈ due q now t <-> runnable q now p /\ t !! p.1 = Some p.2.
Proof.
  unfold due. rewrite merge_sort_Permutation, list_elem_of_filter. destruct p as [i r].
  by rewrite pg_scan_elem.
Qed.

Lemma due_NoDup q now t : NoDup (due q now t).*1.
Proof. unfold due. rewrite merge_sort_Permutation. apply NoDup_fmap_filter, pg_scan_NoDup. Qed.

(** Selecting before or after the sort is the same: [run_at, id] orders rows totally. *)
Lemma sort_filter (P : Z * Row -> Prop) `{!forall x, Decision (P x)} q now t :
  merge_sort by_run_at (filter P (filter (runnable q now) (pg_scan t))) = filter P (due q now t).
Proof.
  apply (StronglySorted_unique_strong by_run_at).
  - intros [i1 r1] [i2 r2] H1 [_ H2%due_elem]%list_elem_of_filter Hle Hge.
    rewrite merge_sort_Permutation in H1.
    apply list_elem_of_filter in H1 as [_ [_ H1%pg_scan_elem]%list_elem_of_filter].
    destruct H2 as [_ H2]. simpl in H2. unfold by_run_at in Hle, Hge. simpl in Hle, Hge.
    assert (i1 = i2) as -> by lia. by simplify_eq.
  - apply StronglySorted_merge_sort; apply _.
  - apply StronglySorted_filter, StronglySorted_merge_sort; apply _.
  - unfold due. by rewrite !merge_sort_Permutation.
Qed.

Lemma order_any (P : Z * Row -> Prop) `{!forall x, Decision (P x)} n q now t :
  order_limit by_run_at any_row n (filter P (filter (runnable q now) (pg_scan t)))
  = take (Z.to_nat n) (filter P (due q now t)).
Proof. unfold order_limit. rewrite list_filter_all by done. by rewrite sort_filter. Qed.

Lemma due_fst_elem q now t (l : list (Z * Row)) p :
  p ∈ due q now t -> l `sublist_of` due q now t -> p.1 ∈ l.*1 -> p ∈ l.
Proof.
  intros Hp Hl (p' & Heq & Hp')%list_elem_of_fmap.
  assert (p = p') as ->; [|done].
  eapply (NoDup_fmap_elem_eq fst); [apply due_NoDup|done|by eapply elem_of_sublist|done].
Qed.

(** The rows the two CTEs let through have room; *)
Lemma eligible_has_room q now limit hr t p :
  p ∈ due q now t ->
  p.1 ∈ eligible_keyed q now limit hr t ++ eligible_unlimited q now limit hr t ->
  has_room hr (due q now t) p.
Proof.
  intros Hp [Hel|Hel]%elem_of_app.
  - apply eligible_keyed_elem in Hel as (k & h & r & Hh & Hr & _ & Hk & Htop).
    destruct p as [i r']. pose proof (proj1 (due_elem _ _ _ _) Hp) as [_ Hr']. simpl in *.
    assert (r' = r) as -> by congruence.
    unfold has_room. simpl. rewrite Hk, Hh. rewrite order_any in Htop.
    apply (due_fst_elem q now t _ (i, r)) in Htop; [|done|].
    + apply elem_of_take in Htop as (n & ? & ?). apply elem_of_take. exists n. split; [done|lia].
    + etrans; [apply sublist_take|apply sublist_filter].
  - apply eligible_unlimited_elem in Hel as (r & Hr & _ & Hu).
    destruct p as [i r']. apply due_elem in Hp as [_ Hr']. simpl in *.
    assert (r' = r) as -> by congruence. unfold has_room. unfold key_unlimited in Hu. simpl in *.
    destruct (concurrency_key r) as [k|]; [|done]. by rewrite Hu.
Qed.

Lemma has_room_key hr (l : list (Z * Row)) k h :
  NoDup l -> hr !! k = Some h ->
  filter (has_key k) (filter (has_room hr l) l) = take (Z.to_nat h) (filter (has_key k) l).
Proof.
  intros Hnd Hh. rewrite list_filter_filter_comm.
  rewrite <- (filter_elem_take (Z.to_nat h) (filter (has_key k) l)) by (by apply NoDup_filter).
  apply list_filter_ext_elem. intros p [Hk _]%list_elem_of_filter. unfold has_room, has_key in *.
  by rewrite Hk, Hh.
Qed.

(** and they let through every row that has room among the first [limit] of these. *)
Lemma has_room_eligible q now limit hr t p :
  let l := due q now t in
  p ∈ take (Z.to_nat limit) (filter (has_room hr l) l) ->
  p.1 ∈ eligible_keyed q now limit hr t ++ eligible_unlimited q now limit hr t.
Proof.
  intros l Hp. assert (Hnd : NoDup l) by (eapply NoDup_fmap_1, due_NoDup).
  assert (Hu : key_unlimited hr p \/ exists k h, concurrency_key p.2 = Some k /\ hr !! k = Some h).
  { unfold key_unlimited. destruct (concurrency_key p.2) as [k|]; [|by left].
    destruct (hr !! k) eqn:Hh; [right; eauto|by left]. }
  apply elem_of_app. destruct Hu as [Hu|(k & h & Hk & Hh)].
  - right. unfold eligible_unlimited. rewrite order_any. apply list_elem_of_fmap_2.
    apply (elem_of_take_filter (key_unlimited hr)) in Hp; [|done].
    rewrite list_filter_weaken in Hp; [done|]. intros y _. unfold key_unlimited, has_room.
    destruct (concurrency_key y.2) as [k|]; [|done]. by intros ->.
  - left. unfold eligible_keyed. rewrite list_elem_of_In, in_concat.
    eexists. split; [rewrite <- list_elem_of_In; apply (list_elem_of_fmap_2 _ _ (k, h));
      by apply elem_of_map_to_list|]. rewrite <- list_elem_of_In. simpl. rewrite order_any.
    apply list_elem_of_fmap_2. apply (elem_of_take_filter (has_key k)) in Hp; [|done].
    fold l. rewrite (has_room_key hr l k h), take_take in Hp by done.
    by replace (Z.to_nat (Z.min (Z.max h 0) limit)) with (Z.to_nat limit `min` Z.to_nat h)%nat by lia.
Qed.

Lemma claimed_keyed_eq q limit hr rt t :
  rt_snap rt t = t -> (forall p, p ∈ due q (rt_now rt) t -> p.1 ∉ rt_locked rt) ->
  claimed_keyed q limit hr rt t = greedy_claim limit hr (due q (rt_now rt) t).
Proof.
  intros Hsn Hl. unfold claimed_keyed, greedy_claim. cbv zeta. rewrite select_current, Hsn by done.
  set (now := rt_now rt) in *. unfold order_limit. f_equal.
  set (el := _ ++ _). rewrite with_room_filter by (eapply NoDup_fmap_1, due_NoDup).
  assert (Hscan : filter (fun p : Z * Row => p.1 ∈ el /\ claimable now p) (pg_scan t)
                  = filter (fun p : Z * Row => p.1 ∈ el) (filter (runnable q now) (pg_scan t))).
  { rewrite <- (list_filter_weaken _ (runnable q now)).
    - apply list_filter_ext_elem. intros p [[_ ?] _]%list_elem_of_filter. tauto.
    - intros [i r] Hs%pg_scan_elem [Hel _]. simpl in Hel. apply elem_of_app in Hel as [Hel|Hel].
      + apply eligible_keyed_elem in Hel as (? & ? & ? & _ & ? & ? & _). by simplify_eq.
      + apply eligible_unlimited_elem in Hel as (? & ? & ? & _). by simplify_eq. }
  rewrite Hscan, sort_filter, (list_filter_all (unlocked (rt_locked rt))).
  2: { intros p [_ Hp]%list_elem_of_filter. by apply Hl. }
  rewrite <- (list_filter_weaken _ (has_room hr (due q now t))).
  2: { intros p Hp Hel. by eapply eligible_has_room. }
  apply take_filter_prefix. intros p Hp. by apply has_room_eligible.
Qed.

Lemma claimed_plain_eq q limit rt t :
  rt_snap rt t = t -> (forall p, p ∈ due q (rt_now rt) t -> p.1 ∉ rt_locked rt) ->
  claimed_plain q limit rt t = greedy_claim limit ∅ (due q (rt_now rt) t).
Proof.
  intros Hs Hl. unfold claimed_plain, greedy_claim. rewrite select_current by done. unfold order_limit.
  fold (due q (rt_now rt) t).
  rewrite with_room_filter by (eapply NoDup_fmap_1, due_NoDup).
  rewrite !list_filter_all; [done| |intros; by apply Hl].
  intros p _. unfold has_room. by destruct (concurrency_key p.2).
Qed.

Lemma claim_is_greedy_any q limit hr rt t :
  rt_snap rt t = t -> (forall p, p ∈ due q (rt_now rt) t -> p.1 ∉ rt_locked rt) ->
  claim_targets q limit hr rt t = greedy_claim limit hr (due q (rt_now rt) t).
Proof.
  intros Hs Hl. unfold claim_targets. case_decide as Hhr.
  - subst hr. by apply claimed_plain_eq.
  - by apply claimed_keyed_eq.
Qed.

(** C13: Both claim statements implement one rule: with no due row locked by another session,
    [SQL_PLAIN] and [SQL_KEYED] take exactly the rows, in the order, of a walk through the due
    rows by [run_at, id] that takes each row whose key has headroom left and stops when the
    batch is full; the four CTEs neither starve a key nor with_room a row too many. *)
Theorem claim_is_greedy q limit hr rt t :
  rt_snap rt t = t -> (forall p, p ∈ due q (rt_now rt) t -> p.1 ∉ rt_locked rt) ->
  claim_targets q limit hr rt t = greedy_claim limit hr (due q (rt_now rt) t).
Proof. apply claim_is_greedy_any. Qed.
End claim_spec.

(** * The jobs a claim hands out *)

Definition decodable {T} `{!Codec T} (b : list Z) : bool :=
  match decode b with DecodeOk _ => true | _ => false end.

(** [j] is the claimed row [p], column by column. *)
Record carries {T} `{!Codec T} (p : Z * Row) (j : Job T) : Prop := mkCarries {
  ca_id : job_id j = p.1;
  ca_public_id : job_public_id j = public_id p.2;
  ca_queue : job_queue j = queue p.2;
  ca_key : job_concurrency_key j = concurrency_key p.2;
  ca_payload : decode (payload p.2) = DecodeOk (job_payload j);
  ca_attempts : job_attempts j = attempts p.2;
  ca_max_attempts : job_max_attempts j = max_attempts p.2;
  ca_first : first_attempted_at p.2 = Some (job_first_attempted_at j);
  ca_token : lease_token p.2 = Some (job_lease_token j);
  ca_expires : lease_expires_at p.2 = Some (job_lease_expires_at j);
}.

(** The ranges of the fields of a job, as its users may rely on them; the UUIDs and the payload
    are opaque. *)
Record job_typed {T} (j : Job T) : Prop := mkJobTyped {
  jt_id : 1 <= job_id j <= i64_max;
  jt_first : min_timestamp <= job_first_attempted_at j < chrono_end;
  jt_expires : min_timestamp <= job_lease_expires_at j < chrono_end;
  jt_attempts : 1 <= job_attempts j <= i32_max;
  jt_max_attempts : 0 <= job_max_attempts j <= i32_max;
  jt_queue : 1 <= chars_count (job_queue j) <= MAX_QUEUE_LEN;
  jt_key : match job_concurrency_key j with
           | None => True
           | Some k => 1 <= chars_count k <= MAX_CONCURRENCY_KEY_LEN
           end;
}.

Section claimed_jobs.
Context `{!PgEngine, !SqlxInterval} {T : Type} `{!Codec T}.

(** The conversions of the columns lose nothing. *)
Definition claimed_fit (r : Row) : Prop := 0 <= attempts r /\ 0 <= max_attempts r /\ readable r.

Lemma raw_payload_row p raw : raw_of_row p = Ok raw -> raw_payload raw = payload p.2.
Proof. by intros (? & ? & ? & ? & ? & _ & _ & _ & _ & _ & ->)%raw_of_row_inv. Qed.

Lemma raw_carries p raw v :
  raw_of_row p = Ok raw -> claimed_fit p.2 -> decode (payload p.2) = DecodeOk v ->
  carries p (job_of_raw raw v).
Proof.
  intros (fa & tok & ex & fa' & ex' & Hfa & Htok & Hex & Hdf & Hde & ->)%raw_of_row_inv (Ha & Hm & Hread) Hv.
  rewrite Hread in Hdf, Hde by auto. simplify_eq.
  split; simpl; try done; unfold u32_of_i32; by rewrite decide_True by lia.
Qed.

Lemma decoded_carries rows raws w :
  Forall2 (fun p raw => raw_of_row p = Ok raw) rows raws ->
  Forall (fun p : Z * Row => claimed_fit p.2) rows ->
  Forall2 carries (filter (fun p : Z * Row => decodable (payload p.2) = true) rows) (decode_rows raws [] w).1.
Proof.
  rewrite decode_rows_result. simpl. induction 1 as [|p raw rows raws Hraw _ IH]; intros Hall; [constructor|].
  apply Forall_cons in Hall as [Hfit Hall]. specialize (IH Hall). simpl.
  unfold decoded at 1. rewrite filter_cons, (raw_payload_row p raw Hraw).
  case_decide as Hd; unfold decodable in Hd; destruct (decode (payload p.2)) as [v| |] eqn:Hv; try done.
  constructor; [by apply raw_carries|done].
Qed.

(** The rows of an answer, and the times they carry: the server's clock and the deadline are in
    the range of the Rust type. *)
Lemma claimed_rows_typed q n lease us max hr rt db db' rows i r :
  SqlxIntervalSpec _ -> db_steps empty_db db -> next_id db <= i64_max + 1 ->
  map_Forall (fun _ r => min_timestamp <= created_at r) (jobs db) ->
  interval_of_duration lease = Ok us -> rt_now rt < chrono_end ->
  min_timestamp <= rt_now rt + us < chrono_end ->
  claim_stmt q n lease max hr rt db = (Ok rows, db') -> (i, r) ∈ rows ->
  row_ok r /\ status r = Running /\ claimed_fit r /\ 1 <= i <= i64_max /\
  exists f, first_attempted_at r = Some f /\ min_timestamp <= f < chrono_end /\
    lease_expires_at r = Some (rt_now rt + us).
Proof.
  intros HS Hdb Hseq Hcreated Hus Hnow Hdead Hst Hin.
  pose proof (claim_step q n lease max hr rt db) as Hstep. rewrite Hst in Hstep.
  assert (Hok : db_ok db') by (eapply db_steps_ok; [etrans; [exact Hdb|exact Hstep]|apply empty_db_ok]).
  apply claim_stmt_inv in Hst as (us' & Hus' & _ & Hc). rewrite Hus in Hus'. injection Hus' as <-.
  destruct (cr_rows _ _ _ _ _ _ _ _ _ Hc _ _ Hin) as (r0 & Hr0 & _ & _ & -> & Hck & _ & Hi).
  pose proof (claimed_first_range _ _ _ _ _ Hck) as Hfirst. specialize (Hcreated i r0 Hr0). simpl in Hcreated.
  pose proof (proj1 (Hok i _ Hi)) as Hrow. pose proof (db_steps_keys _ _ _ Hdb Hr0).
  assert (Hf : min_timestamp <= default (rt_now rt) (first_attempted_at r0) < chrono_end) by lia.
  split; [done|]. split; [done|]. split; [|split; [lia|by eexists]].
  unfold check_row, jobs_attempts_nonneg, jobs_max_attempts_nonneg in Hck.
  rewrite !andb_true_iff, !bool_decide_eq_true in Hck. split; [tauto|]. split; [tauto|].
  intros t [[= <-]|[= <-]]; by apply timestamptz_decode_exact.
Qed.

Lemma carries_typed (p : Z * Row) (j : Job T) f e :
  carries p j -> row_ok p.2 -> status p.2 = Running -> 1 <= p.1 <= i64_max ->
  first_attempted_at p.2 = Some f -> min_timestamp <= f < chrono_end ->
  lease_expires_at p.2 = Some e -> min_timestamp <= e < chrono_end -> job_typed j.
Proof.
  intros Hc (Hck & Ha & Hm) Hs Hi Hf Hfr He Her. unfold check_row in Hck. rewrite !andb_true_iff in Hck.
  destruct Hck as [[[[[[[[Hq1 Hq2] _] _] _] Hm0] _] Hst] Hk].
  unfold jobs_queue_nonempty, jobs_queue_max_len, jobs_max_attempts_nonneg, jobs_status_invariants,
    jobs_concurrency_key_len in *. rewrite Hs in Hst. rewrite !andb_true_iff, !bool_decide_eq_true in *.
  destruct Hst as [[[[[Ha0 _] _] _] _] _]. rewrite (ca_first _ _ Hc) in Hf. rewrite (ca_expires _ _ Hc) in He.
  simplify_eq.
  split; rewrite ?(ca_id _ _ Hc), ?(ca_attempts _ _ Hc), ?(ca_max_attempts _ _ Hc), ?(ca_queue _ _ Hc), ?(ca_key _ _ Hc);
    try done; try (unfold MAX_QUEUE_LEN; lia).
  destruct (concurrency_key p.2) as [k|]; [|done].
  rewrite andb_true_iff, !bool_decide_eq_true in Hk. exact Hk.
Qed.

(** C25: The jobs handed to the handlers: when the claim statement succeeds on a table the contract
    can produce, with the server's clock and the new deadline in the range of
    [chrono::DateTime<Utc>], creation times in that of TIMESTAMPTZ, and the key sequence not
    exhausted, [claim_and_decode] does not fail:
    no column it reads is NULL and no timestamp is out of range; it yields one job per claimed
    row whose payload decodes, in the order of the answer, each carrying exactly the columns of
    its row (the conversions of the INTEGER and TIMESTAMPTZ columns lose nothing), with the key,
    both counters, both times, the queue and the concurrency key in the range of their types;
    the rows that do not decode change nothing of this. *)
Theorem claimed_jobs_typed q n lease us max hr w rt script rows db' :
  SqlxIntervalSpec _ -> w_script w = rt :: script -> rt_fault rt = NoFault ->
  let db := rt_env rt (w_db w) in
  db_steps empty_db db -> next_id db <= i64_max + 1 ->
  map_Forall (fun _ r => min_timestamp <= created_at r) (jobs db) ->
  interval_of_duration lease = Ok us -> rt_now rt < chrono_end ->
  min_timestamp <= rt_now rt + us < chrono_end ->
  claim_stmt q n lease max hr rt db = (Ok rows, db') ->
  exists js, (claim_and_decode q n lease max hr w).1 = Ok js /\
    Forall2 carries (filter (fun p : Z * Row => decodable (payload p.2) = true) rows) js /\
    Forall job_typed js.
Proof.
  intros HS Hs Hf db Hdb Hseq Hcreated Hus Hnow Hdead Hst.
  pose proof (fun p Hin => claimed_rows_typed _ _ _ _ _ _ _ _ _ _ p.1 p.2 HS Hdb Hseq Hcreated Hus Hnow Hdead Hst
    (eq_ind_r (fun x => x ∈ rows) Hin (eq_sym (surjective_pairing p)))) as Hrows.
  destruct (raws_of_rows_ok rows) as (raws & Hraws & Hf2).
  { intros i r Hin. destruct (Hrows (i, r) Hin) as ([? _] & ? & (_ & _ & ?) & _). done. }
  unfold claim_and_decode, claim_batch_raw, mcompose, sql. rewrite Hs, Hf. fold db. rewrite Hst. simpl. rewrite Hraws.
  set (w1 := mkWorld db' script (w_log w)).
  pose proof (decoded_carries rows raws w1 Hf2) as Hca. destruct (decode_rows raws [] w1) as [js w2].
  exists js. split; [done|]. simpl in Hca. lapply Hca; [clear Hca; intros Hca|].
  - split; [done|]. apply Forall_forall. intros j Hj.
    apply list_elem_of_lookup in Hj as [k Hj].
    destruct (Forall2_lookup_r _ _ _ _ _ Hca Hj) as (p & Hp%list_elem_of_lookup_2 & Hc).
    apply list_elem_of_filter in Hp as [_ Hp].
    destruct (Hrows p Hp) as (? & ? & _ & ? & f & ? & ? & ?). by eapply carries_typed.
  - apply Forall_forall. intros p Hp. apply (Hrows p Hp).
Qed.

(** A deadline outside the range of [chrono::DateTime<Utc>]: the statement has put the rows under
    lease when their conversion fails, and the worker, which sees only the error, holds none of
    them.  [build] sets no upper bound on [lease_timeout]. *)
Theorem unreadable_lease q n lease us max hr w rt script rows db' e :
  w_script w = rt :: script -> rt_fault rt = NoFault ->
  claim_stmt q n lease max hr rt (rt_env rt (w_db w)) = (Ok rows, db') -> rows <> [] ->
  interval_of_duration lease = Ok us -> timestamptz_decode (rt_now rt + us) = Err e ->
  exists e', claim_and_decode q n lease max hr w = (Err e', mkWorld db' script (w_log w)) /\
    forall i r, (i, r) ∈ rows -> jobs db' !! i = Some r /\ status r = Running.
Proof.
  intros Hs Hf Hst Hne Hus Hdec. pose proof Hst as (us' & Hus' & _ & Hc)%claim_stmt_inv.
  rewrite Hus in Hus'. injection Hus' as <-.
  assert (Hrows : forall i r, (i, r) ∈ rows -> jobs db' !! i = Some r /\ status r = Running /\
    lease_expires_at r = Some (rt_now rt + us)).
  { intros i r Hin. destruct (cr_rows _ _ _ _ _ _ _ _ _ Hc _ _ Hin) as (r0 & _ & _ & _ & -> & _ & _ & Hi). done. }
  assert (exists e', raws_of_rows rows = Err e') as [e' Hraws].
  { destruct rows as [|[i r] rows]; [done|]. destruct (Hrows i r) as (_ & _ & He); [by left|]. simpl.
    destruct (raw_of_row (i, r)) as [raw|e'] eqn:Hraw; [|by exists e'].
    apply raw_of_row_inv in Hraw as (? & ? & ex & ? & ? & _ & _ & Hex & _ & Hde & _). simpl in Hex.
    rewrite He in Hex. injection Hex as <-. by rewrite Hdec in Hde. }
  exists e'. unfold claim_and_decode, claim_batch_raw, mcompose, sql. rewrite Hs, Hf, Hst. simpl. rewrite Hraws.
  split; [done|]. intros i r Hin. by destruct (Hrows i r Hin) as (? & ? & _).
Qed.

(** ** Rows that do not decode *)

(** The reason under which a payload is dead-lettered; [None] when it decodes. *)
Definition decode_failure (b : list Z) : option (list Z) :=
  match decode b with
  | DecodeOk _ => None
  | DecodeErr e => Some (fmt_err_trimmed (lit "codec decode: " ++ e))
  | DecodePanic p => Some (fmt_err_trimmed (lit "codec panic: " ++ extract_panic_message p))
  end.

(** The mark reaches the table: it was not lost on the way there, and its text fits into TEXT. *)
Definition mark_lands (m : RoundTrip) (reason : list Z) : bool :=
  match rt_fault m with FailBefore _ => false | _ => bool_decide (0 ∉ reason) end.

Definition dead_lettered (m : RoundTrip) (reason : list Z) (r : Row) : Row :=
  marked (rt_now m) Dead (Some reason) (Some (rt_now m)) (run_at r) r.

Lemma decode_row_effect raw w :
  decode_row raw w =
  match decode_failure (raw_payload raw) with
  | None => (decoded raw, w)
  | Some reason => (None, (mark_dead (raw_id raw) (raw_lease_token raw) reason w).2)
  end.
Proof.
  unfold decode_row, decode_failure, decoded. destruct (decode _); [done|..];
    unfold mcompose; destruct (mark_dead _ _ _ w); done.
Qed.

Lemma mark_dead_effect i tok reason w m script r :
  w_script w = m :: script -> holds_lease (jobs (rt_env m (w_db w))) i tok r -> row_ok r ->
  clock_after_claim (rt_now m) r -> chars_count reason <= MAX_LAST_ERROR_LEN ->
  (mark_dead i tok reason w).2 =
  mkWorld (if mark_lands m reason
           then set_jobs (<[i := dead_lettered m reason r]> (jobs (rt_env m (w_db w)))) (rt_env m (w_db w))
           else rt_env m (w_db w)) script (w_log w).
Proof.
  intros Hs Hh Hok Hclk Hlen. unfold mark_dead, sql, mark_lands. rewrite Hs.
  destruct (decide (0 ∈ reason)) as [Hnul|Hnul].
  - rewrite bool_decide_false by auto. unfold mark_dead_stmt, bind_text. rewrite decide_True by done. by destruct (rt_fault m).
  - rewrite bool_decide_true, (mark_dead_held _ _ _ _ _ r) by done. by destruct (rt_fault m).
Qed.

Lemma failure_length b reason : decode_failure b = Some reason -> chars_count reason <= MAX_LAST_ERROR_LEN.
Proof. unfold decode_failure. destruct (decode b); [done|..]; intros [= <-]; apply fmt_err_trimmed_length. Qed.

Lemma failure_decodable b : decodable b = bool_decide (decode_failure b = None).
Proof. unfold decodable, decode_failure. by destruct (decode b). Qed.

(** No other session touches the row [i] before the statements of the script. *)
Definition undisturbed (i : Z) (marks : list RoundTrip) : Prop :=
  Forall (fun m => forall db, jobs (rt_env m db) !! i = jobs db !! i) marks.

(** The rows that are left to the loop. *)
Record claimed_rows (rows : list (Z * Row)) (marks : list RoundTrip) (t : gmap Z Row) : Prop := mkClaimedRows {
  cd_nodup : NoDup rows.*1;
  cd_row : forall p, p ∈ rows -> row_ok p.2 /\ status p.2 = Running /\ t !! p.1 = Some p.2;
  cd_clock : forall p m, p ∈ rows -> m ∈ marks -> clock_after_claim (rt_now m) p.2;
  cd_kept : forall p, p ∈ rows -> undisturbed p.1 marks;
}.

(** What the loop has done to the table [t] when it ends with [t']. *)
Record rows_decoded (rows : list (Z * Row)) (marks : list RoundTrip) (t t' : gmap Z Row) : Prop := mkRowsDecoded {
  rd_kept : forall p, p ∈ rows -> decode_failure (payload p.2) = None -> t' !! p.1 = Some p.2;
  rd_dead : forall k p m reason,
    filter (fun p : Z * Row => decodable (payload p.2) = false) rows !! k = Some p -> marks !! k = Some m ->
    decode_failure (payload p.2) = Some reason ->
    t' !! p.1 = Some (if mark_lands m reason then dead_lettered m reason p.2 else p.2);
  rd_frame : forall i, i ∉ rows.*1 -> undisturbed i marks -> t' !! i = t !! i;
}.

(** After the mark [m] of the row [p], the others are as they were. *)
Lemma claimed_rows_tail p rows m marks db t1 :
  claimed_rows (p :: rows) (m :: marks) (jobs db) ->
  (forall i, i <> p.1 -> t1 !! i = jobs (rt_env m db) !! i) -> claimed_rows rows marks t1.
Proof.
  intros [Hnd Hrow Hclk Hkept] Ht1. simpl in Hnd. apply NoDup_cons in Hnd as [Hp Hnd]. split; [done| |set_solver|].
  - intros p' Hin. destruct (Hrow p') as (? & ? & ?); [by right|]. split_and!; [done|done|].
    rewrite Ht1 by (intros Heq; apply Hp; rewrite <- Heq; by apply list_elem_of_fmap_2).
    pose proof (Hkept p' ltac:(by right)) as [Hk' _]%Forall_cons. by rewrite Hk'.
  - intros p' Hin. by pose proof (Hkept p' ltac:(by right)) as [_ ?]%Forall_cons.
Qed.

Lemma decode_rows_effect rows raws : forall marks rest out w,
  Forall2 (fun p raw => raw_of_row p = Ok raw) rows raws ->
  claimed_rows rows marks (jobs (w_db w)) -> w_script w = marks ++ rest ->
  length marks = length (filter (fun p : Z * Row => decodable (payload p.2) = false) rows) ->
  let w' := (decode_rows raws out w).2 in
  w_script w' = rest /\ w_log w' = w_log w /\ rows_decoded rows marks (jobs (w_db w)) (jobs (w_db w')).
Proof.
  intros marks rest out w Hf. revert marks out w.
  induction Hf as [|p raw rows raws Hraw _ IH]; intros marks out w Hcd Hs Hlen;
    pose proof Hcd as [Hnd Hrow Hclk Hkept].
  { destruct marks; [|done]. split_and!; [done|done|]. by split; [intros ? ?%elem_of_nil| |]. }
  simpl in Hnd. apply NoDup_cons in Hnd as [Hp Hnd]. cbn [decode_rows]. unfold mcompose.
  rewrite decode_row_effect, (raw_payload_row p raw Hraw). rewrite filter_cons in Hlen.
  destruct (Hrow p) as (Hok & Hrun & Hi); [by left|].
  destruct (decode_failure (payload p.2)) as [reason|] eqn:Hfail.
  - rewrite failure_decodable, bool_decide_false, decide_True in Hlen by (done || congruence).
    destruct marks as [|m marks]; [done|]. pose proof (Hkept p (list_elem_of_here _ _)) as Hself.
    apply Forall_cons in Hself as [Hself _]. injection Hlen as Hlen.
    apply raw_of_row_inv in Hraw as (fa & tok & ex & fa' & ex' & _ & Htok & _ & _ & _ & ->). cbn [raw_id raw_lease_token].
    rewrite (mark_dead_effect p.1 tok reason w m (marks ++ rest) p.2); [|done|split; [by rewrite Hself|done]|done
      |apply Hclk; by left|by eapply failure_length].
    set (w1 := mkWorld _ (marks ++ rest) _).
    assert (Hw1 : forall i, i <> p.1 -> jobs (w_db w1) !! i = jobs (rt_env m (w_db w)) !! i).
    { intros i Hne. simpl. destruct (mark_lands m reason); [|done]. by apply lookup_insert_ne. }
    assert (Hp1 : jobs (w_db w1) !! p.1 = Some (if mark_lands m reason then dead_lettered m reason p.2 else p.2)).
    { simpl. destruct (mark_lands m reason); simpl; [apply lookup_insert_eq|by rewrite Hself]. }
    destruct (IH marks (out ++ option_list None) w1) as (Hs' & Hl' & [Hk Hd Hfr]);
      [by eapply claimed_rows_tail|done|done|].
    split_and!; [done|done|]. pose proof (Hkept p ltac:(by left)) as [_ Hrest]%Forall_cons. split.
    + intros p' [->|Hin]%elem_of_cons; [congruence|by apply Hk].
    + intros k p' m' reason'. rewrite filter_cons, failure_decodable, bool_decide_false, decide_True by (done || congruence).
      destruct k as [|k]; simpl; [|apply Hd]. intros [= <-] [= <-] Hr. rewrite Hfail in Hr. injection Hr as <-.
      by rewrite Hfr.
    + intros i [Hne Hni]%not_elem_of_cons [Hm Hms]%Forall_cons. by rewrite Hfr, Hw1, Hm.
  - rewrite failure_decodable, bool_decide_true, decide_False in Hlen by done.
    destruct (IH marks (out ++ option_list (decoded raw)) w) as (Hs' & Hl' & [Hk Hd Hfr]); [|done|done|].
    { split; [done|intros; apply Hrow; by right|intros; apply Hclk; [by right|done]|intros; apply Hkept; by right]. }
    split_and!; [done|done|]. split.
    + intros p' [->|Hin]%elem_of_cons Hno; [|by apply Hk]. rewrite Hfr; [done|done|apply Hkept; by left].
    + intros k p' m' reason'. rewrite filter_cons, failure_decodable, bool_decide_true, decide_False by done. apply Hd.
    + intros i [Hne Hni]%not_elem_of_cons Hu. by apply Hfr.
Qed.

(** C24: What [claim_and_decode] does: when the claim statement answers, it returns a job for every
    answered row whose payload decodes, and their rows stay running under the new leases; each
    row whose payload does not decode, or whose decoder panics, is marked dead under its own
    lease with the error as its reason, one statement per such row and in the order of the
    answer, unless that statement did not reach the server or its text holds a NUL, and then the row
    stays running for the reaper; every other row of the table, left alone by other sessions, is as before.
    (Hypotheses: the new rows are not touched by other sessions meanwhile, the clock of the
    server does not go back, and their timestamps are in the range of [chrono::DateTime<Utc>].) *)
Theorem claim_and_decode_effect q n lease max hr w rt marks rest rows db' :
  w_script w = rt :: marks ++ rest -> rt_fault rt = NoFault -> db_ok (rt_env rt (w_db w)) ->
  claim_stmt q n lease max hr rt (rt_env rt (w_db w)) = (Ok rows, db') ->
  Forall (fun p : Z * Row => readable p.2) rows ->
  length marks = length (filter (fun p : Z * Row => decodable (payload p.2) = false) rows) ->
  Forall (fun m => rt_now rt <= rt_now m) marks -> (forall i, i ∈ rows.*1 -> undisturbed i marks) ->
  exists js w', claim_and_decode q n lease max hr w = (Ok js, w') /\
    w_script w' = rest /\ w_log w' = w_log w /\
    Forall2 carries (filter (fun p : Z * Row => decodable (payload p.2) = true) rows) js /\
    rows_decoded rows marks (jobs db') (jobs (w_db w')) /\
    forall i, i ∉ rows.*1 -> undisturbed i marks -> jobs (w_db w') !! i = jobs (rt_env rt (w_db w)) !! i.
Proof.
  intros Hs Hf Hdb Hst Hread Hlen Hnow Hkept. rewrite Forall_forall in Hread. rewrite Forall_forall in Hnow.
  pose proof (claim_step q n lease max hr rt (rt_env rt (w_db w))) as Hstep. rewrite Hst in Hstep.
  pose proof (db_steps_ok _ _ Hstep Hdb) as Hok.
  pose proof Hst as (us & _ & _ & Hc)%claim_stmt_inv. pose proof (cr_NoDup _ _ _ _ _ _ _ _ _ Hc) as Hnd.
  assert (Hrows : forall p, p ∈ rows -> row_ok p.2 /\ status p.2 = Running /\ jobs db' !! p.1 = Some p.2 /\
    last_attempted_at p.2 = Some (rt_now rt)).
  { intros [i r] Hin. destruct (cr_rows _ _ _ _ _ _ _ _ _ Hc _ _ Hin) as (r0 & _ & _ & _ & -> & _ & _ & Hi).
    split_and!; [by apply (Hok i)|done..]. }
  destruct (raws_of_rows_ok rows) as (raws & Hraws & Hf2).
  { intros i r Hin. destruct (Hrows (i, r) Hin) as ([? _] & ? & _). split_and!; [done|done|by apply (Hread (i, r))]. }
  set (w1 := mkWorld db' (marks ++ rest) (w_log w)).
  destruct (decode_rows_effect rows raws marks rest [] w1 Hf2) as (Hs' & Hl' & Hrd); [|done|done|].
  { split; [done| | |].
    - intros p Hp. destruct (Hrows p Hp) as (? & ? & ? & _). done.
    - intros p m Hp Hm l Hl. destruct (Hrows p Hp) as (_ & _ & _ & Hl'). rewrite Hl' in Hl.
      injection Hl as <-. by apply Hnow.
    - intros p Hp. apply Hkept. by apply list_elem_of_fmap_2. }
  assert (Hca : Forall2 carries (filter (fun p : Z * Row => decodable (payload p.2) = true) rows) (decode_rows raws [] w1).1).
  { apply decoded_carries; [done|]. apply Forall_forall. intros p Hp. destruct (Hrows p Hp) as ((Hck & _ & _) & _).
    unfold check_row, jobs_attempts_nonneg, jobs_max_attempts_nonneg in Hck.
    rewrite !andb_true_iff, !bool_decide_eq_true in Hck. split; [tauto|]. split; [tauto|]. by apply Hread. }
  unfold claim_and_decode, claim_batch_raw, mcompose, sql. rewrite Hs, Hf, Hst. simpl. rewrite Hraws. fold w1.
  destruct (decode_rows raws [] w1) as [js w2]. exists js, w2. split_and!; try done.
  intros i Hi Hu. simpl in Hrd. rewrite (rd_frame _ _ _ _ Hrd i Hi Hu). apply (cr_frame _ _ _ _ _ _ _ _ _ Hc i Hi).
Qed.
End claimed_jobs.
