(* ===== verification/Reaper.v ===== *)
(** [src/reaper.rs]: the sweep of expired leases and the loop that runs it. *)
From S2P Require Import Prelude Duration Errors Schema Lifecycle Transition Exec Select Mark Job Claim.

Definition REAPER_PANIC_ESCALATION_THRESHOLD : Z := 3.
Definition MIN_REAPER_INTERVAL : Duration := from_secs 1.

Record ReapedRow : Type := mkReaped {
  rr_id : Z;
  rr_public_id : Uuid;
  rr_status : string;
  rr_attempts : Z;
}.

(** queue = $1 AND status = 'running' AND lease_expires_at < now(). *)
Definition stale (q : list Z) (now : Z) (p : Z * Row) : Prop :=
  queue p.2 = q /\ status p.2 = Running /\
  match lease_expires_at p.2 with None => False | Some e => e < now end.
#[global] Instance stale_dec q now p : Decision (stale q now p).
Proof. unfold stale. destruct (lease_expires_at p.2); apply _. Defined.

(** ORDER BY lease_expires_at. *)
Definition by_lease (p q : Z * Row) : Prop :=
  default 0 (lease_expires_at p.2) <= default 0 (lease_expires_at q.2).
#[global] Instance by_lease_dec : RelDecision by_lease.
Proof. intros p q. unfold by_lease. apply _. Defined.

(** The verdict of the CASE expressions: the per-row budget, not the worker's. *)
Definition set_reaped (now : Z) (_ : Z) (r : Row) : result Row sqlx_error :=
  let exhausted := bool_decide (max_attempts r <= attempts r) in
  Ok (mkRow (public_id r) (queue r) (payload r)
        (if exhausted then Dead else AwaitingRetry) (attempts r) (max_attempts r) None None
        (Some (if exhausted then lit "lease_expired_max_attempts" else lit "lease_expired"))
        (last_attempted_at r) (first_attempted_at r)
        (if exhausted then Some now else None)
        (run_at r) (created_at r) (updated_at r) (concurrency_key r)).

Definition reaped_row (p : Z * Row) : ReapedRow :=
  mkReaped p.1 (public_id p.2) (status_text (status p.2)) (u32_of_i32 (attempts p.2)).

Section reap.
Context `{!PgEngine}.

(** CTE [stale]. *)
Definition reap_targets (q : list Z) (limit : Z) (rt : RoundTrip) (t : gmap Z Row) : list Z :=
  select_for_update by_lease (stale q (rt_now rt)) limit rt t.

Definition run_reap (q : list Z) (limit : Z) (rt : RoundTrip) (db : Db)
  : result (list (Z * Row)) sqlx_error * Db :=
  let ids := reap_targets q limit rt (jobs db) in
  match pg_update (rt_now rt) (set_reaped (rt_now rt)) ids (jobs db) with
  | Err e => (Err e, db)
  | Ok t => (Ok (pg_returning (omap (row_at t) ids)), set_jobs t db)
  end.

Definition reap_stmt (q : list Z) (batch_limit : Z) : Stmt (list (Z * Row)) := fun rt db =>
  match bind_text q with
  | Err e => (Err e, db)
  | Ok q => run_reap q (clamp_i32 batch_limit) rt db
  end.

Definition reap (q : list Z) (batch_limit : Z) : M (result (list ReapedRow) sqlx_error) :=
  let! rows := sql (reap_stmt q batch_limit) in
  mreturn (let? rows := rows in Ok (reaped_row <$> rows)).

(** * [reaper_loop] *)

(** What the loop shares with the poll loop and the handle: the cancellation token
    and the two [OnceLock]s. *)
Record Shared : Type := mkShared {
  sh_shutdown : bool;
  sh_last_fatal : option sqlx_error;
  sh_last_panic_escalation : option Z;
}.

(** [OnceLock::set]: the first value stays. *)
Definition once_set {A} (cell : option A) (v : A) : option A :=
  match cell with None => Some v | Some _ => cell end.

Definition cancel (s : Shared) : Shared :=
  mkShared true (sh_last_fatal s) (sh_last_panic_escalation s).
Definition set_last_fatal (e : sqlx_error) (s : Shared) : Shared :=
  mkShared (sh_shutdown s) (once_set (sh_last_fatal s) e) (sh_last_panic_escalation s).
Definition set_last_panic (n : Z) (s : Shared) : Shared :=
  mkShared (sh_shutdown s) (sh_last_fatal s) (once_set (sh_last_panic_escalation s) n).

(** The variables of the loop. *)
Record ReaperLocal : Type := mkReaperLocal {
  skip_next_tick : bool;
  consecutive_panics : Z;
}.

Definition reaper_start : ReaperLocal := mkReaperLocal false 0.

(** What can happen to one iteration: the token is cancelled while waiting for the
    ticker (only when the ticker is waited for), the sweep runs, its task panics or is
    cancelled, or the token is cancelled while it runs (the statement being aborted
    before or after it took effect).  A [TickCancelled] where the loop does not wait
    for the ticker changes nothing. *)
Inductive ReaperTick : Type :=
| TickCancelled
| TickRun
| TickPanic (p : PanicPayload)
| TickTaskCancelled
| TickAborted (applied : bool).

Definition reap_event (q : list Z) (worker_id : Uuid) (row : ReapedRow) : TransitionEvent :=
  let '(to, reason) :=
    if decide (rr_status row = "dead"%string) then ("dead"%string, lit "lease_expired_max_attempts")
    else ("awaiting_retry"%string, lit "lease_expired") in
  emit_transition (Some "running"%string) to (Some worker_id)
    (mkTransitionCtx (rr_id row) (rr_public_id row) q (rr_attempts row) SrcReaper
       (Some reason) false).

Fixpoint emit_all (es : list TransitionEvent) : M unit :=
  match es with
  | [] => mreturn tt
  | e :: es => emit e ;! emit_all es
  end.

(** One iteration; [None] is the end of the loop. *)
Definition reaper_iter (q : list Z) (worker_id : Uuid) (tick : ReaperTick)
    (l : ReaperLocal) (sh : Shared) : M (option ReaperLocal * Shared) :=
  match tick with
  | TickCancelled =>
      if skip_next_tick l then mreturn (Some l, sh) else mreturn (None, sh)
  | TickAborted applied =>
      (if applied then let! _ := reap q REAPER_BATCH_SIZE in mreturn tt else mreturn tt) ;!
      mreturn (None, sh)
  | TickTaskCancelled => mreturn (None, sh)
  | TickPanic _ =>
      let n := u32_saturating_add (consecutive_panics l) 1 in
      if decide (REAPER_PANIC_ESCALATION_THRESHOLD <= n) then
        mreturn (None, cancel (set_last_panic n sh))
      else mreturn (Some (mkReaperLocal false n), sh)
  | TickRun =>
      let! r := reap q REAPER_BATCH_SIZE in
      match r with
      | Ok reaped =>
          emit_all (reap_event q worker_id <$> reaped) ;!
          mreturn (Some (mkReaperLocal
                     (bool_decide (REAPER_BATCH_SIZE <= Z.of_nat (length reaped))) 0), sh)
      | Err e =>
          if is_fatal_sqlx e then mreturn (None, cancel (set_last_fatal e sh))
          else mreturn (Some (mkReaperLocal false 0), sh)
      end
  end.

(** The loop over a sequence of iterations; [Some] means it is still running. *)
Fixpoint reaper_loop (q : list Z) (worker_id : Uuid) (ticks : list ReaperTick)
    (l : ReaperLocal) (sh : Shared) : M (option ReaperLocal * Shared) :=
  match ticks with
  | [] => mreturn (Some l, sh)
  | tick :: ticks =>
      let! r := reaper_iter q worker_id tick l sh in
      match r with
      | (None, sh) => mreturn (None, sh)
      | (Some l, sh) => reaper_loop q worker_id ticks l sh
      end
  end.
End reap.

(** * Facts *)

#[export] Instance by_lease_trans : Transitive by_lease.
Proof. intros p q r. unfold by_lease. lia. Qed.
#[export] Instance by_lease_total : Total by_lease.
Proof. intros p q. unfold by_lease. lia. Qed.

Section reap_facts.
Context `{!PgEngine}.

Lemma reap_targets_elem q limit rt t i :
  i ∈ reap_targets q limit rt t ->
  exists r, t !! i = Some r /\ stale q (rt_now rt) (i, r) /\ (i ∉ rt_locked rt).
Proof. apply select_elem. Qed.

Lemma reap_targets_NoDup q limit rt t : NoDup (reap_targets q limit rt t).
Proof. apply select_NoDup. Qed.

Lemma set_reaped_ends now : ends_claim (set_reaped now).
Proof. intros i r r1 [= <-]. simpl. case_bool_decide; by repeat constructor. Qed.

Lemma run_reap_step q limit rt db : db_steps db (run_reap q limit rt db).2.
Proof.
  unfold run_reap. destruct (pg_update _ _ _ _) as [t'|] eqn:Hu; [|done].
  apply rtc_once, ds_rows. eapply rows_step_impl;
    [|apply pg_update_rows_step; [apply reap_targets_NoDup|done]].
  intros i r r' (Hi & Ht & Hr). apply reap_targets_elem in Hi as (r0 & ? & (_ & Hs & _) & _).
  simplify_eq. eapply ends_claim_row_step; [apply set_reaped_ends|done..].
Qed.

Lemma reap_step q limit rt db : db_steps db (reap_stmt q limit rt db).2.
Proof. unfold reap_stmt. destruct (bind_text q); [apply run_reap_step|done]. Qed.

(** The row the sweep writes. *)
Definition swept (now : Z) (r : Row) : Row :=
  if decide (max_attempts r <= attempts r)
  then marked now Dead (Some (lit "lease_expired_max_attempts")) (Some now) (run_at r) r
  else marked now AwaitingRetry (Some (lit "lease_expired")) None (run_at r) r.

Lemma update_reaped now i r :
  check_row r = true -> status r = Running -> clock_after_claim now r ->
  update_row now (set_reaped now) i r = Ok (swept now r).
Proof.
  intros Hc Hs Hclk.
  destruct (check_row_running r Hc Hs) as (_ & ? & ? & ? & ? & _ & _ & _ & _ & _ & _ & _ & Hra).
  unfold update_row, set_reaped, assert_concurrency_key_immutable. simpl.
  rewrite decide_True by done. unfold swept. case_decide as Hd.
  - rewrite bool_decide_true by done.
    change (set_updated_at _ _) with
      (marked now Dead (Some (lit "lease_expired_max_attempts")) (Some now) (run_at r) r).
    rewrite marked_check; [done|done|done|done|done|done|]. right. auto.
  - rewrite bool_decide_false by done.
    change (set_updated_at _ _) with
      (marked now AwaitingRetry (Some (lit "lease_expired")) None (run_at r) r).
    rewrite marked_check; [done|done|done|done|done|done|]. by left.
Qed.

(** A sweep of a well-formed table at a clock that has not gone back succeeds, flips
    exactly its targets and leaves every other row alone. *)
Lemma run_reap_ok q limit rt db :
  map_Forall (fun _ r => row_ok r /\ clock_after_claim (rt_now rt) r) (jobs db) ->
  exists rows db', run_reap q limit rt db = (Ok rows, db') /\
    rows.*1 ≡ₚ reap_targets q limit rt (jobs db) /\ next_id db' = next_id db /\
    forall i, jobs db' !! i =
      if decide (i ∈ reap_targets q limit rt (jobs db))
      then swept (rt_now rt) <$> jobs db !! i else jobs db !! i.
Proof.
  intros Hall. unfold run_reap. set (ids := reap_targets _ _ _ _).
  pose proof (reap_targets_NoDup q limit rt (jobs db)) as Hnd. fold ids in Hnd.
  assert (Hup : forall i r, i ∈ ids -> jobs db !! i = Some r ->
            update_row (rt_now rt) (set_reaped (rt_now rt)) i r = Ok (swept (rt_now rt) r)).
  { intros i r Hi Hr. destruct (reap_targets_elem _ _ _ _ _ Hi) as (r0 & ? & (_ & Hs & _) & _).
    simplify_eq. destruct (Hall i r Hr) as [[Hc _] Hclk]. by apply update_reaped. }
  destruct (pg_update_ok (rt_now rt) (set_reaped (rt_now rt)) ids (jobs db)) as [t' Hu];
    [done|eauto|]. rewrite Hu. eexists _, _. split; [done|].
  pose proof (pg_update_spec _ _ _ _ _ Hnd Hu) as Hspec.
  assert (Hlook : forall i, t' !! i =
      if decide (i ∈ ids) then swept (rt_now rt) <$> jobs db !! i else jobs db !! i).
  { intros i. destruct (Hspec i) as [Hout Hin]. case_decide as Hi; [|by apply Hout].
    specialize (Hin Hi). destruct (jobs db !! i) as [r|] eqn:Hr; [|done].
    destruct Hin as (r' & Hr' & ->). rewrite (Hup _ _ Hi Hr) in Hr'. by simplify_eq. }
  split_and!; [|done|done]. rewrite pg_returning_perm, omap_lookup_fst; [done|].
  intros i Hi. rewrite Hlook, decide_True by done.
  destruct (reap_targets_elem _ _ _ _ _ Hi) as (r & -> & _). eauto.
Qed.
End reap_facts.
#[export] Hint Resolve reap_step : guarantee.

Lemma guarantee_emit_all (R : relation Db) `{!PreOrder R} es : guarantee R (emit_all es).
Proof. induction es; simpl; solve_guarantee. Qed.
#[export] Hint Resolve guarantee_emit_all : guarantee.

(** The loop moves rows only by sweeps. *)
Lemma guarantee_reaper_with (R : relation Db) `{!PreOrder R, !PgEngine} q id :
  (forall n rt db, R db (reap_stmt q n rt db).2) ->
  forall ticks l sh, guarantee R (reaper_loop q id ticks l sh).
Proof.
  intros HR. induction ticks as [|tick ticks IH]; intros l sh; simpl; [solve_guarantee|].
  apply guarantee_bind; [apply _| |intros [[l'|] sh']; solve_guarantee].
  unfold reaper_iter, reap. destruct tick; solve_guarantee.
Qed.

Lemma guarantee_reaper_loop `{!PgEngine} q id ticks l sh :
  guarantee db_steps (reaper_loop q id ticks l sh).
Proof. apply guarantee_reaper_with; [apply _|]. intros. apply reap_step. Qed.

(** * Claims *)

Section reaper_claims.
Context `{!PgEngine}.

(** The count of consecutive panics stays below the threshold while the loop runs. *)
Lemma reaper_run_panics q id l sh w l' sh' w' :
  reaper_iter q id TickRun l sh w = ((Some l', sh'), w') -> consecutive_panics l' = 0.
Proof.
  cbn [reaper_iter]. unfold mcompose. destruct (reap q REAPER_BATCH_SIZE w) as [[reaped|e] w1].
  - destruct (emit_all _ w1) as [u w2]. intros Heq. by injection Heq as <- _ _.
  - destruct (is_fatal_sqlx e); intros Heq; [discriminate Heq|]. by injection Heq as <- _ _.
Qed.

Lemma reaper_aborted_ends q id applied l sh w : (reaper_iter q id (TickAborted applied) l sh w).1.1 = None.
Proof.
  cbn [reaper_iter]. unfold mcompose. destruct applied; [|reflexivity].
  by destruct (reap q REAPER_BATCH_SIZE w).
Qed.

Lemma reaper_iter_panics q id tick l sh w l' sh' w' :
  reaper_iter q id tick l sh w = ((Some l', sh'), w') ->
  0 <= consecutive_panics l < REAPER_PANIC_ESCALATION_THRESHOLD ->
  0 <= consecutive_panics l' < REAPER_PANIC_ESCALATION_THRESHOLD.
Proof.
  intros Hit Hl. destruct tick as [| |p| |applied].
  - cbn [reaper_iter] in Hit. destruct (skip_next_tick l); [|discriminate Hit].
    by injection Hit as <- _ _.
  - by rewrite (reaper_run_panics _ _ _ _ _ _ _ _ Hit).
  - assert (Hn : 0 <= u32_saturating_add (consecutive_panics l) 1)
      by (clear -Hl; unfold u32_saturating_add, u32_max; lia).
    cbn [reaper_iter] in Hit. revert Hit. generalize dependent (u32_saturating_add (consecutive_panics l) 1).
    intros n Hn. destruct (decide (REAPER_PANIC_ESCALATION_THRESHOLD <= n)); intros Hit;
      [discriminate Hit|]. injection Hit as <- _ _. simpl. lia.
  - discriminate Hit.
  - pose proof (reaper_aborted_ends q id applied l sh w) as Hn. by rewrite Hit in Hn.
Qed.

(** Escalation of reaper panics: from a clean state the loop survives two consecutive panics and
    the third ends it, cancelling the shared token and recording the count; whatever the
    ticks were, a loop that still runs has fewer than three panics in a row behind it. *)
Theorem reaper_panic_escalation q id p1 p2 p3 sh w :
  (exists l, reaper_loop q id [TickPanic p1; TickPanic p2] reaper_start sh w = ((Some l, sh), w)) /\
  reaper_loop q id [TickPanic p1; TickPanic p2; TickPanic p3] reaper_start sh w
  = ((None, cancel (set_last_panic 3 sh)), w) /\
  forall ticks l sh' w', reaper_loop q id ticks reaper_start sh w = ((Some l, sh'), w') ->
    consecutive_panics l < 3.
Proof.
  split; [by eexists|]. split; [done|]. intros ticks.
  assert (Hgen : forall l0 sh0 w0 l sh' w',
    0 <= consecutive_panics l0 < REAPER_PANIC_ESCALATION_THRESHOLD ->
    reaper_loop q id ticks l0 sh0 w0 = ((Some l, sh'), w') -> consecutive_panics l < 3).
  { induction ticks as [|tick ticks IH]; intros l0 sh0 w0 l sh' w' Hl0; simpl; [intros [= <- _ _]; apply Hl0|].
    unfold mcompose. destruct (reaper_iter q id tick l0 sh0 w0) as [[[l1|] sh1] w1] eqn:Hit; [|done].
    apply IH. by eapply reaper_iter_panics. }
  intros l sh' w'. by apply Hgen.
Qed.
End reaper_claims.

