(* ===== verification/Purge.v ===== *)
(** [src/purge.rs]: the retention sweeps and the per-queue counts. *)
From S2P Require Import Prelude Duration Errors Schema Lifecycle Transition Exec Select Mark Job Claim.

Record QueueStats : Type := mkQueueStats {
  qs_queued : Z;
  qs_awaiting_retry : Z;
  qs_running : Z;
  qs_done : Z;
  qs_dead : Z;
}.

(** status = $1 AND finished_at < now() - $2. *)
Definition victim (s : job_status) (before : Z) (p : Z * Row) : Prop :=
  status p.2 = s /\ match finished_at p.2 with None => False | Some f => f < before end.
#[global] Instance victim_dec s before p : Decision (victim s before p).
Proof. unfold victim. destruct (finished_at p.2); apply _. Defined.

(** ORDER BY finished_at. *)
Definition by_finished (p q : Z * Row) : Prop :=
  default 0 (finished_at p.2) <= default 0 (finished_at q.2).
#[global] Instance by_finished_dec : RelDecision by_finished.
Proof. intros p q. unfold by_finished. apply _. Defined.

Section purge.
Context `{!PgEngine, !SqlxInterval}.

Definition purge_targets (s : job_status) (before limit : Z) (rt : RoundTrip) (t : gmap Z Row)
  : list Z :=
  select_for_update by_finished (victim s before) limit rt t.

(** One chunk; the answer is [rows_affected]. *)
Definition purge_stmt (s : job_status) (age : Duration) : Stmt Z := fun rt db =>
  match (let? us := interval_of_duration age in timestamptz_pl_interval (rt_now rt) (- us)) with
  | Err e => (Err e, db)
  | Ok before =>
      let ids := purge_targets s before PURGE_CHUNK_SIZE rt (jobs db) in
      (Ok (Z.of_nat (length ids)), set_jobs (pg_delete ids (jobs db)) db)
  end.

(** The chunk loop.  Every iteration is a round trip, so a run has at most as many
    iterations as its script has entries, plus the one that finds the pool gone. *)
Fixpoint purge_loop (fuel : nat) (s : job_status) (age : Duration) (total : Z)
  : M (option (result Z PurgeError)) :=
  match fuel with
  | O => mreturn None
  | S fuel =>
      let! r := sql (purge_stmt s age) in
      match r with
      | Err e => mreturn (Some (Err (PurgeDatabase e)))
      | Ok affected =>
          let total := u64_saturating_add total affected in
          if decide (affected = 0) then mreturn (Some (Ok total))
          else purge_loop fuel s age total
      end
  end.

Definition purge_terminal (s : job_status) (age : Duration) : M (option (result Z PurgeError)) :=
  fun w => purge_loop (S (length (w_script w))) s age 0 w.

Definition purge_done (age : Duration) : M (option (result Z PurgeError)) := purge_terminal Done age.
Definition purge_dead (age : Duration) : M (option (result Z PurgeError)) := purge_terminal Dead age.

(** count of the rows of the queue with a status; BIGINT to u64. *)
Definition count_status (q : list Z) (s : job_status) (t : gmap Z Row) : Z :=
  Z.of_nat (length (filter (fun p : Z * Row => queue p.2 = q /\ status p.2 = s) (pg_scan t))).

Definition queue_stats_stmt (q : list Z) : Stmt QueueStats := fun rt db =>
  match bind_text q with
  | Err e => (Err e, db)
  | Ok q =>
      (Ok (mkQueueStats (count_status q Queued (jobs db)) (count_status q AwaitingRetry (jobs db))
             (count_status q Running (jobs db)) (count_status q Done (jobs db))
             (count_status q Dead (jobs db))), db)
  end.

Definition queue_stats (q : list Z) : M (result QueueStats PurgeError) :=
  let! r := sql (queue_stats_stmt q) in
  mreturn (match r with Ok s => Ok s | Err e => Err (PurgeDatabase e) end).

(** * Facts *)

Lemma pg_delete_lookup ids (t : gmap Z Row) i :
  pg_delete ids t !! i = if decide (i ∈ ids) then None else t !! i.
Proof.
  unfold pg_delete. induction ids as [|j ids IH]; [done|]. simpl foldr.
  destruct (decide (i = j)) as [->|Hne].
  - rewrite lookup_delete_eq, decide_True; [done|set_solver].
  - rewrite lookup_delete_ne by done. rewrite IH.
    repeat case_decide; set_solver.
Qed.

Lemma purge_targets_elem s before limit rt t i :
  i ∈ purge_targets s before limit rt t ->
  exists r, t !! i = Some r /\ victim s before (i, r) /\ (i ∉ rt_locked rt).
Proof. apply select_elem. Qed.

Lemma purge_step s age rt db :
  terminal s -> db_steps db (purge_stmt s age rt db).2.
Proof.
  intros Ht. unfold purge_stmt. destruct (let? us := _ in _) as [before|]; [|done].
  apply rtc_once, ds_delete.
  - apply map_subseteq_spec. intros i r. rewrite pg_delete_lookup. by case_decide.
  - intros i r Hr. rewrite pg_delete_lookup, Hr. case_decide as Hi; [|done]. intros _.
    apply purge_targets_elem in Hi as (r0 & ? & [Hs _] & _). simpl in Hs. by simplify_eq.
Qed.

#[local] Hint Resolve purge_step : guarantee.

Lemma guarantee_purge_loop fuel s age total :
  terminal s -> guarantee db_steps (purge_loop fuel s age total).
Proof.
  intros Ht. revert total. induction fuel as [|fuel IH]; intros total; simpl; solve_guarantee.
Qed.

Lemma purge_loop_returns fuel s age total w :
  (length (w_script w) < fuel)%nat -> exists r, (purge_loop fuel s age total w).1 = Some r.
Proof.
  revert total w. induction fuel as [|fuel IH]; intros total w Hf; [lia|]. simpl.
  unfold mcompose, sql. destruct (w_script w) as [|rt script] eqn:Hs; [simpl; eauto|].
  simpl in Hf. destruct (rt_fault rt); simpl; [|eauto..].
  destruct (purge_stmt s age rt (rt_env rt (w_db w))) as [[a|e] db']; simpl; [|eauto].
  case_decide; simpl; [eauto|]. apply IH. simpl. lia.
Qed.

(** The number of rows a selection over a scan finds. *)
Lemma scan_filter_size (P : Z * Row -> Prop) `{!forall x, Decision (P x)} (t : gmap Z Row) :
  length (filter P (pg_scan t)) = size (filter P t).
Proof.
  assert (length (filter P (pg_scan t)) = length (filter P (map_to_list t))) as ->
    by (by rewrite pg_scan_perm).
  rewrite map_filter_alt, map_size_list_to_map; [done|].
  apply NoDup_fmap_filter, NoDup_fst_map_to_list.
Qed.

Lemma size_pg_delete ids (t : gmap Z Row) :
  NoDup ids -> (forall i, i ∈ ids -> is_Some (t !! i)) ->
  (size (pg_delete ids t) + length ids = size t)%nat.
Proof.
  induction ids as [|i ids IH]; intros Hnd Hin; simpl; [lia|].
  apply NoDup_cons in Hnd as [Hi Hnd].
  assert (is_Some (pg_delete ids t !! i)) as [r Hr].
  { rewrite pg_delete_lookup, decide_False by done. apply Hin. set_solver. }
  unfold pg_delete in *. rewrite map_size_delete_Some by eauto.
  assert (size (foldr delete t ids) <> 0%nat) by (apply map_size_ne_0_lookup; eauto).
  rewrite <- IH; [lia|done|set_solver].
Qed.

Lemma filter_pg_delete (P : Z * Row -> Prop) `{!forall x, Decision (P x)} ids (t : gmap Z Row) :
  filter P (pg_delete ids t) = pg_delete ids (filter P t).
Proof.
  apply map_eq. intros i. apply option_eq. intros r.
  rewrite map_lookup_filter_Some, !pg_delete_lookup. case_decide; [naive_solver|].
  by rewrite map_lookup_filter_Some.
Qed.

(** A script in which nobody else touches the table and nothing fails, at a fixed
    clock. *)
Definition quiet (now : Z) (script : list RoundTrip) : Prop :=
  Forall (fun rt => (forall db, rt_env rt db = db) /\ rt_now rt = now /\
                    rt_locked rt = ∅ /\ (forall t, rt_snap rt t = t) /\ rt_fault rt = NoFault) script.

Lemma purge_chunk s us age now rt db :
  interval_of_duration age = Ok us -> min_timestamp <= now - us < end_timestamp ->
  rt_now rt = now -> rt_locked rt = ∅ -> (forall t, rt_snap rt t = t) ->
  let V := filter (victim s (now - us)) (jobs db) in
  exists ids, purge_stmt s age rt db =
      (Ok (Z.min PURGE_CHUNK_SIZE (Z.of_nat (size V))), set_jobs (pg_delete ids (jobs db)) db) /\
    NoDup ids /\ (forall i, i ∈ ids -> is_Some (V !! i)) /\
    Z.of_nat (length ids) = Z.min PURGE_CHUNK_SIZE (Z.of_nat (size V)).
Proof.
  intros Hus Hrange Hnow Hl Hsn V. unfold purge_stmt. rewrite Hus. unfold timestamptz_pl_interval.
  rewrite Hnow, decide_True by lia. replace (now + - us) with (now - us) by lia.
  set (ids := purge_targets _ _ _ _ _).
  assert (Hlen : Z.of_nat (length ids) = Z.min PURGE_CHUNK_SIZE (Z.of_nat (size V))).
  { subst ids V. unfold purge_targets. rewrite select_current, length_fmap, order_limit_length_eq by done.
    rewrite <- scan_filter_size. f_equal. f_equal. f_equal. rewrite Hl.
    apply list_filter_all. intros x _. unfold unlocked. set_solver. }
  exists ids. rewrite Hlen. split_and!; try done.
  - apply select_NoDup.
  - intros i Hi. apply purge_targets_elem in Hi as (r & Hr & Hv & _). exists r. subst V.
    by rewrite map_lookup_filter_Some.
Qed.

(** The victims are gone and nothing else is. *)
Definition purged (s : job_status) (before : Z) (t t' : gmap Z Row) : Prop :=
  forall i, t' !! i = match t !! i with
                      | Some r => if decide (victim s before (i, r)) then None else Some r
                      | None => None
                      end.

Lemma purged_chunk s before ids t t' :
  (forall i, i ∈ ids -> is_Some (filter (victim s before) t !! i)) ->
  purged s before (pg_delete ids t) t' -> purged s before t t'.
Proof.
  intros Hids Hp i. rewrite Hp, pg_delete_lookup. case_decide as Hi; [|done].
  destruct (Hids i Hi) as [r [-> Hv]%map_lookup_filter_Some]. by rewrite decide_True.
Qed.

Lemma purge_loop_complete s us age now :
  interval_of_duration age = Ok us -> min_timestamp <= now - us < end_timestamp ->
  forall fuel total w,
  (length (w_script w) < fuel)%nat -> quiet now (w_script w) ->
  let V := Z.of_nat (size (filter (victim s (now - us)) (jobs (w_db w)))) in
  w_script w <> [] -> V <= PURGE_CHUNK_SIZE * (Z.of_nat (length (w_script w)) - 1) ->
  total + V <= u64_max ->
  let '(r, w') := purge_loop fuel s age total w in
  r = Some (Ok (total + V)) /\ purged s (now - us) (jobs (w_db w)) (jobs (w_db w')).
Proof.
  intros Hus Hrange. induction fuel as [|fuel IH]; intros total w Hfuel Hq V Hne HV Htot; [lia|].
  simpl. unfold mcompose, sql. destruct (w_script w) as [|rt script] eqn:Hs; [done|].
  apply Forall_cons in Hq as [(Henv & Hnow & Hl & Hsn & Hf) Hq]. rewrite Hf, Henv.
  destruct (purge_chunk s us age now rt (w_db w) Hus Hrange Hnow Hl Hsn) as (ids & -> & Hnd & Hin & Hlen).
  fold V in Hlen |- *. unfold u64_saturating_add. simpl in Hfuel, HV.
  case_decide as Hz.
  - assert (HV0 : V = 0) by (unfold PURGE_CHUNK_SIZE in *; lia). rewrite HV0.
    destruct ids; [|simpl in Hlen; lia]. simpl. split; [do 2 f_equal; lia|].
    intros i. destruct (jobs (w_db w) !! i) as [r|] eqn:Hr; [|done]. rewrite decide_False; [done|].
    intros Hv. assert (Hm : filter (victim s (now - us)) (jobs (w_db w)) = ∅)
      by (apply map_size_empty_inv; lia).
    assert (Hr' : filter (victim s (now - us)) (jobs (w_db w)) !! i = Some r)
      by (by rewrite map_lookup_filter_Some). by rewrite Hm in Hr'.
  - set (w1 := mkWorld _ script _).
    assert (HV1 : Z.of_nat (size (filter (victim s (now - us)) (jobs (w_db w1))))
                  = V - Z.min PURGE_CHUNK_SIZE V).
    { simpl. rewrite filter_pg_delete.
      pose proof (size_pg_delete ids _ Hnd Hin). unfold V in *. lia. }
    assert (script <> []) by (intros ->; simpl in HV; lia).
    specialize (IH (Z.min (total + Z.min PURGE_CHUNK_SIZE V) u64_max) w1). cbv zeta in IH.
    rewrite HV1 in IH. simpl w_script in IH.
    destruct (purge_loop fuel s age _ w1) as [r w'].
    destruct IH as [-> Hp]; [lia|done|done|unfold PURGE_CHUNK_SIZE in *; lia|lia|].
    split; [do 2 f_equal; lia|]. by eapply purged_chunk.
Qed.

(** Every job of a queue has one of the five statuses. *)
Lemma count_status_total q t :
  count_status q Queued t + count_status q AwaitingRetry t + count_status q Running t
  + count_status q Done t + count_status q Dead t
  = Z.of_nat (length (filter (fun p : Z * Row => queue p.2 = q) (pg_scan t))).
Proof.
  unfold count_status. induction (pg_scan t) as [|p l IH]; [done|].
  rewrite !filter_cons. destruct (status p.2) eqn:E;
    repeat case_decide; simpl in *; try lia; naive_solver.
Qed.

(** The retention sweep terminates on every script, returning a count or the first error. *)
Theorem purge_terminates s age w : exists r, (purge_terminal s age w).1 = Some r.
Proof. apply purge_loop_returns. lia. Qed.

(** C39: The retention sweep is exact: when no session interferes, it deletes all the rows with the
    given status that finished before [now - age] and no other row, in chunks of at most
    10000, and returns their number. *)
Theorem purge_exact s us age now w :
  interval_of_duration age = Ok us -> min_timestamp <= now - us < end_timestamp ->
  quiet now (w_script w) -> w_script w <> [] ->
  let V := Z.of_nat (size (filter (victim s (now - us)) (jobs (w_db w)))) in
  V <= PURGE_CHUNK_SIZE * (Z.of_nat (length (w_script w)) - 1) -> V <= u64_max ->
  (purge_terminal s age w).1 = Some (Ok V) /\
  purged s (now - us) (jobs (w_db w)) (jobs (w_db (purge_terminal s age w).2)).
Proof.
  intros Hus Hrange Hq Hne V HV Hmax. unfold purge_terminal.
  pose proof (purge_loop_complete s us age now Hus Hrange (S (length (w_script w))) 0 w
    ltac:(lia) Hq Hne HV ltac:(lia)) as Hp.
  destruct (purge_loop _ _ _ _ _) as [r w']. exact Hp.
Qed.

(** The counts of [queue_stats] are consistent: over a connection that answers they add up to the
    number of jobs of the queue. *)
Theorem queue_stats_total q w rt script :
  w_script w = rt :: script -> rt_fault rt = NoFault -> 0 ∉ q ->
  exists st, (queue_stats q w).1 = Ok st /\
    qs_queued st + qs_awaiting_retry st + qs_running st + qs_done st + qs_dead st
    = Z.of_nat (size (filter (fun p : Z * Row => queue p.2 = q) (jobs (rt_env rt (w_db w))))).
Proof.
  intros Hs Hf Hq. unfold queue_stats, mcompose, sql. rewrite Hs, Hf.
  unfold queue_stats_stmt, bind_text. rewrite decide_False by done. eexists. split; [done|]. simpl.
  by rewrite count_status_total, scan_filter_size.
Qed.
End purge.
#[export] Hint Resolve purge_step : guarantee.
