(* ===== verification/Backlog.v ===== *)
(** How the adaptive [reaper_loop] of [src/reaper.rs] works off a backlog of expired leases. *)
From S2P Require Import Prelude Duration Errors Schema Lifecycle Transition Exec Select Mark Job Claim Reaper Purge.

(** The rows of a queue whose lease has expired. *)
Definition backlog (q : list Z) (now : Z) (t : gmap Z Row) : Z :=
  Z.of_nat (size (filter (stale q now) t)).

(** [t'] is [t] with every expired row flipped and every other row as it was. *)
Definition recovered (q : list Z) (now : Z) (t t' : gmap Z Row) : Prop :=
  forall i, t' !! i = (fun r => if decide (stale q now (i, r)) then swept now r else r) <$> t !! i.

(** Sweeps at the same clock, nobody else on the table. *)
Definition sweepable (now : Z) (db : Db) : Prop :=
  db_ok db /\ map_Forall (fun _ r => clock_after_claim now r) (jobs db).

Section backlog.
Context `{!PgEngine}.

Lemma swept_not_stale q now now' i r : ~ stale q now (i, swept now' r).
Proof. unfold stale, swept. case_decide; simpl; intros (_ & ? & _); done. Qed.

(** One sweep takes a full batch, or everything. *)
Lemma sweep_batch q now rt db :
  0 ∉ q -> rt_now rt = now -> rt_locked rt = ∅ -> (forall t, rt_snap rt t = t) -> sweepable now db ->
  let b := Z.min REAPER_BATCH_SIZE (backlog q now (jobs db)) in
  exists rows db', reap_stmt q REAPER_BATCH_SIZE rt db = (Ok rows, db') /\
    Z.of_nat (length rows) = b /\ sweepable now db' /\
    backlog q now (jobs db') = backlog q now (jobs db) - b /\
    forall t', recovered q now (jobs db') t' -> recovered q now (jobs db) t'.
Proof.
  intros Hq Hnow Hl Hsn [Hok Hclk] b. pose proof (reap_step q REAPER_BATCH_SIZE rt db) as Hstep. revert Hstep.
  unfold reap_stmt. unfold bind_text. rewrite decide_False by done. change (clamp_i32 REAPER_BATCH_SIZE) with REAPER_BATCH_SIZE.
  destruct (run_reap_ok q REAPER_BATCH_SIZE rt db) as (rows & db' & -> & Hids & Hnext & Hlook).
  { intros i r Hi. rewrite Hnow. split; [by apply (Hok i r Hi)|by apply (Hclk i)]. }
  intros Hstep. simpl in Hstep. set (ids := reap_targets q REAPER_BATCH_SIZE rt (jobs db)) in *.
  assert (Hstale : forall i, i ∈ ids -> exists r, jobs db !! i = Some r /\ stale q now (i, r)).
  { intros i (r & Hr & Hs & _)%reap_targets_elem. rewrite Hnow in Hs. eauto. }
  assert (Hlen : Z.of_nat (length rows) = b).
  { apply Permutation_length in Hids. rewrite length_fmap in Hids. rewrite Hids. subst b ids.
    unfold reap_targets, backlog. rewrite select_current, length_fmap, order_limit_length_eq, Hnow, Hl by done.
    rewrite <- scan_filter_size. do 3 f_equal. apply list_filter_all. intros x _. unfold unlocked. set_solver. }
  assert (Hfil : filter (stale q now) (jobs db') = pg_delete ids (filter (stale q now) (jobs db))).
  { apply map_eq. intros i. rewrite pg_delete_lookup. apply option_eq. intros r.
    rewrite map_lookup_filter_Some, Hlook. case_decide as Hi; [|by rewrite map_lookup_filter_Some].
    destruct (Hstale i Hi) as (r0 & -> & _). simpl. split; [|done]. intros [[= <-] Hs].
    by apply swept_not_stale in Hs. }
  exists rows, db'. split; [done|]. split; [done|]. split; [split|split].
  - by eapply db_steps_ok.
  - intros i r. rewrite Hlook. case_decide as Hi; [|by apply Hclk].
    destruct (Hstale i Hi) as (r0 & Hr0 & _). rewrite Hr0. simpl. intros [= <-].
    unfold swept, clock_after_claim. case_decide; simpl; by apply (Hclk i).
  - unfold backlog at 1. rewrite Hfil.
    assert (NoDup ids) as Hnd by apply reap_targets_NoDup.
    pose proof (size_pg_delete ids (filter (stale q now) (jobs db)) Hnd) as Hsz.
    apply Permutation_length in Hids. rewrite length_fmap in Hids.
    unfold backlog in *. lapply Hsz; [lia|]. intros i Hi. destruct (Hstale i Hi) as (r & Hr & Hs).
    exists r. by rewrite map_lookup_filter_Some.
  - intros t' Hrec i. rewrite Hrec, Hlook. case_decide as Hi; [|done].
    destruct (Hstale i Hi) as (r & -> & Hs). simpl. f_equal. rewrite (decide_True _ _ Hs), Hnow.
    rewrite decide_False; [done|]. apply swept_not_stale.
Qed.

Lemma emit_all_world es w : exists log, emit_all es w = (tt, mkWorld (w_db w) (w_script w) log).
Proof.
  revert w. induction es as [|e es IH]; intros w; simpl; [exists (w_log w); by destruct w|].
  unfold mcompose, emit. destruct (IH (mkWorld (w_db w) (w_script w) (w_log w ++ [e]))) as [log Hl].
  by exists log.
Qed.

(** One iteration of the loop that gets to sweep. *)
Lemma reaper_sweeps q id now l sh w rt script :
  0 ∉ q -> w_script w = rt :: script -> quiet now (w_script w) -> sweepable now (w_db w) ->
  let b := Z.min REAPER_BATCH_SIZE (backlog q now (jobs (w_db w))) in
  exists l' w', reaper_iter q id TickRun l sh w = ((Some l', sh), w') /\
    w_script w' = script /\ sweepable now (w_db w') /\
    skip_next_tick l' = bool_decide (REAPER_BATCH_SIZE <= backlog q now (jobs (w_db w))) /\
    backlog q now (jobs (w_db w')) = backlog q now (jobs (w_db w)) - b /\
    forall t', recovered q now (jobs (w_db w')) t' -> recovered q now (jobs (w_db w)) t'.
Proof.
  intros Hq Hs Hquiet Hok b. rewrite Hs in Hquiet.
  apply Forall_cons in Hquiet as [(Henv & Hnow & Hl & Hsn & Hf) _].
  destruct (sweep_batch q now rt (w_db w) Hq Hnow Hl Hsn Hok) as (rows & db' & Hst & Hlen & Hok' & Hb & Hrec).
  cbn [reaper_iter]. unfold reap, mcompose, sql. rewrite Hs, Hf, Henv, Hst. simpl.
  destruct (emit_all_world (reap_event q id <$> (reaped_row <$> rows)) (mkWorld db' script (w_log w)))
    as [log ->]. simpl. eexists _, _. split; [done|]. simpl. split_and!; try done.
  rewrite length_fmap, Hlen. apply bool_decide_ext. unfold b. lia.
Qed.

(** A run of [n] iterations takes [n] batches. *)
Lemma reaper_runs q id now n : forall l sh w,
  0 ∉ q -> quiet now (w_script w) -> (n <= length (w_script w))%nat -> sweepable now (w_db w) ->
  let k := backlog q now (jobs (w_db w)) in
  exists l' w', reaper_loop q id (replicate n TickRun) l sh w = ((Some l', sh), w') /\
    sweepable now (w_db w') /\
    backlog q now (jobs (w_db w')) = Z.max 0 (k - REAPER_BATCH_SIZE * Z.of_nat n) /\
    ((0 < n)%nat -> skip_next_tick l' = bool_decide (REAPER_BATCH_SIZE * Z.of_nat n <= k)) /\
    forall t', recovered q now (jobs (w_db w')) t' -> recovered q now (jobs (w_db w)) t'.
Proof.
  assert (HB : REAPER_BATCH_SIZE = 1024) by done. rewrite HB. clear HB.
  induction n as [|n IH]; intros l sh w Hq Hquiet Hlen Hok k.
  { exists l, w. split_and!; [done|done|unfold k, backlog in *; lia|lia|done]. }
  destruct (w_script w) as [|rt script] eqn:Hs; [simpl in Hlen; lia|]. simpl in Hlen.
  rewrite <- Hs in Hquiet.
  destruct (reaper_sweeps q id now l sh w rt script Hq Hs Hquiet Hok)
    as (l1 & w1 & Hit & Hs1 & Hok1 & Hsk1 & Hb1 & Hrec1).
  change REAPER_BATCH_SIZE with 1024 in Hsk1, Hb1. fold k in Hsk1, Hb1.
  rewrite Hs in Hquiet. apply Forall_cons in Hquiet as [_ Hquiet].
  destruct (IH l1 sh w1 Hq) as (l2 & w2 & Hloop & Hok2 & Hb2 & Hsk2 & Hrec2);
    [by rewrite Hs1|rewrite Hs1; lia|done|].
  exists l2, w2. assert (0 <= k) by (unfold k, backlog; lia).
  cbn [replicate reaper_loop]. unfold mcompose. rewrite Hit, Hloop.
  split_and!; [done|done|rewrite Hb2, Hb1; lia| |eauto]. intros _.
  destruct n as [|n].
  - simpl in Hloop. injection Hloop as <- _. rewrite Hsk1. apply bool_decide_ext. lia.
  - rewrite (Hsk2 ltac:(lia)), Hb1. apply bool_decide_ext. lia.
Qed.

(** C34: The backlog is worked off: on a well-formed table nobody else touches, a backlog of [k] expired
    leases is recovered completely by [k / 1024 + 1] iterations of the loop, each expired job
    being flipped exactly once and no other row touched; after all iterations but the last
    the loop goes on without waiting for its ticker, after the last it waits again. *)
Theorem reaper_drains_backlog q id now l sh w :
  0 ∉ q -> quiet now (w_script w) -> sweepable now (w_db w) ->
  let k := backlog q now (jobs (w_db w)) in
  let n := Z.to_nat (k / REAPER_BATCH_SIZE + 1) in
  (n <= length (w_script w))%nat ->
  (exists l' w', reaper_loop q id (replicate n TickRun) l sh w = ((Some l', sh), w') /\
     recovered q now (jobs (w_db w)) (jobs (w_db w')) /\ skip_next_tick l' = false) /\
  (forall m, (0 < m < n)%nat ->
     exists l' w', reaper_loop q id (replicate m TickRun) l sh w = ((Some l', sh), w') /\
       skip_next_tick l' = true).
Proof.
  intros Hq Hquiet Hok k n Hn. assert (Hk : 0 <= k) by (unfold k, backlog; lia).
  assert (HB : REAPER_BATCH_SIZE = 1024) by done. unfold n in *. clear n. rewrite HB in *.
  assert (Hdiv : 1024 * (k / 1024) <= k < 1024 * (k / 1024) + 1024) by (Z.to_euclidean_division_equations; lia).
  split.
  - destruct (reaper_runs q id now (Z.to_nat (k / 1024 + 1)) l sh w Hq Hquiet Hn Hok)
      as (l' & w' & Hloop & Hok' & Hb & Hsk & Hrec). rewrite HB in Hb, Hsk. fold k in Hb, Hsk.
    exists l', w'. split; [done|]. split.
    + apply Hrec. intros i. destruct (jobs (w_db w') !! i) as [r|] eqn:Hr; [|done]. simpl. f_equal.
      rewrite decide_False; [done|]. intros Hs.
      assert (Hm : filter (stale q now) (jobs (w_db w')) = ∅)
        by (apply map_size_empty_inv; unfold backlog in Hb; lia).
      assert (Hr' : filter (stale q now) (jobs (w_db w')) !! i = Some r) by (by rewrite map_lookup_filter_Some).
      by rewrite Hm in Hr'.
    + rewrite Hsk by lia. apply bool_decide_eq_false. lia.
  - intros m Hm. destruct (reaper_runs q id now m l sh w Hq Hquiet ltac:(lia) Hok)
      as (l' & w' & Hloop & _ & _ & Hsk & _). rewrite HB in Hsk. fold k in Hsk.
    exists l', w'. split; [done|]. rewrite Hsk by lia. apply bool_decide_eq_true. lia.
Qed.
End backlog.
