(* ===== verification/Pusher.v ===== *)
(** [src/pusher.rs]: validation, encoding and insertion of new jobs. *)
From S2P Require Import Prelude Duration Errors Schema Lifecycle Transition Exec Session Mark Job Claim.

Section pusher.
Context {T : Type} `{!Codec T}.

(** [Pusher<C>]: the codec is the instance in context. *)
Record Pusher : Type := mkPusher { pusher_queue : list Z }.

Definition validate_queue (p : Pusher) : result unit PushError :=
  let len := chars_count (pusher_queue p) in
  if decide (len = 0 \/ MAX_QUEUE_LEN < len) then Err (PushQueueNameInvalid (pusher_queue p))
  else Ok tt.

Definition validate_concurrency_key (key : option (list Z)) : result unit PushError :=
  match key with
  | None => Ok tt
  | Some k =>
      let len := chars_count k in
      if decide (len = 0 \/ MAX_CONCURRENCY_KEY_LEN < len) then Err (PushConcurrencyKeyInvalid k)
      else Ok tt
  end.

Definition encode_one (value : T) (index : Z) : result (list Z) PushError :=
  match encode value with
  | Err e => Err (if decide (index = 0) then CodecError e else BatchCodec index e)
  | Ok bytes =>
      let len := Z.of_nat (length bytes) in
      if decide (MAX_PAYLOAD_BYTES < len) then Err (PayloadTooLarge index len MAX_PAYLOAD_BYTES)
      else Ok bytes
  end.

(** [conn] is the session of the caller's connection, with or without an open transaction;
    [uuid] is the value of [Uuid::now_v7()]. *)
Definition push (p : Pusher) (conn : Z) (uuid : Uuid) (payload : T) (key : option (list Z))
  : M (result Uuid PushError) :=
  match (let? _ := validate_queue p in
         let? _ := validate_concurrency_key key in
         encode_one payload 0) with
  | Err e => mreturn (Err e)
  | Ok bytes =>
      let! r := sql (insert_stmt conn [mkNewRow (pusher_queue p) bytes uuid None key]) in
      mreturn (match r with Ok _ => Ok uuid | Err e => Err (push_error_from e) end)
  end.

Definition push_at (p : Pusher) (conn : Z) (uuid : Uuid) (payload : T) (run_at : Z) (key : option (list Z))
  : M (result Uuid PushError) :=
  match (let? _ := validate_queue p in
         let? _ := validate_concurrency_key key in
         encode_one payload 0) with
  | Err e => mreturn (Err e)
  | Ok bytes =>
      let! r := sql (insert_stmt conn [mkNewRow (pusher_queue p) bytes uuid (Some run_at) key]) in
      mreturn (match r with Ok _ => Ok uuid | Err e => Err (push_error_from e) end)
  end.

(** The validation loop of [push_batch]: the encoded payloads with their keys. *)
Fixpoint encode_items (i total_bytes : Z) (items : list (T * option (list Z)))
  : result (list (list Z * option (list Z))) PushError :=
  match items with
  | [] => Ok []
  | (payload, key) :: items =>
      let? _ := validate_concurrency_key key in
      let? bytes := encode_one payload i in
      let total_bytes := u64_saturating_add total_bytes (Z.of_nat (length bytes)) in
      if decide (MAX_BATCH_BYTES < total_bytes) then
        Err (BatchPayloadTooLarge total_bytes MAX_BATCH_BYTES)
      else
        let? rest := encode_items (i + 1) total_bytes items in
        Ok ((bytes, key) :: rest)
  end.

Definition batch_rows (q : list Z) (encoded : list (list Z * option (list Z)))
    (uuids : list Uuid) : list NewRow :=
  zip_with (fun e u => mkNewRow q e.1 u None e.2) encoded uuids.

(** [uuid k] is the value of the [k]-th call of [Uuid::now_v7()]. *)
Definition push_batch (p : Pusher) (conn : Z) (uuid : nat -> Uuid) (items : list (T * option (list Z)))
  : M (result (list Uuid) PushError) :=
  match (let? _ := validate_queue p in
         let size := Z.of_nat (length items) in
         if decide (size = 0) then Err BatchEmpty else
         if decide (MAX_BATCH_SIZE < size) then Err (BatchTooLarge size MAX_BATCH_SIZE) else
         encode_items 0 0 items) with
  | Err e => mreturn (Err e)
  | Ok encoded =>
      let public_ids := uuid <$> seq 0 (length items) in
      let expected := Z.of_nat (length public_ids) in
      let! r := sql (insert_stmt conn (batch_rows (pusher_queue p) encoded public_ids)) in
      mreturn (match r with
               | Err e => Err (push_error_from e)
               | Ok inserted =>
                   if decide (inserted = expected) then Ok public_ids
                   else Err (BatchPartial inserted expected)
               end)
  end.

(** * Facts *)

Lemma validate_queue_ok p :
  validate_queue p = Ok tt <-> 1 <= chars_count (pusher_queue p) <= MAX_QUEUE_LEN.
Proof.
  unfold validate_queue, chars_count. case_decide; split; intros; try done; lia.
Qed.

Lemma validate_key_ok k :
  validate_concurrency_key (Some k) = Ok tt <-> 1 <= chars_count k <= MAX_CONCURRENCY_KEY_LEN.
Proof.
  unfold validate_concurrency_key, chars_count. case_decide; split; intros; try done; lia.
Qed.

Lemma encode_one_inv v i bytes :
  encode_one v i = Ok bytes -> encode v = Ok bytes /\ Z.of_nat (length bytes) <= MAX_PAYLOAD_BYTES.
Proof.
  unfold encode_one. destruct (encode v); [|done]. case_decide; [done|].
  intros [= ->]. split; [done|lia].
Qed.

(** Client-side validation implies the CHECK constraints. *)
Lemma new_row_check now n :
  1 <= chars_count (nr_queue n) <= MAX_QUEUE_LEN ->
  validate_concurrency_key (nr_concurrency_key n) = Ok tt ->
  Z.of_nat (length (nr_payload n)) <= MAX_PAYLOAD_BYTES ->
  now <= default now (nr_run_at n) ->
  check_row (row_of_new now n) = true.
Proof.
  intros Hq Hk Hp Hra. unfold check_row, jobs_queue_nonempty, jobs_queue_max_len,
    jobs_payload_max_size, jobs_last_error_max_len, jobs_attempts_nonneg, jobs_max_attempts_nonneg,
    jobs_temporal, jobs_status_invariants, jobs_concurrency_key_len. simpl.
  unfold MAX_QUEUE_LEN, MAX_PAYLOAD_BYTES in *.
  rewrite !bool_decide_true by lia. destruct (nr_concurrency_key n) as [k|]; [|done].
  apply validate_key_ok in Hk. unfold MAX_CONCURRENCY_KEY_LEN in *.
  by rewrite !bool_decide_true by lia.
Qed.

Lemma encode_items_spec i total items enc :
  encode_items i total items = Ok enc ->
  length enc = length items /\
  forall k v key, items !! k = Some (v, key) ->
    exists b, encode v = Ok b /\ enc !! k = Some (b, key) /\
      Z.of_nat (length b) <= MAX_PAYLOAD_BYTES /\ validate_concurrency_key key = Ok tt.
Proof.
  revert i total enc. induction items as [|[v key] items IH]; intros i total enc; simpl.
  { by intros [= <-]. }
  destruct (validate_concurrency_key key) as [[]|] eqn:Hkey; [|done].
  destruct (encode_one v i) as [b|] eqn:He; [|done]. case_decide; [done|].
  destruct (encode_items _ _ _) as [rest|] eqn:Hrest; [|done]. intros [= <-].
  destruct (IH _ _ _ Hrest) as [Hlen Hitems]. split; [simpl; by rewrite Hlen|].
  apply encode_one_inv in He as [? ?].
  intros [|k] v' key' Hk; simplify_eq/=; eauto 6.
Qed.

Definition item_bytes (it : T * option (list Z)) : Z :=
  match encode it.1 with Ok b => Z.of_nat (length b) | Err _ => 0 end.

Definition item_ok (it : T * option (list Z)) : Prop :=
  validate_concurrency_key it.2 = Ok tt /\
  exists b, encode it.1 = Ok b /\ Z.of_nat (length b) <= MAX_PAYLOAD_BYTES.

Definition total_bytes (items : list (T * option (list Z))) : Z :=
  foldr (fun it n => item_bytes it + n) 0 items.

Lemma total_bytes_pos items : 0 <= total_bytes items.
Proof.
  induction items as [|it items IH]; simpl; [lia|]. unfold item_bytes at 1.
  destruct (encode it.1); lia.
Qed.

Lemma encode_items_ok i total items :
  Forall item_ok items -> total + total_bytes items <= MAX_BATCH_BYTES ->
  exists enc, encode_items i total items = Ok enc.
Proof.
  intros Hall. revert i total. induction Hall as [|[v key] items (Hk & b & Hb & Hlen) _ IH];
    intros i total Htot; simpl in *; [eauto|].
  rewrite Hk. unfold encode_one. rewrite Hb, decide_False by lia.
  pose proof (total_bytes_pos items). unfold item_bytes in Htot. simpl in Htot. rewrite Hb in Htot.
  assert (u64_saturating_add total (Z.of_nat (length b)) = total + Z.of_nat (length b)) as ->.
  { unfold u64_saturating_add. apply Z.min_l. unfold MAX_BATCH_BYTES, u64_max in *. lia. }
  rewrite decide_False by lia. destruct (IH (i + 1) (total + Z.of_nat (length b))) as [enc ->]; [lia|].
  eauto.
Qed.

Lemma batch_rows_lookup q enc us k b key u :
  enc !! k = Some (b, key) -> us !! k = Some u ->
  batch_rows q enc us !! k = Some (mkNewRow q b u None key).
Proof. intros He Hu. unfold batch_rows. by rewrite lookup_zip_with, He, Hu. Qed.

Lemma batch_rows_inv q enc us n :
  n ∈ batch_rows q enc us ->
  exists k b key u, enc !! k = Some (b, key) /\ us !! k = Some u /\ n = mkNewRow q b u None key.
Proof.
  unfold batch_rows. intros (k & Hk)%list_elem_of_lookup.
  apply lookup_zip_with_Some in Hk as ([b key] & u & -> & ? & ?). eauto 8.
Qed.

Lemma batch_rows_ids q enc us :
  length enc = length us -> nr_public_id <$> batch_rows q enc us = us.
Proof.
  revert us. induction enc as [|e enc IH]; intros [|u us] Hl; simplify_eq/=; [done|].
  f_equal. by apply IH.
Qed.

Lemma batch_rows_valid q items enc ids :
  encode_items 0 0 items = Ok enc ->
  forall n, n ∈ batch_rows q enc ids -> exists k v key b, items !! k = Some (v, key) /\
    enc !! k = Some (b, key) /\ Z.of_nat (length b) <= MAX_PAYLOAD_BYTES /\
    validate_concurrency_key key = Ok tt /\ n = mkNewRow q b (nr_public_id n) None key /\
    nr_public_id n ∈ ids.
Proof.
  intros Henc n (k & b & key & u & He & Hu & ->)%batch_rows_inv.
  destruct (encode_items_spec _ _ _ _ Henc) as [Hlen Hspec].
  destruct (lookup_lt_is_Some_2 items k) as [[v key'] Hit].
  { rewrite <- Hlen. by eapply lookup_lt_Some. }
  destruct (Hspec _ _ _ Hit) as (b' & ? & He' & ? & ?). rewrite He in He'. simplify_eq.
  exists k, v, key', b'. split_and!; try done. by eapply list_elem_of_lookup_2.
Qed.

(** [push] of an admissible payload, over a connection that answers, inserts exactly one
    row, queued, unclaimed and due now, with the queue, the payload, the key and the
    public id it returns; every other row of the table is untouched. *)
Theorem push_inserts p conn uuid v key bytes w rt script :
  1 <= chars_count (pusher_queue p) <= MAX_QUEUE_LEN -> 0 ∉ pusher_queue p ->
  validate_concurrency_key key = Ok tt -> (forall k, key = Some k -> 0 ∉ k) ->
  encode v = Ok bytes -> Z.of_nat (length bytes) <= MAX_PAYLOAD_BYTES ->
  w_script w = rt :: script -> rt_fault rt = NoFault ->
  let db := rt_env rt (w_db w) in
  let now := now_in conn rt db in
  conn_failed conn db = false -> db_ok db -> uuid ∉ public_ids (heap db) ->
  push p conn uuid v key w =
    (Ok uuid,
     mkWorld (add_rows conn
                {[next_id db := mkRow uuid (pusher_queue p) bytes Queued 0 0 None None None None None
                                  None now now now key]} (next_id db + 1) db)
       script (w_log w)).
Proof.
  intros Hq Hnul Hk Hknul He Hlen Hw Hf db now Hcf Hok Hfr.
  set (n := mkNewRow (pusher_queue p) bytes uuid None key).
  destruct (insert_stmt_ok conn [n] rt db) as (new & next & Hi & Hin); try done.
  { repeat constructor; [done|]. simpl. destruct key; eauto. }
  { intros n' ->%list_elem_of_singleton. apply new_row_check; simpl; (done || lia). }
  { simpl. apply NoDup_singleton. }
  { by intros n' ->%list_elem_of_singleton. }
  destruct (inserted_eq _ _ _ _ _ Hok Hin) as [-> ->].
  unfold push. apply validate_queue_ok in Hq as ->. rewrite Hk. unfold encode_one.
  rewrite He, decide_False by lia. unfold mcompose, sql. rewrite Hw, Hf. fold db n. by rewrite Hi.
Qed.

(** C28: [push_batch] of an admissible batch inserts every item, in input order, under
    consecutive keys: the [k]-th returned id and the [k]-th new row belong to the [k]-th item;
    no other row changes.  Inside a transaction the rows wait for its COMMIT. *)
Theorem push_batch_inserts p conn (uuid : nat -> Uuid) items w rt script :
  1 <= chars_count (pusher_queue p) <= MAX_QUEUE_LEN -> 0 ∉ pusher_queue p ->
  1 <= Z.of_nat (length items) <= MAX_BATCH_SIZE -> Forall item_ok items ->
  (forall v k, (v, Some k) ∈ items -> 0 ∉ k) -> total_bytes items <= MAX_BATCH_BYTES ->
  w_script w = rt :: script -> rt_fault rt = NoFault ->
  let db := rt_env rt (w_db w) in
  let ids := uuid <$> seq 0 (length items) in
  conn_failed conn db = false ->
  db_ok db -> NoDup ids -> (forall u, u ∈ ids -> u ∉ public_ids (heap db)) ->
  exists new,
    push_batch p conn uuid items w =
      (Ok ids, mkWorld (add_rows conn new (next_id db + Z.of_nat (length items)) db) script (w_log w)) /\
    forall i r, new !! i = Some r <->
      exists k v key b, items !! k = Some (v, key) /\ encode v = Ok b /\ i = next_id db + Z.of_nat k /\
        r = row_of_new (now_in conn rt db) (mkNewRow (pusher_queue p) b (uuid k) None key).
Proof.
  intros Hq Hnul Hsize Hall Hknul Htot Hw Hf db ids Hcf Hok Hnd Hfr.
  destruct (encode_items_ok 0 0 items Hall) as [enc Henc]; [lia|].
  destruct (encode_items_spec _ _ _ _ Henc) as [Hlen Hspec].
  set (ns := batch_rows (pusher_queue p) enc ids).
  assert (Hids : length ids = length items) by (unfold ids; by rewrite length_fmap, length_seq).
  pose proof (batch_rows_valid (pusher_queue p) items enc ids Henc) as Hinv. fold ns in Hinv.
  assert (Hns : length ns = length items).
  { rewrite <- Hids, <- (length_fmap nr_public_id ns). unfold ns. by rewrite batch_rows_ids by congruence. }
  destruct (insert_stmt_ok conn ns rt db) as (new & next & Hi & Hin); try done.
  { apply Forall_forall. intros n (k & v & key & b & Hit & _ & _ & _ & -> & _)%Hinv.
    split; [done|]. simpl. destruct key as [k0|]; [|done]. eapply Hknul, list_elem_of_lookup_2, Hit. }
  { intros n (k & v & key & b & ? & ? & ? & ? & -> & _)%Hinv. apply new_row_check; simpl; (done || lia). }
  { unfold ns. by rewrite batch_rows_ids by congruence. }
  { intros n (k & v & key & b & _ & _ & _ & _ & _ & Hu)%Hinv. by apply Hfr. }
  destruct (inserted_eq _ _ _ _ _ Hok Hin) as [-> ->].
  exists (new_rows (now_in conn rt db) ns (next_id db)). split.
  - unfold push_batch. apply validate_queue_ok in Hq as ->. rewrite !decide_False by lia.
    rewrite Henc. unfold mcompose, sql. rewrite Hw, Hf. fold db ids ns.
    rewrite Hi. cbv iota beta. unfold mreturn. rewrite Hns, <- Hids. by rewrite decide_True.
  - intros i r. rewrite new_rows_lookup. split.
    + intros (k & n & -> & Hn & ->). unfold ns, batch_rows in Hn.
      apply lookup_zip_with_Some in Hn as ([b key] & u & -> & He & Hu).
      destruct (lookup_lt_is_Some_2 items k) as [[v key'] Hit]; [rewrite <- Hlen; by eapply lookup_lt_Some|].
      destruct (Hspec _ _ _ Hit) as (b' & Hb' & He' & _). rewrite He in He'. simplify_eq.
      exists k, v, key', b'. split_and!; try done. simpl. do 2 f_equal.
      apply list_lookup_fmap_Some in Hu as (k0 & -> & [-> _]%lookup_seq). done.
    + intros (k & v & key & b & Hit & Hb & -> & ->). exists k, (mkNewRow (pusher_queue p) b (uuid k) None key).
      split_and!; try done. destruct (Hspec _ _ _ Hit) as (b' & Hb' & He & _).
      rewrite Hb in Hb'. injection Hb' as <-. apply batch_rows_lookup; [done|]. unfold ids.
      rewrite list_lookup_fmap, lookup_seq_lt; [done|]. by eapply lookup_lt_Some.
Qed.

(** The errors of validation and those that come from the server; [BatchPartial] is
    neither. *)
Definition validation_error (e : PushError) : bool :=
  match e with Constraint _ | Transient _ | BatchPartial _ _ => false | _ => true end.
Definition db_error (e : PushError) : bool :=
  match e with Constraint _ | Transient _ => true | _ => false end.

Lemma push_error_from_db e : db_error (push_error_from e) = true.
Proof. destruct e as [| | | | | | | | |[c|]| | | |]; simpl; try done. by destruct (starts_with _ _). Qed.

Lemma encode_one_error v i e : encode_one v i = Err e -> validation_error e = true.
Proof. unfold encode_one. destruct (encode v); repeat case_decide; by intros [= <-]. Qed.

Lemma validate_key_error k e : validate_concurrency_key k = Err e -> validation_error e = true.
Proof. destruct k; simpl; [case_decide|]; by intros [= <-]. Qed.

Lemma encode_items_error i total items e : encode_items i total items = Err e -> validation_error e = true.
Proof.
  revert i total. induction items as [|[v key] items IH]; intros i total; simpl; [done|].
  destruct (validate_concurrency_key key) eqn:Hk; [|intros [= <-]; by eapply validate_key_error].
  destruct (encode_one v i) eqn:He; [|intros [= <-]; by eapply encode_one_error].
  case_decide; [by intros [= <-]|]. destruct (encode_items _ _ _) eqn:Hi; [done|].
  intros [= <-]. by eapply IH.
Qed.

Lemma sql_insert_cases conn ns w :
  let '(r, w') := sql (insert_stmt conn ns) w in
  (exists e, r = Err e) \/
  (r = Ok (Z.of_nat (length ns)) /\
   exists rt script, w_script w = rt :: script /\ rt_fault rt = NoFault /\
     insert_stmt conn ns rt (rt_env rt (w_db w)) = (r, w_db w')).
Proof.
  unfold sql. destruct (w_script w) as [|rt script] eqn:Hs; [eauto|].
  destruct (rt_fault rt) eqn:Hf; [|eauto..].
  destruct (insert_stmt conn ns rt (rt_env rt (w_db w))) as [[a|e] db'] eqn:Hi; [right|eauto].
  destruct (insert_stmt_inv _ _ _ _ _ _ Hi) as [-> _]. eauto 10.
Qed.

(** C29: Whatever the connection does, [push_batch] either returns one id per item, or a
    validation error without having contacted the server, or a server error; the
    partial insert its last check guards against cannot happen. *)
Theorem push_batch_outcome p conn uuid items w :
  match push_batch p conn uuid items w with
  | (Ok ids, _) => ids = uuid <$> seq 0 (length items)
  | (Err e, w') => (validation_error e = true /\ w' = w) \/ db_error e = true
  end.
Proof.
  unfold push_batch. destruct (validate_queue p) as [u|e] eqn:Hq.
  2: { revert Hq. unfold validate_queue. case_decide; intros; simplify_eq/=; auto. }
  case_decide; [simpl; auto|]. case_decide; [simpl; auto|].
  destruct (encode_items 0 0 items) as [enc|e] eqn:He;
    [|simpl; eauto using encode_items_error].
  unfold mcompose. pose proof (sql_insert_cases conn
    (batch_rows (pusher_queue p) enc (uuid <$> seq 0 (length items))) w) as Hc.
  destruct (sql _ w) as [r w']. destruct Hc as [[e ->]|[-> _]]; simpl.
  - right. apply push_error_from_db.
  - assert (length (batch_rows (pusher_queue p) enc (uuid <$> seq 0 (length items)))
            = length (uuid <$> seq 0 (length items))) as ->; [|by rewrite decide_True].
    rewrite <- (length_fmap nr_public_id), batch_rows_ids; [done|].
    destruct (encode_items_spec _ _ _ _ He) as [-> _]. by rewrite length_fmap, length_seq.
Qed.

(** The codec error of the first item of a batch is reported without its index, as
    [Codec]. *)
Theorem push_batch_first_codec_error p conn uuid v key items e w :
  validate_queue p = Ok tt -> validate_concurrency_key key = Ok tt -> encode v = Err e ->
  Z.of_nat (length ((v, key) :: items)) <= MAX_BATCH_SIZE ->
  push_batch p conn uuid ((v, key) :: items) w = (Err (CodecError e), w).
Proof.
  intros Hq Hk He Hlen. unfold push_batch. rewrite Hq, !decide_False by (simpl in *; lia).
  cbn [encode_items]. rewrite Hk. unfold encode_one. by rewrite He.
Qed.

(** [push_at] with a time before the server's clock is refused by the temporal CHECK: a
    non-retriable error, no row is added, and a transaction around it has failed. *)
Theorem push_at_past_rejected p conn uuid v at_ key bytes w rt script :
  1 <= chars_count (pusher_queue p) <= MAX_QUEUE_LEN -> 0 ∉ pusher_queue p ->
  validate_concurrency_key key = Ok tt -> (forall k, key = Some k -> 0 ∉ k) ->
  encode v = Ok bytes -> Z.of_nat (length bytes) <= MAX_PAYLOAD_BYTES ->
  w_script w = rt :: script -> rt_fault rt = NoFault ->
  let db := rt_env rt (w_db w) in
  conn_failed conn db = false -> at_ < now_in conn rt db ->
  push_at p conn uuid v at_ key w =
    (Err (Constraint check_violation), mkWorld (fail_stmt conn (next_id db + 1) db) script (w_log w)) /\
  is_retriable (Constraint check_violation) = false.
Proof.
  intros Hq Hnul Hk Hknul He Hlen Hw Hf db Hcf Hat. split; [|done]. unfold push_at.
  apply validate_queue_ok in Hq as ->. rewrite Hk. unfold encode_one.
  rewrite He, decide_False by lia. unfold mcompose, sql. rewrite Hw, Hf. fold db.
  unfold insert_stmt, bound_insert. rewrite Hcf, bind_news_ok.
  2: { repeat constructor; [done|]. simpl. destruct key; eauto. }
  cbv iota. unfold pg_insert. cbn [insert_rows].
  assert (check_row (row_of_new (now_in conn rt db)
            (mkNewRow (pusher_queue p) bytes uuid (Some at_) key)) = false) as ->; [|done].
  rewrite check_row_split. unfold jobs_temporal. simpl.
  rewrite (bool_decide_false (now_in conn rt db <= at_)) by lia. by rewrite !andb_false_r.
Qed.

(** A concurrency key of an admissible length that holds a NUL character is refused by the
    server on every call, and every call reports an error for which [is_retriable] is true;
    a transaction around it has failed. *)
Theorem push_nul_key_rejected p conn uuid v k bytes w rt script :
  1 <= chars_count (pusher_queue p) <= MAX_QUEUE_LEN -> 0 ∉ pusher_queue p ->
  1 <= chars_count k <= MAX_CONCURRENCY_KEY_LEN -> 0 ∈ k ->
  encode v = Ok bytes -> Z.of_nat (length bytes) <= MAX_PAYLOAD_BYTES ->
  w_script w = rt :: script -> rt_fault rt = NoFault ->
  let db := rt_env rt (w_db w) in
  conn_failed conn db = false ->
  push p conn uuid v (Some k) w =
    (Err (Transient character_not_in_repertoire), mkWorld (fail_stmt conn (next_id db) db) script (w_log w)) /\
  is_retriable (Transient character_not_in_repertoire) = true.
Proof.
  intros Hq Hnul Hk Hknul He Hlen Hw Hf db Hcf. split; [|done]. unfold push.
  apply validate_queue_ok in Hq as ->. apply validate_key_ok in Hk as ->. unfold encode_one.
  rewrite He, decide_False by lia. unfold mcompose, sql. rewrite Hw, Hf. fold db.
  unfold insert_stmt, bound_insert. rewrite Hcf. simpl. unfold bind_new. simpl.
  rewrite bind_text_ok by done. unfold bind_text. by rewrite decide_True.
Qed.

(** C27: Round trip.  Once [push] has returned an id, its row is in the table, or in the open
    transaction of the caller; whatever any session does afterwards, a claim that returns
    the row hands out the pushed queue, key and id, and the codec decodes its payload to the
    value that was pushed. *)
Theorem push_claim_roundtrip `{!PgEngine, !SqlxInterval} p conn uuid v key w w' :
  (forall b, encode v = Ok b -> decode b = DecodeOk v) ->
  Forall (fun rt => forall db, db_steps db (rt_env rt db)) (w_script w) ->
  db_ok (w_db w) -> push p conn uuid v key w = (Ok uuid, w') ->
  exists i r, status r = Queued /\
    (jobs (w_db w') !! i = Some r \/ uncommitted (w_db w') !! i = Some (conn, r)) /\
    forall db2 q n lease max hr rt rows db3 r',
    db_steps (w_db w') db2 ->
    claim_stmt q n lease max hr rt db2 = (Ok rows, db3) -> (i, r') ∈ rows ->
    decode (payload r') = DecodeOk v /\ public_id r' = uuid /\ queue r' = pusher_queue p /\
    concurrency_key r' = key.
Proof.
  intros Hcodec Henv Hok. unfold push.
  destruct (validate_queue p) as [u|]; [|done].
  destruct (validate_concurrency_key key) as [u'|]; [|done].
  destruct (encode_one v 0) as [bytes|] eqn:He; [|done]. apply encode_one_inv in He as [He _].
  set (n0 := mkNewRow _ _ _ _ _). unfold mcompose.
  pose proof (sql_insert_cases conn [n0] w) as Hc.
  pose proof (guarantee_sql db_steps (insert_stmt conn [n0]) (insert_step conn [n0]) w Henv) as [Hg _].
  destruct (sql (insert_stmt conn [n0]) w) as [r w1] eqn:Hsql. intros [= Hr ->].
  destruct Hc as [[e ->]|[-> (rt0 & script & Hs & Hf & Hi)]]; [done|].
  assert (Hok' : db_ok (w_db w')) by (by eapply db_steps_ok).
  assert (Hok0 : db_ok (rt_env rt0 (w_db w))).
  { rewrite Hs in Henv. apply Forall_cons in Henv as [Henv _]. eauto using db_steps_ok. }
  pose proof (insert_one_where _ _ _ _ _ _ Hok0 Hi) as Hwhere.
  set (row := row_of_new _ n0) in Hwhere.
  exists (next_id (rt_env rt0 (w_db w))), row. split_and!; [done|done|].
  intros db2 q n lease max hr rt rows db3 r' Hsteps (us & _ & _ & Hcl)%claim_stmt_inv Hinr. destruct (cr_rows _ _ _ _ _ _ _ _ _ Hcl _ _ Hinr)
    as (r2 & Hr2 & _ & _ & -> & _). simpl.
  assert (Hsame : same_job row r2).
  { destruct Hwhere as [Hw|Hw].
    - by apply (db_steps_same _ _ _ _ _ Hsteps Hok' Hw Hr2).
    - by apply (db_steps_commit _ _ _ _ _ _ Hsteps Hok' Hw Hr2). }
  destruct Hsame as (-> & -> & -> & _ & ->). simpl. auto.
Qed.
End pusher.
