(* ===== verification/Enqueue.v ===== *)
(** Enqueueing from the caller's own transaction: the promise of [src/pusher.rs] and of the
    README that the job insert commits atomically with the caller's other writes, or rolls
    back together with them. *)
From S2P Require Import Prelude Duration Errors Schema Lifecycle Transition Exec Session Mark Job Claim Pusher.

Section enqueue.
Context {T : Type} `{!Codec T}.

(** A call of one of the three methods, with the values [Uuid::now_v7()] returns in it. *)
Inductive PushCall : Type :=
| CallPush (uuid : Uuid) (v : T) (key : option (list Z))
| CallPushAt (uuid : Uuid) (v : T) (at_ : Z) (key : option (list Z))
| CallPushBatch (uuid : nat -> Uuid) (items : list (T * option (list Z))).

Definition one_id (r : result Uuid PushError) : result (list Uuid) PushError :=
  let? u := r in Ok [u].

Definition run_call (p : Pusher) (conn : Z) (c : PushCall) : M (result (list Uuid) PushError) :=
  match c with
  | CallPush uuid v key => let! r := push p conn uuid v key in mreturn (one_id r)
  | CallPushAt uuid v at_ key => let! r := push_at p conn uuid v at_ key in mreturn (one_id r)
  | CallPushBatch uuid items => push_batch p conn uuid items
  end.

(** The rows a call asks for. *)
Definition call_rows (p : Pusher) (c : PushCall) : list NewRow :=
  match c with
  | CallPush uuid v key =>
      match encode v with Ok b => [mkNewRow (pusher_queue p) b uuid None key] | Err _ => [] end
  | CallPushAt uuid v at_ key =>
      match encode v with Ok b => [mkNewRow (pusher_queue p) b uuid (Some at_) key] | Err _ => [] end
  | CallPushBatch uuid items =>
      match encode_items 0 0 items with
      | Ok enc => batch_rows (pusher_queue p) enc (uuid <$> seq 0 (length items))
      | Err _ => []
      end
  end.

Definition answers (rt : RoundTrip) : Prop := rt_fault rt = NoFault /\ forall db, rt_env rt db = db.

(** A call is refused before it reaches the server, or is its INSERT. *)
Lemma run_call_cases p conn c db rt log :
  answers rt ->
  (exists e, validation_error e = true /\
     run_call p conn c (mkWorld db [rt] log) = (Err e, mkWorld db [rt] log)) \/
  run_call p conn c (mkWorld db [rt] log) =
    let '(r, db') := insert_stmt conn (call_rows p c) rt db in
    (match r with Ok _ => Ok (nr_public_id <$> call_rows p c) | Err e => Err (push_error_from e) end,
     mkWorld db' [] log).
Proof.
  intros [Hf Henv].
  assert (Hq : forall e, validate_queue p = Err e -> validation_error e = true).
  { unfold validate_queue. case_decide; by intros e [= <-]. }
  destruct c as [uuid v key|uuid v at_ key|uuid items]; simpl; unfold mcompose.
  1,2: unfold push, push_at; destruct (validate_queue p) as [u|e]; [|left; exists e; auto];
    destruct (validate_concurrency_key key) as [u'|e] eqn:Hk; [|left; exists e; eauto using validate_key_error];
    destruct (encode_one v 0) as [b|e] eqn:He; [|left; exists e; eauto using encode_one_error];
    right; apply encode_one_inv in He as [-> _]; unfold mcompose, sql; simpl; rewrite Hf, Henv;
    by destruct (insert_stmt _ _ _ _) as [[a|e] db'].
  unfold push_batch. destruct (validate_queue p) as [u|e]; [|left; exists e; auto].
  case_decide; [left; by exists BatchEmpty|]. case_decide; [left; by exists (BatchTooLarge (Z.of_nat (length items)) MAX_BATCH_SIZE)|].
  destruct (encode_items 0 0 items) as [enc|e] eqn:He; [|left; exists e; eauto using encode_items_error].
  right. unfold mcompose, sql. simpl. rewrite Hf, Henv.
  set (ids := uuid <$> seq 0 (length items)). set (ns := batch_rows (pusher_queue p) enc ids).
  assert (Hids : nr_public_id <$> ns = ids).
  { unfold ns. rewrite batch_rows_ids; [done|]. destruct (encode_items_spec _ _ _ _ He) as [-> _].
    unfold ids. by rewrite length_fmap, length_seq. }
  destruct (insert_stmt conn ns rt db) as [[a|e] db'] eqn:Hi; [|done].
  apply insert_stmt_inv in Hi as [-> _]. unfold mreturn. rewrite Hids.
  rewrite decide_True; [done|]. by rewrite <- Hids, length_fmap.
Qed.

(** A transaction of the session [conn], from its BEGIN at [t0] on: [pushed] are the rows of
    the calls that returned ids, [ids] those ids in order, [ok] that no call came back with
    an error of the server; other sessions do what they like, except with this session. *)
Inductive in_tx (p : Pusher) (conn t0 : Z) : list NewRow -> list Uuid -> bool -> Db -> Prop :=
| it_begin rt db :
    db_ok db -> open_txs db !! conn = None -> rt_now rt = t0 ->
    in_tx p conn t0 [] [] true (begin_stmt conn rt db).2
| it_returned pushed ids ok db c rt new w' :
    in_tx p conn t0 pushed ids ok db -> answers rt ->
    run_call p conn c (mkWorld db [rt] []) = (Ok new, w') ->
    in_tx p conn t0 (pushed ++ call_rows p c) (ids ++ new) ok (w_db w')
| it_invalid pushed ids ok db c rt e w' :
    in_tx p conn t0 pushed ids ok db -> answers rt ->
    run_call p conn c (mkWorld db [rt] []) = (Err e, w') -> validation_error e = true ->
    in_tx p conn t0 pushed ids ok (w_db w')
| it_refused pushed ids ok db c rt e w' :
    in_tx p conn t0 pushed ids ok db -> answers rt ->
    run_call p conn c (mkWorld db [rt] []) = (Err e, w') -> validation_error e = false ->
    in_tx p conn t0 pushed ids false (w_db w')
| it_others pushed ids ok db db' :
    in_tx p conn t0 pushed ids ok db -> db_steps db db' ->
    open_txs db' !! conn = open_txs db !! conn ->
    rows_of conn (uncommitted db') = rows_of conn (uncommitted db) ->
    in_tx p conn t0 pushed ids ok db'.

(** What the server holds for the transaction. *)
Record tx_holds (conn t0 : Z) (pushed : list NewRow) (ids : list Uuid) (ok : bool) (db : Db) : Prop := mkTxHolds {
  th_db : db_ok db;
  th_open : open_txs db !! conn = Some (mkTx t0 (negb ok));
  th_ids : ids = nr_public_id <$> pushed;
  th_rows : exists keys, NoDup keys /\ length keys = length pushed /\
    rows_of conn (uncommitted db) =
      if ok then list_to_map (zip keys (row_of_new t0 <$> pushed)) else ∅;
}.

Lemma tx_holds_begin conn t0 rt db :
  db_ok db -> open_txs db !! conn = None -> rt_now rt = t0 ->
  tx_holds conn t0 [] [] true (begin_stmt conn rt db).2.
Proof.
  intros Hok Hno <-. pose proof (session_step conn OpBegin rt db) as Hs. simpl in *. rewrite Hno in *.
  split; [by eapply db_steps_ok|by apply lookup_insert_eq|done|].
  exists []. split_and!; [constructor|done|]. simpl. apply map_empty. intros i. apply eq_None_not_Some.
  intros [r Hr%rows_of_lookup]. destruct (dk_uncommitted _ Hok _ _ _ Hr) as (_ & _ & _ & tx & ? & _). congruence.
Qed.

(** The keys of a transaction come before those the sequence has yet to give. *)
Lemma tx_keys_old conn t0 pushed (db : Db) keys i :
  db_ok db -> NoDup keys -> length keys = length pushed ->
  rows_of conn (uncommitted db) = list_to_map (zip keys (row_of_new t0 <$> pushed)) ->
  i ∈ keys -> i < next_id db /\ jobs db !! i = None.
Proof.
  intros Hok Hnd Hlen Hrows [k Hk]%list_elem_of_lookup.
  destruct (lookup_lt_is_Some_2 pushed k) as [n Hn]; [rewrite <- Hlen; by eapply lookup_lt_Some|].
  assert (Hr : rows_of conn (uncommitted db) !! i = Some (row_of_new t0 n)).
  { rewrite Hrows. apply elem_of_list_to_map_1; [rewrite fst_zip; [done|by rewrite length_fmap, Hlen]|].
    apply elem_of_lookup_zip_with. exists k, i, (row_of_new t0 n). by rewrite list_lookup_fmap, Hn. }
  apply rows_of_lookup in Hr. by destruct (dk_uncommitted _ Hok _ _ _ Hr) as (? & ? & _).
Qed.

Lemma tx_holds_insert conn t0 pushed ids ok db ns rt a db' :
  tx_holds conn t0 pushed ids ok db -> insert_stmt conn ns rt db = (Ok a, db') ->
  tx_holds conn t0 (pushed ++ ns) (ids ++ (nr_public_id <$> ns)) ok db'.
Proof.
  intros [Hok Hopen -> (keys & Hnd & Hlen & Hrows)] Hi.
  pose proof (insert_step conn ns rt db) as Hs. rewrite Hi in Hs. pose proof (db_steps_ok _ _ Hs Hok) as Hok'.
  apply insert_stmt_inv in Hi as (_ & Hf & new & next & -> & Hin).
  pose proof (rows_of_add _ _ _ _ _ _ _ Hopen Hin) as Hadd.
  destruct (inserted_eq _ _ _ _ _ Hok Hin) as [-> ->]. unfold conn_failed in Hf. rewrite Hopen in Hf.
  destruct ok; [|done]. unfold now_in in *. rewrite Hopen in *. simpl tx_start in *.
  split; [done|by unfold add_rows; rewrite Hopen|by rewrite fmap_app|].
  set (new := seqZ (next_id db) (Z.of_nat (length ns))). exists (keys ++ new). split_and!.
  - apply NoDup_app. split_and!; [done| |apply NoDup_seqZ]. intros i Hi [? _]%elem_of_seqZ.
    destruct (tx_keys_old _ _ _ _ _ i Hok Hnd Hlen Hrows Hi). lia.
  - rewrite !length_app, Hlen. unfold new. rewrite length_seqZ. lia.
  - rewrite Hadd, Hrows, fmap_app, zip_with_app, list_to_map_app; [done|by rewrite length_fmap].
Qed.

Lemma tx_holds_refused conn t0 pushed ids ok db ns rt e db' :
  tx_holds conn t0 pushed ids ok db -> insert_stmt conn ns rt db = (Err e, db') ->
  tx_holds conn t0 pushed ids false db'.
Proof.
  intros [Hok Hopen Hids (keys & Hnd & Hlen & Hrows)] Hi.
  pose proof (insert_step conn ns rt db) as Hs. rewrite Hi in Hs. pose proof (db_steps_ok _ _ Hs Hok) as Hok'.
  revert Hi. unfold insert_stmt, conn_failed, fail_stmt. rewrite Hopen. simpl. destruct ok; simpl.
  - destruct (bound_insert _ ns db) as [[new|e'] next]; [done|]. intros [= _ <-].
    split; [done|by apply lookup_insert_eq|done|]. exists keys. split_and!; [done|done|apply rows_of_without].
  - intros [= _ <-]. split; [done|done|done|]. by exists keys.
Qed.

Lemma in_tx_holds p conn t0 pushed ids ok db :
  in_tx p conn t0 pushed ids ok db -> tx_holds conn t0 pushed ids ok db.
Proof.
  induction 1 as [rt db ? ? ?|pushed ids ok db c rt new w' _ IH Ha Hc|pushed ids ok db c rt e w' _ IH Ha Hc He
    |pushed ids ok db c rt e w' _ IH Ha Hc He|pushed ids ok db db' _ IH Hs Ho Hr].
  - by apply tx_holds_begin.
  - destruct (run_call_cases p conn c db rt [] Ha) as [(e & _ & Hv)|Hi]; [congruence|]. rewrite Hi in Hc.
    destruct (insert_stmt conn (call_rows p c) rt db) as [[a|e] db'] eqn:Hins; [|done].
    injection Hc as <- <-. by eapply tx_holds_insert.
  - destruct (run_call_cases p conn c db rt [] Ha) as [(e' & _ & Hv)|Hi]; [by rewrite Hv in Hc; injection Hc as _ <-|].
    rewrite Hi in Hc. destruct (insert_stmt conn (call_rows p c) rt db) as [[a|e'] db'] eqn:Hins; [done|].
    injection Hc as <- <-. pose proof (push_error_from_db e') as Hdb. by destruct (push_error_from e').
  - destruct (run_call_cases p conn c db rt [] Ha) as [(e' & Hv' & Hv)|Hi]; [congruence|].
    rewrite Hi in Hc. destruct (insert_stmt conn (call_rows p c) rt db) as [[a|e'] db'] eqn:Hins; [done|].
    injection Hc as <- <-. by eapply tx_holds_refused.
  - destruct IH as [Hok Hopen Hids (keys & ? & ? & ?)]. split; [by eapply db_steps_ok|congruence|done|].
    exists keys. split_and!; [done|done|congruence].
Qed.

(** C17: Enqueueing is transactional: until the caller's transaction ends, none of the jobs it pushed is
    visible to any statement of the queue; COMMIT makes visible exactly the jobs whose ids
    the calls returned, all at once, created and due at the start of the transaction (or at
    the time given to [push_at]), unless a call came back with an error of the server: then,
    as after ROLLBACK, none of them ever exists.  A call refused by validation does not harm
    the transaction. *)
Theorem transactional_enqueue p conn t0 pushed ids ok db rt :
  in_tx p conn t0 pushed ids ok db ->
  ids = nr_public_id <$> pushed /\
  exists keys db', NoDup keys /\ length keys = length pushed /\
    (ok = true -> forall i, i ∈ keys -> jobs db !! i = None) /\
    commit_stmt conn rt db = (Ok ok, db') /\
    jobs db' = (if ok then jobs db ∪ list_to_map (zip keys (row_of_new t0 <$> pushed)) else jobs db) /\
    jobs (rollback_stmt conn rt db).2 = jobs db /\
    open_txs db' !! conn = None /\ rows_of conn (uncommitted db') = ∅.
Proof.
  intros [Hok Hopen Hids (keys & Hnd & Hlen & Hrows)]%in_tx_holds. split; [done|].
  unfold commit_stmt. rewrite Hopen. exists keys. destruct ok; simpl; eexists; split_and!; try done.
  - intros _ i Hi. by eapply tx_keys_old.
  - by rewrite Hrows.
  - apply lookup_delete_eq.
  - apply rows_of_without.
  - apply lookup_delete_eq.
  - apply rows_of_without.
Qed.
End enqueue.
