(* ===== verification/KeySlot.v ===== *)
(** [src/key_slot.rs]: the per-key counter of live tasks and the guard that owns a slot. *)
From S2P Require Import Prelude.

(** [Arc<Mutex<HashMap<String, u32>>>]; every guard of a worker shares the one counter. *)
Record ConcurrencyCounter : Type := mkCounter {
  live : gmap (list Z) Z;
  poisoned : bool;
}.

(** [Worker::start]: every configured key starts at 0. *)
Definition start_counter (limits : gmap (list Z) Z) : ConcurrencyCounter :=
  mkCounter ((fun _ => 0) <$> limits) false.

(** [map.get(key).copied().unwrap_or(0)]. *)
Definition live_count (c : ConcurrencyCounter) (k : list Z) : Z := default 0 (live c !! k).

(** A guard: the key whose slot it owns, if any. *)
Record KeySlotGuard : Type := mkGuard { slot : option (list Z) }.

Definition acquire (c : ConcurrencyCounter) (key : list Z) : KeySlotGuard * ConcurrencyCounter :=
  if poisoned c then (mkGuard None, c)
  else (mkGuard (Some key),
        mkCounter (<[key := u32_saturating_add (live_count c key) 1]> (live c)) (poisoned c)).

Definition no_slot : KeySlotGuard := mkGuard None.

Definition drop_guard (g : KeySlotGuard) (c : ConcurrencyCounter) : ConcurrencyCounter :=
  match slot g with
  | None => c
  | Some key =>
      if poisoned c then c else
      match live c !! key with
      | None => c
      | Some n => mkCounter (<[key := u32_saturating_sub n 1]> (live c)) (poisoned c)
      end
  end.

(** * Facts *)

Definition owns (k : list Z) (g : KeySlotGuard) : Prop := slot g = Some k.
#[global] Instance owns_dec k g : Decision (owns k g).
Proof. unfold owns. apply _. Defined.

(** The number of slots of key [k] that live guards own. *)
Definition slots (k : list Z) (gs : list KeySlotGuard) : Z := Z.of_nat (length (filter (owns k) gs)).

(** The counter agrees with the live guards. *)
Record counter_ok (c : ConcurrencyCounter) (gs : list KeySlotGuard) : Prop := {
  co_healthy : poisoned c = false;
  co_count : forall k, live_count c k = slots k gs;
}.

Lemma slots_nil k : slots k [] = 0.
Proof. done. Qed.

Lemma slots_cons k g gs : slots k (g :: gs) = (if decide (slot g = Some k) then 1 else 0) + slots k gs.
Proof.
  unfold slots. destruct (decide (slot g = Some k)) as [H|H].
  - rewrite filter_cons_True by done. simpl. lia.
  - rewrite filter_cons_False by done. lia.
Qed.

Lemma slots_app k gs1 gs2 : slots k (gs1 ++ gs2) = slots k gs1 + slots k gs2.
Proof. unfold slots. rewrite filter_app, length_app. lia. Qed.

Lemma slots_bound k gs : 0 <= slots k gs <= Z.of_nat (length gs).
Proof. unfold slots. pose proof (length_filter (owns k) gs). lia. Qed.

#[export] Instance slots_perm k : Proper ((≡ₚ) ==> eq) (slots k).
Proof. intros gs gs' Hp. unfold slots. by rewrite Hp. Qed.

#[export] Instance counter_ok_perm c : Proper ((≡ₚ) ==> iff) (counter_ok c).
Proof.
  intros gs gs' Hp. split; intros [Hh Hc]; split; try done; intros k; rewrite Hc; by rewrite Hp.
Qed.

Lemma counter_ok_start limits : counter_ok (start_counter limits) [].
Proof.
  split; [done|]. intros k. unfold live_count. simpl. rewrite lookup_fmap. by destruct (limits !! k).
Qed.

Lemma counter_ok_none c gs : counter_ok c gs -> counter_ok c (no_slot :: gs).
Proof.
  intros [Hh Hc]. split; [done|]. intros k. rewrite slots_cons, decide_False by done. apply Hc.
Qed.

Lemma counter_ok_acquire c gs key :
  counter_ok c gs -> Z.of_nat (length gs) < u32_max ->
  counter_ok (acquire c key).2 ((acquire c key).1 :: gs) /\ slot (acquire c key).1 = Some key.
Proof.
  intros [Hh Hc] Hlen. unfold acquire. rewrite Hh. split; [|done]. split; [done|]. intros k.
  rewrite slots_cons. simpl. unfold live_count at 1. simpl.
  destruct (decide (key = k)) as [->|Hne].
  - rewrite lookup_insert_eq, decide_True by done. simpl. unfold u32_saturating_add.
    rewrite Hc. pose proof (slots_bound k gs). lia.
  - rewrite lookup_insert_ne, decide_False by congruence. apply Hc.
Qed.

Lemma counter_ok_drop c g gs : counter_ok c (g :: gs) -> counter_ok (drop_guard g c) gs.
Proof.
  intros [Hh Hc]. unfold drop_guard. destruct (slot g) as [key|] eqn:Hg.
  - rewrite Hh. pose proof (Hc key) as Hk. rewrite slots_cons, decide_True in Hk by done.
    pose proof (slots_bound key gs). unfold live_count in Hk.
    destruct (live c !! key) as [n|] eqn:Hn; simpl in Hk; [|lia].
    split; [done|]. intros k. unfold live_count. simpl.
    destruct (decide (key = k)) as [->|Hne].
    + rewrite lookup_insert_eq. simpl. unfold u32_saturating_sub. lia.
    + rewrite lookup_insert_ne by done. specialize (Hc k).
      rewrite slots_cons, decide_False in Hc by congruence. done.
  - split; [done|]. intros k. rewrite Hc, slots_cons, decide_False by congruence. done.
Qed.

(** Any interleaving of tasks starting and ending on one worker.  A guard is dropped when its task
    returns, panics or is aborted: all three are [slot_drop]. *)
Inductive slot_step : ConcurrencyCounter * list KeySlotGuard -> ConcurrencyCounter * list KeySlotGuard -> Prop :=
| slot_acquire c gs key :
    Z.of_nat (length gs) < u32_max ->
    slot_step (c, gs) ((acquire c key).2, (acquire c key).1 :: gs)
| slot_none c gs : slot_step (c, gs) (c, no_slot :: gs)
| slot_drop c g gs1 gs2 : slot_step (c, gs1 ++ g :: gs2) (drop_guard g c, gs1 ++ gs2).

Lemma counter_ok_step s1 s2 : slot_step s1 s2 -> counter_ok s1.1 s1.2 -> counter_ok s2.1 s2.2.
Proof.
  intros Hs Hok. destruct Hs as [c1 gs1 key Hlen|c1 gs1|c1 g gs1 gs2]; simpl in *.
  - by apply counter_ok_acquire.
  - by apply counter_ok_none.
  - apply counter_ok_drop. by rewrite Permutation_middle.
Qed.

Lemma counter_ok_steps s1 s2 : rtc slot_step s1 s2 -> counter_ok s1.1 s1.2 -> counter_ok s2.1 s2.2.
Proof. induction 1; eauto using counter_ok_step. Qed.

(** In every reachable state of a worker, the counter of a key is the number of live tasks
    that own a slot of that key, whatever the order in which tasks start and end; with
    no task left it is zero. *)
Theorem counter_counts_live_tasks limits c gs k :
  rtc slot_step (start_counter limits, []) (c, gs) ->
  live_count c k = slots k gs /\ (gs = [] -> live_count c k = 0).
Proof.
  intros [_ Hc]%counter_ok_steps; [|apply counter_ok_start]. simpl in Hc. rewrite Hc.
  split; [done|]. by intros ->.
Qed.
