(* ===== verification/Builder.v ===== *)
(** The builder of [src/worker.rs]: its knobs with their defaults, and [build], which
    turns them into a [Worker] or rejects them.

    A [PgPool] is seen through [options().get_max_connections()], a
    [CancellationToken] through [is_cancelled()]; the codec is the instance in
    context where a worker runs. *)
From S2P Require Import Prelude F64 Duration Errors Backoff Reaper.

Definition MIN_RETRY_IN : Duration := from_millis 100.
Definition MAX_RETRY_IN : Duration := from_secs (24 * 3600).
Definition MIN_LEASE_TIMEOUT : Duration := from_secs 1.
Definition DEFAULT_LEASE_TIMEOUT : Duration := from_secs 30.
Definition DEFAULT_MAX_ATTEMPTS : Z := 3.
Definition DEFAULT_BATCH_SIZE : Z := 32.
Definition BATCH_SIZE_MIN : Z := 1.
Definition BATCH_SIZE_MAX : Z := 1000.
Definition DEFAULT_POLL_INTERVAL : Duration := from_secs 1.

(** [H] is [unit] before [.handler()] and the handler's type after it. *)
Record WorkerBuilder (H : Type) : Type := mkBuilder {
  wb_pool : option Z;
  wb_queue : option (list Z);
  wb_max_attempts : Z;
  wb_lease_timeout : Duration;
  wb_batch_size : Z;
  wb_retry_backoff : option BackoffPolicy;
  wb_panic_policy : PanicPolicy;
  wb_poll_interval : Duration;
  wb_concurrency : option Z;
  wb_concurrency_limits : gmap (list Z) Z;
  wb_handler_timeout : option Duration;
  wb_mark_timeout : option Duration;
  wb_reaper_interval : option Duration;
  wb_shutdown_token : option bool;
  wb_handler : H;
}.
Arguments mkBuilder {H} _ _ _ _ _ _ _ _ _ _ _ _ _ _ _.
Arguments wb_pool {H} _.
Arguments wb_queue {H} _.
Arguments wb_max_attempts {H} _.
Arguments wb_lease_timeout {H} _.
Arguments wb_batch_size {H} _.
Arguments wb_retry_backoff {H} _.
Arguments wb_panic_policy {H} _.
Arguments wb_poll_interval {H} _.
Arguments wb_concurrency {H} _.
Arguments wb_concurrency_limits {H} _.
Arguments wb_handler_timeout {H} _.
Arguments wb_mark_timeout {H} _.
Arguments wb_reaper_interval {H} _.
Arguments wb_shutdown_token {H} _.
Arguments wb_handler {H} _.

Record Worker (H : Type) : Type := mkWorker {
  wk_pool : Z;
  wk_queue : list Z;
  wk_max_attempts : Z;
  wk_lease_timeout : Duration;
  wk_batch_size : Z;
  wk_retry_backoff : BackoffPolicy;
  wk_panic_policy : PanicPolicy;
  wk_poll_interval : Duration;
  wk_concurrency : Z;
  wk_concurrency_limits : gmap (list Z) Z;
  wk_handler_timeout : Duration;
  wk_mark_timeout : Duration;
  wk_reaper_interval : Duration;
  wk_shutdown_token : option bool;
  wk_handler : H;
}.
Arguments mkWorker {H} _ _ _ _ _ _ _ _ _ _ _ _ _ _ _.
Arguments wk_pool {H} _.
Arguments wk_queue {H} _.
Arguments wk_max_attempts {H} _.
Arguments wk_lease_timeout {H} _.
Arguments wk_batch_size {H} _.
Arguments wk_retry_backoff {H} _.
Arguments wk_panic_policy {H} _.
Arguments wk_poll_interval {H} _.
Arguments wk_concurrency {H} _.
Arguments wk_concurrency_limits {H} _.
Arguments wk_handler_timeout {H} _.
Arguments wk_mark_timeout {H} _.
Arguments wk_reaper_interval {H} _.
Arguments wk_shutdown_token {H} _.
Arguments wk_handler {H} _.

(** [Worker::builder()]. *)
Definition builder_new : WorkerBuilder unit :=
  mkBuilder None None DEFAULT_MAX_ATTEMPTS DEFAULT_LEASE_TIMEOUT DEFAULT_BATCH_SIZE None
    panic_policy_default DEFAULT_POLL_INTERVAL None ∅ None None None None tt.

(** * Setters *)
Section setters.
Context {H : Type}.

Definition with_queue (q : list Z) (b : WorkerBuilder H) : WorkerBuilder H :=
  mkBuilder (wb_pool b) (Some q) (wb_max_attempts b) (wb_lease_timeout b) (wb_batch_size b)
    (wb_retry_backoff b) (wb_panic_policy b) (wb_poll_interval b) (wb_concurrency b)
    (wb_concurrency_limits b) (wb_handler_timeout b) (wb_mark_timeout b) (wb_reaper_interval b)
    (wb_shutdown_token b) (wb_handler b).

Definition with_pool (p : Z) (b : WorkerBuilder H) : WorkerBuilder H :=
  mkBuilder (Some p) (wb_queue b) (wb_max_attempts b) (wb_lease_timeout b) (wb_batch_size b)
    (wb_retry_backoff b) (wb_panic_policy b) (wb_poll_interval b) (wb_concurrency b)
    (wb_concurrency_limits b) (wb_handler_timeout b) (wb_mark_timeout b) (wb_reaper_interval b)
    (wb_shutdown_token b) (wb_handler b).

Definition with_max_attempts (n : Z) (b : WorkerBuilder H) : WorkerBuilder H :=
  mkBuilder (wb_pool b) (wb_queue b) n (wb_lease_timeout b) (wb_batch_size b)
    (wb_retry_backoff b) (wb_panic_policy b) (wb_poll_interval b) (wb_concurrency b)
    (wb_concurrency_limits b) (wb_handler_timeout b) (wb_mark_timeout b) (wb_reaper_interval b)
    (wb_shutdown_token b) (wb_handler b).

Definition with_lease_timeout (d : Duration) (b : WorkerBuilder H) : WorkerBuilder H :=
  mkBuilder (wb_pool b) (wb_queue b) (wb_max_attempts b) d (wb_batch_size b) (wb_retry_backoff
    b) (wb_panic_policy b) (wb_poll_interval b) (wb_concurrency b) (wb_concurrency_limits b)
    (wb_handler_timeout b) (wb_mark_timeout b) (wb_reaper_interval b) (wb_shutdown_token b)
    (wb_handler b).

Definition with_batch_size (n : Z) (b : WorkerBuilder H) : WorkerBuilder H :=
  mkBuilder (wb_pool b) (wb_queue b) (wb_max_attempts b) (wb_lease_timeout b) n
    (wb_retry_backoff b) (wb_panic_policy b) (wb_poll_interval b) (wb_concurrency b)
    (wb_concurrency_limits b) (wb_handler_timeout b) (wb_mark_timeout b) (wb_reaper_interval b)
    (wb_shutdown_token b) (wb_handler b).

Definition with_retry_backoff (p : BackoffPolicy) (b : WorkerBuilder H) : WorkerBuilder H :=
  mkBuilder (wb_pool b) (wb_queue b) (wb_max_attempts b) (wb_lease_timeout b) (wb_batch_size
    b) (Some p) (wb_panic_policy b) (wb_poll_interval b) (wb_concurrency b)
    (wb_concurrency_limits b) (wb_handler_timeout b) (wb_mark_timeout b) (wb_reaper_interval b)
    (wb_shutdown_token b) (wb_handler b).

Definition with_panic_policy (p : PanicPolicy) (b : WorkerBuilder H) : WorkerBuilder H :=
  mkBuilder (wb_pool b) (wb_queue b) (wb_max_attempts b) (wb_lease_timeout b) (wb_batch_size
    b) (wb_retry_backoff b) p (wb_poll_interval b) (wb_concurrency b) (wb_concurrency_limits b)
    (wb_handler_timeout b) (wb_mark_timeout b) (wb_reaper_interval b) (wb_shutdown_token b)
    (wb_handler b).

Definition with_poll_interval (d : Duration) (b : WorkerBuilder H) : WorkerBuilder H :=
  mkBuilder (wb_pool b) (wb_queue b) (wb_max_attempts b) (wb_lease_timeout b) (wb_batch_size
    b) (wb_retry_backoff b) (wb_panic_policy b) d (wb_concurrency b) (wb_concurrency_limits b)
    (wb_handler_timeout b) (wb_mark_timeout b) (wb_reaper_interval b) (wb_shutdown_token b)
    (wb_handler b).

Definition with_concurrency (n : Z) (b : WorkerBuilder H) : WorkerBuilder H :=
  mkBuilder (wb_pool b) (wb_queue b) (wb_max_attempts b) (wb_lease_timeout b) (wb_batch_size
    b) (wb_retry_backoff b) (wb_panic_policy b) (wb_poll_interval b) (Some n)
    (wb_concurrency_limits b) (wb_handler_timeout b) (wb_mark_timeout b) (wb_reaper_interval b)
    (wb_shutdown_token b) (wb_handler b).

Definition with_handler_timeout (d : Duration) (b : WorkerBuilder H) : WorkerBuilder H :=
  mkBuilder (wb_pool b) (wb_queue b) (wb_max_attempts b) (wb_lease_timeout b) (wb_batch_size
    b) (wb_retry_backoff b) (wb_panic_policy b) (wb_poll_interval b) (wb_concurrency b)
    (wb_concurrency_limits b) (Some d) (wb_mark_timeout b) (wb_reaper_interval b)
    (wb_shutdown_token b) (wb_handler b).

Definition with_mark_timeout (d : Duration) (b : WorkerBuilder H) : WorkerBuilder H :=
  mkBuilder (wb_pool b) (wb_queue b) (wb_max_attempts b) (wb_lease_timeout b) (wb_batch_size
    b) (wb_retry_backoff b) (wb_panic_policy b) (wb_poll_interval b) (wb_concurrency b)
    (wb_concurrency_limits b) (wb_handler_timeout b) (Some d) (wb_reaper_interval b)
    (wb_shutdown_token b) (wb_handler b).

Definition with_reaper_interval (d : Duration) (b : WorkerBuilder H) : WorkerBuilder H :=
  mkBuilder (wb_pool b) (wb_queue b) (wb_max_attempts b) (wb_lease_timeout b) (wb_batch_size
    b) (wb_retry_backoff b) (wb_panic_policy b) (wb_poll_interval b) (wb_concurrency b)
    (wb_concurrency_limits b) (wb_handler_timeout b) (wb_mark_timeout b) (Some d)
    (wb_shutdown_token b) (wb_handler b).

Definition with_shutdown_token (t : bool) (b : WorkerBuilder H) : WorkerBuilder H :=
  mkBuilder (wb_pool b) (wb_queue b) (wb_max_attempts b) (wb_lease_timeout b) (wb_batch_size
    b) (wb_retry_backoff b) (wb_panic_policy b) (wb_poll_interval b) (wb_concurrency b)
    (wb_concurrency_limits b) (wb_handler_timeout b) (wb_mark_timeout b) (wb_reaper_interval b)
    (Some t) (wb_handler b).

(** A duplicate key overwrites. *)
Definition with_concurrency_limits (limits : list (list Z * Z)) (b : WorkerBuilder H)
  : WorkerBuilder H :=
  mkBuilder (wb_pool b) (wb_queue b) (wb_max_attempts b) (wb_lease_timeout b) (wb_batch_size
    b) (wb_retry_backoff b) (wb_panic_policy b) (wb_poll_interval b) (wb_concurrency b) (foldl
    (fun m kv => <[kv.1 := kv.2]> m) (wb_concurrency_limits b) limits) (wb_handler_timeout b)
    (wb_mark_timeout b) (wb_reaper_interval b) (wb_shutdown_token b) (wb_handler b).
End setters.

Definition with_handler {H H' : Type} (h : H') (b : WorkerBuilder H) : WorkerBuilder H' :=
  mkBuilder (wb_pool b) (wb_queue b) (wb_max_attempts b) (wb_lease_timeout b) (wb_batch_size
    b) (wb_retry_backoff b) (wb_panic_policy b) (wb_poll_interval b) (wb_concurrency b)
    (wb_concurrency_limits b) (wb_handler_timeout b) (wb_mark_timeout b) (wb_reaper_interval b)
    (wb_shutdown_token b) h.

(** * [build] *)

(** What [build] asks of the platform: the number of CPUs and the iteration order of
    a [HashMap]. *)
Class BuildEnv : Type := {
  available_parallelism : option Z;
  hash_iter : gmap (list Z) Z -> list (list Z * Z);
  hash_iter_perm : forall m, hash_iter m ≡ₚ map_to_list m;
}.

(** [conc_u32.saturating_mul(2).saturating_add(2)]. *)
Definition required_connections (concurrency : Z) : Z :=
  u32_saturating_add (u32_saturating_mul (Z.min concurrency u32_max) 2) 2.

Section build.
Context {H : Type} `{!BuildEnv}.

Definition effective_concurrency (b : WorkerBuilder H) : Z :=
  match wb_concurrency b with
  | Some n => n
  | None => default 4 available_parallelism
  end.

(** The checks up to the pool: the queue, the pool and the concurrency they fix. *)
Definition build_first (b : WorkerBuilder H) : result (list Z * Z * Z) BuildError :=
  let queue := default [] (wb_queue b) in
  if decide (queue = [] \/ MAX_QUEUE_LEN < chars_count queue) then Err (QueueNameInvalid queue) else
  if decide (wb_max_attempts b = 0) then Err MaxAttemptsZero else
  if decide (wb_lease_timeout b < MIN_LEASE_TIMEOUT) then Err LeaseTimeoutBelowFloor else
  if decide (wb_lease_timeout b < saturating_mul MIN_REAPER_INTERVAL 2)
  then Err (LeaseTimeoutTooShortForReaper (wb_lease_timeout b)) else
  if decide (wb_batch_size b < BATCH_SIZE_MIN \/ BATCH_SIZE_MAX < wb_batch_size b)
  then Err (BatchSizeOutOfRange (wb_batch_size b) BATCH_SIZE_MIN BATCH_SIZE_MAX) else
  if decide (wb_poll_interval b < MIN_POLL_INTERVAL) then Err (PollIntervalTooShort MIN_POLL_INTERVAL) else
  if (match checked_mul (wb_poll_interval b) 5 with
      | Some min_lease => bool_decide (wb_lease_timeout b < min_lease)
      | None => false
      end) then Err LeaseTimeoutTooShort else
  match wb_pool b with
  | None => Err PoolMissing
  | Some max_conn =>
      let concurrency := effective_concurrency b in
      if decide (concurrency = 0) then Err ConcurrencyZero else
      let required := required_connections concurrency in
      if decide (max_conn < required) then Err (PoolTooSmall max_conn required) else
      Ok (queue, max_conn, concurrency)
  end.

(** [lease_timeout.mul_f64(0.8).max(MIN_HANDLER_TIMEOUT)]; [None] is a panic. *)
Definition effective_handler_timeout (b : WorkerBuilder H) : option Duration :=
  match wb_handler_timeout b with
  | Some d => Some d
  | None =>
      match mul_f64 (wb_lease_timeout b) (f64_lit 8 10) with
      | None => None
      | Some candidate => Some (Z.max candidate MIN_HANDLER_TIMEOUT)
      end
  end.

Definition lease_budget (b : WorkerBuilder H) (handler_timeout : Duration) : Duration :=
  default 0 (checked_sub (wb_lease_timeout b) handler_timeout).

Definition effective_mark_timeout (b : WorkerBuilder H) (handler_timeout : Duration) : Duration :=
  match wb_mark_timeout b with
  | Some d => d
  | None => default MIN_MARK_TIMEOUT (checked_sub (lease_budget b handler_timeout) (from_secs 1))
  end.

Definition effective_reaper_interval (b : WorkerBuilder H) : Duration :=
  match wb_reaper_interval b with
  | Some d => d
  | None => Z.max (dur_div (wb_lease_timeout b) 4) MIN_REAPER_INTERVAL
  end.

(** The timeouts of a lease. *)
Definition check_timeouts (b : WorkerBuilder H) (handler_timeout : Duration)
  : result (Duration * Duration) BuildError :=
  if decide (handler_timeout < MIN_HANDLER_TIMEOUT)
  then Err (HandlerTimeoutBelowFloor MIN_HANDLER_TIMEOUT) else
  if (match checked_add handler_timeout (from_secs 1) with
      | None => true
      | Some sum => bool_decide (wb_lease_timeout b < sum)
      end) then Err (HandlerTimeoutTooLong handler_timeout (wb_lease_timeout b)) else
  let budget := lease_budget b handler_timeout in
  let mark_timeout := effective_mark_timeout b handler_timeout in
  if decide (mark_timeout < MIN_MARK_TIMEOUT) then Err MarkTimeoutTooShort else
  if decide (budget < mark_timeout) then Err (MarkTimeoutTooLong mark_timeout budget) else
  let lease_half := dur_div (wb_lease_timeout b) 2 in
  let reaper_interval := effective_reaper_interval b in
  if decide (reaper_interval < MIN_REAPER_INTERVAL) then Err ReaperIntervalTooShort else
  if decide (lease_half < reaper_interval)
  then Err (ReaperIntervalTooLong reaper_interval lease_half) else
  Ok (mark_timeout, reaper_interval).

Fixpoint check_limits (limits : list (list Z * Z)) : result unit BuildError :=
  match limits with
  | [] => Ok tt
  | (key, limit) :: limits =>
      let key_len := chars_count key in
      if decide (key_len = 0 \/ MAX_CONCURRENCY_KEY_LEN < key_len)
      then Err (ConcurrencyKeyInvalid key) else
      if decide (limit = 0 \/ i32_max < limit) then Err (ConcurrencyLimitInvalid key limit) else
      check_limits limits
  end.

Definition effective_backoff (b : WorkerBuilder H) : BackoffPolicy :=
  default backoff_default (wb_retry_backoff b).

(** The fields of the [Worker]. *)
Definition assemble (b : WorkerBuilder H) (pool : Z) (queue : list Z) (concurrency : Z)
    (handler_timeout mark_timeout reaper_interval : Duration) : Worker H :=
  mkWorker pool queue (wb_max_attempts b) (wb_lease_timeout b) (wb_batch_size b)
    (effective_backoff b) (wb_panic_policy b) (wb_poll_interval b) concurrency
    (wb_concurrency_limits b) handler_timeout mark_timeout reaper_interval
    (wb_shutdown_token b) (wb_handler b).

(** [None] is a panic. *)
Definition build (b : WorkerBuilder H) : option (result (Worker H) BuildError) :=
  match build_first b with
  | Err e => Some (Err e)
  | Ok (queue, pool, concurrency) =>
      match effective_handler_timeout b with
      | None => None
      | Some handler_timeout => Some (
          let? (mark_timeout, reaper_interval) := check_timeouts b handler_timeout in
          let? _ := validate (effective_backoff b) in
          let? _ := check_limits (hash_iter (wb_concurrency_limits b)) in
          Ok (assemble b pool queue concurrency handler_timeout mark_timeout reaper_interval))
      end
  end.
End build.

(** [build] where [.handler()] was not called. *)
Definition build_no_handler {H : Type} (_ : WorkerBuilder unit) : result (Worker H) BuildError :=
  Err HandlerMissing.

(** * Facts *)

(** The configuration the builder stands for, defaults filled in, before validation. *)
Definition configured {H : Type} `{!BuildEnv} (b : WorkerBuilder H) : option (Worker H) :=
  match wb_pool b, effective_handler_timeout b with
  | Some pool, Some handler_timeout =>
      Some (mkWorker pool (default [] (wb_queue b)) (wb_max_attempts b) (wb_lease_timeout b)
              (wb_batch_size b) (effective_backoff b) (wb_panic_policy b) (wb_poll_interval b)
              (effective_concurrency b) (wb_concurrency_limits b) handler_timeout
              (effective_mark_timeout b handler_timeout) (effective_reaper_interval b)
              (wb_shutdown_token b) (wb_handler b))
  | _, _ => None
  end.

(** The relations between the knobs of a worker. *)
Record worker_ok {H : Type} (w : Worker H) : Prop := mkWorkerOk {
  wo_queue : 1 <= chars_count (wk_queue w) <= MAX_QUEUE_LEN;
  wo_attempts : wk_max_attempts w <> 0;
  wo_lease : from_secs 2 <= wk_lease_timeout w;
  wo_batch : 1 <= wk_batch_size w <= 1000;
  wo_poll : from_millis 10 <= wk_poll_interval w;
  wo_poll_lease : wk_poll_interval w * 5 < dur_bound ->
                  wk_poll_interval w * 5 <= wk_lease_timeout w;
  wo_concurrency : wk_concurrency w <> 0;
  wo_pool : required_connections (wk_concurrency w) <= wk_pool w;
  wo_handler : from_secs 1 <= wk_handler_timeout w;
  wo_handler_lease : wk_handler_timeout w + from_secs 1 <= wk_lease_timeout w;
  wo_mark : from_millis 100 <= wk_mark_timeout w;
  wo_mark_lease : wk_handler_timeout w + wk_mark_timeout w <= wk_lease_timeout w;
  wo_reaper : from_secs 1 <= wk_reaper_interval w;
  wo_reaper_lease : 2 * wk_reaper_interval w <= wk_lease_timeout w;
  wo_backoff : validate (wk_retry_backoff w) = Ok tt;
  wo_limits : map_Forall (fun k n => 1 <= chars_count k <= MAX_CONCURRENCY_KEY_LEN /\
                            n <> 0 /\ n <= i32_max) (wk_concurrency_limits w);
}.

Lemma default_backoff_valid : validate backoff_default = Ok tt.
Proof. vm_compute. done. Qed.

(** The knobs of a closed configuration, by evaluation. *)
Ltac solve_worker_ok Hq Hc Hp :=
  let ev := vm_compute; done in
  split; [exact Hq|ev|ev|split; ev|ev|ev|exact Hc|exact Hp|ev|ev|ev|ev|ev|ev
         |exact default_backoff_valid|apply map_Forall_empty].

Section build_facts.
Context {H : Type} `{!BuildEnv}.
Implicit Types b : WorkerBuilder H.

Lemma chars_count_nonempty (q : list Z) : q <> [] <-> 1 <= chars_count q.
Proof. unfold chars_count. destruct q; simpl; split; intros; try done; lia. Qed.

Lemma check_limits_ok (limits : list (list Z * Z)) :
  check_limits limits = Ok tt <->
  Forall (fun kn => 1 <= chars_count kn.1 <= MAX_CONCURRENCY_KEY_LEN /\ kn.2 <> 0 /\ kn.2 <= i32_max)
    limits.
Proof.
  induction limits as [|[k n] limits IH]; simpl; [done|]. rewrite Forall_cons, <- IH. simpl.
  assert (0 <= chars_count k) by (unfold chars_count; lia).
  case_decide; [split; [done|lia]|]. case_decide; [split; [done|lia]|].
  split; [intros; split; [lia|done]|by intros [_ ?]].
Qed.

Lemma check_limits_hash (m : gmap (list Z) Z) :
  check_limits (hash_iter m) = Ok tt <->
  map_Forall (fun k n => 1 <= chars_count k <= MAX_CONCURRENCY_KEY_LEN /\ n <> 0 /\ n <= i32_max) m.
Proof.
  rewrite check_limits_ok, hash_iter_perm, map_Forall_to_list.
  by split; intros Hf; (eapply Forall_impl; [done|]); intros [k n].
Qed.

Lemma build_first_ok b q pool c :
  build_first b = Ok (q, pool, c) <->
  q = default [] (wb_queue b) /\ wb_pool b = Some pool /\ c = effective_concurrency b /\
  1 <= chars_count q <= MAX_QUEUE_LEN /\ wb_max_attempts b <> 0 /\
  from_secs 2 <= wb_lease_timeout b /\ 1 <= wb_batch_size b <= 1000 /\
  from_millis 10 <= wb_poll_interval b /\
  (wb_poll_interval b * 5 < dur_bound -> wb_poll_interval b * 5 <= wb_lease_timeout b) /\
  c <> 0 /\ required_connections c <= pool.
Proof.
  unfold build_first. generalize (default [] (wb_queue b)). intros q0.
  change (saturating_mul MIN_REAPER_INTERVAL 2) with (from_secs 2).
  change MIN_POLL_INTERVAL with (from_millis 10).
  unfold MIN_LEASE_TIMEOUT, BATCH_SIZE_MIN, BATCH_SIZE_MAX, checked_mul.
  assert (from_secs 1 < from_secs 2) by done.
  assert (Hq : q0 = [] <-> ~ 1 <= chars_count q0).
  { rewrite <- chars_count_nonempty. destruct q0; split; naive_solver. }
  case_decide as Hd; rewrite Hq in Hd;
    [split; [done|]; intros (-> & _ & _ & ? & _); lia|].
  case_decide; [split; [done|]; intros (-> & _ & _ & ? & ? & _); done|].
  case_decide; [split; [done|]; intros (_ & _ & _ & ? & ? & ? & _); lia|].
  case_decide; [split; [done|]; intros (_ & _ & _ & ? & ? & ? & _); lia|].
  case_decide; [split; [done|]; intros (_ & _ & _ & ? & ? & ? & ? & _); lia|].
  case_decide; [split; [done|]; intros (_ & _ & _ & ? & ? & ? & ? & ? & _); lia|].
  destruct (decide (wb_poll_interval b * 5 < dur_bound)) as [Hp|Hp].
  1: case_bool_decide; [split; [done|]; intros (_ & _ & _ & ? & ? & ? & ? & ? & Hx & _);
                        specialize (Hx Hp); lia|].
  all: destruct (wb_pool b) as [p|]; [|split; [done|]; by intros (_ & ? & _)].
  all: case_decide; [split; [done|]; intros (_ & _ & -> & ? & ? & ? & ? & ? & _ & Hx & _); done|].
  all: case_decide; [split; [done|]; intros (_ & [= ->] & -> & ? & ? & ? & ? & ? & _ & _ & Hx); lia|].
  all: split; [intros [= <- <- <-]; split_and!; try done; lia|].
  all: by intros (-> & [= ->] & -> & _).
Qed.

Lemma check_timeouts_ok b ht mt ri :
  dur_ok (wb_lease_timeout b) ->
  check_timeouts b ht = Ok (mt, ri) <->
  mt = effective_mark_timeout b ht /\ ri = effective_reaper_interval b /\
  from_secs 1 <= ht /\ ht + from_secs 1 <= wb_lease_timeout b /\
  from_millis 100 <= mt /\ ht + mt <= wb_lease_timeout b /\
  from_secs 1 <= ri /\ 2 * ri <= wb_lease_timeout b.
Proof.
  intros [_ Hlease]. unfold check_timeouts, checked_add, dur_div.
  change MIN_HANDLER_TIMEOUT with (from_secs 1). change MIN_MARK_TIMEOUT with (from_millis 100).
  change MIN_REAPER_INTERVAL with (from_secs 1).
  assert (0 < from_secs 1) by done.
  set (lease := wb_lease_timeout b) in *. set (M := effective_mark_timeout b ht).
  set (R := effective_reaper_interval b).
  pose proof (Z.div_mod lease 2 ltac:(done)). pose proof (Z.mod_pos_bound lease 2 ltac:(done)).
  assert (Hbud : ht + from_secs 1 <= lease -> lease_budget b ht = lease - ht).
  { intros. unfold lease_budget, checked_sub. fold lease. by rewrite decide_True by lia. }
  generalize dependent (from_secs 1). intros one Hone Hbud.
  generalize dependent dur_bound. intros bound Hb.
  case_decide; [split; [done|]; intros (-> & -> & ?); lia|].
  destruct (decide (ht + one < bound)).
  2: { split; [done|]. intros (-> & -> & ? & ? & _). lia. }
  case_bool_decide; [split; [done|]; intros (-> & -> & ? & ? & _); lia|].
  rewrite Hbud by lia. generalize (from_millis 100). intros mm.
  case_decide; [split; [done|]; intros (-> & -> & ? & ? & ? & _); lia|].
  case_decide; [split; [done|]; intros (-> & -> & ? & ? & ? & ? & _); lia|].
  case_decide; [split; [done|]; intros (-> & -> & ? & ? & ? & ? & ? & _); lia|].
  case_decide; [split; [done|]; intros (-> & -> & ? & ? & ? & ? & ? & ?); lia|].
  split; [intros [= <- <-]; split_and!; try done; lia|]. by intros (-> & -> & _).
Qed.

Lemma build_iff b w :
  dur_ok (wb_lease_timeout b) ->
  build b = Some (Ok w) <-> configured b = Some w /\ worker_ok w.
Proof.
  intros Hlease. unfold build, configured. split.
  - destruct (build_first b) as [[[q pool] c]|e] eqn:Hf; [|done].
    apply build_first_ok in Hf as (-> & -> & -> & Hf).
    destruct (effective_handler_timeout b) as [ht|]; [|done].
    destruct (check_timeouts b ht) as [[mt ri]|e] eqn:Ht; [|done].
    apply check_timeouts_ok in Ht as (-> & -> & Ht); [|done].
    destruct (validate (effective_backoff b)) as [[]|e] eqn:Hv; [|done].
    destruct (check_limits _) as [[]|e] eqn:Hl; [|done]. apply check_limits_hash in Hl.
    intros [= <-]. split; [done|]. split; simpl; try done; tauto.
  - intros [Hc Hok]. destruct (wb_pool b) as [pool|] eqn:Hp; [|done].
    destruct (effective_handler_timeout b) as [ht|]; [|done]. simplify_eq.
    destruct Hok as [? ? ? ? ? ? ? ? ? ? ? ? ? ? Hv Hl]; simpl in *.
    assert (build_first b = Ok (default [] (wb_queue b), pool, effective_concurrency b)) as ->
      by (apply build_first_ok; tauto).
    assert (check_timeouts b ht = Ok (effective_mark_timeout b ht, effective_reaper_interval b)) as ->
      by (apply check_timeouts_ok; tauto).
    apply check_limits_hash in Hl. by rewrite Hv, Hl.
Qed.

(** C30: [build] returns a worker exactly for the configurations that satisfy every
    relation between the knobs (in particular, a handler and its mark fit in one
    lease and the reaper runs twice per lease), and the worker is the configuration
    with its defaults filled in, whatever the iteration order of the limits. *)
Theorem build_accepts_exactly b w :
  dur_ok (wb_lease_timeout b) ->
  build b = Some (Ok w) <-> configured b = Some w /\ worker_ok w.
Proof. apply build_iff. Qed.

(** [build] never panics: the one conversion through [f64] it makes is in range for
    every lease. *)
Theorem build_total b :
  dur_ok (wb_lease_timeout b) -> exists r, build b = Some r.
Proof.
  intros Hlease. unfold build. destruct (build_first b) as [[[q pool] c]|e]; [|eauto].
  unfold effective_handler_timeout. destruct (wb_handler_timeout b) as [d|]; [eauto|].
  destruct (mul_four_fifths _ Hlease) as (v & -> & _). eauto.
Qed.

(** The builder with only the required knobs, a concurrency and a lease. *)
Definition minimal (lease : Duration) (q : list Z) (pool c : Z) (h : H) : WorkerBuilder H :=
  with_handler h (with_concurrency c (with_pool pool (with_queue q
    (with_lease_timeout lease builder_new)))).

(** The defaults are consistent: with only the required knobs and the default lease of
    30 s, [build] succeeds on every valid queue name and large enough pool, with a
    handler timeout of 24 s, a mark timeout of 5 s and a reaper interval of 7.5 s. *)
Theorem build_defaults q pool c h :
  1 <= chars_count q <= MAX_QUEUE_LEN -> c <> 0 -> required_connections c <= pool ->
  exists w, build (minimal DEFAULT_LEASE_TIMEOUT q pool c h) = Some (Ok w) /\
    wk_handler_timeout w = from_secs 24 /\ wk_mark_timeout w = from_secs 5 /\
    wk_reaper_interval w = from_millis 7500.
Proof.
  intros Hq Hc Hp.
  assert (Hht : effective_handler_timeout (minimal DEFAULT_LEASE_TIMEOUT q pool c h)
                = Some (from_secs 24)) by (vm_compute; done).
  assert (Hd : dur_ok DEFAULT_LEASE_TIMEOUT) by (split; done).
  eexists. split; [|split_and!].
  - apply (proj2 (build_iff (minimal DEFAULT_LEASE_TIMEOUT q pool c h) _ Hd)).
    unfold configured. rewrite Hht. simpl wb_pool. cbv iota.
    split; [reflexivity|].
    solve_worker_ok Hq Hc Hp.
  - done.
  - done.
  - done.
Qed.

(** A lease of 5 s cannot be combined with the other defaults: the default handler
    timeout takes 4 s and the safety second leaves a default mark timeout of zero,
    which [build] rejects instead of raising it to its floor. *)
Theorem build_five_second_lease q pool c h :
  1 <= chars_count q <= MAX_QUEUE_LEN -> c <> 0 -> required_connections c <= pool ->
  build (minimal (from_secs 5) q pool c h) = Some (Err MarkTimeoutTooShort).
Proof.
  intros Hq Hc Hp. unfold build.
  assert (build_first (minimal (from_secs 5) q pool c h) = Ok (q, pool, c)) as ->.
  { apply build_first_ok. simpl. split_and!; try done; lia. }
  assert (effective_handler_timeout (minimal (from_secs 5) q pool c h) = Some (from_secs 4)) as ->
    by (vm_compute; done).
  assert (check_timeouts (minimal (from_secs 5) q pool c h) (from_secs 4) = Err MarkTimeoutTooShort)
    as -> by (vm_compute; done). done.
Qed.

(** The check that a lease spans five polls is skipped when five polls overflow a
    [Duration]: the longest poll interval of all is accepted with the default lease. *)
Theorem build_accepts_overflowing_poll q pool c h :
  1 <= chars_count q <= MAX_QUEUE_LEN -> c <> 0 -> required_connections c <= pool ->
  exists w, build (with_poll_interval (dur_bound - 1) (minimal DEFAULT_LEASE_TIMEOUT q pool c h))
            = Some (Ok w) /\ wk_lease_timeout w < 5 * wk_poll_interval w.
Proof.
  intros Hq Hc Hp.
  assert (Hht : effective_handler_timeout (with_poll_interval (dur_bound - 1)
                  (minimal DEFAULT_LEASE_TIMEOUT q pool c h)) = Some (from_secs 24))
    by (vm_compute; done).
  assert (Hd : dur_ok DEFAULT_LEASE_TIMEOUT) by (split; done).
  eexists. split.
  - apply (proj2 (build_iff (with_poll_interval (dur_bound - 1)
                               (minimal DEFAULT_LEASE_TIMEOUT q pool c h)) _ Hd)).
    unfold configured. rewrite Hht. simpl wb_pool. cbv iota.
    split; [reflexivity|].
    solve_worker_ok Hq Hc Hp.
  - done.
Qed.
End build_facts.
