(* ===== verification/Worker.v ===== *)
(** The life of one claimed job in [src/worker.rs]: the handler's run, the choice of the
    outcome, the fenced mark and the counters, for [handle_job] and for [tick_once]. *)
From S2P Require Import Prelude F64 Duration Errors Backoff Schema Lifecycle Transition Exec Mark Job Claim Builder.

(** * Counters *)

Record TickStats : Type := mkTickStats {
  ts_claimed : Z;
  ts_completed : Z;
  ts_failed : Z;
  ts_fenced_out : Z;
}.

(** [AtomicStats]; [fetch_add] wraps. *)
Record AtomicStats : Type := mkAtomicStats {
  as_completed : Z;
  as_failed : Z;
  as_fenced_out : Z;
  as_timed_out : Z;
  as_mark_timed_out : Z;
  as_aborted : Z;
}.

Record Stats : Type := mkStats {
  st_completed : Z;
  st_failed : Z;
  st_timed_out : Z;
  st_mark_timed_out : Z;
  st_aborted : Z;
  st_fenced_out : Z;
  st_pending_recovery : Z;
}.

Definition stats_zero : AtomicStats := mkAtomicStats 0 0 0 0 0 0.
Definition stats_default : Stats := mkStats 0 0 0 0 0 0 0.

(** [AtomicStats::snapshot]. *)
Definition snapshot (s : AtomicStats) : Stats :=
  mkStats (as_completed s) (as_failed s) (as_timed_out s) (as_mark_timed_out s) (as_aborted s)
    (as_fenced_out s) 0.

Definition add_completed (n : Z) (s : AtomicStats) : AtomicStats :=
  mkAtomicStats (u64_wrapping_add (as_completed s) n) (as_failed s) (as_fenced_out s)
    (as_timed_out s) (as_mark_timed_out s) (as_aborted s).
Definition add_failed (n : Z) (s : AtomicStats) : AtomicStats :=
  mkAtomicStats (as_completed s) (u64_wrapping_add (as_failed s) n) (as_fenced_out s)
    (as_timed_out s) (as_mark_timed_out s) (as_aborted s).
Definition add_fenced_out (n : Z) (s : AtomicStats) : AtomicStats :=
  mkAtomicStats (as_completed s) (as_failed s) (u64_wrapping_add (as_fenced_out s) n)
    (as_timed_out s) (as_mark_timed_out s) (as_aborted s).
Definition add_timed_out (n : Z) (s : AtomicStats) : AtomicStats :=
  mkAtomicStats (as_completed s) (as_failed s) (as_fenced_out s)
    (u64_wrapping_add (as_timed_out s) n) (as_mark_timed_out s) (as_aborted s).
Definition add_mark_timed_out (n : Z) (s : AtomicStats) : AtomicStats :=
  mkAtomicStats (as_completed s) (as_failed s) (as_fenced_out s) (as_timed_out s)
    (u64_wrapping_add (as_mark_timed_out s) n) (as_aborted s).
Definition add_aborted (n : Z) (s : AtomicStats) : AtomicStats :=
  mkAtomicStats (as_completed s) (as_failed s) (as_fenced_out s) (as_timed_out s)
    (as_mark_timed_out s) (u64_wrapping_add (as_aborted s) n).

(** * The handler: user code

    What a call does: the closure itself panics, or the future it returns yields a
    result after a while, panics after a while, or never ends. *)
Inductive HandlerRun : Type :=
| CallPanics (p : PanicPayload)
| Returns (r : result unit JobError) (took : Duration)
| Panics (p : PanicPayload) (took : Duration)
| Hangs.

Abbreviation JobHandler T := (T -> JobContext -> HandlerRun) (only parsing).

(** How a piece of code ends. *)
Inductive run_end (A : Type) : Type :=
| Returned (a : A)
| Panicked
| Hung.
Arguments Returned {A} _.
Arguments Panicked {A}.
Arguments Hung {A}.

(** The scalars of a job that outlive its payload. *)
Record JobRef : Type := mkJobRef {
  jr_queue : list Z;
  jr_public_id : Uuid;
  jr_id : Z;
  jr_lease_token : Uuid;
  jr_attempts : Z;
  jr_max_attempts : Z;
}.

Definition job_ref {T} (j : Job T) : JobRef :=
  mkJobRef (job_queue j) (job_public_id j) (job_id j) (job_lease_token j) (job_attempts j)
    (job_max_attempts j).

Definition outcome_event (to : job_status) (worker : option Uuid) (j : JobRef)
    (reason : option (list Z)) : TransitionEvent :=
  emit_transition (Some "running"%string) (status_text to) worker
    (mkTransitionCtx (jr_id j) (jr_public_id j) (jr_queue j) (jr_attempts j) SrcWorker reason false).

Section worker.
Context `{env : BackoffEnv}.

(** [None] is a panic: of [Ord::clamp] when the floor exceeds the ceiling, or of
    [BackoffPolicy::next]. *)
Definition compute_retry_delay (retry_in : option Duration) (backoff : BackoffPolicy)
    (poll_interval : Duration) (attempts : Z) : option Duration :=
  match retry_in with
  | None => next backoff attempts
  | Some requested => dur_clamp requested (Z.max poll_interval MIN_RETRY_IN) MAX_RETRY_IN
  end.

(** * The [start] flavour: [mark_timeout], atomic counters *)

(** The configuration of a running worker, [WorkerState] without its shared state. *)
Record WorkerCfg : Type := mkWorkerCfg {
  cf_queue : list Z;
  cf_worker_id : Uuid;
  cf_max_attempts : Z;
  cf_lease_timeout : Duration;
  cf_handler_timeout : Duration;
  cf_mark_timeout : Duration;
  cf_retry_backoff : BackoffPolicy;
  cf_panic_policy : PanicPolicy;
  cf_batch_size : Z;
  cf_poll_interval : Duration;
  cf_reaper_interval : Duration;
  cf_concurrency : Z;
  cf_concurrency_limits : gmap (list Z) Z;
}.

Definition flip_done_state (c : WorkerCfg) (j : JobRef) (s : AtomicStats) : M AtomicStats :=
  let! res := sql_timeout (cf_mark_timeout c) (mark_done_stmt (jr_id j) (jr_lease_token j)) in
  match res with
  | Some (Ok n) =>
      if decide (n = 1) then
        emit (outcome_event Done (Some (cf_worker_id c)) j None) ;!
        mreturn (add_completed 1 s)
      else mreturn (add_fenced_out 1 s)
  | Some (Err _) => mreturn s
  | None => mreturn (add_mark_timed_out 1 s)
  end.

Definition flip_retry_state (c : WorkerCfg) (j : JobRef) (reason : list Z) (delay : Duration)
    (s : AtomicStats) : M AtomicStats :=
  let! res := sql_timeout (cf_mark_timeout c)
                (mark_retry_stmt (jr_id j) (jr_lease_token j) reason delay) in
  match res with
  | Some (Ok n) =>
      if decide (n = 1) then
        emit (outcome_event AwaitingRetry (Some (cf_worker_id c)) j (Some reason)) ;!
        mreturn (add_failed 1 s)
      else mreturn (add_fenced_out 1 s)
  | Some (Err _) => mreturn s
  | None => mreturn (add_mark_timed_out 1 s)
  end.

Definition flip_dead_state (c : WorkerCfg) (j : JobRef) (reason : list Z) (s : AtomicStats)
  : M AtomicStats :=
  let! res := sql_timeout (cf_mark_timeout c)
                (mark_dead_stmt (jr_id j) (jr_lease_token j) reason) in
  match res with
  | Some (Ok n) =>
      if decide (n = 1) then
        emit (outcome_event Dead (Some (cf_worker_id c)) j (Some reason)) ;!
        mreturn (add_failed 1 s)
      else mreturn (add_fenced_out 1 s)
  | Some (Err _) => mreturn s
  | None => mreturn (add_mark_timed_out 1 s)
  end.

Definition apply_handler_result_state (c : WorkerCfg) (j : JobRef) (r : result unit JobError)
    (s : AtomicStats) : M (run_end unit * AtomicStats) :=
  match r with
  | Ok _ =>
      let! s := flip_done_state c j s in
      mreturn (Returned tt, s)
  | Err (Retry reason retry_in) =>
      let reason := fmt_err_trimmed reason in
      if decide (jr_max_attempts j <= jr_attempts j) then
        let! s := flip_dead_state c j reason s in
        mreturn (Returned tt, s)
      else
        match compute_retry_delay retry_in (cf_retry_backoff c) (cf_poll_interval c)
                (jr_attempts j) with
        | None => mreturn (Panicked, s)
        | Some delay =>
            let! s := flip_retry_state c j reason delay s in
            mreturn (Returned tt, s)
        end
  | Err (Abort reason) =>
      let reason := fmt_err_trimmed reason in
      let! s := flip_dead_state c j reason s in
      mreturn (Returned tt, s)
  end.

(** [tokio::time::timeout(handler_timeout, future)] inside the local [JoinSet]. *)
Inductive HandlerOutcome : Type :=
| HoResult (r : result unit JobError)
| HoElapsed
| HoPanic (p : PanicPayload).

Definition with_timeout (limit : Duration) (run : HandlerRun) : HandlerOutcome :=
  match run with
  | Returns r took => if decide (took <= limit) then HoResult r else HoElapsed
  | Panics p took => if decide (took <= limit) then HoPanic p else HoElapsed
  | Hangs => HoElapsed
  | CallPanics p => HoPanic p
  end.

(** What [handle_job] does with the outcome of the handler's task. *)
Definition handle_outcome (c : WorkerCfg) (j : JobRef) (o : HandlerOutcome) (s : AtomicStats)
  : M (run_end unit * AtomicStats) :=
  match o with
  | HoResult r => apply_handler_result_state c j r s
  | HoElapsed =>
      apply_handler_result_state c j (Err (Retry (lit "handler_timeout") None)) (add_timed_out 1 s)
  | HoPanic p =>
      let msg := join_panic_message (JoinPanic p) in
      let trimmed_reason := fmt_err_trimmed (lit "panic: " ++ msg) in
      match cf_panic_policy c with
      | PanicRetry => apply_handler_result_state c j (Err (Retry trimmed_reason None)) s
      | PanicDead =>
          let! s := flip_dead_state c j trimmed_reason s in
          mreturn (Returned tt, s)
      end
  end.

(** The future is built by [handler.call] in the task itself, before the local [JoinSet]
    exists: a panic of the closure ends the task. *)
Definition handle_job {T} (c : WorkerCfg) (handler : JobHandler T) (job : Job T) (s : AtomicStats)
  : M (run_end unit * AtomicStats) :=
  match handler (job_payload job) (context job) with
  | CallPanics _ => mreturn (Panicked, s)
  | run => handle_outcome c (job_ref job) (with_timeout (cf_handler_timeout c) run) s
  end.

(** * The [tick_once] flavour: no timeouts, local counters *)

Definition tick_completed (s : TickStats) : TickStats :=
  mkTickStats (ts_claimed s) (ts_completed s + 1) (ts_failed s) (ts_fenced_out s).
Definition tick_failed (s : TickStats) : TickStats :=
  mkTickStats (ts_claimed s) (ts_completed s) (ts_failed s + 1) (ts_fenced_out s).
Definition tick_fenced_out (s : TickStats) : TickStats :=
  mkTickStats (ts_claimed s) (ts_completed s) (ts_failed s) (ts_fenced_out s + 1).

Definition flip_done_tick (worker : option Uuid) (j : JobRef) (s : TickStats) : M TickStats :=
  let! res := mark_done (jr_id j) (jr_lease_token j) in
  match res with
  | Ok n =>
      if decide (n = 1) then emit (outcome_event Done worker j None) ;! mreturn (tick_completed s)
      else mreturn (tick_fenced_out s)
  | Err _ => mreturn s
  end.

Definition flip_retry_tick (worker : option Uuid) (j : JobRef) (reason : list Z) (delay : Duration)
    (s : TickStats) : M TickStats :=
  let! res := mark_retry (jr_id j) (jr_lease_token j) reason delay in
  match res with
  | Ok n =>
      if decide (n = 1) then
        emit (outcome_event AwaitingRetry worker j (Some reason)) ;! mreturn (tick_failed s)
      else mreturn (tick_fenced_out s)
  | Err _ => mreturn s
  end.

Definition flip_dead_tick (worker : option Uuid) (j : JobRef) (reason : list Z) (s : TickStats)
  : M TickStats :=
  let! res := mark_dead (jr_id j) (jr_lease_token j) reason in
  match res with
  | Ok n =>
      if decide (n = 1) then
        emit (outcome_event Dead worker j (Some reason)) ;! mreturn (tick_failed s)
      else mreturn (tick_fenced_out s)
  | Err _ => mreturn s
  end.

(** [None] is a panic. *)
Definition apply_handler_result (worker : option Uuid) (j : JobRef) (backoff : BackoffPolicy)
    (poll_interval : Duration) (r : result unit JobError) (s : TickStats) : M (option TickStats) :=
  match r with
  | Ok _ =>
      let! s := flip_done_tick worker j s in
      mreturn (Some s)
  | Err (Retry reason retry_in) =>
      let reason := fmt_err_trimmed reason in
      if decide (jr_max_attempts j <= jr_attempts j) then
        let! s := flip_dead_tick worker j reason s in
        mreturn (Some s)
      else
        match compute_retry_delay retry_in backoff poll_interval (jr_attempts j) with
        | None => mreturn None
        | Some delay =>
            let! s := flip_retry_tick worker j reason delay s in
            mreturn (Some s)
        end
  | Err (Abort reason) =>
      let reason := fmt_err_trimmed reason in
      let! s := flip_dead_tick worker j reason s in
      mreturn (Some s)
  end.

Context `{!PgEngine, !SqlxInterval} {T : Type} `{!Codec T}.

Fixpoint tick_jobs (w : Worker (JobHandler T)) (jobs : list (Job T)) (s : TickStats)
  : M (run_end TickStats) :=
  match jobs with
  | [] => mreturn (Returned s)
  | job :: jobs =>
      match wk_handler w (job_payload job) (context job) with
      | CallPanics _ | Panics _ _ => mreturn Panicked
      | Hangs => mreturn Hung
      | Returns r _ =>
          let! s := apply_handler_result None (job_ref job) (wk_retry_backoff w)
                      (wk_poll_interval w) r s in
          match s with
          | None => mreturn Panicked
          | Some s => tick_jobs w jobs s
          end
      end
  end.

Definition tick_once (w : Worker (JobHandler T)) : M (run_end (result TickStats sqlx_error)) :=
  let! claimed := claim_and_decode (wk_queue w) (wk_batch_size w) (wk_lease_timeout w)
                    (wk_max_attempts w) ∅ in
  match claimed with
  | Err e => mreturn (Returned (Err e))
  | Ok claimed =>
      let! r := tick_jobs w claimed (mkTickStats (Z.of_nat (length claimed)) 0 0 0) in
      mreturn (match r with Returned s => Returned (Ok s) | Panicked => Panicked | Hung => Hung end)
  end.
End worker.

(** * What is to become of a job

    The policy of the library, stated apart from the code: which mark follows from the
    way a handler ended. *)
Inductive Verdict : Type :=
| VDone
| VRetry (reason : list Z) (delay : Duration)
| VDead (reason : list Z).

Section verdict.
Context `{env : BackoffEnv}.

(** The retry budget comes first: a job that has used it up is dead. *)
Definition retry_verdict (c : WorkerCfg) (j : JobRef) (reason : list Z)
    (retry_in : option Duration) : option Verdict :=
  if decide (jr_max_attempts j <= jr_attempts j) then Some (VDead reason)
  else VRetry reason <$> compute_retry_delay retry_in (cf_retry_backoff c) (cf_poll_interval c)
         (jr_attempts j).

Definition panic_reason (p : PanicPayload) : list Z :=
  fmt_err_trimmed (lit "panic: " ++ extract_panic_message p).

Definition verdict (c : WorkerCfg) (j : JobRef) (o : HandlerOutcome) : option Verdict :=
  match o with
  | HoResult (Ok _) => Some VDone
  | HoResult (Err (Retry reason retry_in)) => retry_verdict c j (fmt_err_trimmed reason) retry_in
  | HoResult (Err (Abort reason)) => Some (VDead (fmt_err_trimmed reason))
  | HoElapsed => retry_verdict c j (lit "handler_timeout") None
  | HoPanic p =>
      match cf_panic_policy c with
      | PanicRetry => retry_verdict c j (panic_reason p) None
      | PanicDead => Some (VDead (panic_reason p))
      end
  end.

(** The row, the event and the counter that go with a verdict. *)
Definition verdict_row (now : Z) (v : Verdict) (r : Row) : Row :=
  match v with
  | VDone => marked now Done None (Some now) (run_at r) r
  | VRetry reason delay => marked now AwaitingRetry (Some reason) None (now + as_micros delay) r
  | VDead reason => marked now Dead (Some reason) (Some now) (run_at r) r
  end.

Definition verdict_event (worker : option Uuid) (j : JobRef) (v : Verdict) : TransitionEvent :=
  match v with
  | VDone => outcome_event Done worker j None
  | VRetry reason _ => outcome_event AwaitingRetry worker j (Some reason)
  | VDead reason => outcome_event Dead worker j (Some reason)
  end.

Definition verdict_count (v : Verdict) (s : AtomicStats) : AtomicStats :=
  match v with VDone => add_completed 1 s | _ => add_failed 1 s end.

Definition verdict_stmt (j : JobRef) (v : Verdict) : Stmt Z :=
  match v with
  | VDone => mark_done_stmt (jr_id j) (jr_lease_token j)
  | VRetry reason delay => mark_retry_stmt (jr_id j) (jr_lease_token j) reason delay
  | VDead reason => mark_dead_stmt (jr_id j) (jr_lease_token j) reason
  end.

(** What the column types and CHECKs ask of a verdict at the time [now]. *)
Definition verdict_fits (now : Z) (v : Verdict) : Prop :=
  match v with
  | VDone => True
  | VRetry reason delay =>
      (0 ∉ reason) /\ chars_count reason <= MAX_LAST_ERROR_LEN /\ 0 <= delay /\
      now + as_micros delay < end_timestamp
  | VDead reason => (0 ∉ reason) /\ chars_count reason <= MAX_LAST_ERROR_LEN
  end.

Lemma verdict_held j v rt db r :
  holds_lease (jobs db) (jr_id j) (jr_lease_token j) r -> row_ok r ->
  clock_after_claim (rt_now rt) r -> 0 <= rt_now rt -> verdict_fits (rt_now rt) v ->
  verdict_stmt j v rt db =
  (Ok 1, set_jobs (<[jr_id j := verdict_row (rt_now rt) v r]> (jobs db)) db).
Proof.
  intros Hh Hok Hclk Hnow Hfit. destruct v as [|reason delay|reason]; simpl in *.
  - by apply mark_done_held.
  - apply mark_retry_held; tauto.
  - apply mark_dead_held; tauto.
Qed.

Lemma verdict_fenced j v rt db :
  (forall r, ~ holds_lease (jobs db) (jr_id j) (jr_lease_token j) r) ->
  verdict_fits (rt_now rt) v -> verdict_stmt j v rt db = (Ok 0, db).
Proof.
  intros Hno Hfit. destruct v as [|reason delay|reason]; simpl in *;
    unfold mark_done_stmt, mark_retry_stmt, mark_dead_stmt, bind_text;
    rewrite ?decide_False by tauto;
    by rewrite (mark_targets_fenced _ _ _ Hno), run_update_nil.
Qed.

Lemma verdict_step j v rt db : db_steps db (verdict_stmt j v rt db).2.
Proof. destruct v; simpl; auto with guarantee. Qed.

(** The one shape of the three [flip_*_state]. *)
Definition flip (c : WorkerCfg) (j : JobRef) (v : Verdict) (s : AtomicStats) : M AtomicStats :=
  let! res := sql_timeout (cf_mark_timeout c) (verdict_stmt j v) in
  match res with
  | Some (Ok n) =>
      if decide (n = 1) then
        emit (verdict_event (Some (cf_worker_id c)) j v) ;! mreturn (verdict_count v s)
      else mreturn (add_fenced_out 1 s)
  | Some (Err _) => mreturn s
  | None => mreturn (add_mark_timed_out 1 s)
  end.

Lemma fmt_err_trimmed_idem s : fmt_err_trimmed (fmt_err_trimmed s) = fmt_err_trimmed s.
Proof. by rewrite !fmt_err_trimmed_take, take_take, Nat.min_id. Qed.

(** The counters at the time of the mark. *)
Definition outcome_stats (o : HandlerOutcome) (s : AtomicStats) : AtomicStats :=
  match o with HoElapsed => add_timed_out 1 s | _ => s end.

Lemma apply_result_retry c j reason retry_in s :
  apply_handler_result_state c j (Err (Retry reason retry_in)) s =
  match retry_verdict c j (fmt_err_trimmed reason) retry_in with
  | None => mreturn (Panicked, s)
  | Some v => let! s := flip c j v s in mreturn (Returned tt, s)
  end.
Proof.
  simpl. unfold retry_verdict. case_decide; [done|]. by destruct (compute_retry_delay _ _ _ _).
Qed.

(** [handle_job] implements the policy: it sends the mark of the verdict, once. *)
Lemma handle_outcome_verdict c j o s :
  handle_outcome c j o s =
  match verdict c j o with
  | None => mreturn (Panicked, outcome_stats o s)
  | Some v => let! s := flip c j v (outcome_stats o s) in mreturn (Returned tt, s)
  end.
Proof.
  assert (Ht : fmt_err_trimmed (lit "handler_timeout") = lit "handler_timeout") by (vm_compute; done).
  destruct o as [[u|[reason retry_in|reason]]| |p]; unfold handle_outcome, verdict, outcome_stats.
  - done.
  - apply apply_result_retry.
  - done.
  - by rewrite apply_result_retry, Ht.
  - destruct (cf_panic_policy c); [|done].
    rewrite apply_result_retry. unfold panic_reason. by rewrite fmt_err_trimmed_idem.
Qed.
End verdict.
#[export] Hint Resolve verdict_step : guarantee.

Section worker_facts.
Context `{env : BackoffEnv}.

Lemma sql_timeout_answered {A} limit (stmt : Stmt A) w rt script :
  w_script w = rt :: script -> rt_fault rt = NoFault -> rt_latency rt <= limit ->
  sql_timeout limit stmt w =
  (Some (stmt rt (rt_env rt (w_db w))).1,
   mkWorld (stmt rt (rt_env rt (w_db w))).2 script (w_log w)).
Proof.
  intros Hs Hf Hl. unfold sql_timeout, sql. rewrite Hs, decide_True, Hf by done.
  by destruct (stmt rt _).
Qed.

Lemma handle_job_verdict {T} c (handler : JobHandler T) job s o :
  (forall p, handler (job_payload job) (context job) <> CallPanics p) ->
  with_timeout (cf_handler_timeout c) (handler (job_payload job) (context job)) = o ->
  handle_job c handler job s = handle_outcome c (job_ref job) o s.
Proof. intros Hno <-. unfold handle_job. destruct (handler _ _); try done. by destruct (Hno p). Qed.

Lemma handle_job_step {T} c (handler : JobHandler T) job s w rt script o v r :
  (forall p, handler (job_payload job) (context job) <> CallPanics p) ->
  with_timeout (cf_handler_timeout c) (handler (job_payload job) (context job)) = o ->
  verdict c (job_ref job) o = Some v ->
  w_script w = rt :: script -> rt_fault rt = NoFault -> rt_latency rt <= cf_mark_timeout c ->
  let db := rt_env rt (w_db w) in
  holds_lease (jobs db) (job_id job) (job_lease_token job) r -> row_ok r ->
  clock_after_claim (rt_now rt) r -> 0 <= rt_now rt -> verdict_fits (rt_now rt) v ->
  handle_job c handler job s w =
  ((Returned tt, verdict_count v (outcome_stats o s)),
   mkWorld (set_jobs (<[job_id job := verdict_row (rt_now rt) v r]> (jobs db)) db) script
     (w_log w ++ [verdict_event (Some (cf_worker_id c)) (job_ref job) v])).
Proof.
  intros Hno Ho Hv Hs Hf Hl db Hh Hok Hclk Hnow Hfit.
  rewrite (handle_job_verdict _ _ _ _ _ Hno Ho), handle_outcome_verdict, Hv.
  unfold flip, mcompose. rewrite (sql_timeout_answered _ _ _ _ _ Hs Hf Hl). fold db.
  by rewrite (verdict_held (job_ref job) _ _ _ _ Hh Hok Hclk Hnow Hfit).
Qed.

(** C6: The whole life of a claimed job: however the handler ends (success, retry, abort,
    timeout, panic), if its lease still holds when the server answers the mark within
    [mark_timeout], the row is left exactly as the policy says (done, dead, or
    awaiting a retry after the computed delay), one event and one counter record it,
    and no other row is touched. *)
Theorem handle_job_applies_verdict {T} c (handler : JobHandler T) job s w rt script o v r :
  (forall p, handler (job_payload job) (context job) <> CallPanics p) ->
  with_timeout (cf_handler_timeout c) (handler (job_payload job) (context job)) = o ->
  verdict c (job_ref job) o = Some v ->
  w_script w = rt :: script -> rt_fault rt = NoFault -> rt_latency rt <= cf_mark_timeout c ->
  let db := rt_env rt (w_db w) in
  holds_lease (jobs db) (job_id job) (job_lease_token job) r -> row_ok r ->
  clock_after_claim (rt_now rt) r -> 0 <= rt_now rt -> verdict_fits (rt_now rt) v ->
  handle_job c handler job s w =
  ((Returned tt, verdict_count v (outcome_stats o s)),
   mkWorld (set_jobs (<[job_id job := verdict_row (rt_now rt) v r]> (jobs db)) db) script
     (w_log w ++ [verdict_event (Some (cf_worker_id c)) (job_ref job) v])).
Proof. apply handle_job_step. Qed.

(** C7: Fencing: if the lease was lost in the meantime (reaped, or claimed again under
    another token), [handle_job] changes no row, emits no event and counts the job as
    fenced out, however its handler ended. *)
Theorem handle_job_fenced {T} c (handler : JobHandler T) job s w rt script o v :
  (forall p, handler (job_payload job) (context job) <> CallPanics p) ->
  with_timeout (cf_handler_timeout c) (handler (job_payload job) (context job)) = o ->
  verdict c (job_ref job) o = Some v ->
  w_script w = rt :: script -> rt_fault rt = NoFault -> rt_latency rt <= cf_mark_timeout c ->
  let db := rt_env rt (w_db w) in
  (forall r, ~ holds_lease (jobs db) (job_id job) (job_lease_token job) r) ->
  verdict_fits (rt_now rt) v ->
  handle_job c handler job s w =
  ((Returned tt, add_fenced_out 1 (outcome_stats o s)), mkWorld db script (w_log w)).
Proof.
  intros Hno Ho Hv Hs Hf Hl db Hh Hfit.
  rewrite (handle_job_verdict _ _ _ _ _ Hno Ho), handle_outcome_verdict, Hv.
  unfold flip, mcompose. rewrite (sql_timeout_answered _ _ _ _ _ Hs Hf Hl). fold db.
  by rewrite (verdict_fenced (job_ref job) v rt db Hh Hfit).
Qed.

Lemma guarantee_flip c j v s : guarantee db_steps (flip c j v s).
Proof. unfold flip. solve_guarantee. Qed.
#[local] Hint Resolve guarantee_flip : guarantee.

Lemma guarantee_handle_job {T} c (handler : JobHandler T) job s :
  guarantee db_steps (handle_job c handler job s).
Proof.
  unfold handle_job. assert (Ho : forall o, guarantee db_steps (handle_outcome c (job_ref job) o s)).
  { intros o. rewrite handle_outcome_verdict. destruct (verdict _ _ _); solve_guarantee. }
  destruct (handler _ _); try apply Ho. solve_guarantee.
Qed.

(** A panic of the handler's closure itself, before it returns its future, is not
    routed through [panic_policy]: the task ends without any mark, and the row stays
    running until its lease expires. *)
Theorem handle_job_closure_panic {T} c (handler : JobHandler T) job s w p :
  handler (job_payload job) (context job) = CallPanics p ->
  handle_job c handler job s w = ((Panicked, s), w).
Proof. intros Hp. unfold handle_job. by rewrite Hp. Qed.

(** A NUL in the reason of an abort is not removed by [fmt_err_trimmed]: the server rejects the
    parameter, the mark is dropped, no counter records it, and the row stays running. *)
Theorem nul_reason_leaves_running {T} c (handler : JobHandler T) job s w rt script reason took :
  handler (job_payload job) (context job) = Returns (Err (Abort reason)) took ->
  took <= cf_handler_timeout c -> 0 ∈ fmt_err_trimmed reason ->
  w_script w = rt :: script -> rt_fault rt = NoFault -> rt_latency rt <= cf_mark_timeout c ->
  handle_job c handler job s w = ((Returned tt, s), mkWorld (rt_env rt (w_db w)) script (w_log w)).
Proof.
  intros Hh Ht Hn Hs Hf Hl. unfold handle_job. rewrite Hh. simpl. rewrite decide_True by done. simpl.
  unfold flip_dead_state, mcompose. rewrite (sql_timeout_answered _ _ _ _ _ Hs Hf Hl).
  unfold mark_dead_stmt, bind_text. by rewrite decide_True.
Qed.

Lemma retry_delay_bounded (Hrng : RandomRangeSpec env) retry_in p poll attempts :
  policy_ok p -> validate p = Ok tt -> poll <= MAX_RETRY_IN ->
  exists d, compute_retry_delay retry_in p poll attempts = Some d /\
    match retry_in with
    | None => next p attempts = Some d /\ 0 <= d <= policy_cap p
    | Some x => Z.max poll MIN_RETRY_IN <= d <= MAX_RETRY_IN /\
                (Z.max poll MIN_RETRY_IN <= x <= MAX_RETRY_IN -> d = x)
    end.
Proof.
  intros Hok Hv Hpoll. destruct retry_in as [x|]; simpl.
  - unfold dur_clamp. assert (MIN_RETRY_IN <= MAX_RETRY_IN) by done.
    rewrite decide_True by lia. eexists. split; [done|]. lia.
  - assert (policy_cap p <= MAX_BACKOFF_CAP) by (by apply validate_ok in Hv as (_ & ? & _)).
    destruct (next_bounded p attempts Hok) as (d & Hd & ?); [done|by apply apply_jitter_total|].
    eauto.
Qed.

(** A delay requested by the handler is moved into [max(poll_interval, 100ms), 24h], and
    without a request the delay is that of the policy and at most its cap; with a poll
    interval of at most a day and a policy that [build] accepts, it never panics. *)
Theorem compute_retry_delay_bounds (Hrng : RandomRangeSpec env) retry_in p poll attempts :
  policy_ok p -> validate p = Ok tt -> poll <= MAX_RETRY_IN ->
  exists d, compute_retry_delay retry_in p poll attempts = Some d /\
    match retry_in with
    | None => next p attempts = Some d /\ 0 <= d <= policy_cap p
    | Some x => Z.max poll MIN_RETRY_IN <= d <= MAX_RETRY_IN /\
                (Z.max poll MIN_RETRY_IN <= x <= MAX_RETRY_IN -> d = x)
    end.
Proof. exact (retry_delay_bounded Hrng retry_in p poll attempts). Qed.
End worker_facts.
#[export] Hint Resolve guarantee_handle_job : guarantee.

Section tick_facts.
Context `{env : BackoffEnv}.

Definition tick_total (s : TickStats) : Z := ts_completed s + ts_failed s + ts_fenced_out s.

(** [tick_once] follows the same policy as the poll loop. *)
Definition flip_tick (worker : option Uuid) (j : JobRef) (v : Verdict) (s : TickStats)
  : M TickStats :=
  match v with
  | VDone => flip_done_tick worker j s
  | VRetry reason delay => flip_retry_tick worker j reason delay s
  | VDead reason => flip_dead_tick worker j reason s
  end.

Lemma apply_handler_result_verdict c j r s :
  apply_handler_result None j (cf_retry_backoff c) (cf_poll_interval c) r s =
  match verdict c j (HoResult r) with
  | None => mreturn None
  | Some v => let! s := flip_tick None j v s in mreturn (Some s)
  end.
Proof.
  destruct r as [u|[reason retry_in|reason]]; simpl; try done. unfold retry_verdict.
  case_decide; [done|]. by destruct (compute_retry_delay _ _ _ _).
Qed.

Lemma flip_tick_counts worker j v s w :
  let s' := (flip_tick worker j v s w).1 in
  ts_claimed s' = ts_claimed s /\ tick_total s <= tick_total s' <= tick_total s + 1.
Proof.
  unfold tick_total. destruct v; simpl;
    unfold flip_done_tick, flip_retry_tick, flip_dead_tick, mcompose;
    match goal with |- context [ (let '(_, _) := ?m w in _) ] => destruct (m w) as [[n|e] w'] end;
    simpl; try (case_decide; simpl); lia.
Qed.

Lemma guarantee_flip_tick worker j v s : guarantee db_steps (flip_tick worker j v s).
Proof.
  destruct v; simpl; unfold flip_done_tick, flip_retry_tick, flip_dead_tick,
    mark_done, mark_retry, mark_dead; solve_guarantee.
Qed.

Context `{!PgEngine, !SqlxInterval} {T : Type} `{!Codec T}.
Implicit Types (wk : Worker (JobHandler T)) (js : list (Job T)).

(** The part of a worker's configuration that [tick_once] uses. *)
Definition tick_cfg (w : Worker (JobHandler T)) : WorkerCfg :=
  mkWorkerCfg (wk_queue w) 0 (wk_max_attempts w) (wk_lease_timeout w) (wk_handler_timeout w)
    (wk_mark_timeout w) (wk_retry_backoff w) (wk_panic_policy w) (wk_batch_size w)
    (wk_poll_interval w) (wk_reaper_interval w) (wk_concurrency w) (wk_concurrency_limits w).

Lemma tick_jobs_counts wk js s w s' :
  (tick_jobs wk js s w).1 = Returned s' ->
  ts_claimed s' = ts_claimed s /\ tick_total s' <= tick_total s + Z.of_nat (length js).
Proof.
  revert s w. induction js as [|job js IH]; intros s w; simpl.
  { intros [= <-]. lia. }
  destruct (wk_handler wk _ _) as [| r took| |]; try done.
  unfold mcompose at 1.
  change (wk_retry_backoff wk) with (cf_retry_backoff (tick_cfg wk)).
  change (wk_poll_interval wk) with (cf_poll_interval (tick_cfg wk)).
  rewrite apply_handler_result_verdict. destruct (verdict _ _ _) as [v|]; [|done].
  unfold mcompose. pose proof (flip_tick_counts None (job_ref job) v s w) as Hc.
  destruct (flip_tick None (job_ref job) v s w) as [s1 w1]. simpl in Hc. simpl.
  intros [H1 H2]%IH. lia.
Qed.

(** The counters of [tick_once]: completed, failed and fenced-out jobs add up to at most
    the claimed ones, which are at most the batch size. *)
Theorem tick_once_counts wk w st :
  (tick_once wk w).1 = Returned (Ok st) -> 0 <= wk_batch_size wk ->
  ts_completed st + ts_failed st + ts_fenced_out st <= ts_claimed st <= wk_batch_size wk.
Proof.
  intros Ht Hb. revert Ht. unfold tick_once, mcompose.
  destruct (claim_and_decode _ _ _ _ _ w) as [[js|e] w1] eqn:Hc; [|done].
  apply claim_and_decode_length in Hc. set (s0 := mkTickStats _ _ _ _).
  destruct (tick_jobs wk js s0 w1) as [r w2] eqn:Hj.
  pose proof (tick_jobs_counts wk js s0 w1) as Hcnt. rewrite Hj in Hcnt.
  destruct r as [s| |]; simpl; try done. intros [= <-].
  destruct (Hcnt s eq_refl) as [H1 H2]. unfold tick_total, s0 in *. simpl in *. lia.
Qed.

Lemma guarantee_decode_rows raws out : guarantee db_steps (decode_rows (T := T) raws out).
Proof.
  revert out. induction raws as [|raw raws IH]; intros out; simpl; [solve_guarantee|].
  apply guarantee_bind; [apply _| |done]. unfold decode_row, mark_dead. solve_guarantee.
Qed.
#[local] Hint Resolve guarantee_decode_rows guarantee_flip_tick : guarantee.

Lemma guarantee_claim_and_decode q n lease max hr :
  guarantee db_steps (claim_and_decode (T := T) q n lease max hr).
Proof. unfold claim_and_decode, claim_batch_raw. solve_guarantee. Qed.
#[local] Hint Resolve guarantee_claim_and_decode : guarantee.

Lemma guarantee_tick_jobs wk js s : guarantee db_steps (tick_jobs wk js s).
Proof.
  revert s. induction js as [|job js IH]; intros s; simpl; [solve_guarantee|].
  destruct (wk_handler wk _ _); solve_guarantee.
  change (wk_retry_backoff wk) with (cf_retry_backoff (tick_cfg wk)).
  change (wk_poll_interval wk) with (cf_poll_interval (tick_cfg wk)).
  rewrite apply_handler_result_verdict. solve_guarantee.
Qed.
#[local] Hint Resolve guarantee_tick_jobs : guarantee.

Lemma guarantee_tick_once wk : guarantee db_steps (tick_once wk).
Proof. unfold tick_once. solve_guarantee. Qed.
End tick_facts.
#[export] Hint Resolve guarantee_claim_and_decode guarantee_tick_once : guarantee.

(** With a poll interval above a day, which [build] accepts, a handler that asks for a
    retry delay makes [Ord::clamp] panic: its floor exceeds its ceiling. *)
Theorem retry_in_panics_on_long_poll (env : BackoffEnv) (benv : BuildEnv) (Hd : Type) (h : Hd) q pool c d :
  1 <= chars_count q <= MAX_QUEUE_LEN -> c <> 0 -> required_connections c <= pool ->
  exists w, build (with_poll_interval (from_secs (25 * 3600))
                     (minimal (from_secs (200 * 3600)) q pool c h)) = Some (Ok w) /\
    compute_retry_delay (Some d) (wk_retry_backoff w) (wk_poll_interval w) 1 = None.
Proof.
  intros Hq Hc Hp. set (b := with_poll_interval _ _).
  assert (Hht : effective_handler_timeout b = Some (from_secs (160 * 3600))) by (vm_compute; done).
  assert (Hdur : dur_ok (wb_lease_timeout b)) by (split; vm_compute; done).
  eexists. split.
  - apply (proj2 (build_iff b _ Hdur)). unfold configured. rewrite Hht. simpl wb_pool. cbv iota.
    split; [reflexivity|]. by solve_worker_ok Hq Hc Hp.
  - vm_compute. done.
Qed.
