(* ===== verification/Lifetime.v ===== *)
(** The life of a job under repeated [tick_once] of [src/worker.rs]: one tick on the only job of a
    queue, and what becomes of a job whose handler always fails. *)
From S2P Require Import Prelude F64 Duration Errors Backoff Schema Lifecycle Transition Exec Select Mark Job Claim ClaimSpec Builder Worker.

(** A round trip the server answers, with nobody else on the table. *)
Definition calm (rt : RoundTrip) : Prop :=
  (forall db, rt_env rt db = db) /\ rt_fault rt = NoFault /\ rt_locked rt = ∅ /\
  forall t, rt_snap rt t = t.

(** [i] is the only job of the queue. *)
Definition only_job (q : list Z) (i : Z) (t : gmap Z Row) : Prop :=
  forall i' r', t !! i' = Some r' -> queue r' = q -> i' = i.

Section lifetime.
Context `{env : BackoffEnv, !PgEngine, !SqlxInterval} {T : Type} `{!Codec T}.
Context (wk : Worker (JobHandler T)) (us : Z).

(** The caller's loop around [tick_once]. *)
Fixpoint ticks (n : nat) : M unit :=
  match n with
  | O => mreturn tt
  | S n => tick_once wk ;! ticks n
  end.

(** ** The claim of the only job *)

Lemma due_only i t now :
  only_job (wk_queue wk) i t ->
  due (wk_queue wk) now t =
  match t !! i with
  | Some r => if decide (runnable (wk_queue wk) now (i, r)) then [(i, r)] else []
  | None => []
  end.
Proof.
  intros Hal. pose proof (due_NoDup (wk_queue wk) now t) as Hnd.
  assert (Hel : forall p, p ∈ due (wk_queue wk) now t -> p.1 = i /\ t !! i = Some p.2).
  { intros p [[Hq _] Hp]%due_elem. assert (p.1 = i) as Hi by (by eapply Hal). by rewrite <- Hi. }
  destruct (due (wk_queue wk) now t) as [|p [|p' l]] eqn:Hd.
  - destruct (t !! i) as [r|] eqn:Hr; [|done]. case_decide as Hrun; [|done].
    assert ((i, r) ∈ due (wk_queue wk) now t) as Hin by (by apply due_elem). rewrite Hd in Hin. set_solver.
  - destruct (Hel p ltac:(by left)) as [Hi Hp]. rewrite Hp.
    assert (Hin : p ∈ due (wk_queue wk) now t) by (rewrite Hd; by left).
    apply due_elem in Hin as [Hrun _]. destruct p as [i' r]. simpl in *. subst i'.
    by rewrite decide_True.
  - exfalso. destruct (Hel p ltac:(by left)) as [H1 _]. destruct (Hel p' ltac:(right; by left)) as [H2 _].
    simpl in Hnd. apply NoDup_cons in Hnd as [Hn _]. apply Hn. rewrite H1, <- H2. by left.
Qed.

Lemma targets_only i t rt limit :
  only_job (wk_queue wk) i t -> rt_locked rt = ∅ -> rt_snap rt t = t -> 1 <= limit ->
  claim_targets (wk_queue wk) limit ∅ rt t =
  match t !! i with
  | Some r => if decide (runnable (wk_queue wk) (rt_now rt) (i, r)) then [i] else []
  | None => []
  end.
Proof.
  intros Hal Hl Hsn Hn. rewrite claim_is_greedy_any by (done || (rewrite Hl; set_solver)).
  unfold greedy_claim. rewrite (due_only i t _ Hal). destruct (t !! i) as [r|]; [|by destruct (Z.to_nat limit)].
  case_decide; [|by destruct (Z.to_nat limit)]. simpl.
  destruct (concurrency_key r) as [k|]; simpl; rewrite ?lookup_empty; simpl;
    (destruct (Z.to_nat limit) eqn:?; [lia|by rewrite firstn_cons, take_nil]).
Qed.

(** What [tick_once] needs of a worker that [build] accepted, with [us] its lease in microseconds. *)
Record tick_ready : Prop := mkTickReady {
  tr_queue : 0 ∉ wk_queue wk;
  tr_batch : 1 <= wk_batch_size wk;
  tr_max : 0 < wk_max_attempts wk <= i32_max;
  tr_lease : interval_of_duration (wk_lease_timeout wk) = Ok us;
}.

(** A row that a claim at [now] can take. *)
Record claim_ready (now : Z) (r : Row) : Prop := mkClaimReady {
  cy_row : row_ok r;
  cy_attempts : attempts r < i32_max;
  cy_runnable : forall i, runnable (wk_queue wk) now (i, r);
  cy_clock : clock_after_claim now r;
  cy_created : min_timestamp <= created_at r;
  cy_now : now < chrono_end;
  cy_range : min_timestamp <= now + us < chrono_end;
}.

Definition claimed_at (rt : RoundTrip) (i : Z) (r : Row) : Row :=
  claimed_row (rt_now rt) (rt_now rt + us) (wk_max_attempts wk) (rt_uuid rt i) r.

Lemma claim_update i r rt :
  tick_ready -> claim_ready (rt_now rt) r ->
  update_row (rt_now rt) (set_running (rt_now rt) us (wk_max_attempts wk) (rt_uuid rt)) i r
  = Ok (claimed_at rt i r).
Proof.
  intros Hw [[Hc _] Ha Hrun Hclk _ _ Hrange]. destruct (Hrun i) as [_ [Hs Hra]].
  unfold update_row, set_running, int4_add, timestamptz_pl_interval.
  rewrite !decide_True by (done || (unfold end_timestamp, chrono_end in *; lia)).
  unfold assert_concurrency_key_immutable. simpl. rewrite decide_True by done.
  change (set_updated_at _ _) with (claimed_at rt i r). unfold claimed_at.
  pose proof (tr_max Hw). by rewrite claimed_row_check by (done || lia).
Qed.

Lemma claim_only i r rt db :
  tick_ready -> calm rt -> only_job (wk_queue wk) i (jobs db) -> jobs db !! i = Some r ->
  claim_ready (rt_now rt) r ->
  claim_stmt (wk_queue wk) (wk_batch_size wk) (wk_lease_timeout wk) (wk_max_attempts wk) ∅ rt db
  = (Ok [(i, claimed_at rt i r)], set_jobs (<[i := claimed_at rt i r]> (jobs db)) db).
Proof.
  intros Hw (_ & _ & Hl & Hsn) Hal Hi Hr. unfold claim_stmt, bind_text.
  rewrite decide_False by apply Hw. rewrite (tr_lease Hw).
  change (bind_headroom ∅) with (Ok (E := sqlx_error) (∅ : gmap (list Z) Z)).
  pose proof (tr_batch Hw). pose proof (tr_max Hw).
  unfold run_claim. replace (clamp_i32 (wk_max_attempts wk)) with (wk_max_attempts wk)
    by (unfold clamp_i32; lia).
  rewrite (targets_only i) by (done || (unfold clamp_i32, i32_max; lia)).
  rewrite Hi, decide_True by apply Hr. cbn [pg_update]. rewrite Hi, claim_update by done. cbn [omap].
  unfold row_at. cbn [list_omap]. rewrite lookup_insert_eq. do 2 f_equal.
  apply Permutation_singleton_r. by rewrite pg_returning_perm.
Qed.

(** ** One tick *)

(** The job [tick_once] makes of the claimed row. *)
Definition tick_job (rt : RoundTrip) (i : Z) (r : Row) (x : T) : Job T :=
  mkJob i (public_id r) (queue r) (concurrency_key r) x (attempts r + 1) (wk_max_attempts wk)
    (default (rt_now rt) (first_attempted_at r)) (rt_uuid rt i) (rt_now rt + us).

Definition tick_count (v : Verdict) (s : TickStats) : TickStats :=
  match v with VDone => tick_completed s | _ => tick_failed s end.

(** The one shape of the three [flip_*_tick]. *)
Lemma flip_tick_verdict worker j v s :
  flip_tick worker j v s =
  (let! res := sql (verdict_stmt j v) in
   match res with
   | Ok n =>
       if decide (n = 1) then emit (verdict_event worker j v) ;! mreturn (tick_count v s)
       else mreturn (tick_fenced_out s)
   | Err _ => mreturn s
   end).
Proof. by destruct v. Qed.

Lemma claimed_at_ok rt i r :
  tick_ready -> claim_ready (rt_now rt) r -> row_ok (claimed_at rt i r) /\ 0 <= attempts r.
Proof.
  intros Hw Hr. pose proof (claim_update i r rt Hw Hr) as (r1 & _ & _ & _ & Hck)%update_row_inv.
  destruct Hr as [(Hc & _ & _) Ha _ _ _ _ _]. split; [split; [done|]|].
  - simpl. pose proof (tr_max Hw). lia.
  - unfold check_row, jobs_attempts_nonneg in Hc. rewrite !andb_true_iff, !bool_decide_eq_true in Hc. tauto.
Qed.

(** The row is read back as it was written. *)
Lemma claimed_at_readable rt i r :
  SqlxIntervalSpec _ -> tick_ready -> claim_ready (rt_now rt) r -> readable (claimed_at rt i r).
Proof.
  intros HS Hw Hr. destruct (claimed_at_ok rt i r Hw Hr) as [[Hck _] _].
  pose proof (claimed_first_range _ _ _ _ _ Hck). destruct Hr as [_ _ _ _ Hcr Hnow Hrange].
  intros t [[= <-]|[= <-]]; apply timestamptz_decode_exact; lia.
Qed.

Lemma tick_only (HS : SqlxIntervalSpec _) i r w rt1 rt2 script x res took v :
  tick_ready -> w_script w = rt1 :: rt2 :: script -> calm rt1 -> calm rt2 ->
  only_job (wk_queue wk) i (jobs (w_db w)) -> jobs (w_db w) !! i = Some r -> claim_ready (rt_now rt1) r ->
  decode (payload r) = DecodeOk x ->
  let job := tick_job rt1 i r x in
  wk_handler wk x (context job) = Returns res took ->
  verdict (tick_cfg wk) (job_ref job) (HoResult res) = Some v ->
  rt_now rt1 <= rt_now rt2 -> 0 <= rt_now rt2 -> verdict_fits (rt_now rt2) v ->
  tick_once wk w =
  (Returned (Ok (tick_count v (mkTickStats 1 0 0 0))),
   mkWorld (set_jobs (<[i := verdict_row (rt_now rt2) v (claimed_at rt1 i r)]> (jobs (w_db w))) (w_db w))
     script (w_log w ++ [verdict_event None (job_ref job) v])).
Proof.
  intros Hw Hs Hc1 Hc2 Hal Hi Hr Hx job Hh Hv Hle Hpos Hfit.
  destruct (claimed_at_ok rt1 i r Hw Hr) as [Hok Ha].
  pose proof (tr_max Hw) as Hm. destruct Hc1 as (Henv1 & Hf1 & Hl1) eqn:E1. clear E1.
  unfold tick_once, claim_and_decode, claim_batch_raw, mcompose. unfold sql at 1. rewrite Hs, Hf1, Henv1.
  rewrite (claim_only i r) by done. cbn [raws_of_rows]. unfold raw_of_row. cbn [try_get fst snd claimed_at claimed_row first_attempted_at lease_token lease_expires_at].
  pose proof (claimed_at_readable rt1 i r HS Hw Hr) as Hread.
  rewrite (Hread (default (rt_now rt1) (first_attempted_at r))), (Hread (rt_now rt1 + us)) by (by auto).
  cbn -[u32_of_i32 tick_jobs].
  unfold decode_row at 1. cbn -[u32_of_i32 tick_jobs]. rewrite Hx. unfold mcompose. cbn -[u32_of_i32 tick_jobs Z.of_nat].
  unfold u32_of_i32. rewrite !decide_True by lia. unfold mreturn.
  change (job_of_raw _ x) with job. cbn [length tick_jobs]. change (job_payload job) with x. rewrite Hh.
  change (wk_retry_backoff wk) with (cf_retry_backoff (tick_cfg wk)).
  change (wk_poll_interval wk) with (cf_poll_interval (tick_cfg wk)).
  rewrite apply_handler_result_verdict, Hv. unfold mcompose at 1 2. rewrite flip_tick_verdict.
  unfold mcompose. unfold sql. destruct Hc2 as (Henv2 & Hf2 & _). cbn [w_script w_db w_log]. rewrite Hf2, Henv2.
  rewrite (verdict_held (job_ref job) v rt2 _ (claimed_at rt1 i r)); [|..].
  - cbn. rewrite insert_insert_eq. done.
  - split; [apply lookup_insert_eq|done].
  - done.
  - intros l [= <-]. done.
  - done.
  - done.
Qed.

(** ** A handler that always asks for a retry *)

Definition always_fails (x : T) : Prop :=
  forall ctx, exists reason retry_in took,
    wk_handler wk x ctx = Returns (Err (Retry reason retry_in)) took /\ 0 ∉ reason.

(** The backoff of the worker cannot panic. *)
Record backoff_ready : Prop := mkBackoffReady {
  br_policy : policy_ok (wk_retry_backoff wk);
  br_valid : validate (wk_retry_backoff wk) = Ok tt;
  br_poll : wk_poll_interval wk <= MAX_RETRY_IN;
}.

(** No computed delay is longer. *)
Definition longest_delay : Duration := Z.max MAX_RETRY_IN (policy_cap (wk_retry_backoff wk)).

Lemma retry_delay_longest (Hrng : RandomRangeSpec env) retry_in n :
  backoff_ready ->
  exists d, compute_retry_delay retry_in (wk_retry_backoff wk) (wk_poll_interval wk) n = Some d /\
    0 <= d /\ as_micros d <= as_micros longest_delay.
Proof.
  intros [Hp Hv Hpoll]. destruct (retry_delay_bounded Hrng retry_in _ _ n Hp Hv Hpoll) as (d & Hd & Hb).
  exists d. split; [done|]. unfold longest_delay, as_micros. assert (0 < MIN_RETRY_IN) by done.
  split; [destruct retry_in; lia|]. apply Z.div_le_mono; [lia|]. destruct retry_in; lia.
Qed.

(** The row a verdict writes is well-formed again. *)
Lemma verdict_row_ok j v rt r :
  status r = Running -> lease_token r = Some (jr_lease_token j) -> row_ok r ->
  clock_after_claim (rt_now rt) r -> 0 <= rt_now rt -> verdict_fits (rt_now rt) v ->
  row_ok (verdict_row (rt_now rt) v r).
Proof.
  intros Hs Ht Hok Hclk Hpos Hfit. set (db := mkDb {[jr_id j := r]} (jr_id j + 1) ∅ ∅).
  assert (Hdb : db_ok db).
  { split; simpl; [|by intros i c r']. intros i r' [<- <-]%lookup_singleton_Some. split; [done|lia]. }
  pose proof (verdict_step j v rt db) as Hst.
  rewrite (verdict_held j v rt db r) in Hst; [|split; [apply lookup_singleton_eq|done]|done..].
  apply (db_steps_ok _ _ Hst) in Hdb. by apply (Hdb (jr_id j)), lookup_insert_eq.
Qed.

(** One more attempt of such a job: dead when it was the last, to be claimed again otherwise. *)
Lemma tick_fails (HS : SqlxIntervalSpec _) (Hrng : RandomRangeSpec env) i r w rt1 rt2 script x :
  tick_ready -> backoff_ready -> always_fails x ->
  w_script w = rt1 :: rt2 :: script -> calm rt1 -> calm rt2 ->
  only_job (wk_queue wk) i (jobs (w_db w)) -> jobs (w_db w) !! i = Some r -> claim_ready (rt_now rt1) r ->
  decode (payload r) = DecodeOk x -> 0 <= rt_now rt1 <= rt_now rt2 ->
  rt_now rt2 + as_micros longest_delay < end_timestamp ->
  exists r' e, tick_once wk w =
    (Returned (Ok (mkTickStats 1 0 1 0)),
     mkWorld (set_jobs (<[i := r']> (jobs (w_db w))) (w_db w)) script (w_log w ++ [e])) /\
    same_job r r' /\ attempts r' = attempts r + 1 /\
    if decide (wk_max_attempts wk <= attempts r + 1) then status r' = Dead
    else status r' = AwaitingRetry /\
      forall now, rt_now rt2 + as_micros longest_delay <= now < chrono_end ->
        min_timestamp <= now + us < chrono_end -> claim_ready now r'.
Proof.
  intros Hw Hb Hfail Hs Hc1 Hc2 Hal Hi Hr Hx [Hpos Hle] Hend.
  set (job := tick_job rt1 i r x). destruct (Hfail (context job)) as (reason & retry_in & took & Hh & Hnul).
  destruct (claimed_at_ok rt1 i r Hw Hr) as [Hok Ha].
  destruct (retry_delay_longest Hrng retry_in (attempts r + 1) Hb) as (d & Hd & Hd0 & Hdle).
  assert (Hrsn : 0 ∉ fmt_err_trimmed reason) by (by intros ?%fmt_err_trimmed_elem).
  pose proof (fmt_err_trimmed_length reason) as Hlen.
  set (v := if decide (wk_max_attempts wk <= attempts r + 1) then VDead (fmt_err_trimmed reason)
            else VRetry (fmt_err_trimmed reason) d).
  assert (Hv : verdict (tick_cfg wk) (job_ref job) (HoResult (Err (Retry reason retry_in))) = Some v).
  { simpl. unfold retry_verdict, v. simpl. case_decide; [done|]. by rewrite Hd. }
  assert (Hfit : verdict_fits (rt_now rt2) v).
  { unfold v. case_decide; simpl; [done|]. split_and!; [done|done|done|]. lia. }
  pose proof (tick_only HS i r w rt1 rt2 script x _ took v Hw Hs Hc1 Hc2 Hal Hi Hr Hx Hh Hv Hle
    ltac:(lia) Hfit) as Ht.
  pose proof (verdict_row_ok (job_ref job) v rt2 (claimed_at rt1 i r)) as Hvok.
  destruct Hr as [_ Hai Hrun Hclk Hcr _ _]. destruct (Hrun i) as [Hq _].
  unfold v in *. case_decide as Hmax; eexists _, _; (split; [exact Ht|]).
  - done.
  - split; [done|]. split; [done|]. split; [done|]. intros now [Hn1 Hn2] Hn3. split; try done.
    + apply Hvok; [done..| |lia|done]. intros l [= <-]. done.
    + simpl. pose proof (tr_max Hw). lia.
    + intros i'. split; [done|]. split; [by right|]. simpl. lia.
    + intros l [= <-]. assert (0 <= as_micros d) by (apply Z.div_pos; lia). lia.
Qed.

(** ** The whole life *)

(** Two round trips per tick, and between two ticks at least the longest delay. *)
Fixpoint paced (from : Z) (script : list RoundTrip) : Prop :=
  match script with
  | rt1 :: rt2 :: script =>
      calm rt1 /\ calm rt2 /\ from <= rt_now rt1 <= rt_now rt2 /\
      rt_now rt1 < chrono_end /\ min_timestamp <= rt_now rt1 + us < chrono_end /\
      rt_now rt2 + as_micros longest_delay < end_timestamp /\
      paced (rt_now rt2 + as_micros longest_delay) script
  | _ => True
  end.

(** The state between two ticks: the job can be claimed from [from] on. *)
Record waiting (from : Z) (i : Z) (r : Row) (x : T) (t : gmap Z Row) : Prop := mkWaiting {
  wt_only : only_job (wk_queue wk) i t;
  wt_row : t !! i = Some r;
  wt_payload : decode (payload r) = DecodeOk x;
  wt_attempts : attempts r < wk_max_attempts wk;
  wt_ready : forall now, from <= now < chrono_end -> min_timestamp <= now + us < chrono_end -> claim_ready now r;
}.

Lemma only_job_insert i r' t :
  only_job (wk_queue wk) i t -> only_job (wk_queue wk) i (<[i := r']> t).
Proof.
  intros Hal i' r1. destruct (decide (i' = i)) as [->|Hne]; [done|].
  rewrite lookup_insert_ne by done. apply Hal.
Qed.

Lemma ticks_fail (HS : SqlxIntervalSpec _) (Hrng : RandomRangeSpec env) k : forall from i r x w,
  tick_ready -> backoff_ready -> always_fails x -> 0 <= from ->
  waiting from i r x (jobs (w_db w)) -> paced from (w_script w) -> (2 * k <= length (w_script w))%nat ->
  (0 < k)%nat -> Z.of_nat k <= wk_max_attempts wk - attempts r ->
  exists r' w', ticks k w = (tt, w') /\ w_script w' = drop (2 * k) (w_script w) /\
    w_db w' = set_jobs (<[i := r']> (jobs (w_db w))) (w_db w) /\
    same_job r r' /\ attempts r' = attempts r + Z.of_nat k /\
    status r' = if decide (attempts r + Z.of_nat k = wk_max_attempts wk) then Dead else AwaitingRetry.
Proof.
  induction k as [|k IH]; intros from i r x w Hw Hb Hfail Hfrom Hwt Hp Hlen Hk Hleft; [lia|].
  destruct (w_script w) as [|rt1 [|rt2 script]] eqn:Hs; simpl in Hlen; [lia|lia|].
  destruct Hp as (Hc1 & Hc2 & [Hn1 Hn2] & Hce & Hrg & Hend & Hp). destruct Hwt as [Hal Hi Hx Hatt Hrd].
  destruct (tick_fails HS Hrng i r w rt1 rt2 script x Hw Hb Hfail Hs Hc1 Hc2 Hal Hi)
    as (r1 & e & Ht & Hsame & Ha1 & Hst); [apply Hrd; lia|done|lia|done|].
  cbn [ticks]. unfold mcompose. rewrite Ht. destruct k as [|k].
  - exists r1. eexists. split; [done|]. simpl. rewrite drop_0. split_and!; try done.
    repeat case_decide; [done|lia|lia|by destruct Hst].
  - rewrite decide_False in Hst by lia. destruct Hst as [_ Hnext].
    set (w1 := mkWorld _ script _).
    destruct (IH (rt_now rt2 + as_micros longest_delay) i r1 x w1)
      as (r' & w' & Hts & Hscr & Hdb & Hs' & Ha' & Hst'); try done; try lia.
    + unfold longest_delay, as_micros. assert (0 < MAX_RETRY_IN) by done.
      pose proof (Z.div_pos (Z.max MAX_RETRY_IN (policy_cap (wk_retry_backoff wk))) 1000). lia.
    + split; [by apply only_job_insert|apply lookup_insert_eq| |lia|].
      * by destruct Hsame as (_ & _ & -> & _).
      * exact Hnext.
    + simpl. lia.
    + exists r', w'. split; [done|]. split_and!.
      * rewrite Hscr. simpl. by replace (k + S (S (k + 0)))%nat with (S (k + S (k + 0)))%nat by lia.
      * rewrite Hdb. simpl. by rewrite insert_insert_eq.
      * by etrans.
      * lia.
      * rewrite Hst', Ha1. by replace (attempts r + Z.of_nat (S (S k))) with
          (attempts r + 1 + Z.of_nat (S k)) by lia.
Qed.

Lemma waiting_due from i r x t :
  tick_ready -> only_job (wk_queue wk) i t -> t !! i = Some r -> row_ok r ->
  runnable (wk_queue wk) from (i, r) -> clock_after_claim from r -> min_timestamp <= created_at r ->
  decode (payload r) = DecodeOk x -> attempts r < wk_max_attempts wk -> waiting from i r x t.
Proof.
  intros Hw Hal Hi Hok [Hq [Hs Hra]] Hclk Hcr Hx Ha. split; try done. intros now [Hn Hce] Hrg. split; try done.
  - pose proof (tr_max Hw). lia.
  - intros i'. split; [done|]. split; [done|]. simpl in *. lia.
  - intros l Hl. specialize (Hclk l Hl). lia.
Qed.

(** A tick that finds nothing to claim. *)
Lemma tick_idle i r w rt script :
  tick_ready -> w_script w = rt :: script -> calm rt -> only_job (wk_queue wk) i (jobs (w_db w)) ->
  jobs (w_db w) !! i = Some r -> ~ runnable (wk_queue wk) (rt_now rt) (i, r) ->
  tick_once wk w = (Returned (Ok (mkTickStats 0 0 0 0)), mkWorld (w_db w) script (w_log w)).
Proof.
  intros Hw Hs (Henv & Hf & Hl & Hsn) Hal Hi Hn.
  assert (Hst : claim_stmt (wk_queue wk) (wk_batch_size wk) (wk_lease_timeout wk) (wk_max_attempts wk) ∅ rt (w_db w)
    = (Ok [], w_db w)).
  { unfold claim_stmt, bind_text. rewrite decide_False by apply Hw. rewrite (tr_lease Hw).
    change (bind_headroom ∅) with (Ok (E := sqlx_error) (∅ : gmap (list Z) Z)). unfold run_claim.
    pose proof (tr_batch Hw).
    rewrite (targets_only i) by (done || (unfold clamp_i32, i32_max; lia)).
    rewrite Hi, decide_False by done. simpl. destruct (w_db w) as [t n]. simpl. do 2 f_equal.
    apply Permutation_nil_r. by rewrite pg_returning_perm. }
  unfold tick_once, claim_and_decode, claim_batch_raw, mcompose, sql. by rewrite Hs, Hf, Henv, Hst.
Qed.

(** C14: A job that cannot succeed ends: take the only job of a queue, due, with attempts left, and a
    handler that asks for a retry every time.  If each tick comes at least the longest delay
    after the one before and the clock stays in the range of [chrono::DateTime<Utc>], then after [k] ticks the job has been run exactly [k] more times
    and awaits its next attempt, until the attempt number [max_attempts] leaves it dead;
    it is the same job throughout, no other row of the table changes, and no
    later tick claims it again. *)
Theorem failing_job_dead_lettered (HS : SqlxIntervalSpec _) (Hrng : RandomRangeSpec env) from i r x w k :
  tick_ready -> backoff_ready -> always_fails x -> 0 <= from ->
  only_job (wk_queue wk) i (jobs (w_db w)) -> jobs (w_db w) !! i = Some r -> row_ok r ->
  runnable (wk_queue wk) from (i, r) -> clock_after_claim from r -> min_timestamp <= created_at r ->
  decode (payload r) = DecodeOk x -> attempts r < wk_max_attempts wk ->
  paced from (w_script w) -> (2 * k <= length (w_script w))%nat ->
  let remaining := wk_max_attempts wk - attempts r in
  (0 < k)%nat -> Z.of_nat k <= remaining ->
  exists r' w', ticks k w = (tt, w') /\
    w_db w' = set_jobs (<[i := r']> (jobs (w_db w))) (w_db w) /\
    same_job r r' /\ attempts r' = attempts r + Z.of_nat k /\
    if decide (Z.of_nat k = remaining) then
      status r' = Dead /\
      forall rt, calm rt -> tick_once wk (mkWorld (w_db w') [rt] (w_log w')) =
        (Returned (Ok (mkTickStats 0 0 0 0)), mkWorld (w_db w') [] (w_log w'))
    else status r' = AwaitingRetry.
Proof.
  intros Hw Hb Hfail Hfrom Hal Hi Hok Hrun Hclk Hcr Hx Ha Hp Hlen remaining Hk Hleft.
  pose proof (waiting_due from i r x _ Hw Hal Hi Hok Hrun Hclk Hcr Hx Ha) as Hwt.
  destruct (ticks_fail HS Hrng k from i r x w Hw Hb Hfail Hfrom Hwt Hp Hlen Hk Hleft)
    as (r' & w' & Ht & _ & Hdb & Hsame & Hatt & Hst).
  exists r', w'. split_and!; [done|done|done|done|]. destruct (decide (Z.of_nat k = remaining)) as [Hd|Hd]; unfold remaining in Hd.
  - rewrite decide_True in Hst by lia. split; [done|]. intros rt Hc.
    apply (tick_idle i r' (mkWorld (w_db w') [rt] (w_log w')) rt []); try done; simpl.
    + rewrite Hdb. by apply only_job_insert.
    + rewrite Hdb. apply lookup_insert_eq.
    + intros [_ [[Hs|Hs] _]]; simpl in Hs; congruence.
  - by rewrite decide_False in Hst by lia.
Qed.
End lifetime.
