(* ===== verification/Poll.v ===== *)
(** [poll_loop] of [src/worker.rs]: permits, per-key headroom, claim, spawn, and the
    escalation of claim errors. *)
From S2P Require Import Prelude F64 Duration Errors Backoff Schema Lifecycle Transition Exec Select Mark Job Claim Reaper KeySlot Builder Worker.

(** [tokio::sync::Semaphore]. *)
Record Semaphore : Type := mkSemaphore {
  sem_free : Z;
  sem_closed : bool;
}.

(** A spawned [handle_job]: it owns its job, one permit and a slot guard. *)
Record Task (T : Type) : Type := mkTask {
  task_job : Job T;
  task_slot : KeySlotGuard;
}.
Arguments mkTask {T} _ _.
Arguments task_job {T} _.
Arguments task_slot {T} _.

(** The shared state of [WorkerState] that the loop and the tasks use.  The [JoinSet] holds the
    live tasks [ps_tasks] and [ps_unjoined] entries of tasks that have ended and that nobody
    has joined. *)
Record PollState (T : Type) : Type := mkPollState {
  ps_semaphore : Semaphore;
  ps_running : ConcurrencyCounter;
  ps_tasks : list (Task T);
  ps_unjoined : nat;
  ps_shared : Shared;
}.
Arguments mkPollState {T} _ _ _ _ _.
Arguments ps_semaphore {T} _.
Arguments ps_running {T} _.
Arguments ps_tasks {T} _.
Arguments ps_unjoined {T} _.
Arguments ps_shared {T} _.

(** The variables of the loop; the saturation events it logged are kept in order. *)
Record PollLocal : Type := mkPollLocal {
  consecutive_claim_errors : Z;
  prev_saturated : gset (list Z);
  saturation_log : list (gset (list Z));
}.

Definition poll_start : PollLocal := mkPollLocal 0 ∅ [].

(** [Worker::start]: the state the loops begin with. *)
Definition start_state {T} (c : WorkerCfg) (cancelled : bool) : PollState T :=
  mkPollState (mkSemaphore (cf_concurrency c) false) (start_counter (cf_concurrency_limits c)) [] 0
    (mkShared cancelled None None).

(** What can happen to one iteration: the token is cancelled before the claim, or while
    the claim is in flight (after some of its statements), or the claim is answered;
    the tasks at the positions [ended] finish while it is in flight. *)
Inductive PollTick : Type :=
| PollCancelled
| PollClaimCancelled (statements : nat)
| PollRun (ended : list nat).

(** The greedy [try_acquire] loop after the first permit. *)
Fixpoint acquire_more (fuel : nat) (batch held free : Z) : Z * Z :=
  match fuel with
  | O => (held, free)
  | S fuel =>
      if decide (held < batch) then
        if decide (0 < free) then acquire_more fuel batch (held + 1) (free - 1) else (held, free)
      else (held, free)
  end.

(** The permits of an iteration, and those left; the first one is already there. *)
Definition acquire_permits (batch free : Z) : Z * Z :=
  acquire_more (Z.to_nat batch) batch 1 (free - 1).

Definition headroom (limits : gmap (list Z) Z) (running : ConcurrencyCounter) : gmap (list Z) Z :=
  map_imap (fun k limit => Some (u32_saturating_sub limit (live_count running k))) limits.

(** Edge-triggered logging of the saturated keys. *)
Definition note_saturation (limits hr : gmap (list Z) Z) (l : PollLocal) : PollLocal :=
  if decide (limits = ∅) then l else
  let saturated := dom (filter (fun kh : list Z * Z => kh.2 = 0) hr) in
  if decide (saturated = prev_saturated l) then l
  else mkPollLocal (consecutive_claim_errors l) saturated
         (if decide (saturated = ∅) then saturation_log l else saturation_log l ++ [saturated]).

Definition set_errors (n : Z) (l : PollLocal) : PollLocal :=
  mkPollLocal n (prev_saturated l) (saturation_log l).

Section poll.
Context {T : Type}.
Implicit Types (st : PollState T).

Definition set_free (n : Z) st : PollState T :=
  mkPollState (mkSemaphore n (sem_closed (ps_semaphore st))) (ps_running st) (ps_tasks st)
    (ps_unjoined st) (ps_shared st).

Definition set_shared (f : Shared -> Shared) st : PollState T :=
  mkPollState (ps_semaphore st) (ps_running st) (ps_tasks st) (ps_unjoined st) (f (ps_shared st)).

(** The end of a task, by return, panic or abort: its permit and its slot are dropped; its
    entry stays in the [JoinSet]. *)
Definition end_task (i : nat) st : PollState T :=
  match ps_tasks st !! i with
  | None => st
  | Some t =>
      mkPollState (mkSemaphore (sem_free (ps_semaphore st) + 1) (sem_closed (ps_semaphore st)))
        (drop_guard (task_slot t) (ps_running st)) (delete i (ps_tasks st)) (S (ps_unjoined st))
        (ps_shared st)
  end.

Definition end_tasks (ended : list nat) st : PollState T := foldl (fun st i => end_task i st) st ended.

(** The slot of a claimed row. *)
Definition row_slot (limits : gmap (list Z) Z) (key : option (list Z)) (running : ConcurrencyCounter)
  : KeySlotGuard * ConcurrencyCounter :=
  match key with
  | Some k => if decide (is_Some (limits !! k)) then acquire running k else (no_slot, running)
  | None => (no_slot, running)
  end.

(** [rows.into_iter().zip(permits)]: surplus permits are returned. *)
Fixpoint spawn (limits : gmap (list Z) Z) (rows : list (Job T)) (permits : Z) st : PollState T :=
  match rows with
  | [] => set_free (sem_free (ps_semaphore st) + permits) st
  | row :: rows =>
      if decide (permits <= 0) then st else
      let '(slot, running) := row_slot limits (job_concurrency_key row) (ps_running st) in
      spawn limits rows (permits - 1)
        (mkPollState (ps_semaphore st) running (ps_tasks st ++ [mkTask row slot])
           (ps_unjoined st) (ps_shared st))
  end.

Context `{!PgEngine, !SqlxInterval, !Codec T}.

(** A failed claim: a fatal error, or one too many in a row, ends the loop. *)
Definition claim_failed (e : sqlx_error) (l : PollLocal) st : option PollLocal * PollState T :=
  if is_fatal_sqlx e then (None, set_shared (fun sh => cancel (set_last_fatal e sh)) st)
  else
    let n := u32_saturating_add (consecutive_claim_errors l) 1 in
    if decide (MAX_CONSECUTIVE_CLAIM_ERRORS <= n) then
      (None, set_shared (fun sh => cancel (set_last_fatal e sh)) st)
    else (Some (set_errors n l), st).

(** One iteration; [None] is the end of the loop.  Without a free permit the loop
    still waits for one. *)
Definition poll_iter (c : WorkerCfg) (tick : PollTick) (l : PollLocal) st
  : M (option PollLocal * PollState T) :=
  match tick with
  | PollCancelled => mreturn (None, set_shared cancel st)
  | _ =>
      if sem_closed (ps_semaphore st) then mreturn (None, st) else
      if decide (sem_free (ps_semaphore st) <= 0) then mreturn (Some l, st) else
      let '(want, free) := acquire_permits (cf_batch_size c) (sem_free (ps_semaphore st)) in
      let hr := if decide (cf_concurrency_limits c = ∅) then ∅
                else headroom (cf_concurrency_limits c) (ps_running st) in
      let l := note_saturation (cf_concurrency_limits c) hr l in
      let claim := claim_and_decode (T := T) (cf_queue c) (Z.min want u32_max) (cf_lease_timeout c)
                     (cf_max_attempts c) hr in
      match tick with
      | PollCancelled => mreturn (None, set_shared cancel st)
      | PollClaimCancelled n => abort_after n claim ;! mreturn (None, set_shared cancel st)
      | PollRun ended =>
          let! r := claim in
          let st := end_tasks ended (set_free free st) in
          match r with
          | Ok rows => mreturn (Some (set_errors 0 l), spawn (cf_concurrency_limits c) rows want st)
          | Err e =>
              mreturn (claim_failed e l (set_free (sem_free (ps_semaphore st) + want) st))
          end
      end
  end.

(** The loop over a sequence of iterations; [Some] means it is still running. *)
Fixpoint poll_loop (c : WorkerCfg) (ticks : list PollTick) (l : PollLocal) st
  : M (option PollLocal * PollState T) :=
  match ticks with
  | [] => mreturn (Some l, st)
  | tick :: ticks =>
      let! r := poll_iter c tick l st in
      match r with
      | (None, st) => mreturn (None, st)
      | (Some l, st) => poll_loop c ticks l st
      end
  end.
End poll.

(** * Facts *)

Lemma acquire_more_spec fuel batch held free :
  0 <= free -> Z.of_nat fuel >= batch - held ->
  acquire_more fuel batch held free =
  (held + Z.max 0 (Z.min (batch - held) free), free - Z.max 0 (Z.min (batch - held) free)).
Proof.
  revert held free. induction fuel as [|fuel IH]; intros held free Hf Hfuel; simpl.
  { f_equal; lia. }
  case_decide; [|f_equal; lia]. case_decide; [|f_equal; lia].
  rewrite IH by lia. f_equal; lia.
Qed.

Lemma acquire_permits_spec batch free :
  1 <= batch -> 1 <= free ->
  acquire_permits batch free = (Z.min batch free, free - Z.min batch free).
Proof.
  intros Hb Hf. unfold acquire_permits. rewrite acquire_more_spec by lia. f_equal; lia.
Qed.

(** No permit is lost on the way. *)
Lemma acquire_permits_total batch free :
  (acquire_permits batch free).1 + (acquire_permits batch free).2 = free.
Proof.
  assert (Hmore : forall fuel held free,
    (acquire_more fuel batch held free).1 + (acquire_more fuel batch held free).2 = held + free).
  { intros fuel. induction fuel as [|fuel IH]; intros held free'; simpl; [lia|].
    case_decide; [|simpl; lia]. case_decide; [|simpl; lia]. rewrite IH. lia. }
  unfold acquire_permits. rewrite Hmore. lia.
Qed.

(** The key under which a job is counted, if its key has a limit. *)
Definition limited_key (limits : gmap (list Z) Z) (key : option (list Z)) : option (list Z) :=
  match key with
  | Some k => if decide (is_Some (limits !! k)) then Some k else None
  | None => None
  end.

(** The jobs of a list that carry the key [k]. *)
Definition keyed {T} (k : list Z) (js : list (Job T)) : Z :=
  Z.of_nat (length (filter (fun j => job_concurrency_key j = Some k) js)).

Lemma keyed_cons {T} k (j : Job T) js :
  keyed k (j :: js) = (if decide (job_concurrency_key j = Some k) then 1 else 0) + keyed k js.
Proof.
  unfold keyed. destruct (decide (job_concurrency_key j = Some k)).
  - rewrite filter_cons_True by done. simpl. lia.
  - rewrite filter_cons_False by done. lia.
Qed.

Lemma keyed_app {T} k (js js' : list (Job T)) : keyed k (js ++ js') = keyed k js + keyed k js'.
Proof. unfold keyed. rewrite filter_app, length_app. lia. Qed.

Lemma keyed_nonneg {T} k (js : list (Job T)) : 0 <= keyed k js.
Proof. unfold keyed. lia. Qed.

(** The same for rows that are not decoded yet. *)
Definition raw_keyed (k : list Z) (raws : list RawClaimedRow) : Z :=
  Z.of_nat (length (filter (fun raw => raw_concurrency_key raw = Some k) raws)).

Lemma raw_keyed_cons k raw raws :
  raw_keyed k (raw :: raws) = (if decide (raw_concurrency_key raw = Some k) then 1 else 0) + raw_keyed k raws.
Proof. unfold raw_keyed. rewrite filter_cons. case_decide; simpl; lia. Qed.

Lemma raw_keyed_nonneg k raws : 0 <= raw_keyed k raws.
Proof. unfold raw_keyed. lia. Qed.

(** ** A claim respects the headroom *)
Section claim_keys.
Context `{!PgEngine, !SqlxInterval} {T : Type} `{!Codec T}.

Definition row_tag (p : Z * Row) : Z * option (list Z) := (p.1, concurrency_key p.2).
Definition raw_tag (r : RawClaimedRow) : Z * option (list Z) := (raw_id r, raw_concurrency_key r).

Lemma raws_of_rows_tags rows raws :
  raws_of_rows rows = Ok raws -> raw_tag <$> raws = row_tag <$> rows.
Proof.
  revert raws. induction rows as [|p rows IH]; intros raws; simpl; [by intros [= <-]|].
  destruct (raw_of_row p) as [raw|] eqn:Hp; [|done]. destruct (raws_of_rows rows); [|done].
  intros [= <-]. rewrite !fmap_cons, (IH _ eq_refl). f_equal.
  by apply raw_of_row_inv in Hp as (? & ? & ? & ? & ? & _ & _ & _ & _ & _ & ->).
Qed.

(** The answered rows of a key are at most its headroom. *)
Lemma claim_batch_raw_keys q n lease max hr w raws w' k h :
  snaps_ok (w_script w) ->
  claim_batch_raw q n lease max hr w = (Ok raws, w') -> hr !! k = Some h ->
  raw_keyed k raws <= Z.max 0 h.
Proof.
  intros Hsnaps (rt & script & rows & Hsc & _ & Hst & Hr)%claim_batch_raw_inv Hk.
  rewrite Hsc in Hsnaps. apply Forall_cons in Hsnaps as [Hsnap _]. apply raws_of_rows_tags in Hr.
  apply claim_stmt_inv in Hst as (us & _ & _ & Hc). pose proof (cr_NoDup _ _ _ _ _ _ _ _ _ Hc) as Hnd.
  set (ids := raw_id <$> filter (fun raw => raw_concurrency_key raw = Some k) raws).
  unfold raw_keyed. rewrite <- (length_fmap raw_id). fold ids.
  eapply (claim_targets_key_bound q (clamp_i32 n) hr rt _ k h ids (Hsnap _) Hk).
  - apply NoDup_fmap_filter. apply (f_equal (fmap fst)) in Hr.
    rewrite <- !list_fmap_compose in Hr. change (NoDup ((fst ∘ raw_tag) <$> raws)). by rewrite Hr.
  - intros i (raw & -> & [Hkey Hraw]%list_elem_of_filter)%list_elem_of_fmap.
    assert (Ht : raw_tag raw ∈ row_tag <$> rows) by (rewrite <- Hr; by apply list_elem_of_fmap_2).
    apply list_elem_of_fmap in Ht as ([i r'] & Heq & Hin). unfold raw_tag, row_tag in Heq.
    simpl in Heq. rewrite Hkey in Heq. injection Heq as -> Hkey'. split.
    + rewrite <- (cr_ids _ _ _ _ _ _ _ _ _ Hc). apply (list_elem_of_fmap_2 fst _ _ Hin).
    + destruct (cr_rows _ _ _ _ _ _ _ _ _ Hc _ _ Hin) as (r & Hr0 & _ & _ & -> & _).
      exists r. split; [done|]. by simpl in Hkey'.
Qed.

Lemma decoded_keyed k (raw : RawClaimedRow) :
  keyed k (option_list (decoded (T := T) raw)) <= raw_keyed k [raw].
Proof.
  destruct (decoded raw) as [j|] eqn:Hj; simpl; [|apply raw_keyed_nonneg].
  apply decoded_inv in Hj as [v ->]. rewrite keyed_cons, raw_keyed_cons. done.
Qed.

Lemma decoded_all_keyed k raws : keyed k (omap (decoded (T := T)) raws) <= raw_keyed k raws.
Proof.
  induction raws as [|raw raws IH]; [done|]. pose proof (decoded_keyed k raw) as Hd.
  rewrite list_omap_cons, keyed_app. rewrite raw_keyed_cons in Hd |- *. change (raw_keyed k []) with 0 in Hd. lia.
Qed.

Lemma claim_and_decode_keys q n lease max hr w js w' k h :
  snaps_ok (w_script w) ->
  claim_and_decode (T := T) q n lease max hr w = (Ok js, w') -> hr !! k = Some h ->
  keyed k js <= Z.max 0 h.
Proof.
  intros Hsnaps (raws & w1 & Hc & ->)%claim_and_decode_inv Hk. pose proof (decoded_all_keyed k raws).
  pose proof (claim_batch_raw_keys _ _ _ _ _ _ _ _ _ _ Hsnaps Hc Hk). lia.
Qed.
End claim_keys.

(** ** The invariant of the loop *)

(** With [held] permits in the hands of the current iteration. *)
Record poll_inv {T} (c : WorkerCfg) (held : Z) (st : PollState T) : Prop := mkPollInv {
  pi_free : 0 <= sem_free (ps_semaphore st);
  pi_permits : sem_free (ps_semaphore st) + held + Z.of_nat (length (ps_tasks st)) = cf_concurrency c;
  pi_counter : counter_ok (ps_running st) (task_slot <$> ps_tasks st);
  pi_slots : forall t, t ∈ ps_tasks st ->
    slot (task_slot t) = limited_key (cf_concurrency_limits c) (job_concurrency_key (task_job t));
  pi_limits : forall k n, cf_concurrency_limits c !! k = Some n ->
    slots k (task_slot <$> ps_tasks st) <= n;
}.

(** The knobs the invariant relies on. *)
Record cfg_ok (c : WorkerCfg) : Prop := mkCfgOk {
  co_batch : 1 <= cf_batch_size c <= u32_max;
  co_concurrency : 0 < cf_concurrency c < u32_max;
  co_limits : map_Forall (fun _ n => 0 <= n) (cf_concurrency_limits c);
}.

Section poll_inv.
Context {T : Type} (c : WorkerCfg).
Implicit Types (st : PollState T).

Lemma poll_inv_start cancelled : cfg_ok c -> poll_inv c 0 (start_state (T := T) c cancelled).
Proof.
  intros [_ Hc Hl]. split; simpl; try lia.
  - apply counter_ok_start.
  - set_solver.
  - intros k n Hk. rewrite slots_nil. by apply (Hl k).
Qed.

Lemma poll_inv_shared held f st : poll_inv c held (set_shared f st) <-> poll_inv c held st.
Proof. split; intros [? ? ? ? ?]; split; done. Qed.

Lemma poll_inv_free held n st :
  poll_inv c held st -> 0 <= n -> 
  poll_inv c (held + sem_free (ps_semaphore st) - n) (set_free n st).
Proof. intros [? ? ? ? ?] Hn. split; simpl; try done. lia. Qed.

Lemma poll_inv_end held i st : poll_inv c held st -> poll_inv c held (end_task i st).
Proof.
  intros Hinv. pose proof Hinv as [Hf Hp Hc Hs Hl]. unfold end_task.
  destruct (ps_tasks st !! i) as [t|] eqn:Ht; [|done].
  assert (Hperm : ps_tasks st ≡ₚ t :: delete i (ps_tasks st)) by (by apply delete_Permutation).
  pose proof (Permutation_length Hperm) as Hlen. simpl in Hlen.
  assert (Hslots : (task_slot <$> ps_tasks st) ≡ₚ task_slot t :: (task_slot <$> delete i (ps_tasks st)))
    by (by rewrite Hperm at 1).
  split; simpl; [lia|lia| | |].
  - apply counter_ok_drop. by rewrite <- Hslots.
  - intros t' Ht'. apply Hs. rewrite Hperm. by right.
  - intros k n Hk. specialize (Hl k n Hk). rewrite Hslots, slots_cons in Hl.
    destruct (decide _); lia.
Qed.

Lemma slots_end k i st :
  slots k (task_slot <$> ps_tasks (end_task i st)) <= slots k (task_slot <$> ps_tasks st).
Proof.
  unfold end_task. destruct (ps_tasks st !! i) as [t|] eqn:Ht; [|lia]. simpl.
  rewrite (delete_Permutation _ _ _ Ht) at 2. rewrite fmap_cons, slots_cons. destruct (decide _); lia.
Qed.

Lemma poll_inv_ends held ended st :
  poll_inv c held st ->
  poll_inv c held (end_tasks ended st) /\
  forall k, slots k (task_slot <$> ps_tasks (end_tasks ended st)) <= slots k (task_slot <$> ps_tasks st).
Proof.
  unfold end_tasks. revert st. induction ended as [|i ended IH]; intros st Hinv; simpl; [done|].
  destruct (IH (end_task i st)) as [H1 H2]; [by apply poll_inv_end|]. split; [done|].
  intros k. specialize (H2 k). pose proof (slots_end k i st). lia.
Qed.

Lemma row_slot_spec limits key running gs :
  counter_ok running gs -> Z.of_nat (length gs) < u32_max ->
  slot (row_slot limits key running).1 = limited_key limits key /\
  counter_ok (row_slot limits key running).2 ((row_slot limits key running).1 :: gs).
Proof.
  intros Hc Hlen. unfold row_slot, limited_key. destruct key as [k|].
  - case_decide; [|split; [done|by apply counter_ok_none]].
    destruct (counter_ok_acquire _ _ k Hc Hlen). done.
  - split; [done|by apply counter_ok_none].
Qed.

Lemma spawn_inv rows permits st :
  cfg_ok c -> poll_inv c permits st -> Z.of_nat (length rows) <= permits ->
  (forall k n, cf_concurrency_limits c !! k = Some n ->
     slots k (task_slot <$> ps_tasks st) + keyed k rows <= n) ->
  poll_inv c 0 (spawn (cf_concurrency_limits c) rows permits st) /\
  task_job <$> ps_tasks (spawn (cf_concurrency_limits c) rows permits st)
  = (task_job <$> ps_tasks st) ++ rows.
Proof.
  intros Hcfg. revert permits st. induction rows as [|row rows IH]; intros permits st Hinv Hlen Hroom; simpl.
  { rewrite app_nil_r. split; [|done]. pose proof (pi_free _ _ _ Hinv).
    replace 0 with (permits + sem_free (ps_semaphore st) - (sem_free (ps_semaphore st) + permits)) by lia.
    apply poll_inv_free; [done|]. simpl in Hlen. lia. }
  simpl in Hlen. rewrite decide_False by lia. pose proof Hinv as [Hf Hp Hc Hs Hl].
  destruct (row_slot_spec (cf_concurrency_limits c) (job_concurrency_key row) (ps_running st)
              (task_slot <$> ps_tasks st) Hc) as [Hslot Hc'].
  { rewrite length_fmap. pose proof (co_concurrency _ Hcfg). lia. }
  destruct (row_slot _ _ _) as [g running]. simpl in Hslot, Hc'. set (st' := mkPollState _ _ _ _ _).
  assert (Hgs : (task_slot <$> ps_tasks st') ≡ₚ g :: (task_slot <$> ps_tasks st)).
  { simpl. rewrite fmap_app. simpl. by rewrite Permutation_app_comm. }
  assert (Hk : forall k n, cf_concurrency_limits c !! k = Some n ->
     slots k (task_slot <$> ps_tasks st') + keyed k rows <= n).
  { intros k n Hkn. specialize (Hroom k n Hkn). rewrite keyed_cons in Hroom.
    rewrite Hgs, slots_cons. destruct (decide (slot g = Some k)) as [E|E]; [|destruct (decide _); lia].
    rewrite decide_True in Hroom; [lia|]. rewrite Hslot in E. unfold limited_key in E.
    destruct (job_concurrency_key row); [|done]. by repeat case_decide. }
  destruct (IH (permits - 1) st') as [H1 H2]; [|lia|done|].
  - split; simpl; [done| | | |].
    + rewrite length_app. simpl. lia.
    + change (counter_ok running (task_slot <$> ps_tasks st')). by rewrite Hgs.
    + intros t [Ht|Ht]%elem_of_app; [by apply Hs|]. by apply list_elem_of_singleton in Ht as ->.
    + intros k n Hkn. specialize (Hk k n Hkn). pose proof (keyed_nonneg k rows). simpl in Hk. lia.
  - split; [done|]. rewrite H2. simpl. rewrite fmap_app. simpl. by rewrite <- app_assoc.
Qed.
End poll_inv.

Section poll_facts.
Context `{!PgEngine, !SqlxInterval} {T : Type} `{!Codec T} (c : WorkerCfg).
Implicit Types (st : PollState T).

Lemma headroom_lookup limits running k n :
  limits !! k = Some n ->
  headroom limits running !! k = Some (u32_saturating_sub n (live_count running k)).
Proof. intros Hk. unfold headroom. rewrite map_lookup_imap, Hk. done. Qed.

(** The headroom an iteration claims with. *)
Definition tick_headroom st : gmap (list Z) Z :=
  if decide (cf_concurrency_limits c = ∅) then ∅
  else headroom (cf_concurrency_limits c) (ps_running st).

Definition tick_claim st : M (result (list (Job T)) sqlx_error) :=
  claim_and_decode (cf_queue c) (Z.min (Z.min (cf_batch_size c) (sem_free (ps_semaphore st))) u32_max)
    (cf_lease_timeout c) (cf_max_attempts c) (tick_headroom st).

(** An iteration that gets an answer, by that answer. *)
Lemma poll_iter_run ended l st w r w' :
  cfg_ok c -> sem_closed (ps_semaphore st) = false -> 0 < sem_free (ps_semaphore st) ->
  tick_claim st w = (r, w') ->
  let want := Z.min (cf_batch_size c) (sem_free (ps_semaphore st)) in
  let l1 := note_saturation (cf_concurrency_limits c) (tick_headroom st) l in
  let st1 := end_tasks ended (set_free (sem_free (ps_semaphore st) - want) st) in
  poll_iter c (PollRun ended) l st w =
  (match r with
   | Ok rows => (Some (set_errors 0 l1), spawn (cf_concurrency_limits c) rows want st1)
   | Err e =>
       claim_failed e l1 (set_free (sem_free (ps_semaphore st1) + want) st1)
   end, w').
Proof.
  intros Hcfg Hopen Hfree Hclaim want l1 st1. unfold poll_iter. rewrite Hopen, decide_False by lia.
  rewrite acquire_permits_spec by (pose proof (co_batch _ Hcfg); lia).
  fold want (tick_headroom st). cbv zeta. unfold mcompose. unfold tick_claim in Hclaim.
  fold want in Hclaim. rewrite Hclaim. fold l1 st1. by destruct r.
Qed.

Lemma tick_claim_room st w rows w' k n :
  cfg_ok c -> snaps_ok (w_script w) -> poll_inv c 0 st -> tick_claim st w = (Ok rows, w') ->
  cf_concurrency_limits c !! k = Some n ->
  slots k (task_slot <$> ps_tasks st) + keyed k rows <= n.
Proof.
  intros Hcfg Hsn Hinv Hclaim Hk. pose proof (pi_limits _ _ _ Hinv k n Hk) as Hl.
  assert (Hh : tick_headroom st !! k = Some (u32_saturating_sub n (live_count (ps_running st) k))).
  { unfold tick_headroom. rewrite decide_False by (intros E; by rewrite E in Hk).
    by apply headroom_lookup. }
  pose proof (claim_and_decode_keys _ _ _ _ _ _ _ _ _ _ Hsn Hclaim Hh) as Hb.
  rewrite (co_count _ _ (pi_counter _ _ _ Hinv)) in Hb. unfold u32_saturating_sub in Hb. lia.
Qed.

Lemma tick_claim_length st w rows w' :
  cfg_ok c -> 0 < sem_free (ps_semaphore st) -> tick_claim st w = (Ok rows, w') ->
  Z.of_nat (length rows) <= Z.min (cf_batch_size c) (sem_free (ps_semaphore st)).
Proof.
  intros Hcfg Hfree Hclaim%claim_and_decode_length. pose proof (co_batch _ Hcfg). lia.
Qed.

(** What an answered claim leads to: the invariant, and a task for every claimed job. *)
Lemma poll_claimed ended st w rows w' :
  cfg_ok c -> snaps_ok (w_script w) -> poll_inv c 0 st -> 0 < sem_free (ps_semaphore st) ->
  tick_claim st w = (Ok rows, w') ->
  let want := Z.min (cf_batch_size c) (sem_free (ps_semaphore st)) in
  let st1 := end_tasks ended (set_free (sem_free (ps_semaphore st) - want) st) in
  let st2 := spawn (cf_concurrency_limits c) rows want st1 in
  poll_inv c 0 st2 /\ task_job <$> ps_tasks st2 = (task_job <$> ps_tasks st1) ++ rows.
Proof.
  intros Hcfg Hsn Hinv Hfree Hclaim want st1 st2. pose proof (co_batch _ Hcfg).
  assert (Hst1 : poll_inv c want (set_free (sem_free (ps_semaphore st) - want) st)).
  { replace want with (0 + sem_free (ps_semaphore st) - (sem_free (ps_semaphore st) - want)) at 1 by lia.
    apply poll_inv_free; [done|lia]. }
  apply (poll_inv_ends c want ended) in Hst1 as [Hst1 Hdec].
  apply spawn_inv; [done|done|by eapply tick_claim_length|].
  intros k n Hk. specialize (Hdec k). simpl in Hdec.
  pose proof (tick_claim_room _ _ _ _ _ _ Hcfg Hsn Hinv Hclaim Hk). unfold st1. lia.
Qed.

Lemma poll_iter_inv tick l st w :
  cfg_ok c -> snaps_ok (w_script w) -> poll_inv c 0 st -> poll_inv c 0 (poll_iter c tick l st w).1.2.
Proof.
  intros Hcfg Hsn Hinv. pose proof (co_batch _ Hcfg).
  destruct (sem_closed (ps_semaphore st)) eqn:Hopen.
  { unfold poll_iter. rewrite Hopen. destruct tick; simpl; try done. by apply poll_inv_shared. }
  destruct (decide (sem_free (ps_semaphore st) <= 0)) as [Hf|Hf].
  { unfold poll_iter. rewrite Hopen, decide_True by done.
    destruct tick; simpl; try done. by apply poll_inv_shared. }
  destruct tick as [|n|ended].
  - simpl. by apply poll_inv_shared.
  - unfold poll_iter. rewrite Hopen, decide_False by done.
    destruct (acquire_permits _ _). simpl. by apply poll_inv_shared.
  - destruct (tick_claim st w) as [r w'] eqn:Hclaim.
    rewrite (poll_iter_run _ _ _ _ _ _ Hcfg Hopen ltac:(lia) Hclaim). simpl.
    set (want := Z.min _ _). destruct r as [rows|e].
    { eapply poll_claimed; [done..|lia|done]. }
    assert (Hst1 : poll_inv c want (set_free (sem_free (ps_semaphore st) - want) st)).
    { replace want with (0 + sem_free (ps_semaphore st) - (sem_free (ps_semaphore st) - want)) at 1 by lia.
      apply poll_inv_free; [done|lia]. }
    apply (poll_inv_ends c want ended) in Hst1 as [Hst1 _]. set (st1 := end_tasks _ _) in *.
    assert (Hst2 : poll_inv c 0 (set_free (sem_free (ps_semaphore st1) + want) st1)).
    { pose proof (pi_free _ _ _ Hst1).
      replace 0 with (want + sem_free (ps_semaphore st1) - (sem_free (ps_semaphore st1) + want)) by lia.
      apply poll_inv_free; [done|lia]. }
    unfold claim_failed. destruct (is_fatal_sqlx e); simpl; [by apply poll_inv_shared|].
    case_decide; simpl; [by apply poll_inv_shared|done].
Qed.

(** A running worker: iterations of the loop and endings of tasks, in any order. *)
Inductive worker_step : option PollLocal * PollState T -> option PollLocal * PollState T -> Prop :=
| ws_step_poll tick l st w :
    snaps_ok (w_script w) -> worker_step (Some l, st) (poll_iter c tick l st w).1
| ws_step_end l st i : worker_step (l, st) (l, end_task i st).

Lemma worker_steps_inv s1 s2 :
  cfg_ok c -> rtc worker_step s1 s2 -> poll_inv c 0 s1.2 -> poll_inv c 0 s2.2.
Proof.
  intros Hcfg. induction 1 as [|s1 s2 s3 Hs _ IH]; [done|]. intros Hinv. apply IH.
  destruct Hs as [tick l st w Hsn|l st i]; [by apply poll_iter_inv|by apply poll_inv_end].
Qed.

Lemma keyed_slots k n held st :
  poll_inv c held st -> cf_concurrency_limits c !! k = Some n ->
  keyed k (task_job <$> ps_tasks st) = slots k (task_slot <$> ps_tasks st).
Proof.
  intros [_ _ _ Hs _] Hk. revert Hs. generalize (ps_tasks st). intros ts Hs.
  induction ts as [|t ts IH]; [done|].
  rewrite !fmap_cons, keyed_cons, slots_cons, IH by (intros; apply Hs; by right). f_equal.
  specialize (Hs t ltac:(by left)). unfold limited_key in Hs.
  destruct (decide (job_concurrency_key (task_job t) = Some k)) as [E|E].
  - rewrite E, decide_True in Hs by eauto. by rewrite decide_True.
  - rewrite decide_False; [done|]. intros E2. rewrite Hs in E2.
    destruct (job_concurrency_key (task_job t)); [|done]. by repeat case_decide.
Qed.

(** C18: The per-key limit: in every reachable state of a running worker, for every
    configured key the number of live handler tasks with that key is at most its limit,
    whatever the claims return, however the database interferes, however old the snapshots of
    the claims are and in whatever order tasks end. *)
Theorem per_key_limit cancelled l st k n :
  cfg_ok c -> rtc worker_step (Some poll_start, start_state c cancelled) (l, st) ->
  cf_concurrency_limits c !! k = Some n ->
  keyed k (task_job <$> ps_tasks st) <= n.
Proof.
  intros Hcfg Hr Hk.
  pose proof (worker_steps_inv _ _ Hcfg Hr (poll_inv_start c cancelled Hcfg)) as Hinv. simpl in Hinv.
  rewrite (keyed_slots k n 0) by done. by apply (pi_limits _ _ _ Hinv).
Qed.

(** C19: The concurrency bound: in every reachable state of a running worker the free permits and
    the live tasks add up to the configured concurrency: no permit leaks, and there are
    never more tasks than that. *)
Theorem concurrency_bound cancelled l st :
  cfg_ok c -> rtc worker_step (Some poll_start, start_state c cancelled) (l, st) ->
  sem_free (ps_semaphore st) + Z.of_nat (length (ps_tasks st)) = cf_concurrency c /\
  Z.of_nat (length (ps_tasks st)) <= cf_concurrency c.
Proof.
  intros Hcfg Hr.
  pose proof (worker_steps_inv _ _ Hcfg Hr (poll_inv_start c cancelled Hcfg)) as Hinv. simpl in Hinv.
  destruct Hinv as [? ? _ _ _]. lia.
Qed.

(** Every claimed job gets a task: an iteration asks for no more rows than it holds
    permits, so pairing rows with permits drops none of them. *)
Theorem poll_spawns_every_row cancelled l st ended w rows w' :
  cfg_ok c -> rtc worker_step (Some poll_start, start_state c cancelled) (Some l, st) ->
  sem_closed (ps_semaphore st) = false -> 0 < sem_free (ps_semaphore st) -> snaps_ok (w_script w) ->
  tick_claim st w = (Ok rows, w') ->
  exists kept, task_job <$> ps_tasks (poll_iter c (PollRun ended) l st w).1.2 = kept ++ rows.
Proof.
  intros Hcfg Hr Hopen Hfree Hsn Hclaim.
  pose proof (worker_steps_inv _ _ Hcfg Hr (poll_inv_start c cancelled Hcfg)) as Hinv.
  rewrite (poll_iter_run _ _ _ _ _ _ Hcfg Hopen Hfree Hclaim). simpl.
  eexists. eapply poll_claimed; done.
Qed.

(** ** The [JoinSet] of handler tasks *)

Definition joinset_len st : nat := (length (ps_tasks st) + ps_unjoined st)%nat.

Lemma joinset_end i st : joinset_len (end_task i st) = joinset_len st.
Proof.
  unfold joinset_len, end_task. destruct (ps_tasks st !! i) as [t|] eqn:Ht; [|done]. simpl.
  rewrite (Permutation_length (delete_Permutation _ _ _ Ht)). simpl. lia.
Qed.

Lemma joinset_ends ended st : joinset_len (end_tasks ended st) = joinset_len st.
Proof.
  unfold end_tasks. revert st. induction ended as [|i ended IH]; intros st; simpl; [done|].
  by rewrite IH, joinset_end.
Qed.

Lemma joinset_spawn limits rows : forall permits st,
  Z.of_nat (length rows) <= permits ->
  joinset_len (spawn limits rows permits st) = (joinset_len st + length rows)%nat.
Proof.
  induction rows as [|row rows IH]; intros permits st Hl; simpl in *; [unfold joinset_len; simpl; lia|].
  rewrite decide_False by lia. destruct (row_slot _ _ _) as [g running]. rewrite IH by lia.
  unfold joinset_len. simpl. rewrite length_app. simpl. lia.
Qed.

Lemma joinset_poll_iter tick l st w :
  cfg_ok c ->
  (joinset_len st <= joinset_len (poll_iter c tick l st w).1.2)%nat /\
  (forall ended rows w', tick = PollRun ended -> sem_closed (ps_semaphore st) = false ->
     0 < sem_free (ps_semaphore st) -> tick_claim st w = (Ok rows, w') ->
     joinset_len (poll_iter c tick l st w).1.2 = (joinset_len st + length rows)%nat).
Proof.
  intros Hcfg.
  destruct (sem_closed (ps_semaphore st)) eqn:Hopen.
  { split; [|done]. unfold poll_iter. rewrite Hopen. by destruct tick. }
  destruct (decide (sem_free (ps_semaphore st) <= 0)) as [Hf|Hf].
  { split; [|intros; lia]. unfold poll_iter. rewrite Hopen, decide_True by done. by destruct tick. }
  destruct tick as [|n|ended].
  - by split.
  - split; [|done]. unfold poll_iter. rewrite Hopen, decide_False by done. by destruct (acquire_permits _ _).
  - destruct (tick_claim st w) as [r w'] eqn:Hclaim.
    rewrite (poll_iter_run _ _ _ _ _ _ Hcfg Hopen ltac:(lia) Hclaim). cbv zeta. cbn [fst snd].
    destruct r as [rows|e]; cbn [fst snd].
    + assert (Hpos : 0 < sem_free (ps_semaphore st)) by lia.
      pose proof (tick_claim_length _ _ _ _ Hcfg Hpos Hclaim) as Hlen.
      rewrite joinset_spawn, joinset_ends by done. unfold joinset_len. simpl.
      split; [lia|]. by intros ? ? ? _ _ _ [= <- _].
    + split; [|done]. set (st1 := end_tasks _ _).
      assert (Hst1 : joinset_len st1 = joinset_len st) by (unfold st1; by rewrite joinset_ends).
      clearbody st1. rewrite <- Hst1. unfold claim_failed. destruct (is_fatal_sqlx e); [done|]. by case_decide.
Qed.

(** The set only grows while the worker runs: nobody joins the tasks that have ended, so after any
    number of iterations it has an entry for every job the worker ever claimed. *)
Theorem finished_tasks_pile_up s1 s2 l st ended w rows w' :
  cfg_ok c -> rtc worker_step s1 s2 -> s2 = (Some l, st) ->
  sem_closed (ps_semaphore st) = false -> 0 < sem_free (ps_semaphore st) ->
  tick_claim st w = (Ok rows, w') ->
  (joinset_len s1.2 <= joinset_len st)%nat /\
  joinset_len (poll_iter c (PollRun ended) l st w).1.2 = (joinset_len st + length rows)%nat.
Proof.
  intros Hcfg Hr Hs2 Hopen Hfree Hclaim. split; [|by eapply joinset_poll_iter].
  assert (Hm : (joinset_len s1.2 <= joinset_len s2.2)%nat); [|by rewrite Hs2 in Hm].
  clear -Hr Hcfg. induction Hr as [|s1 s2 s3 Hs _ IH]; [done|]. etrans; [|exact IH].
  destruct Hs as [tick l st w _|l st i]; simpl; [by apply joinset_poll_iter|by rewrite joinset_end].
Qed.

(** ** Escalation of claim errors *)

(** The round trip fails with [e], before or after the server ran the statement. *)
Definition fails_with (rt : RoundTrip) (e : sqlx_error) : Prop :=
  rt_fault rt = FailBefore e \/ rt_fault rt = FailAfter e.

Lemma tick_claim_fails st w rt script e :
  w_script w = rt :: script -> fails_with rt e ->
  exists w', tick_claim st w = (Err e, w') /\ w_script w' = script.
Proof.
  intros Hs Hf. unfold tick_claim, claim_and_decode, claim_batch_raw, mcompose, sql.
  rewrite Hs. destruct Hf as [-> | ->]; simpl; eauto.
Qed.

Lemma set_free_back n st : set_free (sem_free (ps_semaphore st)) (set_free n st) = st.
Proof. by destruct st as [[f cl] ? ? ? ?]. Qed.

Lemma note_saturation_errors limits hr l :
  consecutive_claim_errors (note_saturation limits hr l) = consecutive_claim_errors l.
Proof. unfold note_saturation. by repeat case_decide. Qed.

Lemma poll_iter_fails l st w rt script e :
  cfg_ok c -> sem_closed (ps_semaphore st) = false -> 0 < sem_free (ps_semaphore st) ->
  w_script w = rt :: script -> fails_with rt e -> is_fatal_sqlx e = false ->
  0 <= consecutive_claim_errors l < MAX_CONSECUTIVE_CLAIM_ERRORS ->
  let n := consecutive_claim_errors l + 1 in
  exists w' l', w_script w' = script /\ consecutive_claim_errors l' = n /\
    poll_iter c (PollRun []) l st w =
    (if decide (MAX_CONSECUTIVE_CLAIM_ERRORS <= n)
     then (None, set_shared (fun sh => cancel (set_last_fatal e sh)) st)
     else (Some l', st), w').
Proof.
  intros Hcfg Hopen Hfree Hs Hf Hnf Hn n. destruct (tick_claim_fails st w rt script e Hs Hf) as (w' & Hc & Hw).
  rewrite (poll_iter_run _ _ _ _ _ _ Hcfg Hopen Hfree Hc). simpl. unfold claim_failed. rewrite Hnf, note_saturation_errors.
  assert (u32_saturating_add (consecutive_claim_errors l) 1 = n) as ->.
  { unfold u32_saturating_add, n. unfold MAX_CONSECUTIVE_CLAIM_ERRORS in Hn. unfold u32_max. lia. }
  exists w', (set_errors n (note_saturation (cf_concurrency_limits c) (tick_headroom st) l)).
  split_and!; [done|done|]. rewrite Z.sub_add, set_free_back. by case_decide.
Qed.

Lemma poll_loop_cons tick ticks l st w :
  poll_loop c (tick :: ticks) l st w =
  match poll_iter c tick l st w with
  | ((None, st'), w') => ((None, st'), w')
  | ((Some l', st'), w') => poll_loop c ticks l' st' w'
  end.
Proof.
  cbn [poll_loop]. unfold mcompose. by destruct (poll_iter c tick l st w) as [[[l'|] st'] w'].
Qed.

(** Below the threshold the loop goes on, unchanged but for its count. *)
Lemma poll_loop_fails rts errs : forall l st w rest,
  cfg_ok c -> sem_closed (ps_semaphore st) = false -> 0 < sem_free (ps_semaphore st) ->
  Forall2 fails_with rts errs -> Forall (fun e => is_fatal_sqlx e = false) errs ->
  w_script w = rts ++ rest -> 0 <= consecutive_claim_errors l ->
  consecutive_claim_errors l + Z.of_nat (length errs) < MAX_CONSECUTIVE_CLAIM_ERRORS ->
  exists w' l', w_script w' = rest /\
    consecutive_claim_errors l' = consecutive_claim_errors l + Z.of_nat (length errs) /\
    poll_loop c (replicate (length errs) (PollRun [])) l st w = ((Some l', st), w').
Proof.
  revert errs. induction rts as [|rt rts IH]; intros errs l st w rest Hcfg Hopen Hfree Hrts Hnf Hs Hl Hlen.
  { apply Forall2_nil_inv_l in Hrts as ->. simpl in *. exists w, l. split_and!; [done|lia|done]. }
  apply Forall2_cons_inv_l in Hrts as (e & errs' & He & Hrts & ->).
  apply Forall_cons in Hnf as [Hne Hnf]. simpl length in *.
  destruct (poll_iter_fails l st w rt (rts ++ rest) e) as (w1 & l1 & Hw1 & Hl1 & Hit); try done; [lia|].
  rewrite decide_False in Hit by lia.
  destruct (IH errs' l1 st w1 rest) as (w2 & l2 & ? & ? & Hloop); try done; [lia..|].
  exists w2, l2. split_and!; [done|lia|]. cbn [replicate]. by rewrite poll_loop_cons, Hit.
Qed.

Lemma poll_loop_app ticks1 ticks2 l st w l1 st1 w1 :
  poll_loop c ticks1 l st w = ((Some l1, st1), w1) ->
  poll_loop c (ticks1 ++ ticks2) l st w = poll_loop c ticks2 l1 st1 w1.
Proof.
  revert l st w. induction ticks1 as [|tick ticks1 IH]; intros l st w; [by intros [= -> -> ->]|].
  rewrite <- app_comm_cons, !poll_loop_cons.
  destruct (poll_iter c tick l st w) as [[[l'|] st'] w']; [apply IH|done].
Qed.

(** C33: The loop survives 29 consecutive transient claim errors unchanged, and the 30th ends
    it: the token is cancelled and that error is recorded as fatal (unless an earlier
    one was). *)
Theorem claim_errors_escalate st w rts rt errs e rest :
  cfg_ok c -> sem_closed (ps_semaphore st) = false -> 0 < sem_free (ps_semaphore st) ->
  Forall2 fails_with rts errs -> fails_with rt e ->
  Forall (fun e => is_fatal_sqlx e = false) errs -> is_fatal_sqlx e = false ->
  length errs = 29%nat -> w_script w = rts ++ rt :: rest ->
  (exists l, (poll_loop c (replicate 29 (PollRun [])) poll_start st w).1 = (Some l, st)) /\
  (poll_loop c (replicate 30 (PollRun [])) poll_start st w).1
  = (None, set_shared (fun sh => cancel (set_last_fatal e sh)) st).
Proof.
  intros Hcfg Hopen Hfree Hrts Hrt Hnf Hne Hlen Hs.
  destruct (poll_loop_fails rts errs poll_start st w (rt :: rest))
    as (w1 & l1 & Hw1 & Hl1 & Hloop); try done; [by rewrite Hlen|].
  rewrite Hlen in Hloop, Hl1. simpl in Hl1. split; [exists l1; by rewrite Hloop|].
  change 30%nat with (29 + 1)%nat. rewrite replicate_add, (poll_loop_app _ _ _ _ _ _ _ _ Hloop).
  destruct (poll_iter_fails l1 st w1 rt rest e) as (w2 & l2 & _ & _ & Hit); try done.
  { rewrite Hl1. done. }
  cbn [replicate]. by rewrite poll_loop_cons, Hit, Hl1.
Qed.

Lemma guarantee_poll_iter tick l st : guarantee db_steps (poll_iter c tick l st).
Proof.
  unfold poll_iter. destruct tick; solve_guarantee.
Qed.
#[local] Hint Resolve guarantee_poll_iter : guarantee.

Lemma guarantee_poll_loop ticks l st : guarantee db_steps (poll_loop c ticks l st).
Proof. revert l st. induction ticks as [|tick ticks IH]; intros l st; cbn [poll_loop]; solve_guarantee. Qed.
End poll_facts.
