(* ===== verification/Phases.v ===== *)
(** [poll_loop] of [src/worker.rs] and [claim_and_decode] of [src/claim.rs] one statement at a
    time.

    [poll_iter] runs an iteration in one go.  Here an iteration is cut into phases with at most
    one round trip each, so that other sessions, and the tasks of the same worker, can take
    steps in between; what the code holds in its local variables meanwhile is the argument of
    the phase. *)
From S2P Require Import Prelude F64 Duration Errors Backoff Schema Lifecycle Transition Exec Select Mark Job Claim Reaper KeySlot Builder Worker Poll.

(** Where the loop is: at its top; with [want] permits and the headroom [hr], before the claim
    statement; with the rows of the answer still to decode and the jobs decoded so far; or it has
    been left. *)
Inductive LoopPhase (T : Type) : Type :=
| PhTop (l : PollLocal)
| PhClaim (l : PollLocal) (want : Z) (hr : gmap (list Z) Z)
| PhDecode (l : PollLocal) (want : Z) (raws : list RawClaimedRow) (out : list (Job T))
| PhEnd.
Arguments PhTop {T} _.
Arguments PhClaim {T} _ _ _.
Arguments PhDecode {T} _ _ _ _.
Arguments PhEnd {T}.

Section phases.
Context `{!PgEngine, !SqlxInterval} {T : Type} `{!Codec T}.
Implicit Types (st : PollState T) (ph : LoopPhase T).

(** The phase after an iteration. *)
Definition phase_of (r : option PollLocal) : LoopPhase T :=
  match r with Some l => PhTop l | None => PhEnd end.

(** From the top of the loop to the claim: permits and headroom. *)
Definition take_permits (c : WorkerCfg) (l : PollLocal) st : LoopPhase T * PollState T :=
  if sem_closed (ps_semaphore st) then (PhEnd, st) else
  if decide (sem_free (ps_semaphore st) <= 0) then (PhTop l, st) else
  let '(want, free) := acquire_permits (cf_batch_size c) (sem_free (ps_semaphore st)) in
  let hr := if decide (cf_concurrency_limits c = ∅) then ∅
            else headroom (cf_concurrency_limits c) (ps_running st) in
  (PhClaim (note_saturation (cf_concurrency_limits c) hr l) want hr, set_free free st).

(** The claim statement, and what its failure leads to. *)
Definition claim_phase (c : WorkerCfg) (l : PollLocal) (want : Z) (hr : gmap (list Z) Z) st
  : M (LoopPhase T * PollState T) :=
  let! r := claim_batch_raw (cf_queue c) (Z.min want u32_max) (cf_lease_timeout c) (cf_max_attempts c) hr in
  mreturn match r with
  | Ok raws => (PhDecode l want raws [], st)
  | Err e =>
      let '(next, st) := claim_failed e l (set_free (sem_free (ps_semaphore st) + want) st) in
      (phase_of next, st)
  end.

(** One row of the answer, or, after the last one, the tasks. *)
Definition decode_phase (c : WorkerCfg) (l : PollLocal) (want : Z) (raws : list RawClaimedRow)
    (out : list (Job T)) st : M (LoopPhase T * PollState T) :=
  match raws with
  | raw :: raws =>
      let! job := decode_row raw in
      mreturn (PhDecode l want raws (out ++ option_list job), st)
  | [] => mreturn (PhTop (set_errors 0 l), spawn (cf_concurrency_limits c) out want st)
  end.

(** The permits in the hands of the iteration. *)
Definition held ph : Z :=
  match ph with PhClaim _ want _ | PhDecode _ want _ _ => want | _ => 0 end.

(** The loop is left by a [select!] on the token: the permits are dropped, and so are the rows. *)
Definition leave_loop ph st : PollState T :=
  set_shared cancel (set_free (sem_free (ps_semaphore st) + held ph) st).

(** * An iteration is its phases *)

(** One phase of an iteration under way. *)
Inductive in_flight (c : WorkerCfg) : LoopPhase T * PollState T * World -> LoopPhase T * PollState T * World -> Prop :=
| if_claim l want hr st w r w' :
    claim_phase c l want hr st w = (r, w') -> in_flight c (PhClaim l want hr, st, w) (r, w')
| if_decode l want raws out st w r w' :
    decode_phase c l want raws out st w = (r, w') -> in_flight c (PhDecode l want raws out, st, w) (r, w').

Lemma decode_phases c l want raws out st w :
  rtc (in_flight c) (PhDecode l want raws out, st, w)
    (PhDecode l want [] (decode_rows raws out w).1, st, (decode_rows raws out w).2).
Proof.
  revert out w. induction raws as [|raw raws IH]; intros out w; [done|].
  simpl. unfold mcompose. destruct (decode_row raw w) as [job w1] eqn:Hj.
  eapply rtc_l; [|apply IH]. apply if_decode. simpl. unfold mcompose. by rewrite Hj.
Qed.

(** The phases of an iteration, run without a break, are [poll_iter]; the tasks that end
    while the claim is in flight end at its start. *)
Lemma poll_iter_phases c ended l st w l' st' w' :
  poll_iter c (PollRun ended) l st w = ((l', st'), w') ->
  take_permits c l st = (phase_of l', st') /\ w' = w \/
  exists l1 want hr st1, take_permits c l st = (PhClaim l1 want hr, st1) /\
    rtc (in_flight c) (PhClaim l1 want hr, end_tasks ended st1, w) (phase_of l', st', w').
Proof.
  unfold poll_iter, take_permits. destruct (sem_closed _); [intros [= <- <- <-]; by left|].
  case_decide; [intros [= <- <- <-]; by left|]. destruct (acquire_permits _ _) as [want free].
  set (hr := if decide _ then _ else _). intros Hit. right. eexists _, want, hr, _. split; [done|].
  revert Hit. unfold claim_and_decode. unfold mcompose at 1 2.
  destruct (claim_batch_raw _ _ _ _ _ w) as [[raws|e] w1] eqn:Hc.
  - unfold mcompose. pose proof (decode_phases c (note_saturation (cf_concurrency_limits c) hr l) want raws []
      (end_tasks ended (set_free free st)) w1) as Hd.
    destruct (decode_rows raws [] w1) as [out w2]. simpl. intros [= <- <- <-].
    eapply rtc_l; [|eapply rtc_r; [exact Hd|by apply if_decode]]. apply if_claim. unfold claim_phase, mcompose. by rewrite Hc.
  - simpl. intros [= Hf <-]. apply rtc_once, if_claim. unfold claim_phase, mcompose. rewrite Hc. simpl. by rewrite Hf.
Qed.

Lemma set_free_same st : set_free (sem_free (ps_semaphore st)) st = st.
Proof. by destruct st as [[f cl] ? ? ? ?]. Qed.

(** An iteration whose claim is abandoned after [m] of its statements. *)
Lemma poll_iter_abandoned c m l st w l' st' w' :
  poll_iter c (PollClaimCancelled m) l st w = ((l', st'), w') ->
  take_permits c l st = (phase_of l', st') /\ w' = w \/
  exists l1 want hr st1, take_permits c l st = (PhClaim l1 want hr, st1) /\ l' = None /\
    st' = leave_loop (PhClaim l1 want hr) st1 /\
    w' = (abort_after m (claim_and_decode (T := T) (cf_queue c) (Z.min want u32_max) (cf_lease_timeout c)
            (cf_max_attempts c) hr) w).2.
Proof.
  unfold poll_iter, take_permits. destruct (sem_closed _); [intros [= <- <- <-]; by left|].
  case_decide; [intros [= <- <- <-]; by left|].
  pose proof (acquire_permits_total (cf_batch_size c) (sem_free (ps_semaphore st))) as Htot.
  destruct (acquire_permits _ _) as [want free]. simpl in Htot.
  set (hr := if decide _ then _ else _). unfold mcompose.
  destruct (abort_after m _ w) as [u w1] eqn:Ha. intros [= <- <- <-]. right. eexists _, want, hr, _.
  split_and!; [done|done| |by rewrite Ha]. unfold leave_loop. simpl.
  replace (free + want) with (sem_free (ps_semaphore st)) by lia. by rewrite set_free_back.
Qed.

(** * The invariant, phase by phase *)

(** What the iteration holds leaves room for what it is about to spawn. *)
Definition phase_inv (c : WorkerCfg) ph st : Prop :=
  poll_inv c (held ph) st /\
  match ph with
  | PhTop _ | PhEnd => True
  | PhClaim _ want hr =>
      1 <= want <= u32_max /\
      forall k n, cf_concurrency_limits c !! k = Some n ->
        exists h, hr !! k = Some h /\ slots k (task_slot <$> ps_tasks st) + Z.max 0 h <= n
  | PhDecode _ want raws out =>
      Z.of_nat (length raws) + Z.of_nat (length out) <= want /\
      forall k n, cf_concurrency_limits c !! k = Some n ->
        slots k (task_slot <$> ps_tasks st) + raw_keyed k raws + keyed k out <= n
  end.

Lemma phase_inv_end c ph i st : phase_inv c ph st -> phase_inv c ph (end_task i st).
Proof.
  intros [Hinv Hph]. split; [by apply poll_inv_end|].
  destruct ph as [|l want hr|l want raws out|]; try done; destruct Hph as [Hw Hk]; (split; [done|]).
  - intros k n Hn. destruct (Hk k n Hn) as (h & Hh & Hle). exists h. split; [done|].
    pose proof (slots_end k i st). lia.
  - intros k n Hn. specialize (Hk k n Hn). pose proof (slots_end k i st). lia.
Qed.

Lemma phase_inv_leave c ph st : phase_inv c ph st -> 0 <= held ph -> phase_inv c PhEnd (leave_loop ph st).
Proof.
  intros [Hinv _] Hh. split; [|done]. unfold leave_loop. apply poll_inv_shared. simpl.
  pose proof (pi_free _ _ _ Hinv).
  replace 0 with (held ph + sem_free (ps_semaphore st) - (sem_free (ps_semaphore st) + held ph)) by lia.
  apply poll_inv_free; [done|lia].
Qed.

Lemma held_nonneg c ph st : phase_inv c ph st -> 0 <= held ph.
Proof. intros [_ Hph]. destruct ph; simpl in *; lia. Qed.

Lemma take_permits_inv c l st :
  cfg_ok c -> poll_inv c 0 st -> phase_inv c (take_permits c l st).1 (take_permits c l st).2.
Proof.
  intros Hcfg Hinv. unfold take_permits. destruct (sem_closed _); [done|]. case_decide; [done|].
  pose proof (co_batch _ Hcfg) as Hb. rewrite acquire_permits_spec by lia. set (want := Z.min _ _). simpl.
  split; simpl.
  { replace want with (0 + sem_free (ps_semaphore st) - (sem_free (ps_semaphore st) - want)) at 1 by lia.
    apply poll_inv_free; [done|lia]. }
  split; [lia|]. intros k n Hk. rewrite decide_False by (intros E; by rewrite E in Hk).
  rewrite (headroom_lookup _ _ _ _ Hk). eexists. split; [done|].
  pose proof (pi_limits _ _ _ Hinv k n Hk). rewrite (co_count _ _ (pi_counter _ _ _ Hinv)).
  unfold u32_saturating_sub. lia.
Qed.

Lemma claim_phase_inv c l want hr st w r w' :
  cfg_ok c -> snaps_ok (w_script w) -> phase_inv c (PhClaim l want hr) st ->
  claim_phase c l want hr st w = (r, w') -> phase_inv c r.1 r.2.
Proof.
  intros Hcfg Hsn Hph. pose proof (phase_inv_leave _ _ _ Hph (held_nonneg _ _ _ Hph)) as [Hback _].
  destruct Hph as [Hinv [Hw Hk]]. unfold claim_phase, mcompose.
  destruct (claim_batch_raw _ _ _ _ _ w) as [[raws|e] w1] eqn:Hc; unfold mreturn; intros [= <- _].
  - split; simpl; [done|]. pose proof (claim_batch_raw_length _ _ _ _ _ _ _ _ Hc). split; [lia|].
    intros k n Hn. destruct (Hk k n Hn) as (h & Hh & Hle).
    pose proof (claim_batch_raw_keys _ _ _ _ _ _ _ _ _ _ Hsn Hc Hh). change (keyed (T := T) k []) with 0. lia.
  - unfold leave_loop in Hback. rewrite poll_inv_shared in Hback. simpl in Hback. unfold claim_failed.
    destruct (is_fatal_sqlx e); [|case_decide]; (split; [|done]); simpl; by rewrite ?poll_inv_shared.
Qed.

Lemma decode_phase_inv c l want raws out st w r w' :
  cfg_ok c -> phase_inv c (PhDecode l want raws out) st ->
  decode_phase c l want raws out st w = (r, w') -> phase_inv c r.1 r.2.
Proof.
  intros Hcfg [Hinv [Hlen Hk]]. destruct raws as [|raw raws]; unfold decode_phase.
  - unfold mreturn. intros [= <- _]. split; [|done]. simpl in *. apply spawn_inv; [done|done|lia|].
    intros k n Hn. specialize (Hk k n Hn). change (raw_keyed k []) with 0 in Hk. lia.
  - unfold mcompose. pose proof (decode_row_result raw w) as Hd. destruct (decode_row raw w) as [job w1].
    simpl in Hd. unfold mreturn. intros [= <- _]. subst job. split; simpl in *; [done|]. split.
    + rewrite length_app. destruct (decoded raw); simpl; lia.
    + intros k n Hn. specialize (Hk k n Hn). pose proof (decoded_keyed (T := T) k raw) as Hr.
      rewrite keyed_app. rewrite raw_keyed_cons in Hk, Hr. change (raw_keyed k []) with 0 in Hr. lia.
Qed.
End phases.
