(* ===== verification/StateOps.v ===== *)
(** [trait WorkerStateOps] of [src/worker.rs]: the view of a running worker through which its
    handle cancels, drains and reports, without the types of payload and codec.

    The instants of [tokio::time] are nanoseconds; a state carries the current one, and the
    operations that wait move it. *)
From S2P Require Import Prelude Duration Errors Schema Transition Exec Worker.

Class WorkerStateOps (St : Type) : Type := {
  cancel_shutdown : St -> St;
  last_fatal_snapshot : St -> option sqlx_error;
  last_panic_escalation_snapshot : St -> option Z;
  (** [None]: some handler never ends, and neither does the drain. *)
  drain_handlers : St -> option St;
  drain_handlers_until : Z -> St -> bool * St;
  abort_remaining_handlers : Duration -> St -> Z * St;
  snapshot_stats : St -> Stats;
  count_pending_recovery : Duration -> St -> M (Z * St);
}.

(** [tokio::time]: [Instant::now()], sleeping, and the time a task waits to be scheduled
    again between the end of the drain and the aborts. *)
Class Clocked (St : Type) : Type := {
  clock : St -> Z;
  wait_until : Z -> St -> St;
  lag : St -> Duration;
}.

(** The errors the loops have recorded. *)
Definition errors `{!WorkerStateOps St} (s : St) : option sqlx_error * option Z :=
  (last_fatal_snapshot s, last_panic_escalation_snapshot s).

(** What the handle relies on. *)
Class WorkerStateLaws (St : Type) `{!WorkerStateOps St, !Clocked St} : Prop := {
  cancel_clock s : clock (cancel_shutdown s) = clock s /\ lag (cancel_shutdown s) = lag s;
  wait_clock t s : clock (wait_until t s) = Z.max (clock s) t /\ lag (wait_until t s) = lag s;
  drain_until_clock d s :
    clock s <= clock (drain_handlers_until d s).2 <= Z.max (clock s) d /\
    lag (drain_handlers_until d s).2 = lag s;
  abort_clock g s :
    0 <= g -> 0 <= lag s ->
    clock s <= clock (abort_remaining_handlers g s).2 <= clock s + lag s + g;
  pending_clock q s w :
    0 <= q -> clock s <= clock (count_pending_recovery q s w).1.2 <= clock s + q;
  (** Nothing the handle does touches the recorded errors. *)
  cancel_errors s : errors (cancel_shutdown s) = errors s;
  wait_errors t s : errors (wait_until t s) = errors s;
  drain_errors s s' : drain_handlers s = Some s' -> errors s' = errors s;
  drain_until_errors d s : errors (drain_handlers_until d s).2 = errors s;
  abort_errors g s : errors (abort_remaining_handlers g s).2 = errors s;
  pending_errors q s w : errors (count_pending_recovery q s w).1.2 = errors s;
}.
