(* ===== verification/Drain.v ===== *)
(** [impl WorkerStateOps for WorkerState] of [src/worker.rs]: waiting for the handler tasks in
    the [JoinSet], with and without a deadline, and aborting what is left. *)
From S2P Require Import Prelude F64 Duration Errors Backoff Schema Lifecycle Transition Exec Mark Job Claim Reaper Purge KeySlot Builder Worker Poll StateOps.

(** What becomes of a live task: when it ends by itself (if ever) and all it adds to the
    counters by then; when its handler has timed out (if it does), which is counted at once,
    before the mark is awaited; and how long after an abort it reaches a point where it can be
    cancelled (if ever).  The other counters are bumped after the mark, with no await left. *)
Record Fate : Type := mkFate {
  ft_end : option Z;
  ft_counts : AtomicStats;
  ft_timed_out : option Z;
  ft_yield : option Duration;
}.

(** What a task that has not ended has added to the counters by the instant [by_]. *)
Definition early (f : Fate) (by_ : Z) : AtomicStats :=
  match ft_timed_out f with
  | Some t => if decide (t <= by_) then add_timed_out 1 stats_zero else stats_zero
  | None => stats_zero
  end.

(** And one that ended at [e]: all of it, unless it was cancelled there. *)
Definition end_counts (f : Fate) (e : Z) (cancelled : bool) : AtomicStats :=
  if cancelled then early f e else ft_counts f.

(** A task that ends as [ends] says, at the instant [by_]. *)
Definition so_far (f : Fate) (ends : option (Z * bool)) (by_ : Z) : AtomicStats :=
  match ends with
  | Some (e, cancelled) => if decide (e <= by_) then end_counts f e cancelled else early f by_
  | None => early f by_
  end.

Definition stats_add (d s : AtomicStats) : AtomicStats :=
  add_completed (as_completed d) (add_failed (as_failed d) (add_fenced_out (as_fenced_out d)
    (add_timed_out (as_timed_out d) (add_mark_timed_out (as_mark_timed_out d)
       (add_aborted (as_aborted d) s))))).

(** [WorkerState]: its configuration, what the loops share, the counters as the joined tasks
    have left them, the clock, the fates of its tasks, and when they were aborted. *)
Record WorkerState (T : Type) : Type := mkWorkerState {
  ws_cfg : WorkerCfg;
  ws_poll : PollState T;
  ws_stats : AtomicStats;
  ws_clock : Z;
  ws_lag : Duration;
  ws_fate : Task T -> Fate;
  ws_aborted : option Z;
}.
Arguments mkWorkerState {T} _ _ _ _ _ _ _.
Arguments ws_cfg {T} _.
Arguments ws_poll {T} _.
Arguments ws_stats {T} _.
Arguments ws_clock {T} _.
Arguments ws_lag {T} _.
Arguments ws_fate {T} _ _.
Arguments ws_aborted {T} _.

(** The position of the element with the smallest key. *)
Fixpoint earliest {A} (ends : A -> option (Z * bool)) (l : list A) : option (nat * (Z * bool)) :=
  match l with
  | [] => None
  | x :: l =>
      match ends x, earliest ends l with
      | None, None => None
      | None, Some (i, e) => Some (S i, e)
      | Some e, None => Some (0%nat, e)
      | Some e, Some (i, e') =>
          if decide (e.1 <= e'.1) then Some (0%nat, e) else Some (S i, e')
      end
  end.

Section drain.
Context {T : Type}.
Implicit Types (s : WorkerState T) (st : PollState T) (t : Task T).

Definition set_ws_clock (n : Z) s : WorkerState T :=
  mkWorkerState (ws_cfg s) (ws_poll s) (ws_stats s) n (ws_lag s) (ws_fate s) (ws_aborted s).
Definition set_ws_poll (st : PollState T) s : WorkerState T :=
  mkWorkerState (ws_cfg s) st (ws_stats s) (ws_clock s) (ws_lag s) (ws_fate s) (ws_aborted s).
Definition set_ws_stats (x : AtomicStats) s : WorkerState T :=
  mkWorkerState (ws_cfg s) (ws_poll s) x (ws_clock s) (ws_lag s) (ws_fate s) (ws_aborted s).
(** [abort_all]. *)
Definition set_ws_aborted s : WorkerState T :=
  mkWorkerState (ws_cfg s) (ws_poll s) (ws_stats s) (ws_clock s) (ws_lag s) (ws_fate s) (Some (ws_clock s)).

(** The [JoinSet] gives up the entry of a task that has ended. *)
Definition take_joined st : PollState T :=
  mkPollState (ps_semaphore st) (ps_running st) (ps_tasks st) (pred (ps_unjoined st)) (ps_shared st).

(** The task at position [i] ends at the instant [e] and is joined; its counts are those of its
    outcome, or what it had counted when it was cancelled. *)
Definition finish (i : nat) (e : Z) (cancelled : bool) s : WorkerState T :=
  mkWorkerState (ws_cfg s) (take_joined (end_task i (ws_poll s)))
    (match ps_tasks (ws_poll s) !! i with
     | Some t => stats_add (end_counts (ws_fate s t) e cancelled) (ws_stats s)
     | None => ws_stats s
     end)
    (Z.max (ws_clock s) e) (ws_lag s) (ws_fate s) (ws_aborted s).

(** [join_next], under [timeout_at] when there is a deadline: an entry whose task has ended is
    returned even past the deadline. *)
Inductive JoinNext : Type :=
| SetEmpty
| Joined (cancelled : bool) (s : WorkerState T)
| DeadlineElapsed (s : WorkerState T)
| NeverEnds.

Definition join_next (ends : Task T -> option (Z * bool)) (deadline : option Z) s : JoinNext :=
  match ps_unjoined (ws_poll s), ps_tasks (ws_poll s) with
  | S _, _ => Joined false (set_ws_poll (take_joined (ws_poll s)) s)
  | O, [] => SetEmpty
  | O, ts =>
      match earliest ends ts, deadline with
      | Some (i, (e, cancelled)), None => Joined cancelled (finish i e cancelled s)
      | Some (i, (e, cancelled)), Some d =>
          if decide (e <= Z.max (ws_clock s) d) then Joined cancelled (finish i e cancelled s)
          else DeadlineElapsed (set_ws_clock (Z.max (ws_clock s) d) s)
      | None, None => NeverEnds
      | None, Some d => DeadlineElapsed (set_ws_clock (Z.max (ws_clock s) d) s)
      end
  end.

(** Tasks nobody aborts. *)
Definition natural s t : option (Z * bool) := (fun e => (e, false)) <$> ft_end (ws_fate s t).

(** Tasks aborted at the instant [at_]: one that ends before it can be cancelled ends as it
    would have. *)
Definition aborted s (at_ : Z) t : option (Z * bool) :=
  match ft_end (ws_fate s t), ft_yield (ws_fate s t) with
  | Some e, Some y => Some (if decide (e <= at_ + y) then (e, false) else (at_ + y, true))
  | Some e, None => Some (e, false)
  | None, Some y => Some (at_ + y, true)
  | None, None => None
  end.

Definition task_ends s t : option (Z * bool) :=
  match ws_aborted s with None => natural s t | Some at_ => aborted s at_ t end.

(** The counters when the tasks [ts] have added what [g] says. *)
Definition tally_of (g : Task T -> AtomicStats) (ts : list (Task T)) (x : AtomicStats) : AtomicStats :=
  foldr (fun t x => stats_add (g t) x) x ts.

(** The counters as they stand: those of the joined tasks, and what the tasks that nobody has
    joined have added by now. *)
Definition counters s : AtomicStats :=
  tally_of (fun t => so_far (ws_fate s t) (task_ends s t) (ws_clock s)) (ps_tasks (ws_poll s)) (ws_stats s).

Fixpoint drain_all (fuel : nat) s : option (WorkerState T) :=
  match fuel with
  | O => Some s
  | S fuel =>
      match join_next (natural s) None s with
      | Joined _ s => drain_all fuel s
      | SetEmpty => Some s
      | DeadlineElapsed s => Some s
      | NeverEnds => None
      end
  end.

Fixpoint drain_until (fuel : nat) (deadline : Z) s : bool * WorkerState T :=
  match fuel with
  | O => (true, s)
  | S fuel =>
      match join_next (natural s) (Some deadline) s with
      | SetEmpty => (true, s)
      | Joined _ s => drain_until fuel deadline s
      | DeadlineElapsed s => (false, s)
      | NeverEnds => (false, s)
      end
  end.

(** The loop after [abort_all]. *)
Fixpoint abort_drain (fuel : nat) (at_ grace_deadline count : Z) s : Z * WorkerState T :=
  match fuel with
  | O => (count, s)
  | S fuel =>
      match join_next (aborted s at_) (Some grace_deadline) s with
      | Joined true s => abort_drain fuel at_ grace_deadline (u64_saturating_add count 1) s
      | Joined false s => abort_drain fuel at_ grace_deadline count s
      | SetEmpty => (count, s)
      | DeadlineElapsed s => (count, s)
      | NeverEnds => (count, s)
      end
  end.

(** Every iteration joins an entry, so one more than there are is enough. *)
Definition drain_fuel s : nat := S (joinset_len (ws_poll s)).

Definition ws_abort_remaining_handlers (grace : Duration) s : Z * WorkerState T :=
  if decide (joinset_len (ws_poll s) = 0%nat) then (0, s) else
  let s := set_ws_clock (ws_clock s + ws_lag s) s in
  (* while guard.try_join_next().is_some() {} *)
  let s := (drain_until (drain_fuel s) (ws_clock s) s).2 in
  if decide (joinset_len (ws_poll s) = 0%nat) then (0, s) else
  let s := set_ws_aborted s in
  let '(count, s) := abort_drain (drain_fuel s) (ws_clock s) (ws_clock s + grace) 0 s in
  (count, if decide (0 < count) then set_ws_stats (add_aborted count (ws_stats s)) s else s).

Context `{!PgEngine}.

(** SELECT count of the running rows of the queue. *)
Definition pending_stmt (q : list Z) : Stmt Z := fun _ db =>
  match bind_text q with
  | Err e => (Err e, db)
  | Ok q => (Ok (count_status q Running (jobs db)), db)
  end.

(** How long [tokio::time::timeout(limit, statement)] takes. *)
Definition sql_took (limit : Duration) (w : World) : Duration :=
  match w_script w with [] => limit | rt :: _ => Z.max 0 (Z.min (rt_latency rt) limit) end.

Definition ws_count_pending_recovery (query_timeout : Duration) s : M (Z * WorkerState T) :=
  fun w =>
    let '(r, w') := sql_timeout query_timeout (pending_stmt (cf_queue (ws_cfg s))) w in
    ((match r with
      | Some (Ok n) => if decide (0 <= n) then n else 0
      | Some (Err _) => 0
      | None => 0
      end, set_ws_clock (ws_clock s + sql_took query_timeout w) s), w').

#[global] Instance worker_state_ops : WorkerStateOps (WorkerState T) := {|
  cancel_shutdown := fun s => set_ws_poll (set_shared cancel (ws_poll s)) s;
  last_fatal_snapshot := fun s => sh_last_fatal (ps_shared (ws_poll s));
  last_panic_escalation_snapshot := fun s => sh_last_panic_escalation (ps_shared (ws_poll s));
  drain_handlers := fun s => drain_all (drain_fuel s) s;
  drain_handlers_until := fun d s => drain_until (drain_fuel s) d s;
  abort_remaining_handlers := ws_abort_remaining_handlers;
  snapshot_stats := fun s => snapshot (counters s);
  count_pending_recovery := ws_count_pending_recovery;
|}.

#[global] Instance worker_state_clocked : Clocked (WorkerState T) := {|
  clock := ws_clock;
  wait_until := fun until s => set_ws_clock (Z.max (ws_clock s) until) s;
  lag := ws_lag;
|}.
End drain.

(** * Facts *)

(** ** Counting *)

Lemma f_equal6 {A B C D E F R} (f : A -> B -> C -> D -> E -> F -> R) a a' b b' c c' d d' e e' g g' :
  a = a' -> b = b' -> c = c' -> d = d' -> e = e' -> g = g' -> f a b c d e g = f a' b' c' d' e' g'.
Proof. by intros -> -> -> -> -> ->. Qed.

Lemma u64_wrapping_comm a x y :
  u64_wrapping_add (u64_wrapping_add a x) y = u64_wrapping_add (u64_wrapping_add a y) x.
Proof.
  unfold u64_wrapping_add. rewrite !Z.add_mod_idemp_l by done. f_equal. lia.
Qed.

Lemma stats_add_comm d d' x : stats_add d (stats_add d' x) = stats_add d' (stats_add d x).
Proof.
  cbv [stats_add add_completed add_failed add_fenced_out add_timed_out add_mark_timed_out
    add_aborted as_completed as_failed as_fenced_out as_timed_out as_mark_timed_out as_aborted].
  destruct d, d', x. apply f_equal6; apply u64_wrapping_comm.
Qed.

#[export] Instance tally_of_perm {T} (g : Task T -> AtomicStats) :
  Proper ((≡ₚ) ==> eq ==> eq) (tally_of g).
Proof.
  intros ts ts' Hp x ? <-. induction Hp as [|t ts ts' _ IH|t t' ts|ts1 ts2 ts3 _ IH1 _ IH2]; simpl.
  - done.
  - by rewrite IH.
  - apply stats_add_comm.
  - congruence.
Qed.

Lemma tally_of_add {T} (g : Task T -> AtomicStats) ts d x :
  tally_of g ts (stats_add d x) = stats_add d (tally_of g ts x).
Proof. induction ts as [|t' ts IH]; [done|]. simpl in *. rewrite IH. apply stats_add_comm. Qed.

Lemma tally_of_comm {T} (g h : Task T -> AtomicStats) ts ts' x :
  tally_of g ts (tally_of h ts' x) = tally_of h ts' (tally_of g ts x).
Proof. induction ts as [|t ts IH]; [done|]. simpl. by rewrite IH, tally_of_add. Qed.

Lemma tally_of_app {T} (g : Task T -> AtomicStats) ts ts' x :
  tally_of g (ts ++ ts') x = tally_of g ts (tally_of g ts' x).
Proof. unfold tally_of. by rewrite foldr_app. Qed.

(** The counters when the tasks [ts] have counted their outcomes. *)
Definition tally {T} (fate : Task T -> Fate) : list (Task T) -> AtomicStats -> AtomicStats :=
  tally_of (fun t => ft_counts (fate t)).

(** What a task had counted when it was cancelled. *)
Definition cut {T} (fate : Task T -> Fate) (ends : Task T -> option (Z * bool)) (t : Task T) : AtomicStats :=
  match ends t with Some (e, _) => early (fate t) e | None => stats_zero end.

(** ** The next task to end *)

Lemma earliest_spec {A} (ends : A -> option (Z * bool)) (l : list A) :
  match earliest ends l with
  | None => forall x, x ∈ l -> ends x = None
  | Some (i, e) => exists x, l !! i = Some x /\ ends x = Some e /\
                     forall y e', y ∈ l -> ends y = Some e' -> e.1 <= e'.1
  end.
Proof.
  induction l as [|x l IH]; simpl; [by intros ? ?%elem_of_nil|].
  destruct (ends x) as [e|] eqn:Hx, (earliest ends l) as [[i e']|]; simpl.
  - destruct IH as (y & Hi & Hy & Hmin). case_decide as Hd.
    + exists x. split_and!; [done|done|]. intros z ez [->|Hz]%elem_of_cons Hez; [by simplify_eq|].
      specialize (Hmin z ez Hz Hez). lia.
    + exists y. split_and!; [done|done|]. intros z ez [->|Hz]%elem_of_cons Hez; [simplify_eq; lia|eauto].
  - exists x. split_and!; [done|done|]. intros z ez [->|Hz]%elem_of_cons Hez; [by simplify_eq|].
    rewrite IH in Hez; done.
  - destruct IH as (y & Hi & Hy & Hmin). exists y. split_and!; [done|done|].
    intros z ez [->|Hz]%elem_of_cons Hez; [congruence|eauto].
  - intros z [->|Hz]%elem_of_cons; auto.
Qed.

(** What the drain with limit [lim] makes of a task: [Some cancelled] if it ends in time. *)
Definition ended_by {A} (ends : A -> option (Z * bool)) (lim : Z) (t : A) : option bool :=
  match ends t with
  | Some (e, cancelled) => if decide (e <= lim) then Some cancelled else None
  | None => None
  end.

Lemma earliest_late {A} (ends : A -> option (Z * bool)) (l : list A) lim :
  match earliest ends l with None => True | Some (_, e) => lim < e.1 end ->
  forall t, t ∈ l -> ended_by ends lim t = None.
Proof.
  intros Hlim t Ht. pose proof (earliest_spec ends l) as Hs. unfold ended_by.
  destruct (earliest ends l) as [[i e]|]; [|by rewrite Hs].
  destruct Hs as (x & _ & _ & Hmin). destruct (ends t) as [[et c]|] eqn:Het; [|done].
  specialize (Hmin t _ Ht Het). simpl in *. by rewrite decide_False by lia.
Qed.

Lemma filter_delete_not {A} (P : A -> Prop) `{!forall x, Decision (P x)} (l : list A) i x :
  l !! i = Some x -> ~ P x -> filter P (delete i l) = filter P l.
Proof.
  revert i. induction l as [|y l IH]; intros [|i] Hi HP; simplify_eq/=.
  - by rewrite filter_cons_False.
  - rewrite !filter_cons. by rewrite (IH i).
Qed.

Lemma filter_delete_perm {A} (P : A -> Prop) `{!forall x, Decision (P x)} (l : list A) i x :
  l !! i = Some x -> P x -> filter P l ≡ₚ x :: filter P (delete i l).
Proof. intros Hi HP. rewrite (delete_Permutation _ _ _ Hi) at 1. by rewrite filter_cons_True. Qed.

(** ** The drain loops *)

Section drain_facts.
Context {T : Type}.
Implicit Types (s : WorkerState T) (ends : Task T -> option (Z * bool)).

(** [s'] is [s] after every entry whose task ends by [lim] was joined. *)
Record drained ends (lim : Z) s s' : Prop := mkDrained {
  dr_tasks : ps_tasks (ws_poll s') = filter (fun t => ended_by ends lim t = None) (ps_tasks (ws_poll s));
  dr_unjoined : ps_unjoined (ws_poll s') = 0%nat;
  dr_stats : ws_stats s' =
    tally_of (cut (ws_fate s) ends) (filter (fun t => ended_by ends lim t = Some true) (ps_tasks (ws_poll s)))
      (tally (ws_fate s) (filter (fun t => ended_by ends lim t = Some false) (ps_tasks (ws_poll s))) (ws_stats s));
  dr_clock : ws_clock s <= ws_clock s' <= lim;
  dr_waited : ps_tasks (ws_poll s') <> [] -> ws_clock s' = lim;
  dr_shared : ps_shared (ws_poll s') = ps_shared (ws_poll s);
  dr_cfg : ws_cfg s' = ws_cfg s;
  dr_fate : ws_fate s' = ws_fate s;
  dr_lag : ws_lag s' = ws_lag s;
  dr_aborted : ws_aborted s' = ws_aborted s;
}.

(** The number of tasks the drain finds cancelled. *)
Definition cancelled ends (lim : Z) s : Z :=
  Z.of_nat (length (filter (fun t => ended_by ends lim t = Some true) (ps_tasks (ws_poll s)))).

Lemma finish_drained ends lim s s' i e c t :
  ps_tasks (ws_poll s) !! i = Some t -> ends t = Some (e, c) -> e <= lim -> ps_unjoined (ws_poll s) = 0%nat ->
  drained ends lim (finish i e c s) s' -> drained ends lim s s'.
Proof.
  intros Hi He Hle Hu [Ht Hn Hst Hc Hw Hsh Hcf Hf Hl Hab].
  assert (Hby : ended_by ends lim t = Some c) by (unfold ended_by; by rewrite He, decide_True).
  unfold finish in *. rewrite Hi in *. unfold end_task in *. rewrite Hi in *. simpl in *.
  split; simpl; try done; [|destruct c|lia].
  - by rewrite Ht, (filter_delete_not _ _ _ _ Hi) by congruence.
  - rewrite Hst, (filter_delete_not (fun t => ended_by ends lim t = Some false) _ _ _ Hi) by congruence.
    rewrite (filter_delete_perm (fun t => ended_by ends lim t = Some true) _ _ _ Hi) by done. simpl.
    unfold tally. rewrite !tally_of_add. f_equal. unfold cut. by rewrite He.
  - rewrite Hst, (filter_delete_not (fun t => ended_by ends lim t = Some true) _ _ _ Hi) by congruence.
    unfold tally. by rewrite (filter_delete_perm (fun t => ended_by ends lim t = Some false) _ _ _ Hi), tally_of_add by done.
Qed.

Lemma finish_cancelled ends lim s i e c t :
  ps_tasks (ws_poll s) !! i = Some t -> ends t = Some (e, c) -> e <= lim ->
  cancelled ends lim s = (if c then 1 else 0) + cancelled ends lim (finish i e c s).
Proof.
  intros Hi He Hle.
  assert (Hby : ended_by ends lim t = Some c) by (unfold ended_by; by rewrite He, decide_True).
  unfold cancelled, finish, end_task. simpl. rewrite Hi. simpl. destruct c.
  - rewrite (filter_delete_perm (fun t => ended_by ends lim t = Some true) _ _ _ Hi) by done. simpl. lia.
  - rewrite <- (filter_delete_not (fun t => ended_by ends lim t = Some true) _ _ _ Hi) by congruence. lia.
Qed.

(** One iteration of a drain with a deadline. *)
Lemma join_next_spec ends d s :
  let lim := Z.max (ws_clock s) d in
  match join_next ends (Some d) s with
  | NeverEnds => False
  | SetEmpty => drained ends lim s s /\ cancelled ends lim s = 0 /\ ps_tasks (ws_poll s) = []
  | DeadlineElapsed s' => drained ends lim s s' /\ cancelled ends lim s = 0 /\ ps_tasks (ws_poll s') <> []
  | Joined c s1 =>
      S (joinset_len (ws_poll s1)) = joinset_len (ws_poll s) /\
      Z.max (ws_clock s1) d = lim /\ ws_fate s1 = ws_fate s /\
      cancelled ends lim s = (if c then 1 else 0) + cancelled ends lim s1 /\
      forall s', drained ends lim s1 s' -> drained ends lim s s'
  end.
Proof.
  intros lim. assert (Hlim : ws_clock s <= lim) by lia.
  unfold join_next, joinset_len. destruct (ps_unjoined (ws_poll s)) as [|n] eqn:Hu.
  2: { simpl. split_and!; [lia|done|done|done|]. intros s' [Ht Hn Hst Hc Hw Hsh Hcf Hf Hl Hab]. by split. }
  destruct (ps_tasks (ws_poll s)) as [|t0 ts] eqn:Hts.
  { unfold cancelled. rewrite Hts. split_and!; [|done|done]. by split; rewrite ?Hts. }
  assert (Hne : ps_tasks (ws_poll s) <> []) by congruence. rewrite <- Hts. clear t0 ts Hts.
  pose proof (earliest_spec ends (ps_tasks (ws_poll s))) as He.
  pose proof (earliest_late ends (ps_tasks (ws_poll s)) lim) as Hlate.
  assert (Hend : (forall t, t ∈ ps_tasks (ws_poll s) -> ended_by ends lim t = None) ->
    drained ends lim s (set_ws_clock lim s) /\ cancelled ends lim s = 0).
  { intros Hall.
    assert (Hnone : forall c, filter (fun t => ended_by ends lim t = Some c) (ps_tasks (ws_poll s)) = []).
    { intros c. destruct (filter _ _) as [|t ts] eqn:Hf; [done|].
      assert (Ht : t ∈ filter (fun t => ended_by ends lim t = Some c) (ps_tasks (ws_poll s)))
        by (rewrite Hf; by left).
      apply list_elem_of_filter in Ht as [Ht Hin]. rewrite Hall in Ht; done. }
    unfold cancelled. rewrite Hnone. split; [|done]. split; simpl; try done.
    - by rewrite list_filter_all.
    - by rewrite !Hnone. }
  destruct (earliest ends (ps_tasks (ws_poll s))) as [[i [e c]]|].
  - destruct He as (t & Hi & Het & _). case_decide as Hd.
    + split_and!.
      * unfold finish, end_task. simpl. rewrite Hi. simpl. rewrite Hu.
        rewrite (Permutation_length (delete_Permutation _ _ _ Hi)). simpl. lia.
      * simpl. unfold lim in *. lia.
      * done.
      * by eapply finish_cancelled.
      * intros s' Hs'. by eapply finish_drained.
    + destruct Hend as [? ?]; [apply Hlate; simpl; lia|done].
  - destruct Hend as [? ?]; [by apply Hlate|done].
Qed.

Lemma natural_fate s s1 : ws_fate s1 = ws_fate s -> natural s1 = natural s.
Proof. intros Hf. unfold natural. by rewrite Hf. Qed.

Lemma aborted_fate s s1 : ws_fate s1 = ws_fate s -> aborted s1 = aborted s.
Proof. intros Hf. unfold aborted. by rewrite Hf. Qed.

Lemma drain_until_spec fuel d s :
  (joinset_len (ws_poll s) < fuel)%nat ->
  drained (natural s) (Z.max (ws_clock s) d) s (drain_until fuel d s).2 /\
  ((drain_until fuel d s).1 = true <-> ps_tasks (ws_poll (drain_until fuel d s).2) = []).
Proof.
  revert s. induction fuel as [|fuel IH]; intros s Hf; [lia|]. simpl.
  pose proof (join_next_spec (natural s) d s) as Hj.
  destruct (join_next (natural s) (Some d) s) as [|c s1|s1|]; simpl in *.
  - destruct Hj as (Hd & _ & ->). done.
  - destruct Hj as (Hlen & Hlim & Hfate & _ & Hback). destruct (IH s1) as [Hd Hb]; [lia|].
    rewrite (natural_fate s s1 Hfate), Hlim in Hd. split; [by apply Hback|done].
  - destruct Hj as (Hd & _ & Hne). by split.
  - done.
Qed.

Lemma abort_drain_drained fuel at_ d count s :
  (joinset_len (ws_poll s) < fuel)%nat ->
  drained (aborted s at_) (Z.max (ws_clock s) d) s (abort_drain fuel at_ d count s).2.
Proof.
  revert count s. induction fuel as [|fuel IH]; intros count s Hf; [lia|]. simpl.
  pose proof (join_next_spec (aborted s at_) d s) as Hj.
  destruct (join_next (aborted s at_) (Some d) s) as [|c s1|s1|]; simpl in *; [apply Hj| |apply Hj|done].
  destruct Hj as (Hlen & Hlim & Hfate & _ & Hback). apply Hback.
  rewrite <- (aborted_fate s s1 Hfate), <- Hlim. destruct c; apply IH; lia.
Qed.

Lemma abort_drain_count fuel at_ d count s :
  (joinset_len (ws_poll s) < fuel)%nat -> 0 <= count ->
  count + cancelled (aborted s at_) (Z.max (ws_clock s) d) s <= u64_max ->
  (abort_drain fuel at_ d count s).1 = count + cancelled (aborted s at_) (Z.max (ws_clock s) d) s.
Proof.
  revert count s. induction fuel as [|fuel IH]; intros count s Hf Hc Hb; [lia|]. simpl.
  pose proof (join_next_spec (aborted s at_) d s) as Hj.
  destruct (join_next (aborted s at_) (Some d) s) as [|c s1|s1|]; simpl in *; try done.
  - destruct Hj as (_ & -> & _). lia.
  - destruct Hj as (Hlen & Hlim & Hfate & Hcan & _). rewrite Hcan in Hb |- *.
    assert (Hn : 0 <= cancelled (aborted s at_) (Z.max (ws_clock s) d) s1) by (unfold cancelled; lia).
    rewrite <- (aborted_fate s s1 Hfate), <- Hlim in Hb, Hn |- *.
    destruct c; [|rewrite IH; lia].
    assert (u64_saturating_add count 1 = count + 1) as -> by (unfold u64_saturating_add; lia).
    rewrite IH; lia.
  - destruct Hj as (_ & -> & _). lia.
Qed.

(** Without a deadline the drain ends when every task does. *)
Lemma join_next_unbounded ends d s :
  (forall t, t ∈ ps_tasks (ws_poll s) -> exists e c, ends t = Some (e, c) /\ e <= d) ->
  join_next ends None s = join_next ends (Some d) s.
Proof.
  intros Hall. unfold join_next. destruct (ps_unjoined (ws_poll s)); [|done].
  destruct (ps_tasks (ws_poll s)) as [|t0 ts] eqn:Hts; [done|]. rewrite <- Hts in *.
  pose proof (earliest_spec ends (ps_tasks (ws_poll s))) as He.
  destruct (earliest ends (ps_tasks (ws_poll s))) as [[i [e c]]|].
  - destruct He as (t & Hi & Het & _). destruct (Hall t) as (e' & c' & Het' & Hle).
    { by eapply list_elem_of_lookup_2. }
    simplify_eq. rewrite decide_True by lia. done.
  - destruct (Hall t0) as (e & c & He' & _); [rewrite Hts; by left|].
    rewrite He in He'; [done|]. rewrite Hts. by left.
Qed.

Lemma joined_tasks ends dl s c s1 t :
  join_next ends dl s = Joined c s1 -> t ∈ ps_tasks (ws_poll s1) -> t ∈ ps_tasks (ws_poll s).
Proof.
  unfold join_next. destruct (ps_unjoined (ws_poll s)); [|by intros [= _ <-]].
  destruct (ps_tasks (ws_poll s)) as [|t0 ts] eqn:Hts; [done|]. rewrite <- Hts in *.
  assert (Hfin : forall i e c', t ∈ ps_tasks (ws_poll (finish i e c' s)) -> t ∈ ps_tasks (ws_poll s)).
  { intros i e c'. unfold finish, end_task. simpl. destruct (ps_tasks (ws_poll s) !! i) as [x|] eqn:Hx; [|done].
    simpl. rewrite (delete_Permutation _ _ _ Hx) at 2. by right. }
  destruct (earliest ends _) as [[i [e c']]|], dl as [d|]; try done.
  - case_decide; [|done]. intros [= _ <-]. apply Hfin.
  - intros [= _ <-]. apply Hfin.
Qed.

Lemma drain_all_until fuel d s :
  (forall t, t ∈ ps_tasks (ws_poll s) -> exists e, ft_end (ws_fate s t) = Some e /\ e <= d) ->
  (joinset_len (ws_poll s) < fuel)%nat ->
  drain_all fuel s = Some (drain_until fuel d s).2.
Proof.
  revert s. induction fuel as [|fuel IH]; intros s Hall Hf; [lia|]. simpl.
  assert (Hends : forall t, t ∈ ps_tasks (ws_poll s) -> exists e c, natural s t = Some (e, c) /\ e <= d).
  { intros t Ht. destruct (Hall t Ht) as (e & He & Hle). unfold natural. rewrite He. simpl. eauto. }
  rewrite (join_next_unbounded _ d) by done.
  pose proof (join_next_spec (natural s) d s) as Hj.
  destruct (join_next (natural s) (Some d) s) as [|c s1|s1|] eqn:Hn; try done.
  destruct Hj as (Hlen & _ & Hfate & _). apply IH; [|lia].
  intros t Ht. rewrite Hfate. apply Hall. by eapply joined_tasks.
Qed.

Lemma drain_all_stuck fuel s t :
  t ∈ ps_tasks (ws_poll s) -> ft_end (ws_fate s t) = None ->
  (joinset_len (ws_poll s) < fuel)%nat -> drain_all fuel s = None.
Proof.
  revert s. induction fuel as [|fuel IH]; intros s Ht Hnone Hf; [lia|]. cbn [drain_all].
  unfold join_next. destruct (ps_unjoined (ws_poll s)) as [|n] eqn:Hu.
  2: { apply IH; [done|done|]. unfold joinset_len in *. simpl. lia. }
  destruct (ps_tasks (ws_poll s)) as [|t0 ts] eqn:Hts; [by apply elem_of_nil in Ht|].
  rewrite <- Hts in *. clear t0 ts Hts.
  pose proof (earliest_spec (natural s) (ps_tasks (ws_poll s))) as He.
  destruct (earliest (natural s) (ps_tasks (ws_poll s))) as [[i [e c]]|]; [|done].
  destruct He as (x & Hi & Hx & _). assert (t <> x) by (intros <-; unfold natural in Hx; by rewrite Hnone in Hx).
  unfold finish, end_task. rewrite Hi. apply IH; simpl.
  - rewrite (delete_Permutation _ _ _ Hi) in Ht. by apply elem_of_cons in Ht as [?|?].
  - done.
  - unfold joinset_len in *. simpl. rewrite (Permutation_length (delete_Permutation _ _ _ Hi)) in Hf.
    simpl in Hf. lia.
Qed.

(** The instant by which every one of these tasks has ended. *)
Lemma ends_bounded s (ts : list (Task T)) :
  (forall t, t ∈ ts -> ft_end (ws_fate s t) <> None) ->
  exists d, forall t, t ∈ ts -> exists e, ft_end (ws_fate s t) = Some e /\ e <= d.
Proof.
  induction ts as [|t ts IH]; intros Hall; [exists 0; by intros ? ?%elem_of_nil|].
  destruct IH as [d Hd]; [intros; apply Hall; by right|].
  destruct (ft_end (ws_fate s t)) as [e|] eqn:He; [|destruct (Hall t); [by left|done]].
  exists (Z.max d e). intros t' [->|Ht']%elem_of_cons.
  - exists e. split; [done|lia].
  - destruct (Hd t' Ht') as (e' & ? & ?). exists e'. split; [done|lia].
Qed.

Lemma natural_not_cancelled s lim t : ended_by (natural s) lim t <> Some true.
Proof.
  unfold ended_by, natural. destruct (ft_end (ws_fate s t)); simpl; [|done]. by case_decide.
Qed.

(** A drain in which nothing is aborted finds no task cancelled. *)
Lemma natural_stats lim s s' :
  drained (natural s) lim s s' ->
  ws_stats s' = tally (ws_fate s) (filter (fun t => ended_by (natural s) lim t = Some false) (ps_tasks (ws_poll s))) (ws_stats s).
Proof.
  intros Hd. rewrite (dr_stats _ _ _ _ Hd). destruct (filter (fun t => _ = Some true) _) as [|t ts] eqn:Hf; [done|].
  assert (Ht : t ∈ filter (fun t => ended_by (natural s) lim t = Some true) (ps_tasks (ws_poll s)))
    by (rewrite Hf; by left).
  apply list_elem_of_filter in Ht as [Ht _]. by destruct (natural_not_cancelled s lim t).
Qed.

Lemma drain_handlers_all s :
  (forall t, t ∈ ps_tasks (ws_poll s) -> ft_end (ws_fate s t) <> None) ->
  exists s', drain_all (drain_fuel s) s = Some s' /\ joinset_len (ws_poll s') = 0%nat /\
    ws_stats s' = tally (ws_fate s) (ps_tasks (ws_poll s)) (ws_stats s) /\
    ps_shared (ws_poll s') = ps_shared (ws_poll s).
Proof.
  intros Hall. destruct (ends_bounded s _ Hall) as [d Hd].
  assert (Hf : (joinset_len (ws_poll s) < drain_fuel s)%nat) by (unfold drain_fuel; lia).
  rewrite (drain_all_until _ d) by done.
  destruct (drain_until_spec (drain_fuel s) d s Hf) as [Hdr _]. eexists. split; [done|].
  assert (Hby : forall t, t ∈ ps_tasks (ws_poll s) ->
            ended_by (natural s) (Z.max (ws_clock s) d) t = Some false).
  { intros t Ht. destruct (Hd t Ht) as (e & He & Hle). unfold ended_by, natural. rewrite He. simpl.
    by rewrite decide_True by lia. }
  assert (Hnil : ps_tasks (ws_poll (drain_until (drain_fuel s) d s).2) = []).
  { rewrite (dr_tasks _ _ _ _ Hdr). destruct (filter _ _) as [|t ts] eqn:Hfl; [done|].
    assert (Ht : t ∈ filter (fun t => ended_by (natural s) (Z.max (ws_clock s) d) t = None)
      (ps_tasks (ws_poll s))) by (rewrite Hfl; by left).
    apply list_elem_of_filter in Ht as [Hn Ht]. rewrite Hby in Hn; done. }
  split_and!.
  - unfold joinset_len. by rewrite Hnil, (dr_unjoined _ _ _ _ Hdr).
  - rewrite (natural_stats _ _ _ Hdr). by rewrite list_filter_all.
  - apply (dr_shared _ _ _ _ Hdr).
Qed.

(** ** Aborting what is left *)

Inductive TaskEnd : Type :=
| SelfEnded
| WasAborted
| Outlives.
#[global] Instance task_end_eq_dec : EqDecision TaskEnd.
Proof. solve_decision. Defined.

(** How a task ends if the aborts start at [at_] and are waited for until [lim]. *)
Definition task_end s (at_ lim : Z) (t : Task T) : TaskEnd :=
  match ended_by (natural s) at_ t with
  | Some _ => SelfEnded
  | None =>
      match ended_by (aborted s at_) lim t with
      | Some false => SelfEnded
      | Some true => WasAborted
      | None => Outlives
      end
  end.

Definition ended_as s at_ lim (k : TaskEnd) (ts : list (Task T)) : list (Task T) :=
  filter (fun t => task_end s at_ lim t = k) ts.

(** The head of a filtered list, by what is known of it. *)
Ltac filter_step :=
  repeat match goal with
  | |- context [filter ?P (?t :: ?l)] =>
      first [rewrite (filter_cons_True P t l) by (simpl; congruence)
            |rewrite (filter_cons_False P t l) by (simpl; congruence)]
  end.

Lemma ended_as_split s at_ lim (ts : list (Task T)) :
  ended_as s at_ lim SelfEnded ts ≡ₚ
    filter (fun t => ended_by (aborted s at_) lim t = Some false)
      (filter (fun t => ended_by (natural s) at_ t = None) ts)
    ++ filter (fun t => ended_by (natural s) at_ t = Some false) ts /\
  ended_as s at_ lim WasAborted ts =
    filter (fun t => ended_by (aborted s at_) lim t = Some true)
      (filter (fun t => ended_by (natural s) at_ t = None) ts) /\
  ended_as s at_ lim Outlives ts =
    filter (fun t => ended_by (aborted s at_) lim t = None)
      (filter (fun t => ended_by (natural s) at_ t = None) ts).
Proof.
  unfold ended_as. induction ts as [|t ts (IH1 & IH2 & IH3)]; [done|].
  assert (Hcase :
    (ended_by (natural s) at_ t = Some false /\ task_end s at_ lim t = SelfEnded) \/
    (ended_by (natural s) at_ t = None /\
     task_end s at_ lim t = match ended_by (aborted s at_) lim t with
                            | Some false => SelfEnded | Some true => WasAborted | None => Outlives end)).
  { unfold task_end. pose proof (natural_not_cancelled s at_ t).
    destruct (ended_by (natural s) at_ t) as [[]|]; [done|by left|by right]. }
  destruct Hcase as [[En Et]|[En Et]].
  - filter_step. split_and!; [|done|done]. rewrite IH1. by rewrite Permutation_middle.
  - destruct (ended_by (aborted s at_) lim t) as [[]|] eqn:Ea; filter_step;
      split_and!; try done; try (by rewrite IH1); by f_equal.
Qed.

Lemma ended_as_total s at_ lim (ts : list (Task T)) :
  length ts = (length (ended_as s at_ lim SelfEnded ts) + length (ended_as s at_ lim WasAborted ts)
               + length (ended_as s at_ lim Outlives ts))%nat.
Proof.
  unfold ended_as. induction ts as [|t ts IH]; [done|].
  destruct (task_end s at_ lim t) eqn:Et; filter_step; simpl; lia.
Qed.

Lemma joinset_nil (st : PollState T) : joinset_len st = 0%nat -> ps_tasks st = [].
Proof. unfold joinset_len. destruct (ps_tasks st); [done|]. simpl. lia. Qed.

(** The part after [abort_all], from a state in which every task that had ended is joined. *)
Lemma abort_phase_spec s s2 at_ g ts :
  0 <= g -> ws_clock s2 = at_ -> ws_fate s2 = ws_fate s ->
  ps_tasks (ws_poll s2) = filter (fun t => ended_by (natural s) at_ t = None) ts ->
  Z.of_nat (length ts) <= u64_max ->
  let '(n, s3) := abort_drain (drain_fuel s2) at_ (at_ + g) 0 s2 in
  n = Z.of_nat (length (ended_as s at_ (at_ + g) WasAborted ts)) /\
  drained (aborted s at_) (at_ + g) s2 s3.
Proof.
  intros Hg Hc Hf Ht Hlen. destruct (ended_as_split s at_ (at_ + g) ts) as (_ & -> & _).
  pose proof (aborted_fate s s2 Hf) as Hfa.
  set (l := filter (fun t => ended_by (natural s) at_ t = None) ts) in *.
  assert (Hcan : cancelled (aborted s2 at_) (Z.max (ws_clock s2) (at_ + g)) s2
    = Z.of_nat (length (filter (fun t => ended_by (aborted s at_) (at_ + g) t = Some true) l))).
  { unfold cancelled. by rewrite Hfa, Hc, Z.max_r, Ht by lia. }
  pose proof (abort_drain_drained (drain_fuel s2) at_ (at_ + g) 0 s2 ltac:(unfold drain_fuel; lia)) as Hd.
  pose proof (abort_drain_count (drain_fuel s2) at_ (at_ + g) 0 s2 ltac:(unfold drain_fuel; lia)) as Hn.
  lapply Hn; [clear Hn; intros Hn; lapply Hn; [clear Hn; intros Hn|]|lia].
  2: { rewrite Hcan. etrans; [|exact Hlen].
    pose proof (length_filter (fun t => ended_by (aborted s at_) (at_ + g) t = Some true) l).
    pose proof (length_filter (fun t => ended_by (natural s) at_ t = None) ts). subst l. lia. }
  rewrite Hcan in Hn. rewrite Hfa, Hc, Z.max_r in Hd by lia.
  destruct (abort_drain _ _ _ _ _) as [n s3]. simpl in *. split; [lia|done].
Qed.

(** What the aborts at [at_], waited for until [lim], leave in the counters. *)
Definition abort_counts s (at_ lim : Z) (ts : list (Task T)) (x : AtomicStats) : AtomicStats :=
  let n := Z.of_nat (length (ended_as s at_ lim WasAborted ts)) in
  let x := tally_of (cut (ws_fate s) (aborted s at_)) (ended_as s at_ lim WasAborted ts)
             (tally (ws_fate s) (ended_as s at_ lim SelfEnded ts) x) in
  if decide (0 < n) then add_aborted n x else x.

(** [abort_remaining_handlers] as a whole: every task either ended by itself and is counted as it
    ended, or was cancelled and is counted as aborted, or outlives the grace period. *)
Lemma ws_abort_spec g s :
  0 <= g -> 0 <= ws_lag s -> Z.of_nat (length (ps_tasks (ws_poll s))) <= u64_max ->
  let at_ := ws_clock s + ws_lag s in
  let as_ k := ended_as s at_ (at_ + g) k (ps_tasks (ws_poll s)) in
  let '(n, s') := ws_abort_remaining_handlers g s in
  n = Z.of_nat (length (as_ WasAborted)) /\
  ps_tasks (ws_poll s') = as_ Outlives /\
  ws_stats s' = abort_counts s at_ (at_ + g) (ps_tasks (ws_poll s)) (ws_stats s) /\
  ps_shared (ws_poll s') = ps_shared (ws_poll s) /\ ws_fate s' = ws_fate s /\
  (ps_tasks (ws_poll s') <> [] -> ws_aborted s' = Some at_).
Proof.
  intros Hg Hlag Hlen at_ as_. unfold ws_abort_remaining_handlers. case_decide as He.
  { unfold abort_counts, as_, ended_as. by rewrite (joinset_nil _ He). }
  set (s1 := set_ws_clock (ws_clock s + ws_lag s) s).
  destruct (drain_until_spec (drain_fuel s1) (ws_clock s1) s1) as [Hd1 _]; [unfold drain_fuel; lia|].
  rewrite Z.max_id in Hd1. set (s2 := (drain_until _ _ _).2) in *.
  change (natural s1) with (natural s) in Hd1. change (ws_clock s1) with at_ in Hd1.
  destruct (ended_as_split s at_ (at_ + g) (ps_tasks (ws_poll s))) as (Hself & Hab & Hout).
  fold (as_ SelfEnded) (as_ WasAborted) (as_ Outlives) in Hself, Hab, Hout.
  pose proof (dr_tasks _ _ _ _ Hd1) as Ht1. pose proof (natural_stats _ s1 _ Hd1) as Hs1. simpl in Ht1, Hs1.
  change (natural s1) with (natural s) in Hs1.
  unfold abort_counts. fold (as_ SelfEnded) (as_ WasAborted). case_decide as He2.
  { apply joinset_nil in He2. rewrite He2 in Ht1. rewrite <- Ht1 in Hself, Hab, Hout. rewrite Hab.
    split_and!; [done|by rewrite He2, Hout| |apply Hd1|apply Hd1|by rewrite He2].
    rewrite decide_False by done. simpl. unfold tally. by rewrite Hs1, Hself. }
  assert (Hc2 : ws_clock s2 = at_) by (pose proof (dr_clock _ _ _ _ Hd1); simpl in *; unfold at_ in *; lia).
  cbv zeta. change (ws_clock (set_ws_aborted s2)) with (ws_clock s2). rewrite Hc2.
  pose proof (abort_phase_spec s (set_ws_aborted s2) at_ g (ps_tasks (ws_poll s)) Hg Hc2 (dr_fate _ _ _ _ Hd1) Ht1 Hlen) as Hph.
  destruct (abort_drain _ _ _ _ _) as [n s3]. destruct Hph as [Hn Hd2].
  assert (Hstats : ws_stats s3 = tally_of (cut (ws_fate s) (aborted s at_)) (as_ WasAborted)
                                  (tally (ws_fate s) (as_ SelfEnded) (ws_stats s))).
  { rewrite (dr_stats _ _ _ _ Hd2), Hab. simpl. rewrite Hs1, Ht1, (dr_fate _ _ _ _ Hd1). simpl.
    unfold tally. by rewrite Hself, tally_of_app. }
  assert (Hrest : ps_tasks (ws_poll s3) = as_ Outlives /\ ps_shared (ws_poll s3) = ps_shared (ws_poll s) /\
    ws_fate s3 = ws_fate s /\ ws_aborted s3 = Some at_).
  { rewrite (dr_tasks _ _ _ _ Hd2), (dr_shared _ _ _ _ Hd2), (dr_fate _ _ _ _ Hd2), (dr_aborted _ _ _ _ Hd2).
    simpl. by rewrite Ht1, (dr_shared _ _ _ _ Hd1), (dr_fate _ _ _ _ Hd1), Hc2. }
  destruct Hrest as (? & ? & ? & ?). fold (as_ WasAborted) in Hn. rewrite <- Hn. split_and!; try done; case_decide; simpl; by rewrite ?Hstats.
Qed.

(** ** A drain up to a deadline, then the aborts *)

Lemma natural_later s d at_ t c :
  d <= at_ -> ended_by (natural s) d t = Some c -> ended_by (natural s) at_ t = Some c.
Proof.
  intros Hle. unfold ended_by. destruct (natural s t) as [[e c']|]; [|done].
  case_decide; [|done]. by rewrite decide_True by lia.
Qed.

Lemma ended_as_drained s d at_ lim (ts : list (Task T)) :
  d <= at_ ->
  let rest := filter (fun t => ended_by (natural s) d t = None) ts in
  ended_as s at_ lim SelfEnded ts ≡ₚ
    ended_as s at_ lim SelfEnded rest ++ filter (fun t => ended_by (natural s) d t = Some false) ts /\
  forall k, k <> SelfEnded -> ended_as s at_ lim k ts = ended_as s at_ lim k rest.
Proof.
  intros Hle rest. subst rest. unfold ended_as. induction ts as [|t ts [IH1 IH2]]; [done|].
  destruct (ended_by (natural s) d t) as [c|] eqn:En.
  - assert (c = false) as -> by (destruct c; [by destruct (natural_not_cancelled s d t)|done]).
    assert (Et : task_end s at_ lim t = SelfEnded)
      by (unfold task_end; by rewrite (natural_later s d at_ t false)).
    split; [|intros k Hk]; filter_step; [|by apply IH2].
    rewrite IH1. by rewrite Permutation_middle.
  - split; [|intros k Hk; specialize (IH2 k Hk)].
    + destruct (decide (task_end s at_ lim t = SelfEnded)); filter_step; by rewrite IH1.
    + destruct (decide (task_end s at_ lim t = k)); filter_step; by rewrite IH2.
Qed.

Lemma drain_then_abort d g s :
  0 <= g -> 0 <= ws_lag s -> ws_clock s <= d ->
  Z.of_nat (length (ps_tasks (ws_poll s))) <= u64_max ->
  let at_ := d + ws_lag s in
  let as_ k := ended_as s at_ (at_ + g) k (ps_tasks (ws_poll s)) in
  let '(n, s') := ws_abort_remaining_handlers g (drain_until (drain_fuel s) d s).2 in
  n = Z.of_nat (length (as_ WasAborted)) /\
  ps_tasks (ws_poll s') = as_ Outlives /\
  ws_stats s' = abort_counts s at_ (at_ + g) (ps_tasks (ws_poll s)) (ws_stats s) /\
  ps_shared (ws_poll s') = ps_shared (ws_poll s) /\ ws_fate s' = ws_fate s /\
  (ps_tasks (ws_poll s') <> [] -> ws_aborted s' = Some at_).
Proof.
  intros Hg Hlag Hle Hlen at_ as_.
  destruct (drain_until_spec (drain_fuel s) d s) as [Hd _]; [unfold drain_fuel; lia|].
  rewrite Z.max_r in Hd by lia. set (s1 := (drain_until _ _ _).2) in *.
  destruct (ended_as_drained s d at_ (at_ + g) (ps_tasks (ws_poll s)) ltac:(unfold at_; lia)) as [Hself Hother].
  cbv zeta in Hself, Hother. pose proof (dr_tasks _ _ _ _ Hd) as Ht. rewrite <- Ht in Hself, Hother.
  assert (Hsame : forall k, ended_as s1 (ws_clock s1 + ws_lag s1) (ws_clock s1 + ws_lag s1 + g) k
      (ps_tasks (ws_poll s1)) = ended_as s at_ (at_ + g) k (ps_tasks (ws_poll s1))).
  { intros k. destruct (decide (ps_tasks (ws_poll s1) = [])) as [->|Hne]; [done|].
    rewrite (dr_waited _ _ _ _ Hd Hne), (dr_lag _ _ _ _ Hd). fold at_.
    unfold ended_as, task_end, natural, aborted. by rewrite (dr_fate _ _ _ _ Hd). }
  pose proof (ws_abort_spec g s1 Hg ltac:(by rewrite (dr_lag _ _ _ _ Hd))) as Hab.
  lapply Hab; [clear Hab; intros Hab|].
  2: { pose proof (length_filter (fun t => ended_by (natural s) d t = None) (ps_tasks (ws_poll s))).
       rewrite <- Ht in *. lia. }
  cbv zeta in Hab. unfold abort_counts in *. destruct (ws_abort_remaining_handlers g s1) as [n s2].
  rewrite !Hsame, <- !Hother in Hab by done. destruct Hab as (Hn & Ht2 & Hst2 & Hsh2 & Hf2 & Hat2).
  assert (Hclk : ps_tasks (ws_poll s1) <> [] -> ws_clock s1 + ws_lag s1 = at_).
  { intros Hne. by rewrite (dr_waited _ _ _ _ Hd Hne), (dr_lag _ _ _ _ Hd). }
  assert (Hsub : forall k, k <> SelfEnded -> as_ k <> [] -> ps_tasks (ws_poll s1) <> []).
  { intros k Hk Hne Hnil. apply Hne. unfold as_. by rewrite Hother, Hnil. }
  split_and!; [done|done| |by rewrite Hsh2, (dr_shared _ _ _ _ Hd)|by rewrite Hf2, (dr_fate _ _ _ _ Hd)|].
  2: { intros Hne. rewrite Hat2 by done. f_equal. apply Hclk, (Hsub Outlives); [done|unfold as_; by rewrite <- Ht2]. }
  rewrite Hst2, (natural_stats _ _ _ Hd), (dr_fate _ _ _ _ Hd). unfold tally. fold (as_ WasAborted).
  rewrite (tally_of_perm _ _ _ Hself _ _ eq_refl), tally_of_app.
  assert (Hcut : forall x, tally_of (cut (ws_fate s) (aborted s1 (ws_clock s1 + ws_lag s1))) (as_ WasAborted) x
    = tally_of (cut (ws_fate s) (aborted s at_)) (as_ WasAborted) x).
  { intros x. destruct (decide (as_ WasAborted = [])) as [->|Hne]; [done|].
    by rewrite Hclk, (aborted_fate s s1 (dr_fate _ _ _ _ Hd)) by (by apply (Hsub WasAborted)). }
  by rewrite Hcut.
Qed.

(** ** The interface *)

Lemma ws_abort_frame g s :
  0 <= g -> 0 <= ws_lag s ->
  ws_clock s <= ws_clock (ws_abort_remaining_handlers g s).2 <= ws_clock s + ws_lag s + g.
Proof.
  intros Hg Hlag. unfold ws_abort_remaining_handlers. case_decide; [simpl; lia|].
  set (s1 := set_ws_clock (ws_clock s + ws_lag s) s).
  destruct (drain_until_spec (drain_fuel s1) (ws_clock s1) s1) as [Hd1 _]; [unfold drain_fuel; lia|].
  set (s2 := (drain_until _ _ _).2) in *. pose proof (dr_clock _ _ _ _ Hd1) as Hc. simpl in Hc.
  case_decide; [simpl; lia|].
  cbv zeta. set (s2' := set_ws_aborted s2).
  pose proof (abort_drain_drained (drain_fuel s2') (ws_clock s2') (ws_clock s2' + g) 0 s2'
    ltac:(unfold drain_fuel; lia)) as Hd2.
  destruct (abort_drain _ _ _ _ _) as [n s3]. pose proof (dr_clock _ _ _ _ Hd2). simpl in *.
  case_decide; simpl; lia.
Qed.

Lemma ws_abort_shared g s : ps_shared (ws_poll (ws_abort_remaining_handlers g s).2) = ps_shared (ws_poll s).
Proof.
  unfold ws_abort_remaining_handlers. case_decide; [done|].
  set (s1 := set_ws_clock (ws_clock s + ws_lag s) s).
  destruct (drain_until_spec (drain_fuel s1) (ws_clock s1) s1) as [Hd1 _]; [unfold drain_fuel; lia|].
  set (s2 := (drain_until _ _ _).2) in *. pose proof (dr_shared _ _ _ _ Hd1) as Hs.
  case_decide; [done|].
  cbv zeta. set (s2' := set_ws_aborted s2).
  pose proof (abort_drain_drained (drain_fuel s2') (ws_clock s2') (ws_clock s2' + g) 0 s2'
    ltac:(unfold drain_fuel; lia)) as Hd2.
  destruct (abort_drain _ _ _ _ _) as [n s3]. pose proof (dr_shared _ _ _ _ Hd2) as Hs2. simpl in *.
  case_decide; simpl; by rewrite Hs2.
Qed.

Lemma drain_all_shared fuel s s' :
  (joinset_len (ws_poll s) < fuel)%nat -> drain_all fuel s = Some s' ->
  ps_shared (ws_poll s') = ps_shared (ws_poll s).
Proof.
  intros Hf Hs'. destruct (decide (Forall (fun t => ft_end (ws_fate s t) <> None) (ps_tasks (ws_poll s)))) as [Hall|Hn].
  - rewrite Forall_forall in Hall. destruct (ends_bounded s _ Hall) as [d Hd].
    rewrite (drain_all_until _ d) in Hs' by done. injection Hs' as <-.
    destruct (drain_until_spec fuel d s Hf) as [Hdr _]. apply (dr_shared _ _ _ _ Hdr).
  - apply not_Forall_Exists in Hn; [|intros t; apply _]. apply Exists_exists in Hn as (t & Ht & Hnone).
    rewrite (drain_all_stuck fuel s t) in Hs'; [done|done| |done].
    simpl in Hnone. destruct (ft_end (ws_fate s t)); [|done]. by destruct Hnone.
Qed.

Context `{!PgEngine}.

#[global] Instance worker_state_laws : WorkerStateLaws (WorkerState T).
Proof.
  assert (Hfuel : forall s, (joinset_len (ws_poll s) < drain_fuel s)%nat) by (intros; unfold drain_fuel; lia).
  split.
  - done.
  - done.
  - intros d s. destruct (drain_until_spec (drain_fuel s) d s (Hfuel s)) as [Hd _].
    split; [apply (dr_clock _ _ _ _ Hd)|apply (dr_lag _ _ _ _ Hd)].
  - intros g s. apply ws_abort_frame.
  - intros q s w Hq. simpl. unfold ws_count_pending_recovery.
    destruct (sql_timeout _ _ w). simpl. unfold sql_took. destruct (w_script w); lia.
  - done.
  - done.
  - intros s s' Hs'. unfold errors. simpl. by rewrite (drain_all_shared (drain_fuel s) s s' (Hfuel s) Hs').
  - intros d s. destruct (drain_until_spec (drain_fuel s) d s (Hfuel s)) as [Hd _].
    unfold errors, last_fatal_snapshot, last_panic_escalation_snapshot, drain_handlers_until, worker_state_ops.
    by rewrite (dr_shared _ _ _ _ Hd).
  - intros g s. unfold errors. simpl. by rewrite ws_abort_shared.
  - intros q s w. simpl. unfold ws_count_pending_recovery. by destruct (sql_timeout _ _ w).
Qed.
End drain_facts.
