(* ===== verification/Handle.v ===== *)
(** [Worker::start] and [WorkerHandle] of [src/worker.rs]: starting, cancelling, joining and
    shutting down a worker.

    The handle sees the worker through [WorkerStateOps]; its theorems are proved from the laws of
    that interface and then instantiated with [WorkerState]. *)
From S2P Require Import Prelude F64 Duration Errors Backoff Schema Lifecycle Transition Exec Mark Job Claim Reaper Purge KeySlot Builder Worker Poll StateOps Drain.

(** The [JoinHandle] of a background loop, with its [AbortHandle]: when the loop's task ends once the
    token is cancelled (if ever), and what it still does to the shared state until it ends or is
    aborted. *)
Record JoinHandle (St : Type) : Type := mkJoin {
  jh_exit : option Z;
  jh_run : St -> M St;
  jh_aborted : bool;
}.
Arguments mkJoin {St} _ _ _.
Arguments jh_exit {St} _.
Arguments jh_run {St} _ _.
Arguments jh_aborted {St} _.

Definition abort_handle {St} (j : JoinHandle St) : JoinHandle St :=
  mkJoin (jh_exit j) (jh_run j) true.

(** [WorkerHandleInner]. *)
Record Inner (St : Type) : Type := mkInner {
  in_state : St;
  in_poll : JoinHandle St;
  in_reaper : JoinHandle St;
}.
Arguments mkInner {St} _ _ _.
Arguments in_state {St} _.
Arguments in_poll {St} _.
Arguments in_reaper {St} _.

(** [inner] is taken by [join] and [shutdown]. *)
Record WorkerHandle (St : Type) : Type := mkHandle { inner : option (Inner St) }.
Arguments mkHandle {St} _.
Arguments inner {St} _.

(** [Instant + Duration]: an [Instant] has seconds in an [i64]; [None] is the panic on overflow. *)
Definition instant_bound : Z := (i64_max + 1) * nanos_per_sec.
Definition instant_add (now : Z) (d : Duration) : option Z :=
  if decide (now + d < instant_bound) then Some (now + d) else None.

(** * Through the interface *)

Section handle.
Context {St : Type} `{!WorkerStateOps St, !Clocked St}.
Implicit Types (s : St) (i : Inner St) (h : WorkerHandle St).

Definition handle_cancel h : WorkerHandle St :=
  match inner h with
  | None => h
  | Some i => mkHandle (Some (mkInner (cancel_shutdown (in_state i)) (in_poll i) (in_reaper i)))
  end.

(** [Drop]: what is left of the worker. *)
Definition handle_drop h : option (Inner St) :=
  match inner h with
  | None => None
  | Some i =>
      Some (mkInner (cancel_shutdown (in_state i)) (abort_handle (in_poll i)) (abort_handle (in_reaper i)))
  end.

(** Both report a fatal error first, then a panic escalation. *)
Definition terminal_error s : option ShutdownError :=
  match last_fatal_snapshot s with
  | Some e => Some (Fatal e)
  | None =>
      match last_panic_escalation_snapshot s with
      | Some n => Some (ReaperPanicEscalation n)
      | None => None
      end
  end.

Definition join h : M (run_end (result unit ShutdownError) * option (Inner St)) :=
  match inner h with
  | None => mreturn (Returned (Ok tt), None)
  | Some i =>
      match jh_exit (in_poll i), jh_exit (in_reaper i) with
      | Some poll_exit, Some reaper_exit =>
          let! s := jh_run (in_poll i) (in_state i) in
          let! s := jh_run (in_reaper i) s in
          let s := wait_until (Z.max poll_exit reaper_exit) s in
          match drain_handlers s with
          | None => mreturn (Hung, Some (mkInner s (in_poll i) (in_reaper i)))
          | Some s =>
              mreturn (Returned (match terminal_error s with Some e => Err e | None => Ok tt end),
                       Some (mkInner s (in_poll i) (in_reaper i)))
          end
      | _, _ => mreturn (Hung, Some i)
      end
  end.

(** [timeout(half, async { poll_join.await; reaper_join.await })]: when it is over. *)
Definition soft_drain (start half : Z) (poll reaper : option Z) : Z :=
  match poll, reaper with
  | Some a, Some b => Z.min (Z.max start (Z.max a b)) (start + half)
  | _, _ => start + half
  end.

Definition with_pending (n : Z) (x : Stats) : Stats :=
  mkStats (st_completed x) (st_failed x) (st_timed_out x) (st_mark_timed_out x) (st_aborted x)
    (st_fenced_out x) n.

(** [inner] is taken before the deadline is computed: if that panics, its join handles are
    dropped, which detaches the loops. *)
Definition shutdown (timeout : Duration) h
  : M (run_end (result Stats ShutdownError) * option (Inner St)) :=
  match inner h with
  | None => mreturn (Returned (Ok stats_default), None)
  | Some i =>
      let start := clock (in_state i) in
      match instant_add start timeout with
      | None => mreturn (Panicked, Some i)
      | Some deadline =>
          let s := cancel_shutdown (in_state i) in
          let half := dur_div timeout 2 in
          let! s := jh_run (in_poll i) s in
          let! s := jh_run (in_reaper i) s in
          let s := wait_until (soft_drain start half (jh_exit (in_poll i)) (jh_exit (in_reaper i))) s in
          let poll := abort_handle (in_poll i) in
          let reaper := abort_handle (in_reaper i) in
          let '(_, s) := drain_handlers_until deadline s in
          let '(_, s) := abort_remaining_handlers (from_secs 1) s in
          let! (pending_recovery, s) := count_pending_recovery (from_millis 500) s in
          let stats := with_pending pending_recovery (snapshot_stats s) in
          mreturn (Returned (match terminal_error s with Some e => Err e | None => Ok stats end),
                   Some (mkInner s poll reaper))
      end
  end.
End handle.

(** * [start] *)

(** [SELECT 1 FROM pgwq.jobs LIMIT 0]. *)
Definition probe_stmt : Stmt unit := fun _ db => (Ok tt, db).

Definition start_error (e : sqlx_error) : StartError :=
  match e with
  | Database (Some code) =>
      if decide (code = "42P01"%string \/ code = "3F000"%string) then SchemaMissing e
      else StartDatabase e
  | _ => StartDatabase e
  end.

(** The configuration part of the [WorkerState] of a worker. *)
Definition worker_cfg {H} (w : Worker H) (worker_id : Uuid) : WorkerCfg :=
  mkWorkerCfg (wk_queue w) worker_id (wk_max_attempts w) (wk_lease_timeout w) (wk_handler_timeout w)
    (wk_mark_timeout w) (wk_retry_backoff w) (wk_panic_policy w) (wk_batch_size w)
    (wk_poll_interval w) (wk_reaper_interval w) (wk_concurrency w) (wk_concurrency_limits w).

(** What the runtime will do with the spawned tasks: its clock, the iterations of the two loops and
    when they end, what the tasks that end during these iterations count, and the fates of the
    others. *)
Record Runtime (T : Type) : Type := mkRuntime {
  rn_now : Z;
  rn_lag : Duration;
  rn_fate : Task T -> Fate;
  rn_poll_ticks : list PollTick;
  rn_poll_exit : option Z;
  rn_counts : AtomicStats;
  rn_reaper_ticks : list ReaperTick;
  rn_reaper_exit : option Z;
}.
Arguments rn_now {T} _.
Arguments rn_lag {T} _.
Arguments rn_fate {T} _ _.
Arguments rn_poll_ticks {T} _.
Arguments rn_poll_exit {T} _.
Arguments rn_counts {T} _.
Arguments rn_reaper_ticks {T} _.
Arguments rn_reaper_exit {T} _.
Arguments mkRuntime {T} _ _ _ _ _ _ _ _.

Section start.
Context {T : Type} `{!PgEngine, !SqlxInterval, !Codec T}.

(** [tokio::spawn(poll_loop(state))]; the tasks that end meanwhile add [counts] to the counters. *)
Definition spawn_poll (c : WorkerCfg) (l : PollLocal) (ticks : list PollTick) (counts : AtomicStats)
    (exit : option Z) : JoinHandle (WorkerState T) :=
  mkJoin exit (fun s =>
    let! r := poll_loop c ticks l (ws_poll s) in
    mreturn (set_ws_stats (stats_add counts (ws_stats s)) (set_ws_poll r.2 s))) false.

(** [tokio::spawn(reaper_loop(state))]. *)
Definition spawn_reaper (c : WorkerCfg) (l : ReaperLocal) (ticks : list ReaperTick) (exit : option Z)
  : JoinHandle (WorkerState T) :=
  mkJoin exit (fun s =>
    let! r := reaper_loop (cf_queue c) (cf_worker_id c) ticks l (ps_shared (ws_poll s)) in
    mreturn (set_ws_poll (set_shared (fun _ => r.2) (ws_poll s)) s)) false.

(** [worker_id] is the value of [Uuid::now_v7()]; without a token a fresh one is made. *)
Definition start {H} (w : Worker H) (worker_id : Uuid) (rn : Runtime T)
  : M (result (WorkerHandle (WorkerState T)) StartError) :=
  let! r := sql probe_stmt in
  match r with
  | Err e => mreturn (Err (start_error e))
  | Ok _ =>
      let c := worker_cfg w worker_id in
      let cancelled := default false (wk_shutdown_token w) in
      let state := mkWorkerState c (start_state c cancelled) stats_zero (rn_now rn) (rn_lag rn) (rn_fate rn) None in
      mreturn (Ok (mkHandle (Some (mkInner state
        (spawn_poll c poll_start (rn_poll_ticks rn) (rn_counts rn) (rn_poll_exit rn))
        (spawn_reaper c reaper_start (rn_reaper_ticks rn) (rn_reaper_exit rn))))))
  end.
End start.

(** * Facts *)

Section interface_facts.
Context {St : Type} `{!WorkerStateOps St, !Clocked St, !WorkerStateLaws St}.
Implicit Types (s : St) (i : Inner St) (h : WorkerHandle St).

(** A loop does not touch the clock of the state. *)
Definition keeps_time (j : JoinHandle St) : Prop :=
  forall s w, clock (jh_run j s w).1 = clock s /\ lag (jh_run j s w).1 = lag s.

Lemma soft_drain_bounds start half poll reaper :
  0 <= half -> start <= soft_drain start half poll reaper <= start + half.
Proof. intros. unfold soft_drain. destruct poll, reaper; lia. Qed.

(** C36: Bounded shutdown, from the laws of the interface alone: whatever the handlers, the loops and
    the database do, [shutdown] returns (it neither hangs nor panics, for a timeout the clock can
    represent) within [timeout + 1.5 s] and the lag of the scheduler, having aborted both loops. *)
Theorem shutdown_bounded timeout h i w :
  inner h = Some i -> 0 <= timeout -> clock (in_state i) + timeout < instant_bound ->
  keeps_time (in_poll i) -> keeps_time (in_reaper i) -> 0 <= lag (in_state i) ->
  exists r i', (shutdown timeout h w).1 = (Returned r, Some i') /\
    jh_aborted (in_poll i') = true /\ jh_aborted (in_reaper i') = true /\
    clock (in_state i) <= clock (in_state i')
      <= clock (in_state i) + timeout + lag (in_state i) + from_millis 1500.
Proof.
  intros Hi Ht Hb Hp Hr Hlag. unfold shutdown. rewrite Hi. cbv zeta.
  unfold instant_add. rewrite decide_True by done. unfold mcompose.
  destruct (cancel_clock (in_state i)) as [Hc0 Hl0]. set (s0 := cancel_shutdown (in_state i)) in *.
  pose proof (Hp s0 w) as [Hc1 Hl1]. destruct (jh_run (in_poll i) s0 w) as [s1 w1]. simpl in Hc1, Hl1.
  pose proof (Hr s1 w1) as [Hc2 Hl2]. destruct (jh_run (in_reaper i) s1 w1) as [s2 w2]. simpl in Hc2, Hl2.
  assert (Hhalf : 0 <= dur_div timeout 2 <= timeout) by (unfold dur_div; Z.to_euclidean_division_equations; lia).
  set (sd := soft_drain _ _ _ _).
  assert (Hsd : clock (in_state i) <= sd <= clock (in_state i) + dur_div timeout 2)
    by (apply soft_drain_bounds; lia).
  destruct (wait_clock sd s2) as [Hc3 Hl3]. set (s3 := wait_until sd s2) in *.
  destruct (drain_until_clock (clock (in_state i) + timeout) s3) as [Hc4 Hl4].
  destruct (drain_handlers_until _ s3) as [b s4]. simpl in Hc4, Hl4.
  pose proof (abort_clock (from_secs 1) s4 ltac:(done) ltac:(lia)) as Hc5.
  destruct (abort_remaining_handlers _ s4) as [n s5]. simpl in Hc5.
  pose proof (pending_clock (from_millis 500) s5 w2 ltac:(done)) as Hc6.
  destruct (count_pending_recovery _ s5 w2) as [[m s6] w3]. simpl in *.
  eexists _, _. split; [done|]. split_and!; [done|done|..]; simpl.
  - lia.
  - change (from_secs 1) with 1000000000 in Hc5. change (from_millis 500) with 500000000 in Hc6.
    change (from_millis 1500) with 1500000000. lia.
Qed.

Lemma terminal_errors s s' : errors s = errors s' -> terminal_error s = terminal_error s'.
Proof. unfold errors, terminal_error. by intros [= -> ->]. Qed.

(** What [shutdown] and [join] report is what the loops had recorded when they ended. *)
Lemma shutdown_reports timeout h i w s1 w1 s2 w2 :
  inner h = Some i -> clock (in_state i) + timeout < instant_bound ->
  jh_run (in_poll i) (cancel_shutdown (in_state i)) w = (s1, w1) -> jh_run (in_reaper i) s1 w1 = (s2, w2) ->
  exists x i', (shutdown timeout h w).1 =
    (Returned (match terminal_error s2 with Some e => Err e | None => Ok x end), Some i') /\
    terminal_error (in_state i') = terminal_error s2 /\
    exists n, x = with_pending n (snapshot_stats (in_state i')).
Proof.
  intros Hi Hb Hp Hr. unfold shutdown. rewrite Hi. cbv zeta. unfold instant_add.
  rewrite decide_True by done. unfold mcompose. rewrite Hp, Hr.
  set (s3 := wait_until _ s2). assert (He3 : errors s3 = errors s2) by apply wait_errors.
  pose proof (drain_until_errors (clock (in_state i) + timeout) s3) as He4.
  destruct (drain_handlers_until _ s3) as [b s4]. simpl in He4.
  pose proof (abort_errors (from_secs 1) s4) as He5.
  destruct (abort_remaining_handlers _ s4) as [n s5]. simpl in He5.
  pose proof (pending_errors (from_millis 500) s5 w2) as He6.
  destruct (count_pending_recovery _ s5 w2) as [[m s6] w3]. simpl in He6.
  assert (Ht : terminal_error s6 = terminal_error s2) by (apply terminal_errors; congruence).
  eexists _, _. simpl. rewrite Ht. split; [done|]. split; [done|]. by eexists.
Qed.

(** A timeout the clock cannot represent makes [shutdown] panic before it has cancelled anything: the
    token stays as it was, no loop is aborted, and the handle that would have done so on drop is gone. *)
Theorem shutdown_panics_on_overflow timeout h i w :
  inner h = Some i -> instant_bound <= clock (in_state i) + timeout ->
  (shutdown timeout h w).1 = (Panicked, Some i).
Proof.
  intros Hi Hb. unfold shutdown. rewrite Hi. cbv zeta. unfold instant_add. by rewrite decide_False by lia.
Qed.
End interface_facts.

(** * The handle of a [WorkerState] *)

Section handle_facts.
Context {T : Type} `{!PgEngine, !SqlxInterval, !Codec T}.
Implicit Types (s : WorkerState T).

Lemma spawn_poll_keeps_time c l ticks counts exit : keeps_time (spawn_poll (T := T) c l ticks counts exit).
Proof. intros s w. simpl. unfold mcompose. by destruct (poll_loop c ticks l (ws_poll s) w) as [[l' st] w']. Qed.

Lemma spawn_reaper_keeps_time c l ticks exit : keeps_time (spawn_reaper (T := T) c l ticks exit).
Proof.
  intros s w. simpl. unfold mcompose.
  by destruct (reaper_loop _ _ ticks l (ps_shared (ws_poll s)) w) as [[l' sh] w'].
Qed.

(** The state when both loops have stopped, [s2], determines the rest. *)
Lemma shutdown_state timeout h i w s1 w1 s2 w2 :
  inner h = Some i -> 0 <= timeout -> ws_clock (in_state i) + timeout < instant_bound ->
  jh_run (in_poll i) (cancel_shutdown (in_state i)) w = (s1, w1) -> jh_run (in_reaper i) s1 w1 = (s2, w2) ->
  keeps_time (in_poll i) -> keeps_time (in_reaper i) ->
  let d := ws_clock (in_state i) + timeout in
  exists s3 i', ws_clock s3 <= d /\ ws_poll s3 = ws_poll s2 /\ ws_stats s3 = ws_stats s2 /\
    ws_fate s3 = ws_fate s2 /\ ws_lag s3 = ws_lag s2 /\
    (shutdown timeout h w).1.2 = Some i' /\
    let s5 := (ws_abort_remaining_handlers (from_secs 1) (drain_until (drain_fuel s3) d s3).2).2 in
    in_state i' = set_ws_clock (ws_clock (in_state i')) s5.
Proof.
  intros Hi Ht Hb Hp Hr Hkp Hkr d. unfold shutdown. rewrite Hi. cbv zeta. unfold instant_add.
  change (clock (in_state i)) with (ws_clock (in_state i)). rewrite decide_True by done.
  unfold mcompose. rewrite Hp, Hr.
  pose proof (Hkp (cancel_shutdown (in_state i)) w) as [Hc1 _]. rewrite Hp in Hc1.
  pose proof (Hkr s1 w1) as [Hc2 _]. rewrite Hr in Hc2. simpl in Hc1, Hc2.
  set (sd := soft_drain _ _ _ _).
  assert (Hsd : sd <= d).
  { assert (0 <= dur_div timeout 2 <= timeout) by (unfold dur_div; Z.to_euclidean_division_equations; lia).
    pose proof (soft_drain_bounds (ws_clock (in_state i)) (dur_div timeout 2) (jh_exit (in_poll i))
      (jh_exit (in_reaper i)) ltac:(lia)). unfold sd, d. lia. }
  exists (wait_until sd s2). fold d.
  change (drain_handlers_until d (wait_until sd s2))
    with (drain_until (drain_fuel (wait_until sd s2)) d (wait_until sd s2)).
  destruct (drain_until _ d (wait_until sd s2)) as [b s4].
  change (abort_remaining_handlers (from_secs 1) s4) with (ws_abort_remaining_handlers (from_secs 1) s4).
  simpl snd. destruct (ws_abort_remaining_handlers (from_secs 1) s4) as [n s5].
  simpl count_pending_recovery. unfold ws_count_pending_recovery.
  destruct (sql_timeout _ _ w2) as [r w3]. eexists. split; [simpl; unfold d in *; lia|].
  split_and!; done.
Qed.

(** C37: What [shutdown] leaves behind: of the handler tasks alive when the loops have stopped, those
    that end by themselves before the aborts take effect are counted as they ended; those cancelled
    within the grace second are counted in [aborted], and also in [timed_out] if their handler had timed
    out by then and only the mark was cut short; and only those that neither end nor yield are left
    running.  Each task is in exactly one of the three groups; the counters returned are
    those of the first two, with what the tasks left running have added by the time of the
    snapshot: a timeout, or the whole outcome of one that ended meanwhile. *)
Theorem shutdown_accounts timeout c l ticks counts pexit rl rticks rexit s0 w s1 w1 s2 w2 :
  let i := mkInner s0 (spawn_poll c l ticks counts pexit) (spawn_reaper c rl rticks rexit) in
  0 <= timeout -> ws_clock s0 + timeout < instant_bound -> 0 <= ws_lag s0 ->
  jh_run (in_poll i) (cancel_shutdown s0) w = (s1, w1) -> jh_run (in_reaper i) s1 w1 = (s2, w2) ->
  let ts := ps_tasks (ws_poll s2) in
  Z.of_nat (length ts) <= u64_max ->
  let at_ := ws_clock s0 + timeout + ws_lag s0 in
  let ended k := ended_as s2 at_ (at_ + from_secs 1) k ts in
  let n := Z.of_nat (length (ended WasAborted)) in
  exists i', (shutdown timeout (mkHandle (Some i)) w).1.2 = Some i' /\
    ps_tasks (ws_poll (in_state i')) = ended Outlives /\
    (length ts = length (ended SelfEnded) + length (ended WasAborted) + length (ended Outlives))%nat /\
    let x := tally_of (cut (ws_fate s2) (aborted s2 at_)) (ended WasAborted)
               (tally (ws_fate s2) (ended SelfEnded) (stats_add counts (ws_stats s0))) in
    let final := if decide (0 < n) then add_aborted n x else x in
    let late t := so_far (ws_fate s2 t) (aborted s2 at_ t) (ws_clock (in_state i')) in
    ws_stats (in_state i') = final /\
    exists pending, (shutdown timeout (mkHandle (Some i)) w).1.1 =
      Returned (match terminal_error s2 with
                | Some e => Err e
                | None => Ok (with_pending pending (snapshot (tally_of late (ended Outlives) final)))
                end).
Proof.
  intros i Ht Hb Hlag Hp Hr ts Hlen at_ ended n.
  destruct (shutdown_state timeout (mkHandle (Some i)) i w s1 w1 s2 w2)
    as (s3 & i' & Hc & Hpoll & Hst & Hf & Hl & Hi' & Hs5);
    [done..|apply spawn_poll_keeps_time|apply spawn_reaper_keeps_time|].
  assert (Hs2 : ws_stats s2 = stats_add counts (ws_stats s0) /\ ws_lag s2 = ws_lag s0).
  { revert Hp Hr. simpl. unfold mcompose. destruct (poll_loop _ _ _ _ w) as [[? ?] ?]. intros [= <- <-].
    destruct (reaper_loop _ _ _ _ _ _) as [[? ?] ?]. by intros [= <- <-]. }
  destruct Hs2 as [Hs2 Hl2].
  pose proof (drain_then_abort (ws_clock s0 + timeout) (from_secs 1) s3 ltac:(done)
    ltac:(rewrite Hl, Hl2; done) Hc ltac:(by rewrite Hpoll)) as Hda. cbv zeta in Hda.
  unfold abort_counts in Hda. rewrite Hpoll, Hl, Hl2, Hst, Hf, Hs2, (aborted_fate s2 s3 Hf) in Hda. fold at_ ts in Hda.
  assert (Hended : forall k, ended_as s3 at_ (at_ + from_secs 1) k ts = ended k).
  { intros k. unfold ended, ended_as, task_end, natural, aborted. by rewrite Hf. }
  rewrite !Hended in Hda. destruct (ws_abort_remaining_handlers _ _) as [m s5].
  destruct Hda as (_ & Ht5 & Hst5 & _ & Hf5 & Hab5). exists i'. simpl in Hs5.
  split; [done|]. split; [by rewrite Hs5|]. split; [apply ended_as_total|]. intros x final late.
  split; [by rewrite Hs5|].
  destruct (shutdown_reports timeout (mkHandle (Some i)) i w s1 w1 s2 w2) as (y & i2 & Heq & _ & p & Hy); [done..|].
  rewrite Heq in Hi' |- *. injection Hi' as ->. exists p. rewrite Hy.
  assert (Hsnap : counters (in_state i') = tally_of late (ended Outlives) final).
  { unfold late. rewrite <- Ht5, Hs5. unfold counters. simpl. rewrite Hst5.
    destruct (decide (ps_tasks (ws_poll s5) = [])) as [->|Hne]; [done|].
    unfold task_ends, aborted. simpl. by rewrite Hab5, Hf5 by done. }
  simpl. by rewrite Hsnap.
Qed.

(** C38: [join], with both loops ended, returns exactly when every handler task ends by itself: then the
    [JoinSet] is empty, every task is counted as it ended, and the result is the recorded fatal
    error in preference to a panic escalation of the reaper; a handler that never ends
    keeps it waiting forever. *)
Theorem join_drains_and_reports c l ticks counts a rl rticks b s0 w s1 w1 s2 w2 :
  let i := mkInner s0 (spawn_poll c l ticks counts (Some a)) (spawn_reaper c rl rticks (Some b)) in
  jh_run (in_poll i) s0 w = (s1, w1) -> jh_run (in_reaper i) s1 w1 = (s2, w2) ->
  let ts := ps_tasks (ws_poll s2) in
  ((forall t, t ∈ ts -> ft_end (ws_fate s2 t) <> None) ->
   exists i', (join (mkHandle (Some i)) w).1 =
       (Returned (match sh_last_fatal (ps_shared (ws_poll s2)),
                        sh_last_panic_escalation (ps_shared (ws_poll s2)) with
                  | Some e, _ => Err (Fatal e)
                  | None, Some n => Err (ReaperPanicEscalation n)
                  | None, None => Ok tt
                  end), Some i') /\
     joinset_len (ws_poll (in_state i')) = 0%nat /\
     ws_stats (in_state i') = tally (ws_fate s2) ts (stats_add counts (ws_stats s0))) /\
  ((exists t, t ∈ ts /\ ft_end (ws_fate s2 t) = None) -> (join (mkHandle (Some i)) w).1.1 = Hung).
Proof.
  intros i Hp Hr ts.
  assert (Hs2 : ws_stats s2 = stats_add counts (ws_stats s0)).
  { revert Hp Hr. simpl. unfold mcompose. destruct (poll_loop _ _ _ _ w) as [[? ?] ?]. intros [= <- <-].
    destruct (reaper_loop _ _ _ _ _ _) as [[? ?] ?]. by intros [= <- <-]. }
  unfold join. cbn [inner]. change (jh_exit (in_poll i)) with (Some a).
  change (jh_exit (in_reaper i)) with (Some b). change (in_state i) with s0. unfold mcompose.
  rewrite Hp, Hr. set (s3 := wait_until _ s2). change (drain_handlers s3) with (drain_all (drain_fuel s3) s3). split.
  - intros Hall. destruct (drain_handlers_all s3 Hall) as (s' & -> & Hlen & Hst & Hsh).
    exists (mkInner s' (in_poll i) (in_reaper i)).
    split; [|split; [done|simpl; rewrite Hst; simpl; by rewrite Hs2]].
    cbn [fst]. do 2 f_equal. unfold terminal_error. simpl. rewrite Hsh. simpl.
    destruct (sh_last_fatal (ps_shared (ws_poll s2))); [done|].
    by destruct (sh_last_panic_escalation (ps_shared (ws_poll s2))).
  - intros (t & Ht & Hnone).
    by rewrite (drain_all_stuck _ s3 t) by (done || (unfold drain_fuel; lia)).
Qed.

(** C35: A worker that [build] accepts starts in the invariant of its loops: with a server that
    answers the probe, [start] returns a handle whose configuration and state satisfy what
    the concurrency theorems assume, with zeroed counters and both loops running. *)
Theorem start_establishes_invariant (benv : BuildEnv) {HT : Type} (b : WorkerBuilder HT) wk id rn w rt script :
  build b = Some (Ok wk) -> dur_ok (wb_lease_timeout b) ->
  0 <= wk_concurrency wk < u32_max -> map_Forall (fun _ n => 0 <= n) (wk_concurrency_limits wk) ->
  w_script w = rt :: script -> rt_fault rt = NoFault ->
  exists i, start (T := T) wk id rn w =
      (Ok (mkHandle (Some i)), mkWorld (rt_env rt (w_db w)) script (w_log w)) /\
    cfg_ok (ws_cfg (in_state i)) /\ poll_inv (ws_cfg (in_state i)) 0 (ws_poll (in_state i)) /\
    cf_queue (ws_cfg (in_state i)) = wk_queue wk /\ ws_stats (in_state i) = stats_zero /\
    jh_aborted (in_poll i) = false /\ jh_aborted (in_reaper i) = false.
Proof.
  intros Hb Hd Hc Hl Hs Hf. apply build_iff in Hb as [_ Hok]; [|done].
  assert (Hcfg : cfg_ok (worker_cfg wk id)).
  { destruct Hok. split; simpl; [unfold u32_max; lia|lia|done]. }
  eexists. unfold start, mcompose, sql. rewrite Hs, Hf. simpl. split; [done|].
  split_and!; [done|by apply poll_inv_start|done..].
Qed.
End handle_facts.

(** C26: The contract of the table: whatever the scripts (faults, lost answers, timeouts, aborted
    claims) and whatever other sessions do within the contract, [tick_once], the poll loop, a
    handler task and the reaper loop move rows only along queued -> running -> done, dead or
    awaiting_retry -> running, and every row they write satisfies every constraint. *)
Theorem worker_respects_lifecycle `{!PgEngine, !SqlxInterval, env : BackoffEnv} {T} `{!Codec T} :
  (forall wk : Worker (JobHandler T), guarantee db_steps (tick_once wk)) /\
  (forall c ticks l (st : PollState T), guarantee db_steps (poll_loop c ticks l st)) /\
  (forall c (handler : JobHandler T) job s, guarantee db_steps (handle_job c handler job s)) /\
  (forall q id ticks l sh, guarantee db_steps (reaper_loop q id ticks l sh)).
Proof.
  split_and!.
  - intros. apply guarantee_tick_once.
  - intros. apply guarantee_poll_loop.
  - intros. apply guarantee_handle_job.
  - intros. apply guarantee_reaper_loop.
Qed.

