(* ===== verification/System.v ===== *)
(** The whole system: any number of pushers, workers, reapers and sweeps on one table, their
    statements interleaved in any order.

    A worker is seen through the claims it holds: the scalars [handle_job] keeps of a
    claimed row.  Claims whose answer was lost are held by nobody. *)
From S2P Require Import Prelude F64 Duration Errors Backoff Schema Lifecycle Transition Exec Select Session Mark Job Claim Reaper Purge Pusher Builder Worker.

Record Sys : Type := mkSys {
  sy_db : Db;
  sy_claims : list JobRef;
  sy_used : gset Uuid;
}.

(** The scalars of a claimed row. *)
Definition claim_ref (p : Z * Row) : JobRef :=
  mkJobRef (queue p.2) (public_id p.2) p.1 (default 0 (lease_token p.2))
    (u32_of_i32 (attempts p.2)) (u32_of_i32 (max_attempts p.2)).

Definition row_tokens (rows : list (Z * Row)) : gset Uuid :=
  list_to_set (omap (fun p => lease_token p.2) rows).

(** [gen_random_uuid()] never repeats: what fencing rests on. *)
Definition fresh_tokens (rt : RoundTrip) (used : gset Uuid) : Prop :=
  (forall i, rt_uuid rt i ∉ used) /\ (forall i j, rt_uuid rt i = rt_uuid rt j -> i = j).

(** A retry is asked for only within the budget. *)
Definition within_budget (j : JobRef) (v : Verdict) : Prop :=
  match v with VRetry _ _ => jr_attempts j < jr_max_attempts j | _ => True end.

Section system.
Context `{!PgEngine, !SqlxInterval} (budget : Z).

(** One statement of some session, with the round trip in which it ran. *)
Inductive Act : Type :=
| ASession (rt : RoundTrip)
| AClaim (rt : RoundTrip)
| AMark (j : JobRef) (v : Verdict) (rt : RoundTrip)
| AReap (rt : RoundTrip)
| APurge (rt : RoundTrip).

Definition act_rt (a : Act) : RoundTrip :=
  match a with ASession rt | AClaim rt | AMark _ _ rt | AReap rt | APurge rt => rt end.

Inductive sys_do : Act -> Sys -> Sys -> Prop :=
| sd_session c op rt db cl us :
    sys_do (ASession rt) (mkSys db cl us) (mkSys (session_op c op rt db) cl us)
| sd_claim q n lease max hr rt db db' cl us rows seen :
    0 < max <= budget -> fresh_tokens rt us ->
    claim_stmt q n lease max hr rt db = (Ok rows, db') -> seen `sublist_of` rows ->
    sys_do (AClaim rt) (mkSys db cl us)
      (mkSys db' ((claim_ref <$> seen) ++ cl) (us ∪ row_tokens rows))
| sd_mark j v rt db cl us :
    j ∈ cl -> within_budget j v ->
    sys_do (AMark j v rt) (mkSys db cl us) (mkSys (verdict_stmt j v rt db).2 cl us)
| sd_reap q n rt db cl us :
    sys_do (AReap rt) (mkSys db cl us) (mkSys (reap_stmt q n rt db).2 cl us)
| sd_purge s age rt db cl us :
    terminal s -> sys_do (APurge rt) (mkSys db cl us) (mkSys (purge_stmt s age rt db).2 cl us).

Definition sys_step (s s' : Sys) : Prop := exists a, sys_do a s s'.

Lemma ss_session c op rt db cl us : sys_step (mkSys db cl us) (mkSys (session_op c op rt db) cl us).
Proof. eexists. constructor. Qed.

Lemma ss_claim q n lease max hr rt db db' cl us rows seen :
  0 < max <= budget -> fresh_tokens rt us ->
  claim_stmt q n lease max hr rt db = (Ok rows, db') -> seen `sublist_of` rows ->
  sys_step (mkSys db cl us) (mkSys db' ((claim_ref <$> seen) ++ cl) (us ∪ row_tokens rows)).
Proof. eexists. by econstructor. Qed.

Lemma ss_mark j v rt db cl us :
  j ∈ cl -> within_budget j v ->
  sys_step (mkSys db cl us) (mkSys (verdict_stmt j v rt db).2 cl us).
Proof. eexists. by constructor. Qed.

Lemma ss_reap q n rt db cl us : sys_step (mkSys db cl us) (mkSys (reap_stmt q n rt db).2 cl us).
Proof. eexists. constructor. Qed.

Lemma ss_purge s age rt db cl us :
  terminal s -> sys_step (mkSys db cl us) (mkSys (purge_stmt s age rt db).2 cl us).
Proof. eexists. by constructor. Qed.

Definition sys_start : Sys := mkSys empty_db [] ∅.

(** * Effects of the statements on one row *)

Lemma claim_row_cases q n lease max hr rt db rows db' i r' :
  claim_stmt q n lease max hr rt db = (Ok rows, db') -> jobs db' !! i = Some r' ->
  jobs db !! i = Some r' /\ i ∉ rows.*1 \/
  (i, r') ∈ rows /\ exists r us, jobs db !! i = Some r /\ claimable (rt_now rt) (i, r) /\
    r' = claimed_row (rt_now rt) (rt_now rt + us) (clamp_i32 max) (rt_uuid rt i) r.
Proof.
  intros (us & _ & _ & Hc)%claim_stmt_inv Hr'.
  destruct (decide (i ∈ rows.*1)) as [Hi|Hi].
  - right. apply list_elem_of_fmap in Hi as ([i' r1] & -> & Hin). simpl in *.
    destruct (cr_rows _ _ _ _ _ _ _ _ _ Hc _ _ Hin) as (r & Hr & [_ Hcl] & _ & -> & _ & _ & Hdb).
    rewrite Hdb in Hr'. simplify_eq. eauto 8.
  - left. by rewrite <- (cr_frame _ _ _ _ _ _ _ _ _ Hc i Hi).
Qed.

Lemma run_mark_cases now f id tok db i r' :
  jobs (run_update now f (mark_targets id tok (jobs db)) db).2 !! i = Some r' ->
  jobs db !! i = Some r' \/
  (i = id /\ exists r r1, holds_lease (jobs db) i tok r /\ f i r = Ok r1 /\ r' = set_updated_at now r1).
Proof.
  unfold run_update. destruct (pg_update _ _ _ _) as [t'|] eqn:Hu; [|by left]. simpl. intros Hr'.
  pose proof (pg_update_rows_step _ _ _ _ _ (mark_targets_NoDup _ _ _) Hu i) as Hs.
  rewrite Hr' in Hs. destruct (jobs db !! i) as [r|] eqn:Hr; [|done].
  destruct Hs as [->|(Hi & _ & Hup)]; [by left|]. right.
  apply mark_targets_elem in Hi as [-> (r0 & Hh)]. split; [done|].
  assert (r0 = r) as -> by (destruct Hh; congruence).
  apply update_row_inv in Hup as (r1 & Hr1 & _ & -> & _). eauto.
Qed.

(** A mark ends the claim of its own row, or changes nothing. *)
Lemma mark_row_cases j v rt db i r' :
  jobs (verdict_stmt j v rt db).2 !! i = Some r' ->
  jobs db !! i = Some r' \/
  (i = jr_id j /\ exists r, holds_lease (jobs db) i (jr_lease_token j) r /\
     lease_token r' = None /\ attempts r' = attempts r /\ max_attempts r' = max_attempts r /\
     status r' <> Running /\
     (status r' = AwaitingRetry -> exists reason d, v = VRetry reason d)).
Proof.
  destruct v as [|reason d|reason]; simpl;
    unfold mark_done_stmt, mark_retry_stmt, mark_dead_stmt;
    try (destruct (bind_text reason); [|by left]);
    intros [Hr|(Hi & r & r1 & Hh & Hf & ->)]%run_mark_cases; try (by left); right;
    (split; [done|]); exists r; (split; [done|]); revert Hf;
    unfold set_done, set_retry, set_dead;
    try (destruct (timestamptz_pl_interval _ _); [|done]);
    intros [= <-]; simpl; split_and!; try done; eauto.
Qed.

Lemma reap_row_cases q n rt db i r' :
  jobs (reap_stmt q n rt db).2 !! i = Some r' ->
  jobs db !! i = Some r' \/
  exists r, jobs db !! i = Some r /\ lease_token r' = None /\ attempts r' = attempts r /\
    max_attempts r' = max_attempts r /\ status r' <> Running /\
    (status r' = AwaitingRetry -> attempts r < max_attempts r).
Proof.
  unfold reap_stmt. destruct (bind_text q) as [q'|]; [|by left]. unfold run_reap.
  destruct (pg_update _ _ _ _) as [t'|] eqn:Hu; [|by left]. simpl. intros Hr'.
  pose proof (pg_update_rows_step _ _ _ _ _ (reap_targets_NoDup _ _ _ _) Hu i) as Hs.
  rewrite Hr' in Hs. destruct (jobs db !! i) as [r|] eqn:Hr; [|done].
  destruct Hs as [->|(_ & _ & Hup)]; [by left|]. right.
  apply update_row_inv in Hup as (r1 & [= <-] & _ & -> & _). exists r. simpl.
  case_bool_decide; split_and!; try done. lia.
Qed.

(** A sweep releases rows whose lease has expired, and touches no other. *)
Lemma reap_releases q n rt db i r' :
  jobs (reap_stmt q n rt db).2 !! i = Some r' ->
  jobs db !! i = Some r' \/
  exists r, jobs db !! i = Some r /\ stale q (rt_now rt) (i, r) /\ run_at r' = run_at r.
Proof.
  unfold reap_stmt. destruct (bind_text q) as [q'|] eqn:Hq; [|by left]. unfold run_reap.
  destruct (pg_update _ _ _ _) as [t'|] eqn:Hu; [|by left]. simpl. intros Hr'.
  pose proof (pg_update_rows_step _ _ _ _ _ (reap_targets_NoDup _ _ _ _) Hu i) as Hs.
  rewrite Hr' in Hs. destruct (jobs db !! i) as [r|] eqn:Hr; [|done].
  destruct Hs as [->|(Hin & _ & Hup)]; [by left|]. right.
  apply update_row_inv in Hup as (r1 & [= <-] & _ & -> & _). exists r.
  apply reap_targets_elem in Hin as (r0 & ? & Hst & _). simplify_eq.
  unfold bind_text in Hq. case_decide; [done|]. by injection Hq as ->.
Qed.

Lemma purge_row_cases s age rt db i r' :
  jobs (purge_stmt s age rt db).2 !! i = Some r' -> jobs db !! i = Some r'.
Proof.
  unfold purge_stmt. destruct (let? us := _ in _); [|done]. simpl.
  rewrite pg_delete_lookup. by case_decide.
Qed.

(** * The invariant *)

Record sys_ok (s : Sys) : Prop := mkSysOk {
  so_db : db_ok (sy_db s);
  so_used : forall i r tok, jobs (sy_db s) !! i = Some r -> lease_token r = Some tok ->
    tok ∈ sy_used s;
  so_claims_used : forall j, j ∈ sy_claims s -> jr_lease_token j ∈ sy_used s;
  so_tokens : NoDup (jr_lease_token <$> sy_claims s);
  so_agree : forall j r, j ∈ sy_claims s ->
    holds_lease (jobs (sy_db s)) (jr_id j) (jr_lease_token j) r ->
    attempts r = jr_attempts j /\ max_attempts r = jr_max_attempts j;
  so_budget : forall i r, jobs (sy_db s) !! i = Some r ->
    attempts r <= budget /\ max_attempts r <= budget /\
    (status r = AwaitingRetry -> attempts r < max_attempts r);
  so_running : forall i r, jobs (sy_db s) !! i = Some r -> status r = Running ->
    exists l, last_attempted_at r = Some l /\ run_at r <= l;
}.

(** Every step is made of steps of the contract. *)
Lemma sys_step_db s s' : sys_step s s' -> db_steps (sy_db s) (sy_db s').
Proof.
  intros [a Hs]. destruct Hs as [| ? ? ? ? ? ? db db' ? ? ? ? _ _ Hc _| | |]; simpl.
  - apply session_step.
  - pose proof (claim_step q n lease max hr rt db) as Hs. by rewrite Hc in Hs.
  - apply verdict_step.
  - apply reap_step.
  - by apply purge_step.
Qed.

Lemma sys_step_used s s' : sys_step s s' -> sy_used s ⊆ sy_used s'.
Proof. intros [a Hs]. destruct Hs; simpl; set_solver. Qed.

Lemma sys_step_claims s s' j : sys_step s s' -> j ∈ sy_claims s -> j ∈ sy_claims s'.
Proof. intros [a Hs]. destruct Hs; simpl; try done. intros. apply elem_of_app. by right. Qed.

(** A token that has been used before is never written again: a row that carries it is the
    row of the past, unchanged. *)
Lemma sys_step_token s s' i r' tok :
  sys_step s s' -> db_ok (sy_db s) -> jobs (sy_db s') !! i = Some r' -> lease_token r' = Some tok ->
  tok ∈ sy_used s -> jobs (sy_db s) !! i = Some r'.
Proof.
  intros [a Hs] Hok Hr' Ht Hu. destruct Hs as [c op rt db cl us|q n lease max hr rt db db' cl us rows seen _ Hfr Hc _
    |j v rt db cl us _ _|q n rt db cl us|st age rt db cl us _]; simpl in *.
  - apply session_row_cases in Hr' as [?|[_ Hf%fresh_row_lease]]; [done|congruence|done].
  - destruct (claim_row_cases _ _ _ _ _ _ _ _ _ _ _ Hc Hr') as [[? _]|(_ & r & lus & _ & _ & ->)]; [done|].
    simpl in Ht. simplify_eq. by destruct (proj1 Hfr i).
  - apply mark_row_cases in Hr' as [?|(_ & r & _ & ? & _)]; [done|congruence].
  - apply reap_row_cases in Hr' as [?|(r & _ & ? & _)]; [done|congruence].
  - by apply purge_row_cases in Hr'.
Qed.

Lemma claimed_token q n lease max hr rt db db' rows i r :
  claim_stmt q n lease max hr rt db = (Ok rows, db') -> (i, r) ∈ rows ->
  lease_token r = Some (rt_uuid rt i) /\ jobs db' !! i = Some r /\ 0 <= max_attempts r /\ 0 <= attempts r.
Proof.
  intros (us & _ & _ & Hc)%claim_stmt_inv Hin.
  destruct (cr_rows _ _ _ _ _ _ _ _ _ Hc _ _ Hin) as (r0 & _ & _ & _ & -> & Hch & _ & Hdb).
  simpl. split_and!; try done; unfold check_row, jobs_attempts_nonneg, jobs_max_attempts_nonneg in Hch;
    rewrite !andb_true_iff, !bool_decide_eq_true in Hch; simpl in Hch; tauto.
Qed.

Lemma row_tokens_elem rows i r tok :
  (i, r) ∈ rows -> lease_token r = Some tok -> tok ∈ row_tokens rows.
Proof.
  intros Hin Ht. unfold row_tokens. apply elem_of_list_to_set, list_elem_of_omap. by exists (i, r).
Qed.

(** The claims of an answer: their tokens are those of its rows, all new. *)
Lemma claim_refs_tokens q n lease max hr rt db db' us rows seen :
  fresh_tokens rt us -> claim_stmt q n lease max hr rt db = (Ok rows, db') ->
  seen `sublist_of` rows ->
  NoDup (jr_lease_token <$> (claim_ref <$> seen)) /\
  forall j, j ∈ claim_ref <$> seen -> exists i r, j = claim_ref (i, r) /\ (i, r) ∈ rows /\
    lease_token r = Some (rt_uuid rt i) /\ jobs db' !! i = Some r /\ 0 <= max_attempts r /\ 0 <= attempts r.
Proof.
  intros [Hfr Hinj] Hc Hsub.
  assert (Helem : forall i r, (i, r) ∈ seen -> (i, r) ∈ rows) by (intros; by eapply elem_of_sublist).
  split.
  - assert (Hnd : NoDup seen.*1).
    { eapply sublist_NoDup; [|by apply fmap_sublist]. apply claim_stmt_inv in Hc as (lus & _ & _ & Hc). by eapply cr_NoDup. }
    assert (Heq : jr_lease_token <$> (claim_ref <$> seen) = rt_uuid rt <$> seen.*1).
    { rewrite <- !list_fmap_compose. apply list_fmap_ext. intros k [i r] Hk. simpl.
      destruct (claimed_token _ _ _ _ _ _ _ _ _ i r Hc) as [-> _]; [|done].
      apply Helem. by eapply list_elem_of_lookup_2. }
    rewrite Heq. apply NoDup_fmap_2; [|done]. intros a b. apply Hinj.
  - intros j ([i r] & -> & Hin%Helem)%list_elem_of_fmap.
    pose proof (claimed_token _ _ _ _ _ _ _ _ _ _ _ Hc Hin). exists i, r. tauto.
Qed.

(** Where a row of the next state comes from. *)
Lemma sys_row_cases s s' i r' :
  sys_step s s' -> sys_ok s -> jobs (sy_db s') !! i = Some r' ->
  jobs (sy_db s) !! i = Some r' \/
  (status r' = Queued /\ lease_token r' = None /\ attempts r' = 0 /\ max_attempts r' = 0) \/
  (exists r now us max tok, jobs (sy_db s) !! i = Some r /\ claimable now (i, r) /\
     r' = claimed_row now (now + us) max tok r /\ tok ∈ sy_used s' /\ max <= budget) \/
  (exists r, jobs (sy_db s) !! i = Some r /\ lease_token r' = None /\ attempts r' = attempts r /\
     max_attempts r' = max_attempts r /\ status r' <> Running /\
     (status r' = AwaitingRetry -> attempts r < max_attempts r)).
Proof.
  intros [a Hs] Hok Hr'. destruct Hs as [c op rt db cl us|q n lease max hr rt db db' cl us rows seen Hmax Hfr Hc Hsub
    |j v rt db cl us Hj Hv|q n rt db cl us|st age rt db cl us _]; simpl in *.
  - apply session_row_cases in Hr' as [?|[_ Hf]]; [by left| |apply (so_db _ Hok)]. right. left.
    pose proof (fresh_row_lease _ Hf). by destruct Hf as (? & ? & ? & _).
  - destruct (claim_row_cases _ _ _ _ _ _ _ _ _ _ _ Hc Hr') as [[? _]|(Hin & r & lus & ? & ? & ->)];
      [by left|]. do 2 right. left. eexists r, _, lus, _, _. split_and!; try done.
    + apply elem_of_union_r. by eapply row_tokens_elem.
    + unfold clamp_i32. lia.
  - apply mark_row_cases in Hr' as [?|(-> & r & Hh & ? & ? & ? & ? & Hret)]; [by left|].
    do 3 right. exists r. pose proof Hh as (? & _ & _). split_and!; try done. intros Hw.
    destruct (Hret Hw) as (reason & d & ->). simpl in Hv.
    destruct (so_agree _ Hok j r Hj Hh) as [-> ->]. done.
  - apply reap_row_cases in Hr' as [?|Hr']; [by left|]. by do 3 right.
  - apply purge_row_cases in Hr'. by left.
Qed.

Lemma sys_step_agree s s' j r :
  sys_step s s' -> sys_ok s -> j ∈ sy_claims s' ->
  holds_lease (jobs (sy_db s')) (jr_id j) (jr_lease_token j) r ->
  attempts r = jr_attempts j /\ max_attempts r = jr_max_attempts j.
Proof.
  intros Hs Hok Hj (Hr & Hst & Ht).
  assert (Hold : j ∈ sy_claims s -> attempts r = jr_attempts j /\ max_attempts r = jr_max_attempts j).
  { intros Hin. apply (so_agree _ Hok j r Hin). split; [|done].
    eapply sys_step_token; [done|apply (so_db _ Hok)|done|done|]. by apply (so_claims_used _ Hok). }
  destruct Hs as [a Hs]. destruct Hs as [|q n lease max hr rt db db' cl us rows seen Hmax Hfr Hc Hsub| | |]; try by apply Hold.
  simpl in Hj, Hr. apply elem_of_app in Hj as [Hj|Hj]; [|by apply Hold].
  destruct (claim_refs_tokens _ _ _ _ _ _ _ _ _ _ _ Hfr Hc Hsub) as [_ Href].
  destruct (Href j Hj) as (i & r0 & -> & _ & _ & Hr0 & ? & ?). simpl in *. simplify_eq.
  unfold u32_of_i32. by rewrite !decide_True.
Qed.

Lemma sys_step_tokens s s' :
  sys_step s s' -> sys_ok s ->
  (forall j, j ∈ sy_claims s' -> jr_lease_token j ∈ sy_used s') /\
  NoDup (jr_lease_token <$> sy_claims s').
Proof.
  intros [a Hs] Hok. destruct Hs as [|q n lease max hr rt db db' cl us rows seen Hmax Hfr Hc Hsub| | |];
    try (split; [apply (so_claims_used _ Hok)|apply (so_tokens _ Hok)]).
  destruct (claim_refs_tokens _ _ _ _ _ _ _ _ _ _ _ Hfr Hc Hsub) as [Hnd Href]. simpl.
  split.
  - intros j [Hj|Hj]%elem_of_app; apply elem_of_union.
    + right. destruct (Href j Hj) as (i & r & -> & Hin & Ht & _).
      eapply row_tokens_elem; [done|]. simpl. by rewrite Ht.
    + left. by apply (so_claims_used _ Hok).
  - rewrite fmap_app. apply NoDup_app. split_and!; [done| |apply (so_tokens _ Hok)].
    intros tok (j & -> & Hj)%list_elem_of_fmap (j' & Heq & Hj')%list_elem_of_fmap.
    destruct (Href j Hj) as (i & r & -> & _ & Ht & _). simpl in Heq. rewrite Ht in Heq. simpl in Heq.
    apply (proj1 Hfr i). rewrite Heq. by apply (so_claims_used _ Hok).
Qed.

Lemma sys_step_ok s s' : 1 <= budget -> sys_step s s' -> sys_ok s -> sys_ok s'.
Proof.
  intros Hbud Hs Hok. destruct (sys_step_tokens s s' Hs Hok) as [Hcu Hct].
  assert (Hrow : forall i r', jobs (sy_db s') !! i = Some r' -> _) by
    (intros i r' Hr'; exact (sys_row_cases s s' i r' Hs Hok Hr')).
  split; try done.
  - eapply db_steps_ok; [by apply sys_step_db|apply Hok].
  - intros i r' tok Hr' Ht. destruct (Hrow i r' Hr') as [?|[(_ & ? & _)|[(r & now & lus & max & tok' & _ & _ & -> & ? & _)|(r & _ & ? & _)]]].
    + apply (sys_step_used _ _ Hs). by eapply (so_used _ Hok).
    + congruence.
    + simpl in Ht. by simplify_eq.
    + congruence.
  - intros j r Hj Hh. by eapply sys_step_agree.
  - intros i r' Hr'. destruct (Hrow i r' Hr')
      as [?|[(Hq & _ & -> & ->)|[(r & now & lus & max & tok' & Hr & [Hcl _] & -> & _ & ?)|(r & Hr & _ & -> & -> & _ & ?)]]].
    + by eapply (so_budget _ Hok).
    + rewrite Hq. split_and!; [lia|lia|done].
    + simpl in *. destruct (so_budget _ Hok i r Hr) as (? & ? & Haw). split_and!; [|done|done].
      destruct Hcl as [Hq|Hw]; [|specialize (Haw Hw); lia].
      destruct (so_db _ Hok i r Hr) as [[Hc _] _]. rewrite check_row_split in Hc.
      unfold jobs_status_invariants in Hc. rewrite Hq, !andb_true_iff, bool_decide_eq_true in Hc. lia.
    + destruct (so_budget _ Hok i r Hr) as (? & ? & _). split_and!; [done|done|].
      intros Hw. auto.
  - intros i r' Hr' Hrun. destruct (Hrow i r' Hr')
      as [?|[(? & _)|[(r & now & lus & max & tok' & Hr & [_ Hra] & -> & _)|(r & _ & _ & _ & _ & ? & _)]]].
    + by eapply (so_running _ Hok).
    + congruence.
    + simpl in *. eauto.
    + done.
Qed.

Lemma sys_start_ok : sys_ok sys_start.
Proof. split; simpl; try done; try (by intros ? ? ?%lookup_empty_Some); try set_solver. constructor. Qed.

Lemma sys_steps_ok s s' : 1 <= budget -> rtc sys_step s s' -> sys_ok s -> sys_ok s'.
Proof. intros Hb. induction 1; eauto using sys_step_ok. Qed.

Lemma sys_steps_db s s' : rtc sys_step s s' -> db_steps (sy_db s) (sy_db s').
Proof. induction 1 as [|? ? ? Hs]; [done|]. etrans; [by apply sys_step_db|done]. Qed.

(** A claim that has lost its lease never holds it again. *)
Lemma lost_step s s' j :
  sys_step s s' -> sys_ok s -> j ∈ sy_claims s ->
  (forall r, ~ holds_lease (jobs (sy_db s)) (jr_id j) (jr_lease_token j) r) ->
  forall r, ~ holds_lease (jobs (sy_db s')) (jr_id j) (jr_lease_token j) r.
Proof.
  intros Hs Hok Hj Hno r (Hr & Hst & Ht). apply (Hno r). split; [|done].
  eapply sys_step_token; [done|apply (so_db _ Hok)|done|done|]. by apply (so_claims_used _ Hok).
Qed.

Lemma lost_steps s s' j :
  1 <= budget -> rtc sys_step s s' -> sys_ok s -> j ∈ sy_claims s ->
  (forall r, ~ holds_lease (jobs (sy_db s)) (jr_id j) (jr_lease_token j) r) ->
  forall r, ~ holds_lease (jobs (sy_db s')) (jr_id j) (jr_lease_token j) r.
Proof.
  intros Hb. induction 1 as [|s1 s2 s3 Hs _ IH]; [done|]. intros Hok Hj Hno.
  apply IH; [by eapply sys_step_ok|by eapply sys_step_claims|by eapply lost_step].
Qed.

(** A mark that affected its row has given the lease back. *)
Lemma mark_releases j v rt db n :
  (verdict_stmt j v rt db).1 = Ok n -> n <> 0 ->
  forall r, ~ holds_lease (jobs (verdict_stmt j v rt db).2) (jr_id j) (jr_lease_token j) r.
Proof.
  intros Hn Hz r (Hr & Hst & Ht).
  destruct (mark_row_cases _ _ _ _ _ _ Hr) as [Hr0|(_ & r0 & _ & Hnone & _)]; [|congruence].
  assert (Hmt : mark_targets (jr_id j) (jr_lease_token j) (jobs db) = [jr_id j])
    by (apply (mark_targets_held _ _ _ r); by split).
  assert (Hgen : forall f, ends_claim f ->
    (run_update (rt_now rt) f (mark_targets (jr_id j) (jr_lease_token j) (jobs db)) db).1 = Ok n ->
    jobs (run_update (rt_now rt) f (mark_targets (jr_id j) (jr_lease_token j) (jobs db)) db).2
      !! jr_id j = Some r -> False).
  { intros f Hf. rewrite Hmt. unfold run_update. simpl. rewrite Hr0.
    destruct (update_row _ _ _ _) as [r1|] eqn:Hu; [|done]. simpl. intros _.
    rewrite lookup_insert_eq. intros [= ->]. apply update_row_inv in Hu as (r2 & Hr2 & _ & -> & _).
    apply Hf in Hr2 as [Hl _]. simpl in Hst. rewrite Hst in Hl. inversion Hl. }
  revert Hn Hr. destruct v as [|reason d|reason]; simpl;
    unfold mark_done_stmt, mark_retry_stmt, mark_dead_stmt;
    try (destruct (bind_text reason); [|done]); apply Hgen;
    auto using set_done_ends, set_retry_ends, set_dead_ends.
Qed.

Lemma sys_steps_claims s s' j : rtc sys_step s s' -> j ∈ sy_claims s -> j ∈ sy_claims s'.
Proof. induction 1; eauto using sys_step_claims. Qed.

Lemma reachable_ok s : 1 <= budget -> rtc sys_step sys_start s -> sys_ok s.
Proof. intros Hb Hr. eapply sys_steps_ok; [done..|apply sys_start_ok]. Qed.

(** C3: Fencing over time: once a claim has lost its lease (its row was marked, reaped, claimed
    again or deleted), no later state of the system gives it back, so no late mark of that
    claim can touch the row. *)
Theorem lost_lease_never_returns s s' j :
  1 <= budget -> rtc sys_step sys_start s -> rtc sys_step s s' -> j ∈ sy_claims s ->
  (forall r, ~ holds_lease (jobs (sy_db s)) (jr_id j) (jr_lease_token j) r) ->
  forall v rt, (verdict_stmt j v rt (sy_db s')).2 = sy_db s'.
Proof.
  intros Hb Hr Hrs Hj Hno v rt.
  pose proof (lost_steps s s' j Hb Hrs (reachable_ok s Hb Hr) Hj Hno) as Hno'.
  destruct v as [|reason d|reason]; simpl.
  - by apply (mark_fenced _ _ [] 0).
  - by apply (mark_fenced _ _ reason d).
  - by apply (mark_fenced _ _ reason 0).
Qed.

(** C2: One outcome per claim: after a mark of a claim has affected its row, every later mark of the same
    claim (a duplicate, a mark whose answer was lost, a concurrent abort) leaves the table
    as it is. *)
Theorem claim_marked_at_most_once s j v rt n s' v' rt' :
  1 <= budget -> rtc sys_step sys_start s -> j ∈ sy_claims s -> within_budget j v ->
  (verdict_stmt j v rt (sy_db s)).1 = Ok n -> n <> 0 ->
  rtc sys_step (mkSys (verdict_stmt j v rt (sy_db s)).2 (sy_claims s) (sy_used s)) s' ->
  (verdict_stmt j v' rt' (sy_db s')).2 = sy_db s'.
Proof.
  intros Hb Hr Hj Hw Hn Hz Hrs. pose proof (reachable_ok s Hb Hr) as Hok. destruct s as [db cl us]; simpl in *.
  assert (Hok1 : sys_ok (mkSys (verdict_stmt j v rt db).2 cl us))
    by (eapply sys_step_ok; [done|by apply ss_mark|done]).
  pose proof (lost_steps _ s' j Hb Hrs Hok1 Hj (mark_releases j v rt db n Hn Hz)) as Hno.
  destruct v' as [|reason d|reason]; simpl.
  - by apply (mark_fenced _ _ [] 0).
  - by apply (mark_fenced _ _ reason d).
  - by apply (mark_fenced _ _ reason 0).
Qed.

(** The attempt budget: if every worker is configured with at most [budget] attempts, no job
    of any reachable state has been claimed more than [budget] times, and one that waits for
    a retry has an attempt left. *)
Theorem attempts_within_budget s i r :
  1 <= budget -> rtc sys_step sys_start s -> jobs (sy_db s) !! i = Some r ->
  attempts r <= budget /\ (status r = AwaitingRetry -> attempts r < max_attempts r).
Proof.
  intros Hb Hr Hi. destruct (so_budget _ (reachable_ok s Hb Hr) i r Hi) as (? & _ & ?). done.
Qed.

(** An UPDATE takes no row out of the table. *)
Lemma run_update_dom now f ids db :
  NoDup ids -> dom (jobs (run_update now f ids db).2) = dom (jobs db).
Proof.
  intros Hnd. unfold run_update. destruct (pg_update _ _ _ _) eqn:Hu; [|done].
  eapply rows_step_dom, pg_update_rows_step; done.
Qed.

Lemma verdict_dom j v rt db : dom (jobs (verdict_stmt j v rt db).2) = dom (jobs db).
Proof.
  destruct v as [|reason d|reason]; simpl; unfold mark_done_stmt, mark_retry_stmt, mark_dead_stmt;
    try (destruct (bind_text reason); [|done]); apply run_update_dom, mark_targets_NoDup.
Qed.

Lemma reap_dom q n rt db : dom (jobs (reap_stmt q n rt db).2) = dom (jobs db).
Proof.
  unfold reap_stmt. destruct (bind_text q) as [q'|]; [|done]. unfold run_reap.
  destruct (pg_update _ _ _ _) eqn:Hu; [|done]. eapply rows_step_dom, pg_update_rows_step; [apply reap_targets_NoDup|done].
Qed.

Lemma claim_dom q n lease max hr rt db rows db' :
  claim_stmt q n lease max hr rt db = (Ok rows, db') -> dom (jobs db') = dom (jobs db).
Proof.
  intros (us & _ & _ & Hc)%claim_stmt_inv. apply set_eq. intros i. rewrite !elem_of_dom.
  destruct (decide (i ∈ rows.*1)) as [Hin|Hin]; [|by rewrite (cr_frame _ _ _ _ _ _ _ _ _ Hc i Hin)].
  apply list_elem_of_fmap in Hin as ([i' r1] & -> & Hin). simpl.
  destruct (cr_rows _ _ _ _ _ _ _ _ _ Hc _ _ Hin) as (r0 & -> & _ & _ & _ & _ & _ & ->). done.
Qed.

(** The only statement that takes a row out of the table is a purge, and it takes rows that
    were finished when it ran. *)
Lemma sys_do_removes a s s' i r :
  sys_do a s s' -> jobs (sy_db s) !! i = Some r -> jobs (sy_db s') !! i = None ->
  exists rt, a = APurge rt /\ terminal (status r).
Proof.
  intros Hd Hi Hn. destruct Hd as [c op rt db cl us|q n lease max hr rt db db' cl us rows seen _ _ Hc _
    |j v rt db cl us _ _|q n rt db cl us|st age rt db cl us Hst]; simpl in *.
  - rewrite (session_keeps _ _ _ _ _ _ Hi) in Hn. done.
  - apply claim_dom in Hc. apply not_elem_of_dom in Hn. destruct Hn. rewrite Hc. by eapply elem_of_dom_2.
  - apply not_elem_of_dom in Hn. destruct Hn. rewrite verdict_dom. by eapply elem_of_dom_2.
  - apply not_elem_of_dom in Hn. destruct Hn. rewrite reap_dom. by eapply elem_of_dom_2.
  - exists rt. split; [done|]. revert Hn. unfold purge_stmt. destruct (let? us := _ in _); [|simpl; congruence].
    simpl. rewrite pg_delete_lookup. case_decide as Hin; [|congruence]. intros _.
    apply purge_targets_elem in Hin as (r0 & Hr0 & [Hv _] & _). simpl in Hv. by simplify_eq.
Qed.

Lemma sys_steps_removes s s' i r :
  rtc sys_step s s' -> jobs (sy_db s) !! i = Some r -> jobs (sy_db s') !! i = None ->
  exists s1 s2 rt r1, rtc sys_step s s1 /\ sys_do (APurge rt) s1 s2 /\ rtc sys_step s2 s' /\
    jobs (sy_db s1) !! i = Some r1 /\ terminal (status r1) /\ jobs (sy_db s2) !! i = None.
Proof.
  intros Hs. revert r. induction Hs as [s|s s1 s' [a Hd] Hs IH]; intros r Hi Hn; [congruence|].
  destruct (jobs (sy_db s1) !! i) as [r1|] eqn:Hi1.
  - destruct (IH r1 eq_refl Hn) as (s2 & s3 & rt & r2 & ? & ?). exists s2, s3, rt, r2.
    split; [eapply rtc_l; [by exists a|done]|done].
  - destruct (sys_do_removes a s s1 i r Hd Hi Hi1) as (rt & -> & Ht). exists s, s1, rt, r. by split_and!.
Qed.

(** C5: No job is lost: from a reachable state on, whatever the system does, a job is still in
    the table as the same job (same id, queue, payload, key) with at least as many
    attempts, a finished one unchanged; or it has been deleted, and then by a retention
    sweep: there is a purge statement in the history right before which the job was in the
    table, finished, and right after which it was gone. *)
Theorem job_never_lost s s' i r :
  1 <= budget -> rtc sys_step sys_start s -> rtc sys_step s s' -> jobs (sy_db s) !! i = Some r ->
  match jobs (sy_db s') !! i with
  | Some r' => same_job r r' /\ attempts r <= attempts r' /\ (terminal (status r) -> r' = r)
  | None => exists s1 s2 rt r1, rtc sys_step s s1 /\ sys_do (APurge rt) s1 s2 /\ rtc sys_step s2 s' /\
              jobs (sy_db s1) !! i = Some r1 /\ same_job r r1 /\ attempts r <= attempts r1 /\
              terminal (status r1) /\ jobs (sy_db s2) !! i = None
  end.
Proof.
  intros Hb Hr Hrs Hi. pose proof (so_db _ (reachable_ok s Hb Hr)) as Hok.
  destruct (jobs (sy_db s') !! i) as [r'|] eqn:Hi'.
  - apply sys_steps_db in Hrs.
    destruct (db_steps_same _ _ _ _ _ Hrs Hok Hi Hi') as (? & ? & _). split_and!; [done..|].
    intros Ht. destruct (db_steps_terminal _ _ _ _ Hrs Hok Hi Ht); congruence.
  - destruct (sys_steps_removes s s' i r Hrs Hi Hi') as (s1 & s2 & rt & r1 & Hs1 & Hd & Hs2 & Hr1 & Ht & Hn).
    destruct (db_steps_same _ _ _ _ _ (sys_steps_db _ _ Hs1) Hok Hi Hr1) as (? & ? & _).
    exists s1, s2, rt, r1. by split_and!.
Qed.

(** A sweep with room left in its batch reaches every expired lease it can lock. *)
Lemma sweep_recovers s q n rt :
  sys_ok s -> 0 ∉ q ->
  map_Forall (fun _ r => clock_after_claim (rt_now rt) r) (jobs (sy_db s)) ->
  exists rows db', reap_stmt q n rt (sy_db s) = (Ok rows, db') /\
    (Z.of_nat (length rows) < clamp_i32 n ->
     forall i r, jobs (sy_db s) !! i = Some r -> rt_snap rt (jobs (sy_db s)) !! i = Some r ->
     stale q (rt_now rt) (i, r) -> i ∉ rt_locked rt ->
     jobs db' !! i = Some (swept (rt_now rt) r) /\ run_at r <= rt_now rt).
Proof.
  intros Hok Hq Hclk. unfold reap_stmt. rewrite bind_text_ok by done.
  destruct (run_reap_ok q (clamp_i32 n) rt (sy_db s)) as (rows & db' & -> & Hids & _ & Hlook).
  { intros i r Hi. split; [apply (so_db _ Hok i r Hi)|by apply (Hclk i)]. }
  exists rows, db'. split; [done|]. intros Hlen i r Hi Hsn Hst Hl.
  assert (Hin : i ∈ reap_targets q (clamp_i32 n) rt (jobs (sy_db s))).
  { rewrite <- (length_fmap fst), (Permutation_length Hids) in Hlen. by eapply select_exhaust. }
  rewrite Hlook, decide_True, Hi by done. split; [done|].
  pose proof Hst as (_ & Hrun & _). simpl in Hrun.
  destruct (so_running _ Hok i r Hi Hrun) as (l & Hl0 & Hra). specialize (Hclk i r Hi l Hl0). lia.
Qed.

(** C9: Recovery: a sweep of the reaper never fails on a reachable table, and one that was not
    cut short by its batch limit leaves no expired lease it saw and could lock: each such job is
    dead if its budget is used up, and otherwise claimable at once. *)
Theorem sweep_recovers_expired s q n rt :
  1 <= budget -> rtc sys_step sys_start s -> 0 ∉ q ->
  map_Forall (fun _ r => clock_after_claim (rt_now rt) r) (jobs (sy_db s)) ->
  exists rows db', reap_stmt q n rt (sy_db s) = (Ok rows, db') /\
    (Z.of_nat (length rows) < clamp_i32 n ->
     forall i r, jobs (sy_db s) !! i = Some r -> rt_snap rt (jobs (sy_db s)) !! i = Some r ->
     stale q (rt_now rt) (i, r) -> i ∉ rt_locked rt ->
     exists r', jobs db' !! i = Some r' /\ same_job r r' /\ attempts r' = attempts r /\
       if decide (max_attempts r <= attempts r) then status r' = Dead
       else claimable (rt_now rt) (i, r')).
Proof.
  intros Hb Hr Hq Hclk. destruct (sweep_recovers s q n rt (reachable_ok s Hb Hr) Hq Hclk)
    as (rows & db' & Hst & Hall). exists rows, db'. split; [done|]. intros Hlen i r Hi Hsn Hs Hl.
  destruct (Hall Hlen i r Hi Hsn Hs Hl) as [Hi' Hra]. exists (swept (rt_now rt) r). split; [done|].
  unfold swept. case_decide; (split; [done|]); (split; [done|]); [done|].
  split; simpl; [by right|lia].
Qed.

(** A claim within the budget succeeds. *)
Lemma claim_succeeds s q n lease us max hr rt :
  sys_ok s -> budget <= i32_max -> 0 ∉ q -> 0 <= max ->
  interval_of_duration lease = Ok us -> bind_headroom hr = Ok hr ->
  min_timestamp <= rt_now rt + us < end_timestamp ->
  map_Forall (fun _ r => clock_after_claim (rt_now rt) r) (jobs (sy_db s)) ->
  exists rows db', claim_stmt q n lease max hr rt (sy_db s) = (Ok rows, db') /\
    claim_result q (clamp_i32 n) us (clamp_i32 max) hr rt (sy_db s) db' rows.
Proof.
  intros Hok Hbi Hq Hmax Hus Hhr Hrange Hclk. unfold claim_stmt. rewrite bind_text_ok, Hus, Hhr by done.
  destruct (run_claim_succeeds q (clamp_i32 n) us (clamp_i32 max) hr rt (sy_db s)) as (rows & db' & Hrun).
  - intros i r Hi. destruct (so_db _ Hok i r Hi) as [Hrow _].
    destruct (so_budget _ Hok i r Hi) as (? & ? & Haw). split_and!; [done|by apply (Hclk i)|].
    intros Hw. specialize (Haw Hw). lia.
  - unfold clamp_i32, i32_max. lia.
  - done.
  - exists rows, db'. split; [done|by apply run_claim_ok].
Qed.

(** C11: Claims do not fail: on a reachable table, with the clock of the server in range and not behind
    earlier claims, the statement of a worker within [budget] violates no constraint and
    overflows no column, whatever rows it selects. *)
Theorem claim_never_fails s q n lease us max hr rt :
  1 <= budget <= i32_max -> rtc sys_step sys_start s -> 0 ∉ q -> 0 <= max ->
  interval_of_duration lease = Ok us -> bind_headroom hr = Ok hr ->
  min_timestamp <= rt_now rt + us < end_timestamp ->
  map_Forall (fun _ r => clock_after_claim (rt_now rt) r) (jobs (sy_db s)) ->
  exists rows db', claim_stmt q n lease max hr rt (sy_db s) = (Ok rows, db').
Proof.
  intros [Hb Hbi] Hr Hq Hmax Hus Hhr Hrange Hclk.
  destruct (claim_succeeds s q n lease us max hr rt (reachable_ok s Hb Hr)) as (rows & db' & Hc & _); eauto.
Qed.

(** * The programs are made of these steps *)

(** The changes of the table the system can make while the claims stay as they are. *)
Definition sys_db (cl : list JobRef) (us : gset Uuid) (db db' : Db) : Prop :=
  rtc sys_step (mkSys db cl us) (mkSys db' cl us).

#[export] Instance sys_db_preorder cl us : PreOrder (sys_db cl us).
Proof. split; unfold sys_db; [intros db; apply rtc_refl|intros db1 db2 db3 Hst1 Hst2; by etrans]. Qed.

Lemma sys_db_mark cl us j v rt db :
  j ∈ cl -> within_budget j v -> sys_db cl us db (verdict_stmt j v rt db).2.
Proof. intros. by apply rtc_once, ss_mark. Qed.

Lemma sys_db_reap cl us q n rt db : sys_db cl us db (reap_stmt q n rt db).2.
Proof. apply rtc_once, ss_reap. Qed.

Lemma sys_db_session cl us c op rt db : sys_db cl us db (session_op c op rt db).
Proof. apply rtc_once, ss_session. Qed.

Lemma sys_db_insert cl us c ns rt db : sys_db cl us db (insert_stmt c ns rt db).2.
Proof. apply (sys_db_session cl us c (OpInsert ns)). Qed.

Lemma sys_db_purge cl us st age rt db : terminal st -> sys_db cl us db (purge_stmt st age rt db).2.
Proof. intros. by apply rtc_once, ss_purge. Qed.
#[local] Hint Resolve sys_db_mark sys_db_reap sys_db_insert sys_db_purge : guarantee.

Context `{env : BackoffEnv}.

(** The code asks for a retry only within the budget of the row. *)
Lemma verdict_within_budget c j o v : verdict c j o = Some v -> within_budget j v.
Proof.
  assert (Hret : forall reason d, retry_verdict c j reason d = Some v -> within_budget j v).
  { intros reason d. unfold retry_verdict. case_decide; [by intros [= <-]|].
    destruct (compute_retry_delay _ _ _ _); [|done]. intros [= <-]. simpl. lia. }
  destruct o as [[u|[reason d|reason]]| |p]; simpl; try (by intros [= <-]); eauto.
  destruct (cf_panic_policy c); [eauto|]. by intros [= <-].
Qed.

Lemma refine_handle_job {T} cl us c (handler : JobHandler T) job st :
  job_ref job ∈ cl -> guarantee (sys_db cl us) (handle_job c handler job st).
Proof.
  intros Hj. assert (Ho : forall o, guarantee (sys_db cl us) (handle_outcome c (job_ref job) o st)).
  { intros o. rewrite handle_outcome_verdict. destruct (verdict c (job_ref job) o) as [v|] eqn:Hv.
    - apply verdict_within_budget in Hv. unfold flip. solve_guarantee.
    - solve_guarantee. }
  unfold handle_job. destruct (handler _ _); try apply Ho. solve_guarantee.
Qed.

Lemma refine_reaper_loop cl us q id ticks l sh :
  guarantee (sys_db cl us) (reaper_loop q id ticks l sh).
Proof. apply guarantee_reaper_with; [apply _|]. intros. apply sys_db_reap. Qed.

Lemma refine_purge cl us st age :
  terminal st -> guarantee (sys_db cl us) (purge_terminal st age).
Proof.
  intros Ht.
  assert (Hl : forall fuel total, guarantee (sys_db cl us) (purge_loop fuel st age total)).
  { intros fuel. induction fuel as [|fuel IH]; intros total; simpl; solve_guarantee. }
  intros w Hw. unfold purge_terminal. by apply Hl.
Qed.

Lemma refine_push_batch {T} `{!Codec T} cl us p conn uuid (items : list (T * option (list Z))) :
  guarantee (sys_db cl us) (push_batch p conn uuid items).
Proof. unfold push_batch. solve_guarantee. Qed.

Lemma refine_push {T} `{!Codec T} cl us p conn uuid (v : T) key :
  guarantee (sys_db cl us) (push p conn uuid v key).
Proof. unfold push. solve_guarantee. Qed.

Lemma refine_push_at {T} `{!Codec T} cl us p conn uuid (v : T) at_ key :
  guarantee (sys_db cl us) (push_at p conn uuid v at_ key).
Proof. unfold push_at. solve_guarantee. Qed.

(** C23: Refinement: whatever the scripts (faults, lost answers, timeouts, interference), the
    database effects of the handler task of a claimed job, of the reaper loop, of the retention
    sweeps and of the pushes, on a connection with or without an open transaction, are
    sequences of steps of the system: the system theorems hold of the programs. *)
Theorem programs_refine_system {T} `{!Codec T} cl us :
  (forall c (handler : JobHandler T) job st, job_ref job ∈ cl ->
     guarantee (sys_db cl us) (handle_job c handler job st)) /\
  (forall q id ticks l sh, guarantee (sys_db cl us) (reaper_loop q id ticks l sh)) /\
  (forall age, guarantee (sys_db cl us) (purge_done age)) /\
  (forall age, guarantee (sys_db cl us) (purge_dead age)) /\
  (forall p conn uuid (items : list (T * option (list Z))),
     guarantee (sys_db cl us) (push_batch p conn uuid items)) /\
  (forall p conn uuid (v : T) key, guarantee (sys_db cl us) (push p conn uuid v key)) /\
  (forall p conn uuid (v : T) at_ key, guarantee (sys_db cl us) (push_at p conn uuid v at_ key)).
Proof.
  split_and!.
  - intros. by apply refine_handle_job.
  - intros. apply refine_reaper_loop.
  - intros. apply refine_purge. by left.
  - intros. apply refine_purge. by right.
  - intros. apply refine_push_batch.
  - intros. apply refine_push.
  - intros. apply refine_push_at.
Qed.

(** ** Claims *)

Lemma claim_stmt_err q n lease max hr rt db e db' :
  claim_stmt q n lease max hr rt db = (Err e, db') -> db' = db.
Proof.
  unfold claim_stmt. destruct (bind_text q); [|by intros [= _ <-]].
  destruct (interval_of_duration lease); [|by intros [= _ <-]].
  destruct (bind_headroom hr); [|by intros [= _ <-]]. unfold run_claim.
  destruct (pg_update _ _ _ _); [done|]. by intros [= _ <-].
Qed.

Definition raw_ref (raw : RawClaimedRow) : JobRef :=
  mkJobRef (raw_queue raw) (raw_public_id raw) (raw_id raw) (raw_lease_token raw) (raw_attempts raw)
    (raw_max_attempts raw).

Lemma raws_of_rows_refs rows raws :
  raws_of_rows rows = Ok raws -> raw_ref <$> raws = claim_ref <$> rows.
Proof.
  revert raws. induction rows as [|p rows IH]; intros raws; simpl; [by intros [= <-]|].
  destruct (raw_of_row p) as [raw|] eqn:Hp; [|done]. destruct (raws_of_rows rows); [|done].
  intros [= <-]. rewrite !fmap_cons, (IH _ eq_refl). f_equal.
  apply raw_of_row_inv in Hp as (? & ? & ? & ? & ? & _ & Ht & _ & _ & _ & ->).
  unfold claim_ref. by rewrite Ht.
Qed.

Context {T : Type} `{!Codec T}.

Lemma refine_decode_row cl us raw :
  raw_ref raw ∈ cl -> guarantee (sys_db cl us) (decode_row (T := T) raw).
Proof.
  intros Hraw. assert (Hmark : forall reason, guarantee (sys_db cl us) (mark_dead (raw_id raw) (raw_lease_token raw) reason)).
  { intros reason. apply guarantee_sql; [apply _|]. intros rt db.
    by apply (sys_db_mark cl us (raw_ref raw) (VDead reason)). }
  unfold decode_row. destruct (decode _); [solve_guarantee|..];
    (apply guarantee_bind; [apply _|apply Hmark|intros ?; solve_guarantee]).
Qed.

(** No other session between the statements of the script. *)
Definition alone (script : list RoundTrip) : Prop :=
  Forall (fun rt => forall db, rt_env rt db = db) script.

Lemma sql_alone {A} (stmt : Stmt A) w r w' :
  alone (w_script w) -> sql stmt w = (r, w') -> alone (w_script w') /\
  (w_db w' = w_db w /\ (forall a, r <> Ok a) \/
   exists rt, rt ∈ w_script w /\ w_db w' = (stmt rt (w_db w)).2 /\
     (r = (stmt rt (w_db w)).1 \/ forall a, r <> Ok a)).
Proof.
  unfold sql, alone. destruct (w_script w) as [|rt script] eqn:Hs.
  { intros _ [= <- <-]. rewrite Hs. split; [done|]. by left. }
  intros [Henv Hal]%Forall_cons. rewrite Henv. assert (rt ∈ rt :: script) by set_solver.
  destruct (rt_fault rt).
  - destruct (stmt rt (w_db w)) as [r0 db'] eqn:Hst. intros [= <- <-]. split; [done|].
    right. exists rt. rewrite Hst. eauto.
  - intros [= <- <-]. split; [done|]. by left.
  - intros [= <- <-]. split; [done|]. right. exists rt. split_and!; [done|done|]. by right.
Qed.

(** The tokens a script can have drawn for the rows of a table. *)
Definition drawn (script : list RoundTrip) (db : Db) : gset Uuid :=
  list_to_set (rt ← script; rt_uuid rt <$> (map_to_list (jobs db)).*1).

Lemma drawn_elem rt script db i r :
  rt ∈ script -> jobs db !! i = Some r -> rt_uuid rt i ∈ drawn script db.
Proof.
  intros Hrt Hi. unfold drawn. rewrite elem_of_list_to_set. apply list_elem_of_bind.
  exists rt. split; [|done]. apply list_elem_of_fmap_2.
  apply (list_elem_of_fmap_2 fst _ (i, r)). by apply elem_of_map_to_list.
Qed.

Lemma row_tokens_drawn q n lease max hr rt script db db' rows :
  rt ∈ script -> claim_stmt q n lease max hr rt db = (Ok rows, db') -> row_tokens rows ⊆ drawn script db.
Proof.
  intros Hrt Hc tok. unfold row_tokens. rewrite elem_of_list_to_set, list_elem_of_omap.
  intros ([i r] & Hin & Ht). destruct (claimed_token _ _ _ _ _ _ _ _ _ _ _ Hc Hin) as (Ht' & Hr & _).
  simpl in Ht. rewrite Ht in Ht'. injection Ht' as ->.
  destruct (claim_row_cases _ _ _ _ _ _ _ _ _ _ _ Hc Hr) as [[_ Hn]|(_ & r0 & us & Hr0 & _)].
  - destruct Hn. by apply (list_elem_of_fmap_2 fst _ (i, r)).
  - by eapply drawn_elem.
Qed.

Lemma decoded_ref raw (j : Job T) : decoded raw = Some j -> job_ref j = raw_ref raw.
Proof. by intros [v ->]%decoded_inv. Qed.

Lemma guarantee_alone {A} (R : relation Db) `{!PreOrder R} (m : M A) w :
  guarantee R m -> alone (w_script w) -> R (w_db w) (w_db (m w).2).
Proof.
  intros Hg Hal. apply Hg. eapply Forall_impl; [exact Hal|].
  intros rt Henv db'. simpl in Henv. by rewrite Henv.
Qed.

(** What the system does when the claim statement runs: the new claims are the answered rows. *)
Lemma claim_raw_refines q n lease max hr w s r w' :
  w_db w = sy_db s -> alone (w_script w) ->
  Forall (fun rt => fresh_tokens rt (sy_used s)) (w_script w) -> 0 < max <= budget ->
  claim_batch_raw q n lease max hr w = (r, w') ->
  exists new us, rtc sys_step s (mkSys (w_db w') (new ++ sy_claims s) (sy_used s ∪ us)) /\
    us ⊆ drawn (w_script w) (w_db w) /\ alone (w_script w') /\
    match r with Ok raws => raw_ref <$> raws = new | Err _ => True end.
Proof.
  intros Hdb Hal Hfr Hmax. unfold claim_batch_raw, mcompose.
  destruct (sql (claim_stmt q n lease max hr) w) as [r0 w1] eqn:Hsql. unfold mreturn. intros [= <- <-].
  destruct (sql_alone _ _ _ _ Hal Hsql) as [Hal1 Hc]. destruct s as [db cl us]. simpl in *.
  assert (Hnone : w_db w1 = db -> exists new us',
    rtc sys_step (mkSys db cl us) (mkSys (w_db w1) (new ++ cl) (us ∪ us')) /\
    us' ⊆ drawn (w_script w) (w_db w) /\ alone (w_script w1) /\ True).
  { intros ->. exists [], ∅. rewrite union_empty_r_L. split_and!; [done|set_solver|done|done]. }
  destruct Hc as [[Hw Hr]|(rt & Hrt & Hw & Hr)].
  { destruct r0 as [rows|e]; [by destruct (Hr rows)|]. apply Hnone. congruence. }
  rewrite Hdb in *. destruct (claim_stmt q n lease max hr rt db) as [[rows0|e0] db1] eqn:Hst.
  2: { apply claim_stmt_err in Hst as ->. destruct r0 as [rows|e]; [|by apply Hnone].
       simpl in Hr. destruct Hr as [?|Hr]; [done|by destruct (Hr rows)]. }
  simpl in Hw, Hr. assert (Hfrt : fresh_tokens rt us) by (by eapply Forall_forall in Hfr).
  pose proof (row_tokens_drawn _ _ _ _ _ _ _ _ _ _ Hrt Hst) as Hdrawn. rewrite Hw.
  exists (match r0 with Ok _ => claim_ref <$> rows0 | Err _ => [] end), (row_tokens rows0).
  destruct r0 as [rows|e].
  - assert (rows = rows0) as -> by (destruct Hr as [[= ->]|Hr]; [done|by destruct (Hr rows)]).
    split_and!; [by eapply rtc_once, ss_claim|done|done|]. simpl.
    destruct (raws_of_rows rows0) eqn:Hraw; [by apply raws_of_rows_refs|done].
  - split_and!; [|done..].
    apply rtc_once, (ss_claim q n lease max hr rt db db1 cl us rows0 []); try done. apply sublist_nil_l.
Qed.
End system.
