(* ===== verification/History.v ===== *)
(** The claims of one job over time: how often a job is handed to a worker, and what the
    handlers that get it see of it ([JobContext] of [src/job.rs]). *)
From S2P Require Import Prelude F64 Duration Errors Backoff Schema Lifecycle Transition Exec Session Mark Job Claim Reaper Purge Pusher Builder Worker System.

(** The claims of the row [i]. *)
Definition claims_of (i : Z) (s : Sys) : list JobRef := filter (fun j => jr_id j = i) (sy_claims s).

(** Distinct integers of an interval are no more than it has. *)
Lemma NoDup_interval_length (l : list Z) (n : Z) :
  NoDup l -> Forall (fun x => 1 <= x <= n) l -> Z.of_nat (length l) <= Z.max 0 n.
Proof.
  intros Hnd Hall.
  assert (l ⊆+ seqZ 1 n) as Hs%submseteq_length.
  { apply NoDup_submseteq; [done|]. intros x Hx. rewrite elem_of_seqZ.
    rewrite Forall_forall in Hall. specialize (Hall x Hx). lia. }
  rewrite length_seqZ in Hs. lia.
Qed.

Section history.
Context `{!PgEngine, !SqlxInterval} (budget : Z).

Definition claim_stamp (j : JobRef) : Z * Z := (jr_id j, jr_attempts j).

Record history_ok (s : Sys) : Prop := mkHistoryOk {
  ho_range : forall j, j ∈ sy_claims s -> spent (jr_id j) (sy_db s) /\ 1 <= jr_attempts j <= budget;
  ho_row : forall j r, j ∈ sy_claims s -> jobs (sy_db s) !! jr_id j = Some r ->
    jr_attempts j <= attempts r /\ jr_public_id j = public_id r /\ jr_queue j = queue r;
  ho_stamps : NoDup (claim_stamp <$> sy_claims s);
  ho_same : forall j1 j2, j1 ∈ sy_claims s -> j2 ∈ sy_claims s -> jr_id j1 = jr_id j2 ->
    jr_public_id j1 = jr_public_id j2 /\ jr_queue j1 = jr_queue j2;
}.

(** Old claims, after whatever the table went through. *)
Lemma old_claim s s' j :
  sys_ok budget s -> history_ok s -> db_steps (sy_db s) (sy_db s') -> j ∈ sy_claims s ->
  (spent (jr_id j) (sy_db s') /\ 1 <= jr_attempts j <= budget) /\
  forall r, jobs (sy_db s') !! jr_id j = Some r ->
    jr_attempts j <= attempts r /\ jr_public_id j = public_id r /\ jr_queue j = queue r.
Proof.
  intros Hok Hh Hdb Hj. destruct (ho_range _ Hh j Hj) as [Hid Ha]. split; [by split; [eapply db_steps_spent|]|]. intros r' Hr'. destruct (jobs (sy_db s) !! jr_id j) as [r|] eqn:Hr.
  - destruct (db_steps_same _ _ _ _ _ Hdb (so_db _ _ Hok) Hr Hr') as ((Hp & Hq & _) & ? & _).
    destruct (ho_row _ Hh j r Hj Hr) as (? & ? & ?). split_and!; [lia|congruence|congruence].
  - by rewrite (db_steps_gone _ _ _ Hdb Hid Hr) in Hr'.
Qed.

(** A new claim carries the columns of its row, one attempt above those the row had. *)
Lemma new_claim q n lease max hr rt db db' cl us rows seen j :
  sys_ok budget (mkSys db cl us) -> 1 <= budget ->
  claim_stmt q n lease max hr rt db = (Ok rows, db') -> seen `sublist_of` rows -> j ∈ claim_ref <$> seen ->
  exists r0, jobs db !! jr_id j = Some r0 /\ jr_attempts j = attempts r0 + 1 /\ 1 <= jr_attempts j <= budget /\
    jr_public_id j = public_id r0 /\ jr_queue j = queue r0 /\
    exists r, jobs db' !! jr_id j = Some r /\ attempts r = jr_attempts j /\ same_job r0 r.
Proof.
  intros Hok Hb Hc Hsub ([i r] & -> & Hin)%list_elem_of_fmap. simpl.
  assert (Hin' : (i, r) ∈ rows) by (by eapply elem_of_sublist). apply claim_stmt_inv in Hc as (lus & _ & _ & Hc).
  destruct (cr_rows _ _ _ _ _ _ _ _ _ Hc _ _ Hin') as (r0 & Hr0 & (_ & Hst & _) & _ & -> & _ & _ & Hr).
  exists r0. destruct (so_budget _ _ Hok i r0 Hr0) as (? & ? & Haw).
  assert (Ha : 0 <= attempts r0 < budget).
  { destruct (so_db _ _ Hok i r0 Hr0) as [(Hck & _ & _) _]. unfold check_row, jobs_attempts_nonneg, jobs_status_invariants in Hck.
    rewrite !andb_true_iff, !bool_decide_eq_true in Hck. simpl in Hst. destruct Hst as [Hq|Hq].
    - rewrite Hq in Hck. rewrite !andb_true_iff, !bool_decide_eq_true in Hck. lia.
    - specialize (Haw Hq). lia. }
  simpl. unfold u32_of_i32. rewrite decide_True by lia.
  split_and!; try done; try lia. eexists. split; [exact Hr|done].
Qed.

Lemma history_claim s q n lease max hr rt db' rows seen us' :
  1 <= budget -> sys_ok budget s -> history_ok s -> db_steps (sy_db s) db' ->
  claim_stmt q n lease max hr rt (sy_db s) = (Ok rows, db') -> seen `sublist_of` rows ->
  history_ok (mkSys db' ((claim_ref <$> seen) ++ sy_claims s) us').
Proof.
  intros Hb Hok Hh Hdb Hc Hsub. destruct s as [db cl us]. cbn [sy_db sy_claims] in *.
  set (s' := mkSys db' ((claim_ref <$> seen) ++ cl) us').
  pose proof (fun j => old_claim (mkSys db cl us) s' j Hok Hh Hdb) as Hold. cbn [sy_claims] in Hold.
  pose proof (fun j => new_claim _ _ _ _ _ _ _ _ _ _ _ _ j Hok Hb Hc Hsub) as Hnew.
  assert (Hids : NoDup (jr_id <$> (claim_ref <$> seen))).
  { rewrite <- list_fmap_compose. change (jr_id ∘ claim_ref) with (fst (A := Z) (B := Row)).
    eapply sublist_NoDup; [|by apply fmap_sublist]. apply claim_stmt_inv in Hc as (lus & _ & _ & Hc). by eapply cr_NoDup. }
  (* a new claim against an old one of the same row *)
  assert (Hcmp : forall j k, j ∈ claim_ref <$> seen -> k ∈ cl -> jr_id j = jr_id k ->
    jr_attempts k < jr_attempts j /\ jr_public_id j = jr_public_id k /\ jr_queue j = jr_queue k).
  { intros j k Hj Hk Hid. destruct (Hnew j Hj) as (r0 & Hr0 & Ha & _ & Hp & Hq & _). rewrite Hid in Hr0.
    destruct (ho_row _ Hh k r0 Hk Hr0) as (? & ? & ?). split_and!; [lia|congruence|congruence]. }
  split.
  - intros j [Hj|Hj]%elem_of_app; [|by apply (Hold j Hj)].
    destruct (Hnew j Hj) as (r0 & Hr0 & _ & ? & _). split; [|done].
    eapply db_steps_spent; [exact Hdb|]. eapply db_ok_spent; [apply (so_db _ _ Hok)|exact Hr0].
  - intros j r' [Hj|Hj]%elem_of_app Hr'; [|by apply (Hold j Hj)].
    destruct (Hnew j Hj) as (r0 & _ & _ & _ & -> & -> & r & Hr & <- & (? & ? & _)).
    simpl in Hr'. rewrite Hr in Hr'. injection Hr' as <-. split_and!; [lia|congruence|congruence].
  - simpl. rewrite fmap_app. apply NoDup_app. split_and!; [|..|apply Hh].
    + apply (NoDup_fmap_1 fst). rewrite <- list_fmap_compose. exact Hids.
    + intros x (j & -> & Hj)%list_elem_of_fmap (k & Heq & Hk)%list_elem_of_fmap.
      injection Heq as Hid Ha. destruct (Hcmp j k Hj Hk Hid). lia.
  - intros j k [Hj|Hj]%elem_of_app [Hk|Hk]%elem_of_app Hid.
    + assert (j = k) as ->; [|done]. by apply (NoDup_fmap_elem_eq jr_id _ _ _ Hids).
    + by apply (Hcmp j k).
    + destruct (Hcmp k j Hk Hj) as (_ & ? & ?); [done|]. split; congruence.
    + by apply (ho_same _ Hh).
Qed.

Lemma history_step s s' :
  1 <= budget -> sys_step budget s s' -> sys_ok budget s -> history_ok s -> history_ok s'.
Proof.
  intros Hb Hs Hok Hh. pose proof (sys_step_db budget s s' Hs) as Hdb.
  assert (Hkeep : sy_claims s' = sy_claims s -> history_ok s').
  { intros Hcl. pose proof (fun j => old_claim s s' j Hok Hh Hdb) as Hold.
    split; rewrite ?Hcl; [|..|apply Hh]; [intros j Hj; by apply (Hold j)|intros j r Hj; by apply (Hold j)|apply Hh]. }
  destruct Hs as [a Hs]. destruct Hs as [| q n lease max hr rt db db' cl us rows seen _ _ Hc Hsub| | |];
    try by apply Hkeep.
  by apply (history_claim (mkSys db cl us) q n lease max hr rt db' rows seen).
Qed.

Lemma history_reachable s : 1 <= budget -> rtc (sys_step budget) sys_start s -> history_ok s.
Proof.
  intros Hb Hr. assert (Hgo : forall s1, rtc (sys_step budget) s1 s -> sys_ok budget s1 -> history_ok s1 -> history_ok s).
  { intros s1 Hs. induction Hs; [done|]. eauto using sys_step_ok, history_step. }
  apply (Hgo sys_start Hr); [apply sys_start_ok|].
  split; simpl; [set_solver|set_solver|constructor|set_solver].
Qed.

(** How often a job runs: in every reachable state, whatever crashed, expired or was retried, the
    claims of one row that reached a worker are at most [budget]; they carry pairwise
    different attempt numbers between 1 and [budget], the same public id (the idempotency
    key the handlers see) and the same queue. *)
Theorem executions_bounded s i :
  1 <= budget -> rtc (sys_step budget) sys_start s ->
  Z.of_nat (length (claims_of i s)) <= budget /\
  NoDup (jr_attempts <$> claims_of i s) /\
  Forall (fun j => 1 <= jr_attempts j <= budget) (claims_of i s) /\
  (forall j1 j2, j1 ∈ claims_of i s -> j2 ∈ claims_of i s ->
     jr_public_id j1 = jr_public_id j2 /\ jr_queue j1 = jr_queue j2).
Proof.
  intros Hb Hr. pose proof (history_reachable s Hb Hr) as Hh.
  assert (Hel : forall j, j ∈ claims_of i s -> jr_id j = i /\ j ∈ sy_claims s)
    by (intros j Hj; by apply list_elem_of_filter in Hj).
  assert (Hrange : Forall (fun j => 1 <= jr_attempts j <= budget) (claims_of i s)).
  { apply Forall_forall. intros j [_ Hj]%Hel. by apply (ho_range _ Hh). }
  assert (Hnd : NoDup (jr_attempts <$> claims_of i s)).
  { apply NoDup_fmap_2_strong.
    - intros j1 j2 [H1 Hj1]%Hel [H2 Hj2]%Hel Ha.
      apply (NoDup_fmap_elem_eq claim_stamp _ _ _ (ho_stamps _ Hh) Hj1 Hj2). unfold claim_stamp. congruence.
    - apply NoDup_filter, (NoDup_fmap_1 claim_stamp), Hh. }
  split_and!; [|done|done|].
  - rewrite <- (length_fmap jr_attempts). etrans; [apply (NoDup_interval_length _ budget); [done|]|lia].
    by apply Forall_fmap.
  - intros j1 j2 [H1 Hj1]%Hel [H2 Hj2]%Hel. apply (ho_same _ Hh); [done|done|congruence].
Qed.
End history.
