(* ===== verification/Progress.v ===== *)
(** Progress: a job whose worker has died is run again, and no due job waits behind others for
    ever. *)
From S2P Require Import Prelude F64 Duration Errors Backoff Schema Lifecycle Transition Exec Select Session Mark Job Claim ClaimSpec Reaper Purge Pusher Builder Worker System.

(** * A row that waits for a claim *)

(** A row that waits for its next attempt stays as it is until somebody claims it. *)
Lemma awaiting_kept db db' i r :
  db_steps db db' -> jobs db !! i = Some r -> status r = AwaitingRetry ->
  jobs db' !! i = Some r \/
  exists db1 r1, db_steps db db1 /\ db_steps db1 db' /\ jobs db1 !! i = Some r1 /\
    same_job r r1 /\ status r1 = Running /\ attempts r1 = attempts r + 1.
Proof.
  induction 1 as [|db db1 db' H1 Hs IH]; intros Hr Hst; [by left|].
  destruct (db_step_row _ _ _ _ H1 Hr) as [Hr1|[(r1 & Hr1 & Hrs)|[_ [?|?]]]]; [| |congruence..].
  - destruct (IH Hr1 Hst) as [?|(db2 & r2 & ? & ? & ?)]; [by left|]. right. exists db2, r2.
    split; [by eapply rtc_l|done].
  - right. exists db1, r1. assert (Hrun : status r1 = Running).
    { pose proof (rs_lifecycle _ _ Hrs) as Hl. rewrite Hst in Hl. by inversion Hl. }
    pose proof (rs_attempts _ _ Hrs) as Ha. rewrite decide_True in Ha by done.
    split_and!; try done; [by apply rtc_once|apply Hrs].
Qed.

Section progress.
Context `{!PgEngine, !SqlxInterval} (budget : Z).

(** A claim whose batch has room for every due row takes all of them. *)
Lemma claim_takes_due q limit rt (t : gmap Z Row) i r :
  rt_snap rt t = t -> t !! i = Some r -> runnable q (rt_now rt) (i, r) ->
  (forall p, p ∈ due q (rt_now rt) t -> p.1 ∉ rt_locked rt) ->
  Z.of_nat (length (due q (rt_now rt) t)) <= limit ->
  i ∈ claim_targets q limit ∅ rt t.
Proof.
  intros Hsn Hi Hrun Hl Hlen. unfold claim_targets. rewrite decide_True by done. unfold claimed_plain.
  rewrite select_current by done. unfold order_limit. fold (due q (rt_now rt) t). rewrite list_filter_all by (intros; by apply Hl). rewrite take_ge by lia.
  apply (list_elem_of_fmap_2 fst _ (i, r)). by apply due_elem.
Qed.

(** C15: A crashed job runs again: a running row whose lease has expired, with attempts left, is
    released by a sweep with room in its batch; from then on, whatever other sessions do, it
    waits until a claim takes it, and a claim with room for the due rows of the queue does
    take it: it hands out the same job, as the next attempt, under a lease token that was
    never used before, so that whatever is left of the old worker is fenced out. *)
Theorem crashed_job_runs_again s q n rt1 rows1 db1 i r s2 :
  1 <= budget <= i32_max -> rtc (sys_step budget) sys_start s -> 0 ∉ q ->
  map_Forall (fun _ r => clock_after_claim (rt_now rt1) r) (jobs (sy_db s)) ->
  jobs (sy_db s) !! i = Some r -> rt_snap rt1 (jobs (sy_db s)) !! i = Some r ->
  stale q (rt_now rt1) (i, r) -> i ∉ rt_locked rt1 -> attempts r < max_attempts r ->
  reap_stmt q n rt1 (sy_db s) = (Ok rows1, db1) -> Z.of_nat (length rows1) < clamp_i32 n ->
  rtc (sys_step budget) (mkSys db1 (sy_claims s) (sy_used s)) s2 ->
  (exists db' r', db_steps db1 db' /\ db_steps db' (sy_db s2) /\ jobs db' !! i = Some r' /\
     same_job r r' /\ status r' = Running /\ attempts r' = attempts r + 1) \/
  forall m lease us max rt2,
    0 < max -> interval_of_duration lease = Ok us ->
    min_timestamp <= rt_now rt2 + us < end_timestamp -> rt_now rt1 <= rt_now rt2 ->
    map_Forall (fun _ r => clock_after_claim (rt_now rt2) r) (jobs (sy_db s2)) ->
    rt_snap rt2 (jobs (sy_db s2)) = jobs (sy_db s2) ->
    (forall p, p ∈ due q (rt_now rt2) (jobs (sy_db s2)) -> p.1 ∉ rt_locked rt2) ->
    Z.of_nat (length (due q (rt_now rt2) (jobs (sy_db s2)))) <= clamp_i32 m ->
    fresh_tokens rt2 (sy_used s2) ->
    exists rows2 db2 r', claim_stmt q m lease max ∅ rt2 (sy_db s2) = (Ok rows2, db2) /\
      (i, r') ∈ rows2 /\ same_job r r' /\ attempts r' = attempts r + 1 /\
      lease_token r' = Some (rt_uuid rt2 i) /\
      forall j, j ∈ sy_claims s2 -> jr_lease_token j <> rt_uuid rt2 i.
Proof.
  intros [Hb Hbi] Hr Hq Hclk Hi Hsn1 Hst Hlk Hatt Hreap Hlen Hs2.
  pose proof (reachable_ok _ s Hb Hr) as Hok.
  destruct (sweep_recovers _ s q n rt1 Hok Hq Hclk) as (rows & db' & Hreap' & Hall).
  rewrite Hreap in Hreap'. injection Hreap' as <- <-.
  destruct (Hall Hlen i r Hi Hsn1 Hst Hlk) as [Hi1 Hra]. set (r1 := swept (rt_now rt1) r) in Hi1.
  assert (Hr1 : status r1 = AwaitingRetry /\ same_job r r1 /\ attempts r1 = attempts r /\ run_at r1 = run_at r).
  { unfold r1, swept. rewrite decide_False by lia. by repeat split. }
  destruct Hr1 as (Hst1 & Hsame & Ha1 & Hrun1).
  assert (Hreach2 : rtc (sys_step budget) sys_start s2).
  { etrans; [exact Hr|]. eapply rtc_l; [|exact Hs2]. destruct s as [db cl us]. simpl in *.
    pose proof (ss_reap budget q n rt1 db cl us) as Hstep. by rewrite Hreap in Hstep. }
  pose proof (reachable_ok _ s2 Hb Hreach2) as Hok2.
  assert (Hdb : db_steps db1 (sy_db s2)).
  { clear -Hs2. set (s1 := mkSys db1 (sy_claims s) (sy_used s)) in *. change db1 with (sy_db s1).
    induction Hs2; [done|]. etrans; [by eapply sys_step_db|done]. }
  destruct (awaiting_kept _ _ _ _ Hdb Hi1 Hst1) as [Hi2|(db' & r' & ? & ? & ? & ? & ? & ?)].
  2: { left. exists db', r'. split_and!; try done; [by etrans|lia]. }
  right. intros m lease us max rt2 Hmax Hus Hrange Hnow Hclk2 Hsn2 Hlk2 Hlen2 [Hfr _].
  destruct (claim_succeeds budget s2 q m lease us max ∅ rt2) as (rows2 & db2 & Hc & Hres); try done; [lia|].
  assert (Hrunn : runnable q (rt_now rt2) (i, r1)).
  { destruct Hst as [Hqr _]. destruct Hsame as (_ & Hqq & _). split; [simpl in *; congruence|].
    split; simpl; [by right|lia]. }
  assert (Hin : i ∈ rows2.*1).
  { rewrite (cr_ids _ _ _ _ _ _ _ _ _ Hres). by eapply claim_takes_due. }
  apply list_elem_of_fmap in Hin as ([i' r'] & -> & Hin). simpl in *.
  destruct (cr_rows _ _ _ _ _ _ _ _ _ Hres _ _ Hin) as (r0 & Hr0 & _ & _ & -> & _).
  rewrite Hi2 in Hr0. injection Hr0 as <-. eexists rows2, db2, _. split_and!; [done|exact Hin|done|simpl; lia|done|].
  intros j Hj Heq. apply (Hfr i'). rewrite <- Heq. by apply (so_claims_used _ _ Hok2).
Qed.

(** * Waiting in line *)

(** The rows that wait for a claim and come before [(i, r)] in the order of the claim. *)
Definition before (q : list Z) (i : Z) (r : Row) (p : Z * Row) : Prop :=
  queue p.2 = q /\ (status p.2 = Queued \/ status p.2 = AwaitingRetry) /\ by_run_at p (i, r) /\ p.1 <> i.
#[local] Instance before_dec q i r p : Decision (before q i r p) := _.

Definition ahead (q : list Z) (i : Z) (r : Row) (t : gmap Z Row) : gset Z :=
  dom (filter (before q i r) t).

Lemma ahead_elem q i r t k :
  k ∈ ahead q i r t <-> exists r', t !! k = Some r' /\ before q i r (k, r').
Proof.
  unfold ahead. rewrite elem_of_dom. split.
  - intros [r' [? ?]%map_lookup_filter_Some]. eauto.
  - intros (r' & ? & ?). exists r'. by apply map_lookup_filter_Some.
Qed.

(** One claim takes the row, or [n] of the rows before it. *)
Lemma claim_advances q n lease max rt db rows db1 i r :
  1 <= n <= i32_max -> claim_stmt q n lease max ∅ rt db = (Ok rows, db1) -> i ∉ rt_locked rt -> rt_snap rt (jobs db) = jobs db ->
  jobs db !! i = Some r -> runnable q (rt_now rt) (i, r) ->
  i ∈ rows.*1 \/
  jobs db1 !! i = Some r /\
  Z.of_nat (size (ahead q i r (jobs db1))) + n <= Z.of_nat (size (ahead q i r (jobs db))).
Proof.
  intros Hn Hc Hl Hsn Hi Hrun. destruct (decide (i ∈ rows.*1)) as [?|Hout]; [by left|]. right.
  apply claim_stmt_inv in Hc as (us & _ & _ & [Hids Hrows Hframe _]).
  assert (clamp_i32 n = n) as Hcl by (unfold clamp_i32; lia). rewrite Hcl in Hids.
  set (C := claim_targets q n ∅ rt (jobs db)) in *.
  assert (Hmem : forall k, k ∈ rows.*1 <-> k ∈ C) by (intros k; by rewrite Hids).
  split; [by rewrite Hframe|].
  assert (HiC : i ∉ C) by (by rewrite <- Hmem).
  assert (Hfull : Z.of_nat (length C) = n).
  { apply (claim_left_full q n rt (jobs db) i r r); rewrite ?Hsn; (done || lia). }
  assert (Hsub : list_to_set C ⊆ ahead q i r (jobs db)).
  { intros k Hk%elem_of_list_to_set. destruct (claim_targets_elem _ _ _ _ _ _ Hk) as (rk & Hrk & [Hqk [Hsk _]] & _). rewrite Hsn in Hqk.
    apply ahead_elem. exists rk. split; [done|]. split_and!; [apply Hqk, snap_ok_refl|done| |simpl; congruence].
    by destruct (claim_fifo q n rt (jobs db) k rk i r). }
  assert (Heq : ahead q i r (jobs db1) ⊆ ahead q i r (jobs db) ∖ list_to_set C).
  { intros k (rk & Hrk & Hbk)%ahead_elem. rewrite elem_of_difference, elem_of_list_to_set.
    destruct (decide (k ∈ rows.*1)) as [Hk|Hk].
    - apply list_elem_of_fmap in Hk as ([k' r'] & -> & Hk).
      destruct (Hrows _ _ Hk) as (r0 & _ & _ & _ & -> & _ & _ & Hk'). simpl in *. rewrite Hk' in Hrk.
      injection Hrk as <-. by destruct Hbk as (_ & [?|?] & _).
    - rewrite Hframe in Hrk by done. split; [apply ahead_elem; eauto|by rewrite <- Hmem]. }
  apply subseteq_size in Heq. rewrite size_difference in Heq by done.
  pose proof (subseteq_size _ _ Hsub). rewrite size_list_to_set in * by apply claim_targets_NoDup. lia.
Qed.

(** A row that waits stays as it is, whatever statement runs, until a claim takes it. *)
Lemma waiting_kept a s s' i r :
  sys_do budget a s s' -> jobs (sy_db s) !! i = Some r -> status r = Queued \/ status r = AwaitingRetry ->
  jobs (sy_db s') !! i = Some r \/
  exists rt r', a = AClaim rt /\ jobs (sy_db s') !! i = Some r' /\ same_job r r' /\
    status r' = Running /\ attempts r' = attempts r + 1.
Proof.
  intros Hd Hi Hst. assert (Hnr : status r <> Running) by (by destruct Hst as [-> | ->]).
  assert (Hdom : forall db', dom (jobs db') = dom (jobs (sy_db s)) -> exists r', jobs db' !! i = Some r').
  { intros db' Heq. apply elem_of_dom_2 in Hi. rewrite <- Heq in Hi. by apply elem_of_dom. }
  destruct Hd as [c op rt db cl us|q n lease max hr rt db db' cl us rows seen _ _ Hc _
    |j v rt db cl us _ _|q n rt db cl us|st age rt db cl us Hterm]; simpl in *.
  - left. by apply session_keeps.
  - destruct (Hdom db' (claim_dom _ _ _ _ _ _ _ _ _ Hc)) as [r' Hr'].
    destruct (claim_row_cases _ _ _ _ _ _ _ _ _ _ _ Hc Hr') as [[? _]|(_ & r0 & lus & ? & _ & ->)]; [left; congruence|].
    simplify_eq. right. eexists rt, _. by split_and!.
  - left. destruct (Hdom _ (verdict_dom j v rt db)) as [r' Hr']. rewrite Hr'.
    destruct (mark_row_cases _ _ _ _ _ _ Hr') as [?|(_ & r0 & (? & ? & _) & _)]; congruence.
  - left. destruct (Hdom _ (reap_dom q n rt db)) as [r' Hr']. rewrite Hr'.
    destruct (reap_releases _ _ _ _ _ _ Hr') as [?|(r0 & ? & (_ & ? & _) & _)]; simpl in *; congruence.
  - left. unfold purge_stmt. destruct (let? us := _ in _) as [before|]; [|done]. simpl.
    rewrite pg_delete_lookup. case_decide as Hin; [|done].
    apply purge_targets_elem in Hin as (r0 & Hr0 & [Hv _] & _). simpl in Hv. simplify_eq.
    by destruct Hst as [Hs|Hs], Hterm as [Ht|Ht]; rewrite Hs in Ht.
Qed.

Definition line (q : list Z) (i : Z) (r : Row) (s : Sys) : gset Z := ahead q i r (jobs (sy_db s)).

(** A run of the system, with two counts: the claims of the queue by batches of at least [n]
    that see the table as it is and find the row [i] unlocked, from the time [now] on; and the
    rows that any other statement of any session puts ahead of [(i, r)]. *)
Inductive line_run (q : list Z) (n i : Z) (r : Row) (now : Z) : nat -> nat -> Sys -> Sys -> Prop :=
| lr_nil s : line_run q n i r now 0 0 s s
| lr_claim m lease max rt rows s1 s2 s3 claims entered :
    sys_do budget (AClaim rt) s1 s2 -> n <= m <= i32_max ->
    claim_stmt q m lease max ∅ rt (sy_db s1) = (Ok rows, sy_db s2) ->
    i ∉ rt_locked rt -> rt_snap rt (jobs (sy_db s1)) = jobs (sy_db s1) -> now <= rt_now rt ->
    line_run q n i r now claims entered s2 s3 ->
    line_run q n i r now (S claims) entered s1 s3
| lr_other a s1 s2 s3 claims entered :
    sys_do budget a s1 s2 -> line_run q n i r now claims entered s2 s3 ->
    line_run q n i r now claims (size (line q i r s2 ∖ line q i r s1) + entered) s1 s3.

Lemma line_run_steps q n i r now c e s s' :
  line_run q n i r now c e s s' -> rtc (sys_step budget) s s'.
Proof. induction 1; [done|..]; (eapply rtc_l; [by eexists|done]). Qed.

Lemma line_grows q i r s1 s2 :
  (size (line q i r s2) <= size (line q i r s1) + size (line q i r s2 ∖ line q i r s1))%nat.
Proof.
  rewrite <- size_union by set_solver. apply subseteq_size. intros k Hk.
  destruct (decide (k ∈ line q i r s1)); set_solver.
Qed.

(** C16: No due job starves: in any interleaving of the statements of all sessions, a due job
    that has [k] jobs before it in the order of [run_at, id], and before which [e] more are put
    meanwhile (by pushes, retries or sweeps), is claimed at the latest when the claims of the
    queue (those without key limits that see the current table and do not find the job locked)
    have room for the others, [k + e < n * claims]; until then its row is not touched. *)
Theorem no_starvation q n i r now claims entered s s' :
  1 <= n -> line_run q n i r now claims entered s s' ->
  jobs (sy_db s) !! i = Some r -> runnable q now (i, r) ->
  Z.of_nat (size (line q i r s) + entered) < n * Z.of_nat claims ->
  exists s1 s2 rt r', rtc (sys_step budget) s s1 /\ sys_do budget (AClaim rt) s1 s2 /\
    rtc (sys_step budget) s2 s' /\ jobs (sy_db s1) !! i = Some r /\ jobs (sy_db s2) !! i = Some r' /\
    same_job r r' /\ status r' = Running /\ attempts r' = attempts r + 1.
Proof.
  intros Hn Hrun Hi Hdue Hk.
  induction Hrun as [s|m lease max rt rows s1 s2 s3 c e Hd Hm Hc Hl Hsn Hnow Hrun IH|a s1 s2 s3 c e Hd Hrun IH].
  { simpl in Hk. lia. }
  all: pose proof (line_run_steps _ _ _ _ _ _ _ _ _ Hrun) as Hsteps.
  all: destruct (waiting_kept _ _ _ _ _ Hd Hi (proj1 (proj2 Hdue))) as [Hi2|(rt' & r' & Ha & Hi2 & ? & ? & ?)].
  2,4: rewrite Ha in Hd; exists s1, s2, rt', r'; by split_and!.
  - assert (Hdue' : runnable q (rt_now rt) (i, r)) by (destruct Hdue as (? & ? & ?); repeat split; [done..|simpl in *; lia]).
    destruct (claim_advances q m lease max rt _ rows _ i r ltac:(lia) Hc Hl Hsn Hi Hdue') as [Hin|[_ Hless]].
    { apply list_elem_of_fmap in Hin as ([i' r'] & -> & Hin). simpl in *.
      destruct (claimed_token _ _ _ _ _ _ _ _ _ _ _ Hc Hin) as (Ht & Hr' & _).
      apply claim_stmt_inv in Hc as (us & _ & _ & Hc).
      destruct (cr_rows _ _ _ _ _ _ _ _ _ Hc _ _ Hin) as (r0 & _ & _ & _ & -> & _).
      destruct Hdue as (_ & [Hs|Hs] & _); simpl in Hs; rewrite Hi2 in Hr'; injection Hr' as ->; done. }
    destruct IH as (s4 & s5 & rt' & r' & ? & ?); [done| |].
    { unfold line in *. nia. }
    exists s4, s5, rt', r'. split; [eapply rtc_l; [by eexists|done]|done].
  - destruct IH as (s4 & s5 & rt' & r' & ? & ?); [done| |].
    { pose proof (line_grows q i r s1 s2). lia. }
    exists s4, s5, rt', r'. split; [eapply rtc_l; [by eexists|done]|done].
Qed.

(** ** Who can enter the line *)




End progress.
