(* ===== verification/Fleet.v ===== *)
(** Several running workers of [src/worker.rs] on one table: their poll loops and handler tasks,
    with producers, reapers and retention sweeps, interleaved; workers join and crash.

    One step makes at most one round trip: a phase of a poll loop, a handler task from the
    start of its handler to its mark, or a statement of anybody else.  A statement whose client is
    gone (crashed, aborted, timed out) may still run later: [fl_gone] remembers on whose
    behalf. *)
From S2P Require Import Prelude F64 Duration Errors Backoff Schema Lifecycle Transition Exec Select Session Mark Job Claim Reaper Purge Pusher KeySlot Builder Worker Poll Phases System History.

Section fleet.
Context `{!PgEngine, !SqlxInterval, env : BackoffEnv} {T : Type} `{!Codec T} (budget : Z).

(** A worker process: its configuration, where its poll loop is, its shared state. *)
Record Node : Type := mkNode {
  nd_cfg : WorkerCfg;
  nd_handler : JobHandler T;
  nd_phase : LoopPhase T;
  nd_state : PollState T;
}.

(** [fl_used]: the lease tokens the server may have drawn so far; [fl_gone]: claimed rows that were
    dropped before they became tasks; [fl_calls]: the jobs of tasks that have ended, by
    themselves, by an abort or with their process, whose handler may have been called.  Of both a
    mark may still be under way. *)
Record Fleet : Type := mkFleet {
  fl_db : Db;
  fl_nodes : list Node;
  fl_used : gset Uuid;
  fl_gone : list JobRef;
  fl_calls : list (Job T);
}.

Definition set_state (st : PollState T) (n : Node) : Node :=
  mkNode (nd_cfg n) (nd_handler n) (nd_phase n) st.

Definition set_loop (r : LoopPhase T * PollState T) (n : Node) : Node :=
  mkNode (nd_cfg n) (nd_handler n) r.1 r.2.

(** What [build] and [start] guarantee of a configuration. *)
Definition node_cfg_ok (c : WorkerCfg) : Prop := cfg_ok c /\ 0 < cf_max_attempts c <= budget.

(** The jobs that some handler task is working on. *)
Definition node_jobs (n : Node) : list (Job T) := task_job <$> ps_tasks (nd_state n).

(** The claims a loop holds in its variables, and all those of a worker. *)
Definition phase_refs (ph : LoopPhase T) : list JobRef :=
  match ph with
  | PhDecode _ _ raws out => (job_ref <$> out) ++ (raw_ref <$> raws)
  | _ => []
  end.
Definition node_refs (n : Node) : list JobRef := (job_ref <$> node_jobs n) ++ phase_refs (nd_phase n).

Inductive fleet_step : Fleet -> Fleet -> Prop :=
| fl_start db ns us gone calls c handler cancelled :
    node_cfg_ok c ->
    fleet_step (mkFleet db ns us gone calls)
      (mkFleet db (mkNode c handler (PhTop poll_start) (start_state c cancelled) :: ns) us gone calls)
| fl_crash db us gone calls k n ns :
    ns !! k = Some n ->
    fleet_step (mkFleet db ns us gone calls) (mkFleet db (delete k ns) us (phase_refs (nd_phase n) ++ gone) (node_jobs n ++ calls))
| fl_permits db us gone calls ns k n l :
    ns !! k = Some n -> nd_phase n = PhTop l ->
    fleet_step (mkFleet db ns us gone calls)
      (mkFleet db (<[k := set_loop (take_permits (nd_cfg n) l (nd_state n)) n]> ns) us gone calls)
| fl_claim db us gone calls ns k n l want hr script log r w' :
    ns !! k = Some n -> nd_phase n = PhClaim l want hr ->
    alone script -> snaps_ok script -> Forall (fun rt => fresh_tokens rt us) script ->
    claim_phase (nd_cfg n) l want hr (nd_state n) (mkWorld db script log) = (r, w') ->
    fleet_step (mkFleet db ns us gone calls)
      (mkFleet (w_db w') (<[k := set_loop r n]> ns) (us ∪ drawn script db) gone calls)
| fl_decode db us gone calls ns k n l want raws out script log r w' :
    ns !! k = Some n -> nd_phase n = PhDecode l want raws out -> alone script ->
    decode_phase (nd_cfg n) l want raws out (nd_state n) (mkWorld db script log) = (r, w') ->
    fleet_step (mkFleet db ns us gone calls) (mkFleet (w_db w') (<[k := set_loop r n]> ns) us gone calls)
| fl_leave db us gone calls ns k n :
    ns !! k = Some n ->
    fleet_step (mkFleet db ns us gone calls)
      (mkFleet db (<[k := set_loop (PhEnd, leave_loop (nd_phase n) (nd_state n)) n]> ns) us
         (phase_refs (nd_phase n) ++ gone) calls)
| fl_task db us gone calls ns k n i t stats script log :
    ns !! k = Some n -> ps_tasks (nd_state n) !! i = Some t -> alone script ->
    fleet_step (mkFleet db ns us gone calls)
      (mkFleet (w_db (handle_job (nd_cfg n) (nd_handler n) (task_job t) stats (mkWorld db script log)).2)
         (<[k := set_state (end_task i (nd_state n)) n]> ns) us gone (task_job t :: calls))
| fl_abort db us gone calls ns k n i t :
    ns !! k = Some n -> ps_tasks (nd_state n) !! i = Some t ->
    fleet_step (mkFleet db ns us gone calls)
      (mkFleet db (<[k := set_state (end_task i (nd_state n)) n]> ns) us gone (task_job t :: calls))
| fl_late_mark db us gone calls ns j v rt :
    j ∈ gone ++ (job_ref <$> calls) -> within_budget j v ->
    fleet_step (mkFleet db ns us gone calls) (mkFleet (verdict_stmt j v rt db).2 ns us gone calls)
| fl_late_claim db us gone calls ns c want hr rt :
    node_cfg_ok c -> fresh_tokens rt us ->
    fleet_step (mkFleet db ns us gone calls)
      (mkFleet (claim_stmt (cf_queue c) want (cf_lease_timeout c) (cf_max_attempts c) hr rt db).2 ns
         (us ∪ drawn [rt] db) gone calls)
| fl_session db us gone calls ns c op rt :
    fleet_step (mkFleet db ns us gone calls) (mkFleet (session_op c op rt db) ns us gone calls)
| fl_reap db us gone calls ns q n rt :
    fleet_step (mkFleet db ns us gone calls) (mkFleet (reap_stmt q n rt db).2 ns us gone calls)
| fl_purge db us gone calls ns s age rt :
    terminal s -> fleet_step (mkFleet db ns us gone calls) (mkFleet (purge_stmt s age rt db).2 ns us gone calls).

Definition fleet_start : Fleet := mkFleet empty_db [] ∅ [] [].

(** * The claims of one worker *)

Implicit Types (st : PollState T) (ns : list Node) (ph : LoopPhase T).

Lemma end_task_jobs i st t :
  ps_tasks st !! i = Some t ->
  (task_job <$> ps_tasks st) ≡ₚ task_job t :: (task_job <$> ps_tasks (end_task i st)).
Proof. intros Hi. unfold end_task. rewrite Hi. simpl. by rewrite (delete_Permutation _ _ _ Hi) at 1. Qed.

Lemma spawn_jobs limits rows permits st :
  (task_job <$> ps_tasks (spawn limits rows permits st)) `sublist_of` (task_job <$> ps_tasks st) ++ rows.
Proof.
  revert permits st. induction rows as [|row rows IH]; intros permits st; simpl; [by rewrite app_nil_r|].
  case_decide; [apply sublist_inserts_r; done|].
  destruct (row_slot limits _ _) as [slot running]. etrans; [apply IH|]. simpl.
  by rewrite fmap_app, <- (assoc_L (++)).
Qed.

Lemma take_permits_refs l n : nd_phase n = PhTop l -> node_refs (set_loop (take_permits (nd_cfg n) l (nd_state n)) n) = node_refs n.
Proof.
  intros Hph. unfold node_refs. rewrite Hph. unfold take_permits. destruct (sem_closed _); [done|].
  case_decide; [done|]. by destruct (acquire_permits _ _).
Qed.

(** The claim phase adds the rows of the answer, if there is one. *)
Lemma claim_phase_refs l want hr n w r w' :
  nd_phase n = PhClaim l want hr -> claim_phase (nd_cfg n) l want hr (nd_state n) w = (r, w') ->
  exists res, claim_batch_raw (cf_queue (nd_cfg n)) (Z.min want u32_max) (cf_lease_timeout (nd_cfg n))
      (cf_max_attempts (nd_cfg n)) hr w = (res, w') /\
    node_refs (set_loop r n) = node_refs n ++ match res with Ok raws => raw_ref <$> raws | Err _ => [] end.
Proof.
  intros Hph. unfold claim_phase, mcompose. destruct (claim_batch_raw _ _ _ _ _ w) as [res w1].
  unfold mreturn. intros [= <- <-]. exists res. split; [done|]. unfold node_refs. rewrite Hph. simpl.
  destruct res as [raws|e]; simpl; [by rewrite app_nil_r|]. unfold claim_failed.
  destruct (is_fatal_sqlx e); [|case_decide]; simpl; by rewrite !app_nil_r.
Qed.

(** A decoded row stays a claim of the worker; a dead-lettered one does not. *)
Lemma decode_phase_refs l want raws out n w r w' :
  nd_phase n = PhDecode l want raws out ->
  decode_phase (nd_cfg n) l want raws out (nd_state n) w = (r, w') ->
  node_refs (set_loop r n) `sublist_of` node_refs n.
Proof.
  intros Hph. unfold node_refs at 2. rewrite Hph. destruct raws as [|raw raws]; unfold decode_phase.
  - unfold mreturn. intros [= <- _]. unfold node_refs, node_jobs. simpl. rewrite !app_nil_r.
    rewrite <- fmap_app. apply fmap_sublist, spawn_jobs.
  - unfold mcompose. pose proof (decode_row_result raw w) as Hd. destruct (decode_row raw w) as [job w1].
    simpl in Hd. unfold mreturn. intros [= <- _]. unfold node_refs. simpl. rewrite Hd.
    apply sublist_app; [done|]. rewrite fmap_app, <- (assoc_L (++)). apply sublist_app; [done|].
    destruct (decoded raw) as [j|] eqn:Hj; simpl; [rewrite (decoded_ref raw j Hj)|]; by constructor.
Qed.

(** It writes under the leases of its rows. *)
Lemma decode_phase_db c l want raws out st w cl us :
  alone (w_script w) -> (forall raw, raw ∈ raws -> raw_ref raw ∈ cl) ->
  sys_db budget cl us (w_db w) (w_db (decode_phase c l want raws out st w).2).
Proof.
  intros Hal Hin. apply (guarantee_alone (sys_db budget cl us)); [|done]. destruct raws as [|raw raws]; unfold decode_phase; [solve_guarantee|].
  apply guarantee_bind; [apply _|apply refine_decode_row; set_solver|intros job; solve_guarantee].
Qed.

(** * The invariant of the fleet *)

Definition node_ok (n : Node) : Prop := node_cfg_ok (nd_cfg n) /\ phase_inv (nd_cfg n) (nd_phase n) (nd_state n).

(** Every claim that reached a worker: of a row or task in its hands, or of one that is gone. *)
Definition fleet_refs (f : Fleet) : list JobRef :=
  (fl_nodes f ≫= node_refs) ++ fl_gone f ++ (job_ref <$> fl_calls f).

(** The fleet is a state of the system in which every task and every row that is or was in the
    hands of a worker is a claim of its own. *)
Record fleet_ok (f : Fleet) (s : Sys) : Prop := mkFleetOk {
  fo_reach : rtc (sys_step budget) sys_start s;
  fo_db : sy_db s = fl_db f;
  fo_used : sy_used s ⊆ fl_used f;
  fo_refs : fleet_refs f ⊆+ sy_claims s;
  fo_nodes : Forall node_ok (fl_nodes f);
}.

Lemma fo_claim f s j : fleet_ok f s -> j ∈ fleet_refs f -> j ∈ sy_claims s.
Proof. intros Hok Hj. by eapply elem_of_submseteq, fo_refs. Qed.

Lemma fo_node f s k n : fleet_ok f s -> fl_nodes f !! k = Some n -> node_ok n.
Proof. intros Hok Hk. by apply (proj1 (Forall_lookup _ _) (fo_nodes _ _ Hok) k n Hk). Qed.

(** A change of the table, the workers and the claims [new] that come with it. *)
Lemma fleet_change f s s' new f' :
  fleet_ok f s -> rtc (sys_step budget) s s' -> sy_claims s' = new ++ sy_claims s ->
  sy_db s' = fl_db f' -> sy_used s' ⊆ fl_used f' -> fleet_refs f' ⊆+ fleet_refs f ++ new ->
  Forall node_ok (fl_nodes f') -> fleet_ok f' s'.
Proof.
  intros [Hreach Hdb Hused Hrefs _] Hs Hcl Hdb' Hus Hsub Hns. split; try done; [by etrans|].
  rewrite Hcl, Permutation_app_comm. etrans; [exact Hsub|]. by apply submseteq_app.
Qed.

(** Statements that make no claim. *)
Lemma fleet_effect f s f' :
  fleet_ok f s -> sys_db budget (sy_claims s) (sy_used s) (fl_db f) (fl_db f') -> fl_used f' = fl_used f ->
  fleet_refs f' ⊆+ fleet_refs f -> Forall node_ok (fl_nodes f') ->
  exists s', fleet_ok f' s'.
Proof.
  intros Hok Hs Hus Hsub Hns. exists (mkSys (fl_db f') (sy_claims s) (sy_used s)).
  apply (fleet_change f s _ []); try done.
  - unfold sys_db in Hs. rewrite <- (fo_db _ _ Hok) in Hs. by destruct s.
  - rewrite Hus. apply Hok.
  - by rewrite app_nil_r.
Qed.

(** The claims of worker [k] and those of the others. *)
Lemma refs_split ns k n :
  ns !! k = Some n -> exists rest, (ns ≫= node_refs) ≡ₚ node_refs n ++ rest /\
    (delete k ns ≫= node_refs) = rest /\ forall n', (<[k := n']> ns ≫= node_refs) ≡ₚ node_refs n' ++ rest.
Proof.
  intros Hk. exists ((take k ns ≫= node_refs) ++ (drop (S k) ns ≫= node_refs)). split_and!.
  - rewrite <- (take_drop_middle ns k n Hk) at 1. rewrite bind_app, bind_cons. solve_Permutation.
  - by rewrite delete_take_drop, bind_app.
  - intros n'. rewrite insert_take_drop by (by eapply lookup_lt_Some). rewrite bind_app, bind_cons. solve_Permutation.
Qed.

Lemma refs_elem f k n j : fl_nodes f !! k = Some n -> j ∈ node_refs n -> j ∈ fleet_refs f.
Proof.
  intros Hk Hj. apply elem_of_app. left. apply list_elem_of_bind. exists n.
  split; [done|by eapply list_elem_of_lookup_2].
Qed.

Lemma task_ref n i t : ps_tasks (nd_state n) !! i = Some t -> job_ref (task_job t) ∈ node_refs n.
Proof.
  intros Hi. apply elem_of_app. left. apply list_elem_of_fmap_2, list_elem_of_fmap_2. by eapply list_elem_of_lookup_2.
Qed.

Lemma live_claim f s k n j : fleet_ok f s -> fl_nodes f !! k = Some n -> j ∈ node_refs n -> j ∈ sy_claims s.
Proof. intros Hok Hk Hj. by eapply fo_claim, refs_elem. Qed.

(** Worker [k] changes; the claims [gone] and the jobs [calls] leave it. *)
Lemma refs_insert f k n n' gone calls new db' us' :
  fl_nodes f !! k = Some n -> node_refs n' ++ gone ++ (job_ref <$> calls) ⊆+ node_refs n ++ new ->
  fleet_refs (mkFleet db' (<[k := n']> (fl_nodes f)) us' (gone ++ fl_gone f) (calls ++ fl_calls f)) ⊆+ fleet_refs f ++ new.
Proof.
  intros Hk Hsub. destruct (refs_split _ _ _ Hk) as (rest & Hrest & _ & Hins). unfold fleet_refs. simpl.
  rewrite Hrest, (Hins n'), fmap_app. set (old := fl_gone f ++ (job_ref <$> fl_calls f)).
  trans ((node_refs n' ++ gone ++ (job_ref <$> calls)) ++ rest ++ old).
  - apply Permutation_submseteq. unfold old. solve_Permutation.
  - etrans; [by apply submseteq_app|]. apply Permutation_submseteq. solve_Permutation.
Qed.

(** A step of worker [k] that makes no claim. *)
Lemma fleet_node_effect f s k n n' db' gone calls :
  fleet_ok f s -> fl_nodes f !! k = Some n ->
  sys_db budget (sy_claims s) (sy_used s) (fl_db f) db' ->
  node_refs n' ++ gone ++ (job_ref <$> calls) ⊆+ node_refs n -> node_ok n' ->
  exists s', fleet_ok (mkFleet db' (<[k := n']> (fl_nodes f)) (fl_used f) (gone ++ fl_gone f) (calls ++ fl_calls f)) s'.
Proof.
  intros Hok Hk Hs Hsub Hn'. apply (fleet_effect f s); [done|done|done|..].
  - rewrite <- (app_nil_r (fleet_refs f)). eapply refs_insert; [done|]. by rewrite app_nil_r.
  - apply Forall_insert; [apply Hok|done].
Qed.

Lemma fleet_claim f s k n l want hr script log r w' :
  fleet_ok f s -> fl_nodes f !! k = Some n -> nd_phase n = PhClaim l want hr ->
  alone script -> snaps_ok script -> Forall (fun rt => fresh_tokens rt (fl_used f)) script ->
  claim_phase (nd_cfg n) l want hr (nd_state n) (mkWorld (fl_db f) script log) = (r, w') ->
  exists s', fleet_ok (mkFleet (w_db w') (<[k := set_loop r n]> (fl_nodes f))
                         (fl_used f ∪ drawn script (fl_db f)) (fl_gone f) (fl_calls f)) s'.
Proof.
  intros Hok Hk Hph Hal Hsn Hfr Hc. destruct (fo_node _ _ _ _ Hok Hk) as [[Hcfg Hmax] Hinv].
  rewrite Hph in Hinv. pose proof (claim_phase_inv _ _ _ _ _ (mkWorld (fl_db f) script log) _ _ Hcfg Hsn Hinv Hc) as Hinv'.
  destruct (claim_phase_refs _ _ _ _ _ _ _ Hph Hc) as (res & Hraw & Hrefs).
  assert (Hfr' : Forall (fun rt => fresh_tokens rt (sy_used s)) script).
  { eapply Forall_impl; [exact Hfr|]. intros rt [H1 H2]. split; [|done]. intros i. specialize (H1 i).
    pose proof (fo_used _ _ Hok). set_solver. }
  destruct (claim_raw_refines budget _ _ _ _ _ (mkWorld (fl_db f) script log) s _ _ (eq_sym (fo_db _ _ Hok)) Hal
    Hfr' Hmax Hraw) as (new & us & Hs & Hus & _ & Hr).
  exists (mkSys (w_db w') (new ++ sy_claims s) (sy_used s ∪ us)).
  apply (fleet_change f s _ new); try done.
  - simpl in *. pose proof (fo_used _ _ Hok). set_solver.
  - apply (refs_insert f k n _ [] [] new); [done|]. rewrite Hrefs. simpl. rewrite app_nil_r. apply submseteq_app; [done|].
    destruct res; [by rewrite Hr|apply submseteq_nil_l].
  - by apply Forall_insert; [apply Hok|].
Qed.

(** A claim whose client is gone is held by nobody. *)
Lemma fleet_late_claim f s c want hr rt :
  fleet_ok f s -> node_cfg_ok c -> fresh_tokens rt (fl_used f) ->
  exists s', fleet_ok (mkFleet (claim_stmt (cf_queue c) want (cf_lease_timeout c) (cf_max_attempts c) hr rt (fl_db f)).2
                         (fl_nodes f) (fl_used f ∪ drawn [rt] (fl_db f)) (fl_gone f) (fl_calls f)) s'.
Proof.
  intros Hok [_ Hmax] [Hfr Hinj]. pose proof (fo_used _ _ Hok) as Hused.
  destruct (claim_stmt _ _ _ _ _ _ _) as [[rows|e] db'] eqn:Hst.
  - exists (mkSys db' (sy_claims s) (sy_used s ∪ row_tokens rows)).
    pose proof (row_tokens_drawn _ _ _ _ _ _ [rt] _ _ _ (list_elem_of_here rt []) Hst).
    apply (fleet_change f s _ []); simpl; try done.
    + rewrite <- (fo_db _ _ Hok) in Hst. destruct s as [db cl us]. simpl in *.
      eapply rtc_once, (ss_claim budget _ _ _ _ _ rt db db' cl us rows []); [done| |done|apply sublist_nil_l].
      split; [|done]. intros i. specialize (Hfr i). set_solver.
    + set_solver.
    + by rewrite app_nil_r.
    + apply Hok.
  - apply claim_stmt_err in Hst as ->. exists s. destruct Hok. split; simpl; try done. set_solver.
Qed.

Lemma fleet_permits f s k n l :
  fleet_ok f s -> fl_nodes f !! k = Some n -> nd_phase n = PhTop l ->
  exists s', fleet_ok (mkFleet (fl_db f) (<[k := set_loop (take_permits (nd_cfg n) l (nd_state n)) n]> (fl_nodes f))
                         (fl_used f) (fl_gone f) (fl_calls f)) s'.
Proof.
  intros Hok Hk Hph. destruct (fo_node _ _ _ _ Hok Hk) as [Hcfg Hinv]. rewrite Hph in Hinv.
  apply (fleet_node_effect f s k n _ _ [] [] Hok Hk); [done|by rewrite take_permits_refs, app_nil_r|].
  split; [done|]. apply take_permits_inv; [apply Hcfg|apply Hinv].
Qed.

Lemma fleet_decode f s k n l want raws out script log r w' :
  fleet_ok f s -> fl_nodes f !! k = Some n -> nd_phase n = PhDecode l want raws out -> alone script ->
  decode_phase (nd_cfg n) l want raws out (nd_state n) (mkWorld (fl_db f) script log) = (r, w') ->
  exists s', fleet_ok (mkFleet (w_db w') (<[k := set_loop r n]> (fl_nodes f)) (fl_used f) (fl_gone f) (fl_calls f)) s'.
Proof.
  intros Hok Hk Hph Hal Hd. destruct (fo_node _ _ _ _ Hok Hk) as [Hcfg Hinv]. rewrite Hph in Hinv.
  apply (fleet_node_effect f s k n _ _ [] [] Hok Hk).
  - pose proof (decode_phase_db (nd_cfg n) l want raws out (nd_state n) (mkWorld (fl_db f) script log)
      (sy_claims s) (sy_used s) Hal) as Hdb.
    rewrite Hd in Hdb. apply Hdb. intros raw Hraw. eapply live_claim; [done|done|].
    unfold node_refs. rewrite Hph. simpl. rewrite !elem_of_app. do 2 right. by apply list_elem_of_fmap_2.
  - rewrite app_nil_r. by eapply sublist_submseteq, decode_phase_refs.
  - split; [done|]. eapply (decode_phase_inv _ _ _ _ _ _ (mkWorld (fl_db f) script log)); [apply Hcfg|done|done].
Qed.

Lemma fleet_leave f s k n :
  fleet_ok f s -> fl_nodes f !! k = Some n ->
  exists s', fleet_ok (mkFleet (fl_db f) (<[k := set_loop (PhEnd, leave_loop (nd_phase n) (nd_state n)) n]> (fl_nodes f))
                         (fl_used f) (phase_refs (nd_phase n) ++ fl_gone f) (fl_calls f)) s'.
Proof.
  intros Hok Hk. destruct (fo_node _ _ _ _ Hok Hk) as [Hcfg Hinv].
  apply (fleet_node_effect f s k n _ _ (phase_refs (nd_phase n)) [] Hok Hk); [done|..].
  - unfold node_refs. simpl. by rewrite !app_nil_r.
  - split; [done|]. eapply phase_inv_leave; [done|by eapply held_nonneg].
Qed.

(** The end of a task, with what it did to the table. *)
Lemma fleet_task_end f s k n i t db' :
  fleet_ok f s -> fl_nodes f !! k = Some n -> ps_tasks (nd_state n) !! i = Some t ->
  sys_db budget (sy_claims s) (sy_used s) (fl_db f) db' ->
  exists s', fleet_ok (mkFleet db' (<[k := set_state (end_task i (nd_state n)) n]> (fl_nodes f)) (fl_used f)
                         (fl_gone f) (task_job t :: fl_calls f)) s'.
Proof.
  intros Hok Hk Hi Hs. apply (fleet_node_effect f s k n _ _ [] [task_job t] Hok Hk); [done|..].
  - apply Permutation_submseteq. unfold node_refs, node_jobs. rewrite (end_task_jobs i (nd_state n) t Hi). simpl.
    solve_Permutation.
  - destruct (fo_node _ _ _ _ Hok Hk) as [? ?]. split; [done|by apply phase_inv_end].
Qed.

Lemma fleet_crash f s k n :
  fleet_ok f s -> fl_nodes f !! k = Some n ->
  exists s', fleet_ok (mkFleet (fl_db f) (delete k (fl_nodes f)) (fl_used f) (phase_refs (nd_phase n) ++ fl_gone f)
                         (node_jobs n ++ fl_calls f)) s'.
Proof.
  intros Hok Hk. apply (fleet_effect f s); [done|done|done| |apply Forall_delete, Hok].
  destruct (refs_split _ _ _ Hk) as (rest & Hrest & Hdel & _). apply Permutation_submseteq.
  unfold fleet_refs. simpl. rewrite Hdel, Hrest, fmap_app. unfold node_refs. solve_Permutation.
Qed.

Lemma fleet_step_ok f f' s : fleet_step f f' -> fleet_ok f s -> exists s', fleet_ok f' s'.
Proof.
  intros Hstep Hok. pose proof (fo_nodes _ _ Hok) as Hns.
  assert (Hrefl : sys_db budget (sy_claims s) (sy_used s) (fl_db f) (fl_db f)) by done.
  destruct Hstep as [db ns us gone calls c handler cancelled Hc|db us gone calls k n ns Hk|db us gone calls ns k n l Hk Hph
    |db us gone calls ns k n l want hr script log r w' Hk Hph Hal Hsn Hfr Hc
    |db us gone calls ns k n l want raws out script log r w' Hk Hph Hal Hd|db us gone calls ns k n Hk
    |db us gone calls ns k n i t stats script log Hk Hi Hal|db us gone calls ns k n i t Hk Hi
    |db us gone calls ns j v rt Hj Hv|db us gone calls ns c want hr rt Hc Hfr
    |db us gone calls ns c op rt|db us gone calls ns q n rt|db us gone calls ns st age rt Hst];
    cbn [fl_db fl_nodes fl_used fl_gone fl_calls] in *; set (f := mkFleet db ns us gone calls) in *.
  - exists s. destruct Hok. split; try done. constructor; [|done]. split; [done|]. split; [|done].
    by apply poll_inv_start, Hc.
  - by apply (fleet_crash f s).
  - by apply (fleet_permits f s).
  - by eapply (fleet_claim f s).
  - by eapply (fleet_decode f s).
  - by apply (fleet_leave f s).
  - apply (fleet_task_end f s); [done..|].
    apply (guarantee_alone (sys_db budget (sy_claims s) (sy_used s)) _ (mkWorld db script log)); [|done].
    eapply refine_handle_job, (live_claim f), task_ref; done.
  - by apply (fleet_task_end f s).
  - apply (fleet_effect f s); try done. apply sys_db_mark; [|done]. apply (fo_claim f s j Hok).
    apply elem_of_app. by right.
  - by apply (fleet_late_claim f s).
  - apply (fleet_effect f s); try done. apply sys_db_session.
  - apply (fleet_effect f s); try done. apply sys_db_reap.
  - apply (fleet_effect f s); try done. by apply sys_db_purge.
Qed.

Lemma fleet_reachable f : rtc fleet_step fleet_start f -> exists s, fleet_ok f s.
Proof.
  intros Hr. assert (Hstart : exists s, fleet_ok fleet_start s).
  { exists sys_start. by split. }
  revert Hstart. induction Hr as [|f1 f2 f3 Hs _ IH]; [done|].
  intros [s Hok]. apply IH. by eapply fleet_step_ok.
Qed.

(** * One owner in the whole fleet *)

Lemma bind_NoDup_pos {A B} (g : A -> list B) (l : list A) a b x x' i j y :
  NoDup (l ≫= g) -> l !! a = Some x -> g x !! i = Some y -> l !! b = Some x' -> g x' !! j = Some y ->
  a = b /\ i = j.
Proof.
  revert a b. induction l as [|z l IH]; intros a b; [done|]. rewrite bind_cons.
  intros (Hnd & Hdis & Hrest)%NoDup_app.
  assert (Hlater : forall c u, l !! c = Some u -> y ∈ g u -> y ∈ l ≫= g).
  { intros c u Hc Hu. apply list_elem_of_bind. exists u. split; [done|by eapply list_elem_of_lookup_2]. }
  destruct a as [|a], b as [|b]; intros Ha Hi Hb Hj; simplify_eq/=.
  - split; [done|]. exact (NoDup_lookup _ _ _ _ Hnd Hi Hj).
  - destruct (Hdis y); [by eapply list_elem_of_lookup_2|]. by eapply Hlater, list_elem_of_lookup_2.
  - destruct (Hdis y); [by eapply list_elem_of_lookup_2|]. by eapply Hlater, list_elem_of_lookup_2.
  - destruct (IH a b) as [-> ->]; done.
Qed.

Lemma fmap_refs {B} (h : JobRef -> B) ns : h <$> (ns ≫= node_refs) = ns ≫= (fun n => h <$> node_refs n).
Proof. induction ns as [|n ns IH]; [done|]. by rewrite !bind_cons, fmap_app, IH. Qed.

(** The lease tokens in the hands of the fleet are all different. *)
Lemma live_tokens f s :
  1 <= budget -> fleet_ok f s -> NoDup (fl_nodes f ≫= (fun n => jr_lease_token <$> node_refs n)).
Proof.
  intros Hb Hok. pose proof (so_tokens _ _ (reachable_ok budget s Hb (fo_reach _ _ Hok))) as Hnd.
  rewrite <- fmap_refs. eapply submseteq_NoDup; [|exact Hnd]. apply fmap_submseteq. etrans; [|apply (fo_refs _ _ Hok)].
  apply submseteq_inserts_r. done.
Qed.

Lemma task_token n i t :
  ps_tasks (nd_state n) !! i = Some t ->
  (jr_lease_token <$> node_refs n) !! i = Some (job_lease_token (task_job t)).
Proof.
  intros Hi. rewrite list_lookup_fmap. unfold node_refs. rewrite (lookup_app_l_Some _ _ i (job_ref (task_job t))); [done|].
  unfold node_jobs. by rewrite !list_lookup_fmap, Hi.
Qed.

(** C20: One owner in the whole fleet: however many workers poll, decode, run handlers, crash, lose answers
    and start again on one table, their statements interleaved with each other's and with those of reapers,
    producers, sweeps and of clients that are gone, two live handler
    tasks whose leases on the same row are both valid are one and the same task of the same worker. *)
Theorem fleet_exclusive f a b na nb i j t1 t2 r1 r2 :
  1 <= budget -> rtc fleet_step fleet_start f ->
  fl_nodes f !! a = Some na -> ps_tasks (nd_state na) !! i = Some t1 ->
  fl_nodes f !! b = Some nb -> ps_tasks (nd_state nb) !! j = Some t2 ->
  job_id (task_job t1) = job_id (task_job t2) ->
  holds_lease (jobs (fl_db f)) (job_id (task_job t1)) (job_lease_token (task_job t1)) r1 ->
  holds_lease (jobs (fl_db f)) (job_id (task_job t2)) (job_lease_token (task_job t2)) r2 ->
  a = b /\ i = j.
Proof.
  intros Hb Hr Ha Hi Hb' Hj Hid (H1 & _ & Ht1) (H2 & _ & Ht2).
  destruct (fleet_reachable f Hr) as [s Hok].
  assert (Htok : job_lease_token (task_job t1) = job_lease_token (task_job t2)) by congruence.
  eapply (bind_NoDup_pos _ _ a b na nb i j _ (live_tokens f s Hb Hok)); [done|by apply task_token|done|].
  rewrite Htok. by apply task_token.
Qed.

(** * How often handlers are called *)

(** The jobs whose handler was called or may have been: of live tasks and of those that have ended. *)
Definition handler_calls (f : Fleet) : list (Job T) := fl_calls f ++ (fl_nodes f ≫= node_jobs).

(** What the handlers of row [i] were shown. *)
Definition calls_of (i : Z) (f : Fleet) : list JobContext :=
  filter (fun c => ctx_id c = i) (context <$> handler_calls f).

Lemma handler_calls_refs f : (job_ref <$> handler_calls f) ⊆+ fleet_refs f.
Proof.
  unfold handler_calls, fleet_refs. rewrite fmap_app, Permutation_app_comm. apply submseteq_app.
  - induction (fl_nodes f) as [|n ns IH]; [done|]. rewrite !bind_cons, fmap_app. unfold node_refs at 1.
    rewrite <- (assoc_L (++)). apply submseteq_app; [done|]. by apply submseteq_inserts_l.
  - by apply submseteq_inserts_l.
Qed.

(** The claim behind a context. *)
Definition ctx_ref (c : JobContext) : JobRef :=
  mkJobRef (ctx_queue c) (ctx_public_id c) (ctx_id c) (ctx_lease_token c) (ctx_attempt c) (ctx_max_attempts c).

Lemma calls_refs i f s : fleet_ok f s -> (ctx_ref <$> calls_of i f) ⊆+ claims_of i s.
Proof.
  intros Hok. trans (filter (fun j => jr_id j = i) (job_ref <$> handler_calls f)).
  - apply reflexive_eq. unfold calls_of. induction (handler_calls f) as [|j js IH]; [done|].
    rewrite !fmap_cons, !filter_cons. simpl. case_decide; [|done]. rewrite fmap_cons, IH. done.
  - apply filter_submseteq. etrans; [apply handler_calls_refs|apply (fo_refs _ _ Hok)].
Qed.

(** C10: How often a job runs: over the whole history of a fleet, whatever crashed, was aborted, expired,
    was fenced out or retried, the handler calls for one row, with those still running, are at most the
    largest configured [max_attempts]; the contexts they were given carry pairwise different attempt
    numbers from 1 up to that budget, one and the same idempotency key and the same queue. *)
Theorem handler_calls_bounded f i :
  1 <= budget -> rtc fleet_step fleet_start f ->
  Z.of_nat (length (calls_of i f)) <= budget /\
  NoDup (ctx_attempt <$> calls_of i f) /\
  Forall (fun c => 1 <= ctx_attempt c <= budget) (calls_of i f) /\
  (forall c1 c2, c1 ∈ calls_of i f -> c2 ∈ calls_of i f ->
     ctx_idempotency_key c1 = ctx_idempotency_key c2 /\ ctx_queue c1 = ctx_queue c2).
Proof.
  intros Hb Hr. destruct (fleet_reachable f Hr) as [s Hok]. pose proof (calls_refs i f s Hok) as Hrefs.
  destruct (executions_bounded budget s i Hb (fo_reach _ _ Hok)) as (Hlen & Hnd & Hrange & Hsame).
  assert (Hin : forall c, c ∈ calls_of i f -> ctx_ref c ∈ claims_of i s)
    by (intros c Hc; by eapply elem_of_submseteq, Hrefs; apply list_elem_of_fmap_2).
  split_and!.
  - pose proof (submseteq_length _ _ Hrefs) as Hl. rewrite length_fmap in Hl. lia.
  - change ctx_attempt with (jr_attempts ∘ ctx_ref). rewrite list_fmap_compose.
    by eapply submseteq_NoDup, Hnd; apply fmap_submseteq.
  - apply Forall_forall. intros c Hc%Hin. by apply (proj1 (Forall_forall _ _) Hrange _ Hc).
  - intros c1 c2 Hc1 Hc2. destruct (Hsame _ _ (Hin _ Hc1) (Hin _ Hc2)) as [Hp Hq].
    assert (Hkey : forall c, c ∈ calls_of i f -> ctx_idempotency_key c = ctx_public_id c)
      by (intros c [_ (j & -> & _)%list_elem_of_fmap]%list_elem_of_filter; done).
    by rewrite !Hkey by done.
Qed.

(** * Limits *)

(** The tasks of a worker with the key [k], and its claimed rows that are still to become tasks. *)
Definition phase_keyed (k : list Z) ph : Z :=
  match ph with PhDecode _ _ raws out => raw_keyed k raws + keyed k out | _ => 0 end.
Definition node_keyed (k : list Z) (n : Node) : Z := keyed k (node_jobs n) + phase_keyed k (nd_phase n).

Definition total (g : Node -> Z) ns : Z := foldr (fun n x => g n + x) 0 ns.

Lemma total_mono g g' ns : Forall (fun n => g n <= g' n) ns -> total g ns <= total g' ns.
Proof. induction 1; simpl; lia. Qed.

Lemma node_keyed_limit k limit n :
  node_ok n -> cf_concurrency_limits (nd_cfg n) !! k = Some limit -> node_keyed k n <= limit.
Proof.
  intros [_ [Hinv Hph]] Hk. unfold node_keyed, node_jobs. rewrite (keyed_slots _ k limit _ _ Hinv Hk).
  pose proof (pi_limits _ _ _ Hinv k limit Hk) as Hl.
  destruct (nd_phase n) as [| |l want raws out|]; simpl; try lia.
  destruct Hph as [_ Hroom]. specialize (Hroom k limit Hk). lia.
Qed.

Lemma node_refs_bound n : node_ok n -> Z.of_nat (length (node_refs n)) <= cf_concurrency (nd_cfg n).
Proof.
  intros [_ Hph]. pose proof (held_nonneg _ _ _ Hph). destruct Hph as [[Hf Hp _ _ _] Hph].
  unfold node_refs, node_jobs. rewrite length_app, !length_fmap.
  destruct (nd_phase n) as [| |l want raws out|]; simpl in *; rewrite ?length_app, ?length_fmap; lia.
Qed.

(** C21: Limits add up: when every worker of the fleet limits the key [k], the live tasks of that key
    in the whole fleet, with the claimed rows that are about to become tasks, are at most the sum of these
    limits; and all claims in the hands of the fleet, tasks or rows, are at most the sum of the concurrencies. *)
Theorem fleet_capacity f :
  rtc fleet_step fleet_start f ->
  (forall k limit, Forall (fun n => cf_concurrency_limits (nd_cfg n) !! k = Some (limit n)) (fl_nodes f) ->
     total (node_keyed k) (fl_nodes f) <= total limit (fl_nodes f)) /\
  Z.of_nat (length (fl_nodes f ≫= node_refs)) <= total (fun n => cf_concurrency (nd_cfg n)) (fl_nodes f).
Proof.
  intros Hr. destruct (fleet_reachable f Hr) as [s Hok]. pose proof (fo_nodes _ _ Hok) as Hns. split.
  - intros k limit Hk. apply total_mono. eapply Forall_impl; [exact (proj2 (Forall_and _ _) (conj Hns Hk))|].
    intros n [Hn Hl]. by apply node_keyed_limit.
  - induction Hns as [|n ns Hn _ IH]; [done|]. rewrite bind_cons, length_app. simpl.
    pose proof (node_refs_bound n Hn). lia.
Qed.

(** * Whole iterations *)

(** When nobody else takes a step in between, the steps of a worker make up [poll_iter]. *)

Lemma alone_claim_phase c l want hr st w r w' :
  alone (w_script w) -> claim_phase c l want hr st w = (r, w') -> alone (w_script w').
Proof.
  intros Hal. unfold claim_phase, claim_batch_raw, mcompose. destruct (sql _ w) as [r0 w1] eqn:Hs.
  apply sql_alone in Hs as [Hal1 _]; [|done]. unfold mreturn. by intros [= _ <-].
Qed.

Lemma alone_decode_phase c l want raws out st w r w' :
  alone (w_script w) -> decode_phase c l want raws out st w = (r, w') -> alone (w_script w').
Proof.
  intros Hal. destruct raws as [|raw raws]; unfold decode_phase; [by intros [= _ <-]|].
  unfold mcompose, decode_row, mark_dead. destruct (decode _); [by intros [= _ <-]|..]; unfold mcompose;
    destruct (sql _ w) as [r0 w1] eqn:Hs; apply sql_alone in Hs as [Hal1 _]; [|done| |done];
    unfold mreturn; by intros [= _ <-].
Qed.

(** Only the first phase draws tokens. *)
Definition tokens_for ph (us : gset Uuid) (script : list RoundTrip) : Prop :=
  match ph with
  | PhClaim _ _ _ => snaps_ok script /\ Forall (fun rt => fresh_tokens rt us) script
  | _ => True
  end.

Lemma claim_phase_next c l want hr st w r w' us :
  claim_phase c l want hr st w = (r, w') -> tokens_for r.1 us (w_script w').
Proof.
  unfold claim_phase, mcompose. destruct (claim_batch_raw _ _ _ _ _ w) as [[raws|e] w1]; unfold mreturn;
    intros [= <- _]; [done|]. by destruct (claim_failed _ _ _) as [[l'|] st'].
Qed.

Lemma decode_phase_next c l want raws out st w r w' us :
  decode_phase c l want raws out st w = (r, w') -> tokens_for r.1 us (w_script w').
Proof.
  destruct raws as [|raw raws]; unfold decode_phase; [by intros [= <- _]|].
  unfold mcompose. destruct (decode_row raw w). by intros [= <- _].
Qed.

Lemma fleet_in_flight c h ns k n gone calls x y us :
  ns !! k = Some n -> rtc (in_flight c) x y -> alone (w_script x.2) -> tokens_for x.1.1 us (w_script x.2) ->
  exists us', rtc fleet_step (mkFleet (w_db x.2) (<[k := mkNode c h x.1.1 x.1.2]> ns) us gone calls)
    (mkFleet (w_db y.2) (<[k := mkNode c h y.1.1 y.1.2]> ns) us' gone calls).
Proof.
  intros Hk Hr. revert us. assert (Hat : forall m : Node, <[k := m]> ns !! k = Some m)
    by (intros m; apply list_lookup_insert_eq; by eapply lookup_lt_Some).
  induction Hr as [x|x y z Hs _ IH]; intros us Hal Htok; [by exists us|].
  destruct Hs as [l want hr st w r w' Hc|l want raws out st w r w' Hd]; simpl in *.
  - destruct (IH (us ∪ drawn (w_script w) (w_db w))) as [us' Hus];
      [by eapply alone_claim_phase|by eapply claim_phase_next|].
    exists us'. eapply rtc_l; [|exact Hus]. destruct w as [db script log], Htok as [Hsn Hfr].
    pose proof (fl_claim db us gone calls _ k (mkNode c h (PhClaim l want hr) st) l want hr script log r w' (Hat _) eq_refl Hal Hsn Hfr Hc) as Hstep.
    by rewrite list_insert_insert_eq in Hstep.
  - destruct (IH us) as [us' Hus]; [by eapply alone_decode_phase|by eapply decode_phase_next|].
    exists us'. eapply rtc_l; [|exact Hus]. destruct w as [db script log].
    pose proof (fl_decode db us gone calls _ k (mkNode c h (PhDecode l want raws out) st) l want raws out script log r w' (Hat _) eq_refl Hal Hd) as Hstep.
    by rewrite list_insert_insert_eq in Hstep.
Qed.

Lemma fleet_aborts ended db ns us gone calls k n :
  ns !! k = Some n ->
  exists calls', rtc fleet_step (mkFleet db ns us gone calls)
    (mkFleet db (<[k := set_state (end_tasks ended (nd_state n)) n]> ns) us gone calls').
Proof.
  revert ns calls n. induction ended as [|i ended IH]; intros ns calls n Hk.
  { exists calls. simpl. rewrite list_insert_id; [done|]. by destruct n. }
  destruct (ps_tasks (nd_state n) !! i) as [t|] eqn:Hi.
  - set (n1 := set_state (end_task i (nd_state n)) n).
    destruct (IH (<[k := n1]> ns) (task_job t :: calls) n1) as [calls' Hr].
    { apply list_lookup_insert_eq. by eapply lookup_lt_Some. }
    exists calls'. eapply rtc_l; [by apply (fl_abort db us gone calls ns k n i t)|].
    by rewrite list_insert_insert_eq in Hr.
  - destruct (IH ns calls n Hk) as [calls' Hr]. exists calls'.
    assert (Hend : end_task i (nd_state n) = nd_state n) by (unfold end_task; by rewrite Hi).
    simpl. by rewrite Hend.
Qed.

Lemma fleet_takes_permits db ns us gone calls k n l ph st :
  ns !! k = Some n -> nd_phase n = PhTop l -> take_permits (nd_cfg n) l (nd_state n) = (ph, st) ->
  fleet_step (mkFleet db ns us gone calls)
    (mkFleet db (<[k := mkNode (nd_cfg n) (nd_handler n) ph st]> ns) us gone calls).
Proof.
  intros Hk Hph Ht. pose proof (fl_permits db us gone calls ns k n l Hk Hph) as Hstep. by rewrite Ht in Hstep.
Qed.

(** The claim statement of an abandoned iteration ran and was answered, ran, or did not run. *)
Lemma claim_batch_raw_alone q n lease max hr w e w' :
  alone (w_script w) -> claim_batch_raw q n lease max hr w = (Err e, w') ->
  w_db w' = w_db w \/
  exists rt, rt ∈ w_script w /\ w_db w' = (claim_stmt q n lease max hr rt (w_db w)).2.
Proof.
  intros Hal. unfold claim_batch_raw, mcompose. destruct (sql _ w) as [r w1] eqn:Hs.
  apply sql_alone in Hs as [_ Hs]; [|done]. unfold mreturn. intros [= _ <-].
  destruct Hs as [[Hdb _]|(rt & Hrt & Hdb & _)]; [by left|right]. by exists rt.
Qed.

(** A claim that is abandoned after some of its statements. *)
Lemma fleet_abandons c h ns k n gone calls us l want hr st db script log m :
  ns !! k = Some n -> node_cfg_ok c -> alone script -> snaps_ok script ->
  Forall (fun rt => fresh_tokens rt us) script ->
  let claim := claim_and_decode (T := T) (cf_queue c) (Z.min want u32_max) (cf_lease_timeout c) (cf_max_attempts c) hr in
  exists us' gone', rtc fleet_step (mkFleet db (<[k := mkNode c h (PhClaim l want hr) st]> ns) us gone calls)
    (mkFleet (w_db (abort_after m claim (mkWorld db script log)).2)
       (<[k := mkNode c h PhEnd (leave_loop (PhClaim l want hr) st)]> ns) us' gone' calls).
Proof.
  intros Hk Hcfg Hal Hsn Hfr claim. unfold abort_after, claim, claim_and_decode. unfold mcompose at 1. simpl.
  apply (Forall_take _ m) in Hal, Hsn, Hfr. set (w := mkWorld db (take m script) log).
  assert (Hat : forall a : Node, <[k := a]> ns !! k = Some a)
    by (intros a; apply list_lookup_insert_eq; by eapply lookup_lt_Some).
  destruct (claim_batch_raw _ _ _ _ _ w) as [[raws|e] w1] eqn:Hc.
  - unfold mcompose. pose proof (decode_phases c l want raws [] st w1) as Hd.
    destruct (decode_rows raws [] w1) as [out w2]. simpl in Hd |- *.
    assert (Hr : rtc (in_flight c) (PhClaim l want hr, st, w) (PhDecode l want [] out, st, w2)).
    { eapply rtc_l; [|exact Hd]. apply if_claim. unfold claim_phase, mcompose. by rewrite Hc. }
    destruct (fleet_in_flight c h ns k n gone calls _ _ us Hk Hr Hal (conj Hsn Hfr)) as [us' Hf].
    eexists us', _. eapply rtc_r; [exact Hf|].
    pose proof (fl_leave (w_db w2) us' gone calls _ k _ (Hat (mkNode c h (PhDecode l want [] out) st))) as Hstep.
    by rewrite list_insert_insert_eq in Hstep.
  - simpl. assert (Hleave : forall db' us', fleet_step (mkFleet db' (<[k := mkNode c h (PhClaim l want hr) st]> ns) us' gone calls)
      (mkFleet db' (<[k := mkNode c h PhEnd (leave_loop (PhClaim l want hr) st)]> ns) us' gone calls)).
    { intros db' us'. pose proof (fl_leave db' us' gone calls _ k _ (Hat (mkNode c h (PhClaim l want hr) st))) as Hstep.
      by rewrite list_insert_insert_eq in Hstep. }
    destruct (claim_batch_raw_alone _ _ _ _ _ w _ _ Hal Hc) as [->|(rt & Hrt & ->)].
    + exists us, gone. apply rtc_once, Hleave.
    + eexists _, gone. eapply rtc_l; [|apply rtc_once, Hleave]. apply fl_late_claim; [done|].
      by eapply Forall_forall in Hfr.
Qed.

(** An iteration whose claim is answered. *)
Lemma fleet_poll_run db ns us gone calls k n l ended script log l' st' w' :
  ns !! k = Some n -> nd_phase n = PhTop l ->
  alone script -> snaps_ok script -> Forall (fun rt => fresh_tokens rt us) script ->
  poll_iter (nd_cfg n) (PollRun ended) l (nd_state n) (mkWorld db script log) = ((l', st'), w') ->
  exists us' calls', rtc fleet_step (mkFleet db ns us gone calls)
    (mkFleet (w_db w') (<[k := mkNode (nd_cfg n) (nd_handler n) (phase_of l') st']> ns) us' gone calls').
Proof.
  intros Hk Hph Hal Hsn Hfr Hit.
  destruct (poll_iter_phases _ _ _ _ _ _ _ _ Hit) as [[Ht ->]|(l1 & want & hr & st1 & Ht & Hr)].
  { eexists us, calls. by eapply rtc_once, fleet_takes_permits. }
  set (n1 := mkNode (nd_cfg n) (nd_handler n) (PhClaim l1 want hr) st1).
  assert (Hk1 : <[k := n1]> ns !! k = Some n1) by (apply list_lookup_insert_eq; by eapply lookup_lt_Some).
  destruct (fleet_aborts ended db (<[k := n1]> ns) us gone calls k n1 Hk1) as [calls' Hab].
  destruct (fleet_in_flight (nd_cfg n) (nd_handler n) ns k n gone calls' _ _ us Hk Hr Hal (conj Hsn Hfr)) as [us' Hf].
  exists us', calls'. eapply rtc_l; [by eapply fleet_takes_permits|].
  rewrite list_insert_insert_eq in Hab. by etrans.
Qed.

(** The two readings of [poll_loop] agree: an iteration of [poll_iter], taken as a whole, is a run
    of the phases of that worker while everybody else stands still.  (Both are translations of
    the same lines; this relates the theorems about one to those about the other.) *)
Lemma poll_iter_in_fleet db ns us gone calls k n l tick script log l' st' w' :
  ns !! k = Some n -> nd_phase n = PhTop l -> node_cfg_ok (nd_cfg n) ->
  alone script -> snaps_ok script -> Forall (fun rt => fresh_tokens rt us) script ->
  poll_iter (nd_cfg n) tick l (nd_state n) (mkWorld db script log) = ((l', st'), w') ->
  exists us' gone' calls', rtc fleet_step (mkFleet db ns us gone calls)
    (mkFleet (w_db w') (<[k := mkNode (nd_cfg n) (nd_handler n) (phase_of l') st']> ns) us' gone' calls').
Proof.
  intros Hk Hph Hcfg Hal Hsn Hfr Hit. destruct tick as [|m|ended].
  - unfold poll_iter, mreturn in Hit. injection Hit as <- <- <-. eexists us, _, calls.
    apply rtc_once. pose proof (fl_leave db us gone calls ns k n Hk) as Hstep.
    rewrite Hph in Hstep. unfold leave_loop in Hstep. simpl in Hstep. by rewrite Z.add_0_r, set_free_same in Hstep.
  - destruct (take_permits (nd_cfg n) l (nd_state n)) as [ph st] eqn:Ht.
    destruct (poll_iter_abandoned _ _ _ _ _ _ _ _ Hit) as [[Ht' ->]|(l1 & want & hr & st1 & Ht' & -> & -> & ->)].
    + eexists us, gone, calls. by eapply rtc_once, fleet_takes_permits.
    + destruct (fleet_abandons (nd_cfg n) (nd_handler n) ns k n gone calls us l1 want hr st1 db script log m)
        as (us' & gone' & Hr); [done..|]. exists us', gone', calls. eapply rtc_l; [by eapply fleet_takes_permits|exact Hr].
  - destruct (fleet_poll_run db ns us gone calls k n l ended script log l' st' w') as (us' & calls' & Hr); eauto.
Qed.
End fleet.
