(* ===== verification/Lease.v ===== *)
(** Leases against the clock: what a lease protects its owner from, and why the timeouts
    [build] accepts are enough for a job to be marked by the worker that ran it. *)
From S2P Require Import Prelude F64 Duration Errors Backoff Schema Lifecycle Transition Exec Session Mark Job Claim Reaper Purge Pusher Builder Worker Poll Handle System.

Section lease.
Context `{!PgEngine, !SqlxInterval} (budget : Z).

(** The statements of all sessions, in the order in which they commit. *)
Inductive sys_run : list Act -> Sys -> Sys -> Prop :=
| run_nil s : sys_run [] s s
| run_cons a acts s1 s2 s3 :
    sys_do budget a s1 s2 -> sys_run acts s2 s3 -> sys_run (a :: acts) s1 s3.

Definition marks (j : JobRef) (a : Act) : Prop :=
  match a with AMark j' _ _ => j' = j | _ => False end.

(** [a] ran no later than [deadline] by the clock of the server, and is not a mark of [j]. *)
Definition spares (j : JobRef) (deadline : Z) (a : Act) : Prop :=
  rt_now (act_rt a) <= deadline /\ ~ marks j a.

Lemma sys_run_steps acts s s' : sys_run acts s s' -> rtc (sys_step budget) s s'.
Proof. induction 1; [done|]. eapply rtc_l; [by eexists|done]. Qed.

(** ** One statement leaves a running row of somebody else alone *)

Lemma claim_keeps q n lease max hr rt db rows db' i r :
  claim_stmt q n lease max hr rt db = (Ok rows, db') ->
  jobs db !! i = Some r -> status r = Running -> jobs db' !! i = Some r.
Proof.
  intros (us & _ & _ & Hc)%claim_stmt_inv Hi Hs.
  rewrite (cr_frame _ _ _ _ _ _ _ _ _ Hc); [done|].
  intros ([i' r'] & -> & Hin)%list_elem_of_fmap.
  destruct (cr_rows _ _ _ _ _ _ _ _ _ Hc _ _ Hin) as (r0 & ? & (_ & [?|?] & _) & _);
    simpl in *; congruence.
Qed.

Lemma run_update_keeps now f ids db i :
  NoDup ids -> i ∉ ids -> jobs (run_update now f ids db).2 !! i = jobs db !! i.
Proof.
  intros Hnd Hi. unfold run_update. destruct (pg_update _ _ _ _) as [t|] eqn:Hu; [|done].
  by apply (pg_update_spec _ _ _ _ _ Hnd Hu i).
Qed.

Lemma mark_keeps j v rt db i r tok :
  jobs db !! i = Some r -> lease_token r = Some tok -> (jr_id j = i -> jr_lease_token j <> tok) ->
  jobs (verdict_stmt j v rt db).2 !! i = Some r.
Proof.
  intros Hi Ht Hne. assert (Hout : i ∉ mark_targets (jr_id j) (jr_lease_token j) (jobs db)).
  { intros [-> (r0 & ? & _ & ?)]%mark_targets_elem. apply Hne; [done|]. congruence. }
  pose proof (mark_targets_NoDup (jr_id j) (jr_lease_token j) (jobs db)) as Hnd.
  destruct v as [|reason d|reason]; simpl; unfold mark_done_stmt, mark_retry_stmt, mark_dead_stmt;
    try (destruct (bind_text reason); [|done]); by rewrite run_update_keeps.
Qed.

Lemma reap_keeps q n rt db i r e :
  jobs db !! i = Some r -> lease_expires_at r = Some e -> rt_now rt <= e ->
  jobs (reap_stmt q n rt db).2 !! i = Some r.
Proof.
  intros Hi He Hnow. unfold reap_stmt. destruct (bind_text q) as [q'|]; [|done]. unfold run_reap.
  destruct (pg_update _ _ _ _) as [t|] eqn:Hu; [|done]. simpl.
  rewrite (proj1 (pg_update_spec _ _ _ _ _ (reap_targets_NoDup _ _ _ _) Hu i)); [done|].
  intros (r0 & ? & (_ & _ & Hst) & _)%reap_targets_elem. simplify_eq. simpl in Hst.
  rewrite He in Hst. lia.
Qed.

Lemma purge_keeps s age rt db i r :
  terminal s -> jobs db !! i = Some r -> status r = Running ->
  jobs (purge_stmt s age rt db).2 !! i = Some r.
Proof.
  intros Hs Hi Hr. unfold purge_stmt. destruct (let? us := _ in _) as [before|]; [|done]. simpl.
  rewrite pg_delete_lookup. case_decide as Hin; [|done].
  apply purge_targets_elem in Hin as (r0 & Hr0 & [Hv _] & _). simpl in Hv.
  assert (r0 = r) as -> by congruence. rewrite Hr in Hv. subst s. by destruct Hs.
Qed.

(** The two ways in which a lease ends: its owner marks the job, or a sweep that runs after
    its expiry takes the row back. *)
Definition ends_lease (j : JobRef) (e : Z) (a : Act) : Prop :=
  marks j a \/ match a with AReap rt => e < rt_now rt | _ => False end.
#[local] Instance JobRef_eq_dec : EqDecision JobRef.
Proof. solve_decision. Defined.
#[local] Instance ends_lease_dec j e a : Decision (ends_lease j e a).
Proof. destruct a; unfold ends_lease, marks; apply _. Defined.

Lemma spares_not_ends j e a : spares j e a -> ~ ends_lease j e a.
Proof. intros [Hnow Hm] [?|He]; [done|]. destruct a; simpl in *; (done || lia). Qed.

(** Any other statement of any session leaves the row as it is. *)
Lemma owned_step a s s' j r e :
  sys_do budget a s s' -> sys_ok budget s -> j ∈ sy_claims s ->
  holds_lease (jobs (sy_db s)) (jr_id j) (jr_lease_token j) r ->
  lease_expires_at r = Some e -> ~ ends_lease j e a ->
  jobs (sy_db s') !! jr_id j = Some r.
Proof.
  intros Hd Hok Hj (Hi & Hs & Ht) He Hend.
  assert (Hm : ~ marks j a) by (intros ?; apply Hend; by left).
  destruct Hd as [c op rt db cl us|q n lease max hr rt db db' cl us rows seen _ _ Hc _
    |j' v rt db cl us Hj' _|q n rt db cl us|st age rt db cl us Hst]; simpl in *.
  - by apply session_keeps.
  - by eapply claim_keeps.
  - eapply mark_keeps; [done..|]. intros _ Heq. apply Hm.
    by apply (NoDup_fmap_elem_eq jr_lease_token cl); [apply (so_tokens _ _ Hok)|..].
  - eapply reap_keeps; [done..|]. apply Z.nlt_ge. intros ?. apply Hend. by right.
  - by eapply purge_keeps.
Qed.

(** A claim hands out rows that were waiting, never a row with an owner. *)
Lemma owned_not_claimed a s s' j r j' :
  sys_do budget a s s' -> holds_lease (jobs (sy_db s)) (jr_id j) (jr_lease_token j) r ->
  j' ∈ sy_claims s' -> j' ∉ sy_claims s -> jr_id j' <> jr_id j.
Proof.
  intros Hd (Hi & Hs & _) Hin Hout Heq.
  destruct Hd as [|q n lease max hr rt db db' cl us rows seen _ _ Hc Hsub| | |]; simpl in *; try done.
  apply elem_of_app in Hin as [([i r1] & -> & Hin)%list_elem_of_fmap|?]; [|done].
  apply (elem_of_sublist _ _ _ Hin) in Hsub. simpl in Heq. subst i.
  apply claim_stmt_inv in Hc as (lus & _ & _ & Hc).
  destruct (cr_rows _ _ _ _ _ _ _ _ _ Hc _ _ Hsub) as (r0 & Hr0 & (_ & [?|?] & _) & _); simpl in *; congruence.
Qed.

Lemma handover_ends acts s s' j r e j' :
  1 <= budget -> sys_run acts s s' -> sys_ok budget s -> j ∈ sy_claims s ->
  holds_lease (jobs (sy_db s)) (jr_id j) (jr_lease_token j) r -> lease_expires_at r = Some e ->
  j' ∈ sy_claims s' -> j' ∉ sy_claims s -> jr_id j' = jr_id j ->
  exists acts1 a acts2 s1 s2, acts = acts1 ++ a :: acts2 /\
    sys_run acts1 s s1 /\ sys_do budget a s1 s2 /\ sys_run acts2 s2 s' /\
    holds_lease (jobs (sy_db s1)) (jr_id j) (jr_lease_token j) r /\
    ends_lease j e a /\ j' ∉ sy_claims s2.
Proof.
  intros Hb. induction 1 as [s|a acts s1 s2 s3 Hd Hrun IH]; intros Hok Hj Hh He Hin Hout Hid; [done|].
  assert (Hj2 : j' ∉ sy_claims s2) by (intros ?; by eapply owned_not_claimed).
  destruct (decide (ends_lease j e a)) as [Hend|Hend].
  { exists [], a, acts, s1, s2. split_and!; try done. constructor. }
  destruct IH as (acts1 & b & acts2 & s4 & s5 & -> & ? & ? & ? & ? & ? & ?); try done.
  - by eapply sys_step_ok; [|eexists|].
  - by eapply sys_step_claims; [eexists|].
  - split; [by eapply owned_step|apply Hh].
  - exists (a :: acts1), b, acts2, s4, s5. split_and!; try done. by econstructor.
Qed.

(** C1: Exclusive ownership: while a claim holds the lease of a row, nobody else is given the
    row.  If a later statement of any session hands the same row out again, then between the two
    claims there was a moment at which the first owner still held its lease on the unchanged row,
    and its lease was ended there, either by a mark of the owner itself or by a sweep of a
    reaper that ran after the expiry of the lease; the second claim came after that. *)
Theorem lease_exclusive acts s s' j r e j' :
  1 <= budget -> rtc (sys_step budget) sys_start s -> j ∈ sy_claims s ->
  holds_lease (jobs (sy_db s)) (jr_id j) (jr_lease_token j) r -> lease_expires_at r = Some e ->
  sys_run acts s s' -> j' ∈ sy_claims s' -> j' ∉ sy_claims s -> jr_id j' = jr_id j ->
  exists acts1 a acts2 s1 s2, acts = acts1 ++ a :: acts2 /\
    sys_run acts1 s s1 /\ sys_do budget a s1 s2 /\ sys_run acts2 s2 s' /\
    holds_lease (jobs (sy_db s1)) (jr_id j) (jr_lease_token j) r /\
    ends_lease j e a /\ j' ∉ sy_claims s2.
Proof. intros Hb Hr. intros. eapply handover_ends; eauto using reachable_ok. Qed.

Lemma spared_run acts s s' j r e :
  1 <= budget -> sys_run acts s s' -> sys_ok budget s -> j ∈ sy_claims s ->
  holds_lease (jobs (sy_db s)) (jr_id j) (jr_lease_token j) r ->
  lease_expires_at r = Some e -> Forall (spares j e) acts ->
  holds_lease (jobs (sy_db s')) (jr_id j) (jr_lease_token j) r.
Proof.
  intros Hb. induction 1 as [|a acts s1 s2 s3 Hd _ IH]; [done|].
  intros Hok Hj Hh He [Ha Hacts]%Forall_cons.
  apply IH; [eapply sys_step_ok; [done|by eexists|done]| | |done|done].
  - by eapply sys_step_claims; [eexists|].
  - split; [eapply owned_step; eauto using spares_not_ends|apply Hh].
Qed.

(** C4: A lease protects its owner: from a reachable state in which a claim holds its row, and as
    long as no statement runs past the expiry of the lease by the clock of the server,
    whatever other claims, marks, sweeps, pushes and purges any session commits, the row is
    not changed in any column until the owner itself marks it. *)
Theorem lease_protects acts s s' j r e :
  1 <= budget -> rtc (sys_step budget) sys_start s -> j ∈ sy_claims s ->
  holds_lease (jobs (sy_db s)) (jr_id j) (jr_lease_token j) r -> lease_expires_at r = Some e ->
  sys_run acts s s' -> Forall (spares j e) acts ->
  holds_lease (jobs (sy_db s')) (jr_id j) (jr_lease_token j) r.
Proof. intros Hb Hr Hj Hh He Hrun Ha. eapply spared_run; eauto using reachable_ok. Qed.

(** ** The timeouts of a built worker *)

Lemma worker_lease_covers (benv : BuildEnv) {HT} (b : WorkerBuilder HT) wk us d :
  build b = Some (Ok wk) -> dur_ok (wb_lease_timeout b) ->
  wk_lease_timeout wk = us * 1000 -> d <= wk_handler_timeout wk + wk_mark_timeout wk ->
  as_micros d <= us.
Proof.
  intros Hb Hdur Hlease Hd. apply build_iff in Hb as [_ Hok]; [|done].
  pose proof (wo_mark_lease _ Hok). unfold as_micros.
  rewrite Hlease in *. apply Z.div_le_upper_bound; lia.
Qed.

Lemma claimed_holds q n lease us max hr rt db db' rows i r :
  claim_stmt q n lease max hr rt db = (Ok rows, db') -> interval_of_duration lease = Ok us ->
  (i, r) ∈ rows ->
  let j := claim_ref (i, r) in
  holds_lease (jobs db') (jr_id j) (jr_lease_token j) r /\
  lease_expires_at r = Some (rt_now rt + us).
Proof.
  intros (us' & Hus' & _ & Hc)%claim_stmt_inv Hus Hin. rewrite Hus in Hus'. injection Hus' as <-.
  destruct (cr_rows _ _ _ _ _ _ _ _ _ Hc _ _ Hin) as (r0 & _ & _ & _ & -> & _ & _ & Hdb).
  split; [|done]. by split.
Qed.

Context `{env : BackoffEnv}.

(** C8: A job that keeps its timeouts is never fenced out: take a worker that [build] accepted,
    a job it claimed at the server's time [t0] in a reachable state, and any statements of other
    sessions that commit before the job's mark.  If these ran no later than
    [handler_timeout + mark_timeout] after [t0] and the mark is answered within
    [mark_timeout], then the verdict of the handler is written to the row and counted,
    whatever the others did: the lease is long enough. *)
Theorem timely_job_never_fenced (benv : BuildEnv) {T} (b : WorkerBuilder (JobHandler T)) wk id
    q n hr rt0 db db' cl used rows i r us d acts s' (job : Job T) stats w rt script o v :
  let c := worker_cfg wk id in
  let s := mkSys db' ((claim_ref <$> rows) ++ cl) (used ∪ row_tokens rows) in
  1 <= budget -> build b = Some (Ok wk) -> dur_ok (wb_lease_timeout b) ->
  cf_max_attempts c <= budget -> 0 < cf_max_attempts c ->
  rtc (sys_step budget) sys_start (mkSys db cl used) -> fresh_tokens rt0 used ->
  cf_lease_timeout c = us * 1000 -> interval_of_duration (cf_lease_timeout c) = Ok us ->
  claim_stmt q n (cf_lease_timeout c) (cf_max_attempts c) hr rt0 db = (Ok rows, db') ->
  (i, r) ∈ rows -> job_ref job = claim_ref (i, r) ->
  sys_run acts s s' -> d <= cf_handler_timeout c + cf_mark_timeout c ->
  Forall (spares (job_ref job) (rt_now rt0 + as_micros d)) acts ->
  (forall p, wk_handler wk (job_payload job) (context job) <> CallPanics p) ->
  with_timeout (cf_handler_timeout c) (wk_handler wk (job_payload job) (context job)) = o ->
  verdict c (job_ref job) o = Some v ->
  w_script w = rt :: script -> rt_fault rt = NoFault -> rt_latency rt <= cf_mark_timeout c ->
  rt_env rt (w_db w) = sy_db s' ->
  clock_after_claim (rt_now rt) r -> 0 <= rt_now rt -> verdict_fits (rt_now rt) v ->
  handle_job c (wk_handler wk) job stats w =
  ((Returned tt, verdict_count v (outcome_stats o stats)),
   mkWorld (set_jobs (<[i := verdict_row (rt_now rt) v r]> (jobs (sy_db s'))) (sy_db s')) script
     (w_log w ++ [verdict_event (Some id) (job_ref job) v])).
Proof.
  intros c s Hb Hbuild Hdur Hmb Hm0 Hreach Hfr Hlus Hus Hclaim Hin Hjob Hrun Hd Hacts Hno Ho Hv
    Hscr Hf Hlat Henv Hclk Hnow Hfit.
  destruct (claimed_holds _ _ _ _ _ _ _ _ _ _ _ _ Hclaim Hus Hin) as [Hh He]. cbv zeta in Hh.
  rewrite <- Hjob in Hh.
  assert (Hstep : sys_step budget (mkSys db cl used) s) by (eapply ss_claim; [split; done|done..]).
  assert (Hok : sys_ok budget s) by (eapply sys_step_ok; eauto using reachable_ok).
  assert (Hh' : holds_lease (jobs (sy_db s')) (job_id job) (job_lease_token job) r).
  { apply (spared_run acts s s' (job_ref job) r (rt_now rt0 + us)); try done.
    - simpl. apply elem_of_app. left. rewrite Hjob. by apply list_elem_of_fmap_2.
    - pose proof (worker_lease_covers benv b wk us d Hbuild Hdur Hlus Hd).
      eapply Forall_impl; [exact Hacts|]. intros a [? ?]. split; [lia|done]. }
  assert (Hid : job_id job = i) by (by apply (f_equal jr_id) in Hjob).
  assert (Hrow : row_ok r).
  { apply sys_run_steps in Hrun. pose proof (sys_steps_ok _ _ _ Hb Hrun Hok) as Hok'.
    destruct Hh' as [Hr' _]. apply (so_db _ _ Hok' _ _ Hr'). }
  rewrite <- Hid, <- Henv. eapply handle_job_step; try done; by rewrite Henv.
Qed.
End lease.
