(* ===== verification/Examples.v ===== *)
(** Concrete runs: the theorems applied to small inputs on which every hypothesis is checked by
    evaluation. *)
From S2P Require Import Prelude F64 Duration Errors Backoff Schema Lifecycle Migrations Transition Exec Select Session Mark Job Claim ClaimSpec Reaper Purge Backlog Pusher Enqueue KeySlot Builder Worker Lifetime Poll Phases StateOps Drain Handle System History Progress Fleet Lease.

(** * Concrete parameters *)

(** Payloads are bytes, encoded as they are. *)
#[local] Instance bytes_codec : Codec (list Z) := {|
  encode := fun v => Ok v;
  decode := fun b => DecodeOk b;
|}.

#[local] Existing Instance interval_micros.

(** [powi] by repeated multiplication; a generator that always draws the lower bound. *)
#[local] Instance ex_backoff_env : BackoffEnv := {|
  powi := fun x n => Nat.iter (Z.to_nat n) (fmul x) fone;
  random_range := fun lo hi => Some lo;
|}.

#[local] Instance ex_random_range : RandomRangeSpec ex_backoff_env.
Proof. split. intros lo hi Hle. exists lo. split; [done|lia]. Qed.

#[local] Instance ex_build_env : BuildEnv := {|
  available_parallelism := Some 4;
  hash_iter := map_to_list;
  hash_iter_perm := fun m => Permutation_refl _;
|}.

Definition ex_queue : list Z := lit "mail".

(** A round trip that answers at once; tokens count up from [tok]. *)
Definition ex_rt (now tok : Z) : RoundTrip :=
  mkRoundTrip (fun db => db) now ∅ (fun i => tok + i) NoFault 0 false (fun t => t).

Lemma ex_snaps now tok : snaps_ok [ex_rt now tok].
Proof. apply Forall_cons. split; [intros t; apply snap_ok_refl|constructor]. Qed.

Definition ex_new : NewRow := mkNewRow ex_queue [1; 2; 3] 77 None None.
Definition ex_db0 : Db := empty_db.
Definition ex_db1 : Db := (insert_stmt 0 [ex_new] (ex_rt 1000 0) ex_db0).2.
Definition ex_lease : Duration := from_secs 30.

(** The claim of the pushed job. *)
Definition ex_claim : result (list (Z * Row)) sqlx_error * Db :=
  claim_stmt ex_queue 10 ex_lease 3 ∅ (ex_rt 2000 500) ex_db1.
Definition ex_rows : list (Z * Row) := match ex_claim.1 with Ok rows => rows | Err _ => [] end.
Definition ex_db2 : Db := ex_claim.2.

Definition ex_row1 : Row := row_of_new 1000 ex_new.
Definition ex_row2 : Row := claimed_row 2000 (2000 + 30000000) 3 501 ex_row1.
Definition ex_ref : JobRef := claim_ref (1, ex_row2).

Lemma ex_claim_eq : ex_claim = (Ok ex_rows, ex_db2).
Proof. vm_compute. reflexivity. Qed.

Lemma ex_rows_eq : ex_rows = [(1, ex_row2)].
Proof. vm_compute. reflexivity. Qed.

Lemma ex_db1_row : jobs ex_db1 !! 1 = Some ex_row1.
Proof. vm_compute. reflexivity. Qed.

Lemma ex_db2_row : jobs ex_db2 !! 1 = Some ex_row2.
Proof. vm_compute. reflexivity. Qed.

Lemma ex_db1_eq : jobs ex_db1 = {[1 := ex_row1]}.
Proof. vm_compute. reflexivity. Qed.

Lemma ex_db1_ok : db_ok ex_db1.
Proof.
  apply db_ok_closed; [vm_compute; reflexivity|]. change (map_Forall (fun i r => row_ok r /\ i < 2) (jobs ex_db1)).
  rewrite ex_db1_eq. apply map_Forall_singleton. split; [by vm_compute|lia].
Qed.

Lemma ex_db2_ok : db_ok ex_db2.
Proof.
  apply db_ok_closed; [vm_compute; reflexivity|]. change (map_Forall (fun i r => row_ok r /\ i < 2) (jobs ex_db2)).
  assert (jobs ex_db2 = {[1 := ex_row2]}) as -> by (vm_compute; reflexivity).
  apply map_Forall_singleton. split; [by vm_compute|lia].
Qed.

(** * States of the system *)

Definition ex_sys1 : Sys := mkSys ex_db1 [] ∅.
Definition ex_sys2 : Sys := mkSys ex_db2 ((claim_ref <$> ex_rows) ++ []) (∅ ∪ row_tokens ex_rows).

Lemma ex_reach1 : rtc (sys_step 3) sys_start ex_sys1.
Proof. apply rtc_once. apply (ss_session 3 0 (OpInsert [ex_new]) (ex_rt 1000 0) ex_db0 [] ∅). Qed.

Lemma ex_step2 : sys_step 3 ex_sys1 ex_sys2.
Proof.
  apply (ss_claim 3 ex_queue 10 ex_lease 3 ∅ (ex_rt 2000 500) ex_db1 ex_db2 [] ∅ ex_rows ex_rows).
  - lia.
  - split; [set_solver|]. simpl. lia.
  - exact ex_claim_eq.
  - reflexivity.
Qed.

Lemma ex_reach2 : rtc (sys_step 3) sys_start ex_sys2.
Proof. eapply rtc_r; [apply ex_reach1|apply ex_step2]. Qed.

Lemma ex_ref_claimed : ex_ref ∈ sy_claims ex_sys2.
Proof. simpl. rewrite ex_rows_eq. by left. Qed.

Lemma ex_ref_holds : holds_lease (jobs ex_db2) (jr_id ex_ref) (jr_lease_token ex_ref) ex_row2.
Proof. split; [apply ex_db2_row|]. by vm_compute. Qed.

(** The owner disappears; a sweep after the expiry, and the row is claimed again. *)
(** The first claim has the token 501; this one draws even tokens. *)
Definition ex_rt_even (now : Z) : RoundTrip :=
  mkRoundTrip (fun db => db) now ∅ (fun i => 2 * i) NoFault 0 false (fun t => t).
Definition ex_late_sweep : RoundTrip := ex_rt 30002001 0.
Definition ex_sys_freed : Sys :=
  mkSys (reap_stmt ex_queue 1024 ex_late_sweep ex_db2).2 (sy_claims ex_sys2) (sy_used ex_sys2).
Definition ex_again : result (list (Z * Row)) sqlx_error * Db :=
  claim_stmt ex_queue 10 ex_lease 3 ∅ (ex_rt_even 30002002) (sy_db ex_sys_freed).
Definition ex_rows_again : list (Z * Row) := match ex_again.1 with Ok rows => rows | Err _ => [] end.
Definition ex_sys_again : Sys :=
  mkSys ex_again.2 ((claim_ref <$> ex_rows_again) ++ sy_claims ex_sys_freed)
    (sy_used ex_sys_freed ∪ row_tokens ex_rows_again).
Definition ex_second : JobRef := mkJobRef ex_queue 77 1 2 2 3.

Lemma ex_run_again : sys_run 3 [AReap ex_late_sweep; AClaim (ex_rt_even 30002002)] ex_sys2 ex_sys_again.
Proof.
  eapply run_cons; [|eapply run_cons; [|constructor]].
  - apply (sd_reap 3 ex_queue 1024 ex_late_sweep ex_db2 (sy_claims ex_sys2) (sy_used ex_sys2)).
  - apply (sd_claim 3 ex_queue 10 ex_lease 3 ∅ (ex_rt_even 30002002) (sy_db ex_sys_freed) ex_again.2
             (sy_claims ex_sys_freed) (sy_used ex_sys_freed) ex_rows_again ex_rows_again); [lia| | |reflexivity].
    + split; [|simpl; lia]. intros i. assert (sy_used ex_sys_freed = {[501]}) as -> by (vm_compute; reflexivity).
      simpl. rewrite elem_of_singleton. lia.
    + vm_compute. reflexivity.
Qed.

Lemma lease_exclusive_witness :
  exists acts1 a acts2 s1 s2,
    [AReap ex_late_sweep; AClaim (ex_rt_even 30002002)] = acts1 ++ a :: acts2 /\
    sys_run 3 acts1 ex_sys2 s1 /\ sys_do 3 a s1 s2 /\ sys_run 3 acts2 s2 ex_sys_again /\
    holds_lease (jobs (sy_db s1)) (jr_id ex_ref) (jr_lease_token ex_ref) ex_row2 /\
    ends_lease ex_ref 30002000 a /\ ex_second ∉ sy_claims s2.
Proof.
  apply (lease_exclusive 3 [AReap ex_late_sweep; AClaim (ex_rt_even 30002002)] ex_sys2 ex_sys_again ex_ref ex_row2
           30002000 ex_second);
    [lia|apply ex_reach2|apply ex_ref_claimed|apply ex_ref_holds|reflexivity|apply ex_run_again| | |reflexivity].
  - assert (sy_claims ex_sys_again = [ex_second; ex_ref]) as -> by (vm_compute; reflexivity). by left.
  - assert (sy_claims ex_sys2 = [ex_ref]) as -> by (vm_compute; reflexivity). intros [[=]|?%elem_of_nil]%elem_of_cons. done.
Defined.

(** The job is marked done. *)
Definition ex_sys3 : Sys :=
  mkSys (verdict_stmt ex_ref VDone (ex_rt 3000 900) (sy_db ex_sys2)).2 (sy_claims ex_sys2) (sy_used ex_sys2).

Lemma ex_step3 : sys_step 3 ex_sys2 ex_sys3.
Proof. apply (ss_mark 3 ex_ref VDone (ex_rt 3000 900)); [apply ex_ref_claimed|done]. Qed.

Lemma ex_reach3 : rtc (sys_step 3) sys_start ex_sys3.
Proof. eapply rtc_r; [apply ex_reach2|apply ex_step3]. Qed.

Lemma ex_lost3 : forall r, ~ holds_lease (jobs (sy_db ex_sys3)) (jr_id ex_ref) (jr_lease_token ex_ref) r.
Proof.
  intros r (Hr & Hst & _). vm_compute in Hr. injection Hr as <-. discriminate Hst.
Qed.

Lemma lost_lease_never_returns_witness :
  (verdict_stmt ex_ref (VDead (lit "late")) (ex_rt 4000 0) (sy_db ex_sys3)).2 = sy_db ex_sys3.
Proof.
  apply (lost_lease_never_returns 3 ex_sys3 ex_sys3 ex_ref);
    [lia|apply ex_reach3|apply rtc_refl|apply ex_ref_claimed|apply ex_lost3].
Defined.

Lemma claim_marked_at_most_once_witness :
  (verdict_stmt ex_ref VDone (ex_rt 4000 0) (sy_db ex_sys3)).2 = sy_db ex_sys3.
Proof.
  apply (claim_marked_at_most_once 3 ex_sys2 ex_ref VDone (ex_rt 3000 900) 1 ex_sys3);
    [lia|apply ex_reach2|apply ex_ref_claimed|done|vm_compute; reflexivity|lia|apply rtc_refl].
Defined.

Lemma attempts_within_budget_witness :
  attempts ex_row2 <= 3 /\ (status ex_row2 = AwaitingRetry -> attempts ex_row2 < max_attempts ex_row2).
Proof. apply (attempts_within_budget 3 ex_sys2 1); [lia|apply ex_reach2|apply ex_db2_row]. Defined.

(** The job is done, and a minute later purged. *)
Definition ex_sys_purged : Sys :=
  mkSys (purge_stmt Done (from_secs 1) (ex_rt 60000000 0) (sy_db ex_sys3)).2 (sy_claims ex_sys3) (sy_used ex_sys3).

Lemma ex_run_purged : rtc (sys_step 3) ex_sys2 ex_sys_purged.
Proof.
  eapply rtc_l; [apply ex_step3|]. apply rtc_once.
  apply (ss_purge 3 Done (from_secs 1) (ex_rt 60000000 0)). by left.
Qed.

Lemma job_never_lost_witness :
  exists s1 s2 rt r1, rtc (sys_step 3) ex_sys2 s1 /\ sys_do 3 (APurge rt) s1 s2 /\
    rtc (sys_step 3) s2 ex_sys_purged /\ jobs (sy_db s1) !! 1 = Some r1 /\ same_job ex_row2 r1 /\
    attempts ex_row2 <= attempts r1 /\ terminal (status r1) /\ jobs (sy_db s2) !! 1 = None.
Proof.
  assert (Hgone : jobs (sy_db ex_sys_purged) !! 1 = None) by (vm_compute; reflexivity).
  pose proof (job_never_lost 3 ex_sys2 ex_sys_purged 1 ex_row2) as Hl. rewrite Hgone in Hl.
  apply Hl; [lia|apply ex_reach2|apply ex_run_purged|apply ex_db2_row].
Defined.

Lemma ex_clock (now : Z) : 2000 <= now ->
  map_Forall (fun _ r => clock_after_claim now r) (jobs ex_db2).
Proof.
  intros Hn. assert (jobs ex_db2 = {[1 := ex_row2]}) as -> by (vm_compute; reflexivity).
  apply map_Forall_singleton. intros l [= <-]. done.
Qed.

Lemma sweep_recovers_expired_witness :
  exists rows db', reap_stmt ex_queue 1024 (ex_rt 99000000 0) ex_db2 = (Ok rows, db') /\
    (Z.of_nat (length rows) < clamp_i32 1024 ->
     forall i r, jobs ex_db2 !! i = Some r -> jobs ex_db2 !! i = Some r ->
     stale ex_queue 99000000 (i, r) -> i ∉ (∅ : gset Z) ->
     exists r', jobs db' !! i = Some r' /\ same_job r r' /\ attempts r' = attempts r /\
       if decide (max_attempts r <= attempts r) then status r' = Dead
       else claimable 99000000 (i, r')).
Proof.
  apply (sweep_recovers_expired 3 ex_sys2 ex_queue 1024 (ex_rt 99000000 0));
    [lia|apply ex_reach2|by apply (bool_decide_unpack _); vm_compute|by apply ex_clock].
Defined.

Lemma claim_never_fails_witness :
  exists rows db', claim_stmt ex_queue 10 ex_lease 3 ∅ (ex_rt 5000 700) ex_db2 = (Ok rows, db').
Proof.
  apply (claim_never_fails 3 ex_sys2 ex_queue 10 ex_lease 30000000 3 ∅ (ex_rt 5000 700));
    [done|apply ex_reach2|by apply (bool_decide_unpack _); vm_compute|lia|vm_compute; reflexivity
    |vm_compute; reflexivity|done|by apply ex_clock].
Defined.

Lemma ex_no_nul : 0 ∉ ex_queue.
Proof. by apply (bool_decide_unpack _); vm_compute. Qed.

Definition ex_world (db : Db) (script : list RoundTrip) : World := mkWorld db script [].

Lemma programs_refine_system_witness :
  guarantee (sys_db 3 [ex_ref] ∅) (purge_done (from_secs 60)).
Proof. apply (programs_refine_system (T := list Z) 3 [ex_ref] ∅). Defined.

(** * The life of a job *)

Definition ex_cfg : WorkerCfg :=
  mkWorkerCfg ex_queue 9 3 ex_lease (from_secs 24) (from_secs 5) backoff_default PanicRetry 32
    (from_secs 1) (from_millis 7500) 4 {[lit "tenant" := 2]}.

Definition ex_job : Job (list Z) := mkJob 1 77 ex_queue None [1; 2; 3] 1 3 2000 501 30002000.

Definition ex_handler (_ : list Z) (_ : JobContext) : HandlerRun := Returns (Ok tt) 1000.

Lemma ex_row2_ok : row_ok ex_row2.
Proof. by vm_compute. Qed.

Lemma handle_job_applies_verdict_witness :
  handle_job ex_cfg ex_handler ex_job stats_zero (ex_world ex_db2 [ex_rt 3000 0]) =
  ((Returned tt, add_completed 1 stats_zero),
   mkWorld (set_jobs (<[1 := marked 3000 Done None (Some 3000) 1000 ex_row2]> (jobs ex_db2)) ex_db2)
     [] [verdict_event (Some 9) (job_ref ex_job) VDone]).
Proof.
  apply (handle_job_applies_verdict ex_cfg ex_handler ex_job stats_zero (ex_world ex_db2 [ex_rt 3000 0])
           (ex_rt 3000 0) [] (HoResult (Ok tt)) VDone ex_row2);
    [done|reflexivity|reflexivity|reflexivity|reflexivity|by vm_compute|apply ex_ref_holds
    |apply ex_row2_ok|by intros l [= <-]|by vm_compute|done].
Defined.

Lemma handle_job_fenced_witness :
  handle_job ex_cfg ex_handler ex_job stats_zero (ex_world (sy_db ex_sys3) [ex_rt 4000 0]) =
  ((Returned tt, add_fenced_out 1 stats_zero), mkWorld (sy_db ex_sys3) [] []).
Proof.
  apply (handle_job_fenced ex_cfg ex_handler ex_job stats_zero (ex_world (sy_db ex_sys3) [ex_rt 4000 0])
           (ex_rt 4000 0) [] (HoResult (Ok tt)) VDone);
    [done|reflexivity|reflexivity|reflexivity|reflexivity|by vm_compute|apply ex_lost3|done].
Defined.

Lemma compute_retry_delay_bounds_witness :
  exists d, compute_retry_delay (Some 0) backoff_default (from_secs 1) 1 = Some d /\
    Z.max (from_secs 1) MIN_RETRY_IN <= d <= MAX_RETRY_IN /\
    (Z.max (from_secs 1) MIN_RETRY_IN <= 0 <= MAX_RETRY_IN -> d = 0).
Proof.
  apply (compute_retry_delay_bounds ex_random_range (Some 0) backoff_default (from_secs 1) 1);
    [split; by vm_compute|apply default_backoff_valid|by vm_compute].
Defined.

Definition ex_worker : Worker (list Z -> JobContext -> HandlerRun) :=
  mkWorker 10 ex_queue 3 ex_lease 32 backoff_default PanicRetry (from_secs 1) 4 ∅ (from_secs 24)
    (from_secs 5) (from_millis 7500) None ex_handler.

Lemma tick_once_counts_witness :
  let st := mkTickStats 1 1 0 0 in
  ts_completed st + ts_failed st + ts_fenced_out st <= ts_claimed st <= 32.
Proof.
  apply (tick_once_counts ex_worker (ex_world ex_db1 [ex_rt 2000 500; ex_rt 3000 0]) (mkTickStats 1 1 0 0));
    [vm_compute; reflexivity|by vm_compute].
Defined.

Lemma worker_respects_lifecycle_witness : guarantee db_steps (tick_once ex_worker).
Proof. apply (worker_respects_lifecycle (T := list Z)). Defined.

(** * Claims *)

Lemma claim_correct_witness :
  NoDup ex_rows.*1 /\ Z.of_nat (length ex_rows) <= 10 /\
  (forall i r', (i, r') ∈ ex_rows -> jobs ex_db2 !! i = Some r' /\
     exists r, jobs ex_db1 !! i = Some r /\ runnable ex_queue 2000 (i, r) /\ (i ∉ (∅ : gset Z)) /\
       r' = claimed_row 2000 (2000 + 30000000) (clamp_i32 3) (500 + i) r) /\
  (forall i, i ∉ ex_rows.*1 -> jobs ex_db2 !! i = jobs ex_db1 !! i).
Proof.
  apply (claim_correct ex_queue 10 ex_lease 30000000 3 ∅ (ex_rt 2000 500) ex_db1 ex_db2 ex_rows);
    [apply ex_claim_eq|vm_compute; reflexivity|apply snap_ok_refl|lia].
Defined.

(** Two jobs, one place in the batch. *)
Definition ex_db_two : Db :=
  (insert_stmt 0 [ex_new; mkNewRow ex_queue [4] 78 None None] (ex_rt 1000 0) ex_db0).2.
Definition ex_row1' : Row := row_of_new 1000 (mkNewRow ex_queue [4] 78 None None).

Lemma claim_fifo_witness :
  by_run_at (1, ex_row1) (2, ex_row1') /\
  Z.of_nat (length (claim_targets ex_queue 1 ∅ (ex_rt 2000 500) (jobs ex_db_two))) = 1.
Proof.
  apply (claim_fifo ex_queue 1 (ex_rt 2000 500) (jobs ex_db_two) 1 ex_row1 2 ex_row1');
    [done|by apply (bool_decide_unpack _); vm_compute|vm_compute; reflexivity|vm_compute; reflexivity
    |by apply (bool_decide_unpack _); vm_compute|set_solver
    |by apply (bool_decide_unpack _); vm_compute].
Defined.

(** Two workers claim at the same time: the second has a snapshot from before the claim of the
    first, and both rows were queued in it; it finds the first row running and takes the
    other. *)
Definition ex_after_first : Db := (claim_stmt ex_queue 1 ex_lease 3 ∅ (ex_rt 2000 500) ex_db_two).2.
Definition ex_late : RoundTrip :=
  mkRoundTrip (fun db => db) 2000 ∅ (fun i => 600 + i) NoFault 0 false (fun _ => jobs ex_db_two).

Example ex_late_claim :
  (claim_stmt ex_queue 10 ex_lease 3 ∅ ex_late ex_after_first).1
  = Ok [(2, claimed_row 2000 (2000 + 30000000) 3 602 ex_row1')] /\
  snap_ok (rt_snap ex_late (jobs ex_after_first)) (jobs ex_after_first).
Proof.
  split; [vm_compute; reflexivity|].
  apply (snap_ok_past ex_db_two ex_after_first); [|apply claim_step].
  eapply db_steps_ok; [apply insert_step|by split].
Qed.

(** * Pushing *)

Definition ex_pusher : Pusher := mkPusher ex_queue.

Lemma ex_queue_len : 1 <= chars_count ex_queue <= MAX_QUEUE_LEN.
Proof. by vm_compute. Qed.

Lemma ex_db0_ok : db_ok ex_db0.
Proof. by split. Qed.

Lemma push_inserts_witness :
  push ex_pusher 0 77 [1; 2; 3] None (ex_world ex_db0 [ex_rt 1000 0])
  = (Ok 77, mkWorld (add_rows 0 {[1 := mkRow 77 ex_queue [1; 2; 3] Queued 0 0 None None None None None
                                         None 1000 1000 1000 None]} 2 ex_db0) [] []).
Proof.
  apply (push_inserts ex_pusher 0 77 [1; 2; 3] None [1; 2; 3] (ex_world ex_db0 [ex_rt 1000 0])
           (ex_rt 1000 0) []);
    [apply ex_queue_len|apply ex_no_nul|done|done|reflexivity|by vm_compute|reflexivity|reflexivity
    |reflexivity|apply ex_db0_ok|by apply (bool_decide_unpack _); vm_compute].
Defined.

Definition ex_items : list (list Z * option (list Z)) := [([1], None); ([2; 3], Some (lit "tenant"))].
Definition ex_uuid (k : nat) : Uuid := 80 + Z.of_nat k.

Lemma push_batch_inserts_witness :
  exists new,
    push_batch ex_pusher 0 ex_uuid ex_items (ex_world ex_db1 [ex_rt 1500 0])
      = (Ok (ex_uuid <$> seq 0 2), mkWorld (add_rows 0 new 4 ex_db1) [] []) /\
    forall i r, new !! i = Some r <->
      exists k v key b, ex_items !! k = Some (v, key) /\ encode v = Ok b /\ i = 2 + Z.of_nat k /\
        r = row_of_new 1500 (mkNewRow ex_queue b (ex_uuid k) None key).
Proof.
  apply (push_batch_inserts ex_pusher 0 ex_uuid ex_items (ex_world ex_db1 [ex_rt 1500 0]) (ex_rt 1500 0) []).
  - apply ex_queue_len.
  - apply ex_no_nul.
  - by vm_compute.
  - repeat constructor; simpl; try done; eexists; (split; [reflexivity|by vm_compute]).
  - intros v k Hin. assert (k = lit "tenant") as -> by (unfold ex_items in Hin; set_solver).
    by apply (bool_decide_unpack _); vm_compute.
  - by vm_compute.
  - reflexivity.
  - reflexivity.
  - reflexivity.
  - apply ex_db1_ok.
  - by apply (bool_decide_unpack _); vm_compute.
  - intros u Hu. assert (u = 80 \/ u = 81) as [-> | ->] by (vm_compute in Hu; set_solver);
      by apply (bool_decide_unpack _); vm_compute.
Defined.

Lemma push_at_past_rejected_witness :
  push_at ex_pusher 0 78 [5] 10 None (ex_world ex_db1 [ex_rt 1500 0])
  = (Err (Constraint check_violation), mkWorld (fail_stmt 0 3 ex_db1) [] []) /\
  is_retriable (Constraint check_violation) = false.
Proof.
  apply (push_at_past_rejected ex_pusher 0 78 [5] 10 None [5] (ex_world ex_db1 [ex_rt 1500 0]) (ex_rt 1500 0) []);
    [apply ex_queue_len|apply ex_no_nul|done|done|reflexivity|by vm_compute|reflexivity|reflexivity
    |reflexivity|by vm_compute].
Defined.

Lemma push_nul_key_rejected_witness :
  push ex_pusher 0 78 [5] (Some [97; 0]) (ex_world ex_db1 [ex_rt 1500 0])
  = (Err (Transient character_not_in_repertoire), mkWorld (fail_stmt 0 2 ex_db1) [] []) /\
  is_retriable (Transient character_not_in_repertoire) = true.
Proof.
  apply (push_nul_key_rejected ex_pusher 0 78 [5] [97; 0] [5] (ex_world ex_db1 [ex_rt 1500 0]) (ex_rt 1500 0) []);
    [apply ex_queue_len|apply ex_no_nul|by vm_compute|set_solver|reflexivity|by vm_compute|reflexivity
    |reflexivity|reflexivity].
Defined.

Lemma push_claim_roundtrip_witness :
  let w' := (push ex_pusher 0 77 [1; 2; 3] None (ex_world ex_db0 [ex_rt 1000 0])).2 in
  exists i r, status r = Queued /\
    (jobs (w_db w') !! i = Some r \/ uncommitted (w_db w') !! i = Some (0, r)) /\
    forall db2 q n lease max hr rt rows db3 r',
    db_steps (w_db w') db2 ->
    claim_stmt q n lease max hr rt db2 = (Ok rows, db3) -> (i, r') ∈ rows ->
    decode (payload r') = DecodeOk [1; 2; 3] /\ public_id r' = 77 /\ queue r' = ex_queue /\
    concurrency_key r' = None.
Proof.
  apply (push_claim_roundtrip ex_pusher 0 77 [1; 2; 3] None (ex_world ex_db0 [ex_rt 1000 0]));
    [by intros b [= <-]|repeat constructor|apply ex_db0_ok|vm_compute; reflexivity].
Defined.

(** A transaction of session 7: it pushes a job, session 8 pushes one of its own, and session 7
    pushes a batch. *)
Definition ex_tx0 : Db := (begin_stmt 7 (ex_rt 900 0) ex_db0).2.
Definition ex_call1 : PushCall (T := list Z) := CallPush 77 [1; 2; 3] None.
Definition ex_call2 : PushCall (T := list Z) := CallPushBatch ex_uuid ex_items.
Definition ex_tx1 : Db := w_db (run_call ex_pusher 7 ex_call1 (mkWorld ex_tx0 [ex_rt 1000 0] [])).2.
Definition ex_tx2 : Db := session_op 8 (OpInsert [mkNewRow ex_queue [4] 78 None None]) (ex_rt 1100 0) ex_tx1.
Definition ex_tx3 : Db := w_db (run_call ex_pusher 7 ex_call2 (mkWorld ex_tx2 [ex_rt 1200 0] [])).2.

Lemma ex_in_tx :
  in_tx ex_pusher 7 900 (([] ++ call_rows ex_pusher ex_call1) ++ call_rows ex_pusher ex_call2)
    (([] ++ [77]) ++ [80; 81]) true ex_tx3.
Proof.
  eapply (it_returned _ _ _ _ _ _ ex_tx2 ex_call2 (ex_rt 1200 0)); [|by split|].
  - apply (it_others _ _ _ _ _ _ ex_tx1); [|apply session_step|by apply session_other..].
    eapply (it_returned _ _ _ _ _ _ ex_tx0 ex_call1 (ex_rt 1000 0)); [|by split|].
    + by apply (it_begin _ _ _ (ex_rt 900 0) ex_db0); [apply ex_db0_ok|..].
    + by rewrite (surjective_pairing (run_call _ _ _ _)).
  - by rewrite (surjective_pairing (run_call _ _ _ _)).
Qed.

Lemma transactional_enqueue_witness :
  let pushed := ([] ++ call_rows ex_pusher ex_call1) ++ call_rows ex_pusher ex_call2 in
  [77; 80; 81] = nr_public_id <$> pushed /\
  exists keys db', NoDup keys /\ length keys = length pushed /\
    (true = true -> forall i, i ∈ keys -> jobs ex_tx3 !! i = None) /\
    commit_stmt 7 (ex_rt 1300 0) ex_tx3 = (Ok true, db') /\
    jobs db' = jobs ex_tx3 ∪ list_to_map (zip keys (row_of_new 900 <$> pushed)) /\
    jobs (rollback_stmt 7 (ex_rt 1300 0) ex_tx3).2 = jobs ex_tx3 /\
    open_txs db' !! 7 = None /\ rows_of 7 (uncommitted db') = ∅.
Proof. apply (transactional_enqueue ex_pusher 7 900 _ _ true ex_tx3 (ex_rt 1300 0)), ex_in_tx. Defined.

(** * Building *)

Definition ex_builder : WorkerBuilder (list Z -> JobContext -> HandlerRun) :=
  minimal DEFAULT_LEASE_TIMEOUT ex_queue 10 4 ex_handler.

Lemma ex_lease_ok : dur_ok DEFAULT_LEASE_TIMEOUT.
Proof. split; by vm_compute. Qed.

Lemma build_defaults_witness :
  exists w, build ex_builder = Some (Ok w) /\
    wk_handler_timeout w = from_secs 24 /\ wk_mark_timeout w = from_secs 5 /\
    wk_reaper_interval w = from_millis 7500.
Proof.
  apply (build_defaults ex_queue 10 4 ex_handler); [apply ex_queue_len|lia|by vm_compute].
Defined.

Lemma ex_built : build ex_builder = Some (Ok ex_worker).
Proof. vm_compute. reflexivity. Qed.

Lemma build_accepts_exactly_witness : configured ex_builder = Some ex_worker /\ worker_ok ex_worker.
Proof. apply (build_accepts_exactly ex_builder ex_worker); [apply ex_lease_ok|apply ex_built]. Defined.

Lemma build_total_witness : exists r, build ex_builder = Some r.
Proof. apply (build_total ex_builder), ex_lease_ok. Defined.

(** * Backoff *)

Lemma next_total_and_capped_witness :
  exists d, next backoff_default 7 = Some d /\ 0 <= d <= policy_cap backoff_default.
Proof.
  apply (next_total_and_capped ex_backoff_env ex_random_range backoff_default 7);
    [split; by vm_compute|apply default_backoff_valid].
Defined.

Lemma next_linear_exact_witness :
  next (Linear (from_millis 100) (from_millis 250) (from_secs 60)) 3
  = Some (linear_spec (from_millis 100) (from_millis 250) (from_secs 60) 3).
Proof.
  apply (next_linear_exact ex_backoff_env); [repeat split; by vm_compute|by vm_compute|by vm_compute].
Defined.

(** * The poll loop *)

Definition ex_db_keyed : Db :=
  (insert_stmt 0 [mkNewRow ex_queue [1] 90 None (Some (lit "tenant"))] (ex_rt 1000 0) ex_db0).2.
Definition ex_start : PollState (list Z) := start_state ex_cfg false.
Definition ex_poll1 : option PollLocal * PollState (list Z) :=
  (poll_iter ex_cfg (PollRun []) poll_start ex_start (ex_world ex_db_keyed [ex_rt 2000 500])).1.

Lemma ex_cfg_ok : cfg_ok ex_cfg.
Proof. split; [by vm_compute..|]. apply map_Forall_singleton. lia. Qed.

Lemma ex_poll_reach : rtc (worker_step ex_cfg) (Some poll_start, ex_start) (ex_poll1.1, ex_poll1.2).
Proof. rewrite <- surjective_pairing. apply rtc_once, ws_step_poll, ex_snaps. Qed.

Lemma per_key_limit_witness : keyed (lit "tenant") (task_job <$> ps_tasks ex_poll1.2) <= 2.
Proof.
  apply (per_key_limit ex_cfg false ex_poll1.1 ex_poll1.2 (lit "tenant") 2);
    [apply ex_cfg_ok|apply ex_poll_reach|vm_compute; reflexivity].
Defined.

Lemma concurrency_bound_witness :
  sem_free (ps_semaphore ex_poll1.2) + Z.of_nat (length (ps_tasks ex_poll1.2)) = 4 /\
  Z.of_nat (length (ps_tasks ex_poll1.2)) <= 4.
Proof.
  apply (concurrency_bound ex_cfg false ex_poll1.1 ex_poll1.2); [apply ex_cfg_ok|apply ex_poll_reach].
Defined.

Definition ex_tick : result (list (Job (list Z))) sqlx_error * World :=
  tick_claim ex_cfg ex_start (ex_world ex_db_keyed [ex_rt 2000 500]).
Definition ex_tick_jobs : list (Job (list Z)) := match ex_tick.1 with Ok js => js | Err _ => [] end.

Lemma poll_spawns_every_row_witness :
  exists kept, task_job <$> ps_tasks (poll_iter ex_cfg (PollRun []) poll_start ex_start
                                        (ex_world ex_db_keyed [ex_rt 2000 500])).1.2 = kept ++ ex_tick_jobs.
Proof.
  apply (poll_spawns_every_row ex_cfg false poll_start ex_start [] (ex_world ex_db_keyed [ex_rt 2000 500])
           ex_tick_jobs ex_tick.2);
    [apply ex_cfg_ok|apply rtc_refl|reflexivity|by vm_compute|apply ex_snaps|vm_compute; reflexivity].
Defined.

Definition ex_down (e : sqlx_error) : RoundTrip :=
  mkRoundTrip (fun db => db) 2000 ∅ (fun i => i) (FailBefore e) 0 false (fun t => t).

Lemma claim_errors_escalate_witness :
  let w := ex_world ex_db1 (replicate 29 (ex_down Io) ++ [ex_down Tls]) in
  (exists l, (poll_loop ex_cfg (replicate 29 (PollRun [])) poll_start ex_start w).1 = (Some l, ex_start)) /\
  (poll_loop ex_cfg (replicate 30 (PollRun [])) poll_start ex_start w).1
  = (None, set_shared (fun sh => cancel (set_last_fatal Tls sh)) ex_start).
Proof.
  apply (claim_errors_escalate ex_cfg ex_start
           (ex_world ex_db1 (replicate 29 (ex_down Io) ++ [ex_down Tls])) (replicate 29 (ex_down Io))
           (ex_down Tls) (replicate 29 Io) Tls []).
  - apply ex_cfg_ok.
  - reflexivity.
  - by vm_compute.
  - apply Forall2_replicate. by left.
  - by left.
  - by apply Forall_replicate.
  - reflexivity.
  - reflexivity.
  - reflexivity.
Defined.

Lemma reaper_panic_escalation_witness :
  reaper_loop ex_queue 9 [TickPanic PanicOther; TickPanic PanicOther; TickPanic PanicOther] reaper_start
    (mkShared false None None) (ex_world ex_db1 [])
  = ((None, cancel (set_last_panic 3 (mkShared false None None))), ex_world ex_db1 []).
Proof. apply (reaper_panic_escalation ex_queue 9 PanicOther PanicOther PanicOther). Defined.

Lemma counter_counts_live_tasks_witness :
  let c := (acquire (start_counter {[lit "tenant" := 2]}) (lit "tenant")).2 in
  live_count c (lit "tenant") = slots (lit "tenant") [mkGuard (Some (lit "tenant"))] /\
  ([mkGuard (Some (lit "tenant"))] = [] -> live_count c (lit "tenant") = 0).
Proof.
  apply (counter_counts_live_tasks {[lit "tenant" := 2]} _ [mkGuard (Some (lit "tenant"))] (lit "tenant")).
  apply rtc_once. by apply (slot_acquire (start_counter {[lit "tenant" := 2]}) [] (lit "tenant")).
Defined.

(** * The handle *)

(** Both loops have stopped after [1 ms], having recorded nothing more. *)
Definition ex_handle_state (fate : Fate) : WorkerState (list Z) :=
  mkWorkerState ex_cfg ex_poll1.2 stats_zero 0 0 (fun _ => fate) None.
Definition ex_inner (fate : Fate) : Inner (WorkerState (list Z)) :=
  mkInner (ex_handle_state fate) (spawn_poll ex_cfg poll_start [] stats_zero (Some 1000000))
    (spawn_reaper ex_cfg reaper_start [] (Some 1000000)).

(** The state of the handle when the loops have stopped, without and with the token cancelled. *)
Definition ex_stopped (fate : Fate) : WorkerState (list Z) :=
  set_ws_stats (stats_add stats_zero stats_zero) (ex_handle_state fate).

(** A handler that succeeds after two seconds, and one that times out after five, with a mark
    that is never answered. *)
Definition ex_finishing : Fate := mkFate (Some (from_secs 2)) (add_completed 1 stats_zero) None (Some 0).
Definition ex_stuck : Fate := mkFate None stats_zero (Some (from_secs 5)) (Some 0).

Definition ex_runtime : Runtime (list Z) :=
  mkRuntime 0 0 (fun _ => ex_finishing) [] (Some 1000000) stats_zero [] (Some 1000000).

Lemma start_establishes_invariant_witness :
  exists i, start (T := list Z) ex_worker 9 ex_runtime (ex_world ex_db1 [ex_rt 1000 0]) =
      (Ok (mkHandle (Some i)), mkWorld ex_db1 [] []) /\
    cfg_ok (ws_cfg (in_state i)) /\ poll_inv (ws_cfg (in_state i)) 0 (ws_poll (in_state i)) /\
    cf_queue (ws_cfg (in_state i)) = ex_queue /\ ws_stats (in_state i) = stats_zero /\
    jh_aborted (in_poll i) = false /\ jh_aborted (in_reaper i) = false.
Proof.
  apply (start_establishes_invariant ex_build_env ex_builder ex_worker 9 ex_runtime
           (ex_world ex_db1 [ex_rt 1000 0]) (ex_rt 1000 0) []);
    [apply ex_built|apply ex_lease_ok|by vm_compute|apply map_Forall_empty|reflexivity|reflexivity].
Defined.

Lemma join_drains_and_reports_witness :
  (exists i', (join (mkHandle (Some (ex_inner ex_finishing))) (ex_world ex_db2 [])).1 =
      (Returned (Ok tt), Some i') /\
    joinset_len (ws_poll (in_state i')) = 0%nat /\
    ws_stats (in_state i') =
      tally (fun _ => ex_finishing) (ps_tasks ex_poll1.2) (stats_add stats_zero stats_zero)) /\
  (join (mkHandle (Some (ex_inner ex_stuck))) (ex_world ex_db2 [])).1.1 = Hung.
Proof.
  split.
  - apply (join_drains_and_reports ex_cfg poll_start [] stats_zero 1000000 reaper_start [] 1000000
             (ex_handle_state ex_finishing) (ex_world ex_db2 []) (ex_stopped ex_finishing) (ex_world ex_db2 [])
             (ex_stopped ex_finishing) (ex_world ex_db2 [])); [reflexivity|reflexivity|done].
  - apply (join_drains_and_reports ex_cfg poll_start [] stats_zero 1000000 reaper_start [] 1000000
             (ex_handle_state ex_stuck) (ex_world ex_db2 []) (ex_stopped ex_stuck) (ex_world ex_db2 [])
             (ex_stopped ex_stuck) (ex_world ex_db2 [])); [reflexivity|reflexivity|].
    destruct (ps_tasks (ws_poll (ex_stopped ex_stuck))) as [|t ts] eqn:Ht; [by vm_compute in Ht|].
    exists t. split; [by left|done].
Defined.

Definition ex_cancelled (fate : Fate) : WorkerState (list Z) :=
  set_ws_stats (stats_add stats_zero stats_zero) (cancel_shutdown (ex_handle_state fate)).

(** The task that waits for its mark is aborted: counted as such, and as timed out. *)
Lemma shutdown_accounts_witness :
  let h := mkHandle (Some (ex_inner ex_stuck)) in
  let w := ex_world ex_db2 [ex_rt 5000 0] in
  exists i', (shutdown (from_secs 10) h w).1.2 = Some i' /\ ps_tasks (ws_poll (in_state i')) = [] /\
    exists pending, (shutdown (from_secs 10) h w).1.1 =
      Returned (Ok (with_pending pending (snapshot (add_aborted 1 (add_timed_out 1 stats_zero))))).
Proof.
  destruct (shutdown_accounts (from_secs 10) ex_cfg poll_start [] stats_zero (Some 1000000) reaper_start []
             (Some 1000000) (ex_handle_state ex_stuck) (ex_world ex_db2 [ex_rt 5000 0]) (ex_cancelled ex_stuck)
             (ex_world ex_db2 [ex_rt 5000 0]) (ex_cancelled ex_stuck) (ex_world ex_db2 [ex_rt 5000 0]))
    as (i' & Hi & Htasks & _ & _ & pending & Hret);
    [by vm_compute|by vm_compute|by vm_compute|reflexivity|reflexivity|by vm_compute|].
  exists i'. split; [exact Hi|]. split; [rewrite Htasks; vm_compute; reflexivity|].
  exists pending. etrans; [exact Hret|]. vm_compute. reflexivity.
Defined.

Lemma shutdown_bounded_witness :
  exists r i', (shutdown (from_secs 10) (mkHandle (Some (ex_inner ex_stuck))) (ex_world ex_db2 [])).1
      = (Returned r, Some i') /\
    jh_aborted (in_poll i') = true /\ jh_aborted (in_reaper i') = true /\
    0 <= clock (in_state i') <= from_millis 11500.
Proof.
  destruct (shutdown_bounded (from_secs 10) (mkHandle (Some (ex_inner ex_stuck))) (ex_inner ex_stuck)
             (ex_world ex_db2 [])) as (r & i' & Hret & Hp & Hr & Hclock);
    [reflexivity|by vm_compute|by vm_compute|apply spawn_poll_keeps_time|apply spawn_reaper_keeps_time
    |by vm_compute|].
  exists r, i'. split_and!; [exact Hret|exact Hp|exact Hr|exact (proj1 Hclock)|exact (proj2 Hclock)].
Defined.

(** Two jobs are claimed; the payload of the second does not decode, and its decoder says so. *)
Definition ex_picky : Codec (list Z) := {|
  encode := fun v => Ok v;
  decode := fun b => match b with [4] => DecodeErr (lit "four") | _ => DecodeOk b end;
|}.
Definition ex_both : list (Z * Row) :=
  [(1, claimed_row 2000 (2000 + 30000000) 3 501 ex_row1); (2, claimed_row 2000 (2000 + 30000000) 3 502 ex_row1')].

Lemma claim_and_decode_effect_witness :
  exists js w', claim_and_decode (T := list Z) (Codec0 := ex_picky) ex_queue 10 ex_lease 3 ∅
      (ex_world ex_db_two [ex_rt 2000 500; ex_rt 2500 0]) = (Ok js, w') /\
    w_script w' = [] /\ w_log w' = [] /\
    Forall2 (carries (Codec0 := ex_picky)) (filter (fun p : Z * Row => decodable (Codec0 := ex_picky) (payload p.2) = true) ex_both) js /\
    rows_decoded (Codec0 := ex_picky) ex_both [ex_rt 2500 0] (jobs (claim_stmt ex_queue 10 ex_lease 3 ∅ (ex_rt 2000 500) ex_db_two).2)
      (jobs (w_db w')) /\
    forall i, i ∉ ex_both.*1 -> undisturbed i [ex_rt 2500 0] -> jobs (w_db w') !! i = jobs ex_db_two !! i.
Proof.
  apply (claim_and_decode_effect (Codec0 := ex_picky) ex_queue 10 ex_lease 3 ∅ (ex_world ex_db_two [ex_rt 2000 500; ex_rt 2500 0])
           (ex_rt 2000 500) [ex_rt 2500 0] [] ex_both).
  - reflexivity.
  - reflexivity.
  - apply (db_steps_ok empty_db); [apply insert_step|apply empty_db_ok].
  - vm_compute. reflexivity.
  - repeat (apply Forall_cons; split); [..|constructor]; intros t [[= <-]|[= <-]]; by vm_compute.
  - by vm_compute.
  - by repeat constructor.
  - intros i _. repeat constructor.
Defined.

(** The payload of the claimed row decodes. *)
Lemma claimed_jobs_typed_witness :
  exists js, (claim_and_decode (T := list Z) ex_queue 10 ex_lease 3 ∅ (ex_world ex_db1 [ex_rt 2000 500])).1 = Ok js /\
    Forall2 carries (filter (fun p : Z * Row => decodable (payload p.2) = true) ex_rows) js /\
    Forall job_typed js.
Proof.
  apply (claimed_jobs_typed ex_queue 10 ex_lease 30000000 3 ∅ (ex_world ex_db1 [ex_rt 2000 500]) (ex_rt 2000 500) []
           ex_rows ex_db2); [apply _|reflexivity|reflexivity|apply insert_step|done| |reflexivity|done|done|apply ex_claim_eq].
  simpl. rewrite ex_db1_eq. by apply map_Forall_singleton.
Defined.

(** * A job that always fails *)

Definition ex_failing : Worker (list Z -> JobContext -> HandlerRun) :=
  mkWorker 10 ex_queue 3 ex_lease 32 backoff_default PanicRetry (from_secs 1) 4 ∅ (from_secs 24)
    (from_secs 5) (from_millis 7500) None (fun _ _ => Returns (Err (Retry (lit "boom") None)) 1000).

(** Three ticks, two days apart. *)
Definition ex_days : list RoundTrip :=
  [ex_rt 2000 500; ex_rt 3000 0; ex_rt 172800000000 600; ex_rt 172800001000 0;
   ex_rt 345600000000 700; ex_rt 345600001000 0].

Lemma failing_job_dead_lettered_witness :
  exists r' w', ticks ex_failing 3 (ex_world ex_db1 ex_days) = (tt, w') /\
    w_db w' = set_jobs (<[1 := r']> (jobs ex_db1)) ex_db1 /\ same_job ex_row1 r' /\ attempts r' = 3 /\
    status r' = Dead /\
    forall rt, calm rt -> tick_once ex_failing (mkWorld (w_db w') [rt] (w_log w')) =
      (Returned (Ok (mkTickStats 0 0 0 0)), mkWorld (w_db w') [] (w_log w')).
Proof.
  apply (failing_job_dead_lettered ex_failing 30000000 interval_micros_spec ex_random_range 2000 1 ex_row1 [1; 2; 3]
           (ex_world ex_db1 ex_days) 3).
  - split; [apply ex_no_nul|by vm_compute|by vm_compute|vm_compute; reflexivity].
  - split; [split; by vm_compute|apply default_backoff_valid|by vm_compute].
  - intros ctx. exists (lit "boom"), None, 1000. split; [reflexivity|].
    by apply (bool_decide_unpack _); vm_compute.
  - done.
  - intros i' r' Hi' _. change (jobs (w_db (ex_world ex_db1 ex_days))) with (jobs ex_db1) in Hi'.
    rewrite ex_db1_eq in Hi'. by apply lookup_singleton_Some in Hi' as [? _].
  - apply ex_db1_row.
  - by vm_compute.
  - by apply (bool_decide_unpack _); vm_compute.
  - by intros l Hl.
  - done.
  - reflexivity.
  - by vm_compute.
  - unfold calm. repeat split; by vm_compute.
  - by vm_compute.
  - lia.
  - by vm_compute.
Defined.

(** * A fleet *)

(** A worker claims the pushed job; a second worker is idle. *)
Definition ex_node : Node (T := list Z) := mkNode ex_cfg ex_handler (PhTop poll_start) (start_state ex_cfg false).
Definition ex_iter : (option PollLocal * PollState (list Z)) * World :=
  poll_iter ex_cfg (PollRun []) poll_start (start_state ex_cfg false) (mkWorld ex_db1 [ex_rt 2000 500] []).
Definition ex_busy : Node (T := list Z) := mkNode ex_cfg ex_handler (phase_of ex_iter.1.1) ex_iter.1.2.
Definition ex_fleet (us : gset Uuid) (calls : list (Job (list Z))) : Fleet (T := list Z) :=
  mkFleet (w_db ex_iter.2) [ex_busy; ex_node] us [] calls.

Lemma ex_node_cfg_ok : node_cfg_ok 3 ex_cfg.
Proof. split; [apply ex_cfg_ok|by vm_compute]. Qed.

Lemma ex_alone now tok : alone [ex_rt now tok].
Proof. by repeat constructor. Qed.

Lemma ex_fresh now tok : Forall (fun rt => fresh_tokens rt ∅) [ex_rt now tok].
Proof. repeat constructor; simpl; [set_solver|intros; lia]. Qed.

Lemma ex_fleet_reach : exists us calls, rtc (fleet_step 3) fleet_start (ex_fleet us calls).
Proof.
  destruct (fleet_poll_run 3 ex_db1 [ex_node; ex_node] ∅ [] [] 0 ex_node poll_start [] [ex_rt 2000 500] []
    ex_iter.1.1 ex_iter.1.2 ex_iter.2) as (us & calls & Hr);
    [reflexivity|reflexivity|apply ex_alone|apply ex_snaps|apply ex_fresh|by rewrite <- !surjective_pairing|].
  exists us, calls.
  eapply rtc_l; [apply (fl_session 3 ex_db0 ∅ [] [] [] 0 (OpInsert [ex_new]) (ex_rt 1000 0))|].
  eapply rtc_l; [apply fl_start, ex_node_cfg_ok|].
  eapply rtc_l; [apply fl_start, ex_node_cfg_ok|exact Hr].
Qed.

Lemma fleet_exclusive_witness :
  exists us calls t r, ps_tasks (nd_state ex_busy) !! 0%nat = Some t /\
    holds_lease (jobs (fl_db (ex_fleet us calls))) (job_id (task_job t)) (job_lease_token (task_job t)) r /\
    (0 = 0 /\ 0 = 0)%nat.
Proof.
  destruct ex_fleet_reach as (us & calls & Hreach).
  destruct (ps_tasks (nd_state ex_busy) !! 0%nat) as [t|] eqn:Ht; [|by vm_compute in Ht].
  assert (Hh : holds_lease (jobs (w_db ex_iter.2)) (job_id (task_job t)) (job_lease_token (task_job t)) ex_row2).
  { vm_compute in Ht. injection Ht as <-. split; [vm_compute; reflexivity|by vm_compute]. }
  exists us, calls, t, ex_row2. split; [done|]. split; [exact Hh|].
  apply (fleet_exclusive 3 (ex_fleet us calls) 0 0 ex_busy ex_busy 0 0 t t ex_row2 ex_row2);
    [lia|exact Hreach|reflexivity|exact Ht|reflexivity|exact Ht|done|exact Hh|exact Hh].
Defined.

Lemma fleet_capacity_witness :
  exists us calls,
  (forall k limit, Forall (fun n => cf_concurrency_limits (nd_cfg n) !! k = Some (limit n)) (fl_nodes (ex_fleet us calls)) ->
     total (node_keyed k) (fl_nodes (ex_fleet us calls)) <= total limit (fl_nodes (ex_fleet us calls))) /\
  Z.of_nat (length (fl_nodes (ex_fleet us calls) ≫= node_refs)) <= 8.
Proof.
  destruct ex_fleet_reach as (us & calls & Hreach). exists us, calls.
  apply (fleet_capacity 3 (ex_fleet us calls)), Hreach.
Defined.

Lemma handler_calls_bounded_witness :
  exists us calls,
  Z.of_nat (length (calls_of 0 (ex_fleet us calls))) <= 3 /\
  NoDup (ctx_attempt <$> calls_of 0 (ex_fleet us calls)) /\
  Forall (fun c => 1 <= ctx_attempt c <= 3) (calls_of 0 (ex_fleet us calls)) /\
  (forall c1 c2, c1 ∈ calls_of 0 (ex_fleet us calls) -> c2 ∈ calls_of 0 (ex_fleet us calls) ->
     ctx_idempotency_key c1 = ctx_idempotency_key c2 /\ ctx_queue c1 = ctx_queue c2).
Proof.
  destruct ex_fleet_reach as (us & calls & Hreach). exists us, calls.
  apply (handler_calls_bounded 3 (ex_fleet us calls) 0); [lia|exact Hreach].
Defined.

(** * Leases *)

(** Somebody sweeps at the very expiry of the lease. *)
Definition ex_sys_swept (now : Z) : Sys :=
  mkSys (reap_stmt ex_queue 1024 (ex_rt now 0) ex_db2).2 (sy_claims ex_sys2) (sy_used ex_sys2).

Lemma ex_run_swept now : sys_run 3 [AReap (ex_rt now 0)] ex_sys2 (ex_sys_swept now).
Proof. eapply run_cons; [apply sd_reap|apply run_nil]. Qed.

Lemma lease_protects_witness :
  holds_lease (jobs (sy_db (ex_sys_swept 30002000))) (jr_id ex_ref) (jr_lease_token ex_ref) ex_row2.
Proof.
  apply (lease_protects 3 [AReap (ex_rt 30002000 0)] ex_sys2 (ex_sys_swept 30002000) ex_ref ex_row2 30002000);
    [lia|apply ex_reach2|apply ex_ref_claimed|apply ex_ref_holds|reflexivity|apply ex_run_swept|].
  repeat constructor; [done|by intros []].
Defined.

(** The job is marked 29 seconds after it was claimed, a sweep has just run. *)
Lemma timely_job_never_fenced_witness :
  handle_job (worker_cfg ex_worker 9) ex_handler ex_job stats_zero
    (ex_world (sy_db (ex_sys_swept 29002000)) [ex_rt 29002000 0]) =
  ((Returned tt, add_completed 1 stats_zero),
   mkWorld (set_jobs (<[1 := verdict_row 29002000 VDone ex_row2]> (jobs (sy_db (ex_sys_swept 29002000)))) (sy_db (ex_sys_swept 29002000))) []
     [verdict_event (Some 9) (job_ref ex_job) VDone]).
Proof.
  apply (timely_job_never_fenced 3 ex_build_env ex_builder ex_worker 9 ex_queue 10 ∅ (ex_rt 2000 500) ex_db1 ex_db2
           [] ∅ ex_rows 1 ex_row2 30000000 (from_secs 29) [AReap (ex_rt 29002000 0)] (ex_sys_swept 29002000)
           ex_job stats_zero (ex_world (sy_db (ex_sys_swept 29002000)) [ex_rt 29002000 0]) (ex_rt 29002000 0) []
           (HoResult (Ok tt)) VDone).
  - lia.
  - apply ex_built.
  - apply ex_lease_ok.
  - by vm_compute.
  - by vm_compute.
  - apply ex_reach1.
  - split; [set_solver|]. simpl. lia.
  - reflexivity.
  - vm_compute. reflexivity.
  - apply ex_claim_eq.
  - rewrite ex_rows_eq. by left.
  - reflexivity.
  - apply ex_run_swept.
  - by vm_compute.
  - repeat constructor; [by vm_compute|by intros []].
  - done.
  - reflexivity.
  - reflexivity.
  - reflexivity.
  - reflexivity.
  - by vm_compute.
  - reflexivity.
  - by intros l [= <-].
  - by vm_compute.
  - done.
Defined.

(** * Claims against their specification *)

(** Three due jobs, two of a key with room for one. *)
Definition ex_db_keys : Db :=
  (insert_stmt 0 [mkNewRow ex_queue [1] 90 None (Some (lit "tenant"));
                mkNewRow ex_queue [2] 91 None (Some (lit "tenant")); ex_new] (ex_rt 1000 0) ex_db0).2.

Lemma claim_is_greedy_witness :
  claim_targets ex_queue 10 {[lit "tenant" := 1]} (ex_rt 2000 500) (jobs ex_db_keys)
  = greedy_claim 10 {[lit "tenant" := 1]} (due ex_queue 2000 (jobs ex_db_keys)) /\
  claim_targets ex_queue 10 {[lit "tenant" := 1]} (ex_rt 2000 500) (jobs ex_db_keys) = [1; 3].
Proof.
  split; [|vm_compute; reflexivity].
  apply (claim_is_greedy ex_queue 10 {[lit "tenant" := 1]} (ex_rt 2000 500) (jobs ex_db_keys)); [done|set_solver].
Defined.

(** * A backlog *)

Lemma reaper_drains_backlog_witness :
  exists l' w', reaper_loop ex_queue 9 [TickRun] reaper_start (mkShared false None None)
      (ex_world ex_db2 [ex_rt 99000000 0]) = ((Some l', mkShared false None None), w') /\
    recovered ex_queue 99000000 (jobs ex_db2) (jobs (w_db w')) /\ skip_next_tick l' = false.
Proof.
  apply (reaper_drains_backlog ex_queue 9 99000000 reaper_start (mkShared false None None)
           (ex_world ex_db2 [ex_rt 99000000 0])).
  - apply ex_no_nul.
  - repeat constructor.
  - split; [apply ex_db2_ok|by apply ex_clock].
  - by vm_compute.
Defined.

(** * Retention *)

Lemma purge_terminates_witness :
  exists r, (purge_terminal Done (from_secs 60) (ex_world ex_db1 [ex_rt 1000 0])).1 = Some r.
Proof. apply (purge_terminates Done (from_secs 60)). Defined.

Lemma purge_exact_witness :
  (purge_terminal Done 0 (ex_world (sy_db ex_sys3) [ex_rt 9000 0; ex_rt 9000 0])).1 = Some (Ok 1) /\
  purged Done (9000 - 0) (jobs (sy_db ex_sys3))
    (jobs (w_db (purge_terminal Done 0 (ex_world (sy_db ex_sys3) [ex_rt 9000 0; ex_rt 9000 0])).2)).
Proof.
  apply (purge_exact Done 0 0 9000 (ex_world (sy_db ex_sys3) [ex_rt 9000 0; ex_rt 9000 0]));
    [vm_compute; reflexivity|by vm_compute|repeat constructor|done|by vm_compute|by vm_compute].
Defined.

Lemma queue_stats_total_witness :
  exists st, (queue_stats ex_queue (ex_world ex_db2 [ex_rt 5000 0])).1 = Ok st /\
    qs_queued st + qs_awaiting_retry st + qs_running st + qs_done st + qs_dead st = 1.
Proof.
  apply (queue_stats_total ex_queue (ex_world ex_db2 [ex_rt 5000 0]) (ex_rt 5000 0) []);
    [reflexivity|reflexivity|apply ex_no_nul].
Defined.

(** * The claims of a job *)

(** * Migrations *)

(** A runner that does what the documentation says. *)
Fixpoint ex_run_list (ms : list (Z * (Server -> result Table sqlx_error))) (s : Server)
  : result unit MigrateError * Server :=
  match ms with
  | [] => (Ok tt, s)
  | (v, sql) :: ms =>
      if decide (v ∈ sv_applied s) then ex_run_list ms s else
      match sql s with
      | Err e => (Err (MigrateExecute e), s)
      | Ok t => ex_run_list ms (record_applied v t s)
      end
  end.

#[local] Instance ex_migrate : SqlxMigrate := {|
  migrate_run := fun m s =>
    match foreign m s with
    | v :: _ => if ignore_missing m then ex_run_list (migrations m) s else (Err (VersionMissing v), s)
    | [] => ex_run_list (migrations m) s
    end;
|}.

Lemma ex_migrate_eq m s :
  ignore_missing m = true \/ foreign m s = [] -> migrate_run m s = ex_run_list (migrations m) s.
Proof. simpl. intros [-> | ->]; [by destruct (foreign m s)|done]. Qed.

Lemma ex_foreign_applied m v t s : v ∈ (migrations m).*1 -> foreign m (record_applied v t s) = foreign m s.
Proof.
  intros Hv. unfold foreign, record_applied. simpl. rewrite filter_app, filter_cons_False, filter_nil, app_nil_r; [done|].
  intros Hn. by apply Hn.
Qed.

#[local] Instance ex_migrate_spec : SqlxMigrateSpec ex_migrate.
Proof.
  split.
  - intros m s v vs Hm Hf. simpl. by rewrite Hf, Hm.
  - intros m s Hm Hp. rewrite ex_migrate_eq by done. unfold pending in Hp.
    induction (migrations m) as [|[v sql] ms IH]; simpl; [done|]. rewrite filter_cons in Hp. simpl in Hp.
    destruct (decide (v ∈ sv_applied s)); [|by rewrite decide_True in Hp]. apply IH. by rewrite decide_False in Hp by auto.
  - intros m s v sql rest t Hm Hp Hsql.
    assert (Hv : v ∈ (migrations m).*1).
    { apply (list_elem_of_fmap_2 fst _ (v, sql)). assert (Hel : (v, sql) ∈ pending m s) by (rewrite Hp; by left).
      unfold pending in Hel. by apply list_elem_of_filter in Hel as [_ ?]. }
    rewrite !ex_migrate_eq by (by rewrite ?ex_foreign_applied). unfold pending in Hp. clear Hv Hm.
    induction (migrations m) as [|[v' sql'] ms IH]; simpl; [done|]. rewrite filter_cons in Hp. simpl in Hp.
    destruct (decide (v' ∈ sv_applied s)) as [Hin|Hin].
    + rewrite decide_False in Hp by auto. rewrite decide_True by (apply elem_of_app; by left). by apply IH.
    + rewrite decide_True in Hp by done. injection Hp as -> -> _. rewrite Hsql.
      by rewrite decide_True by (apply elem_of_app; right; by left).
  - intros m s v sql rest e Hm Hp Hsql. rewrite ex_migrate_eq by done. unfold pending in Hp.
    induction (migrations m) as [|[v' sql'] ms IH]; simpl; [done|]. rewrite filter_cons in Hp. simpl in Hp.
    destruct (decide (v' ∈ sv_applied s)) as [Hin|Hin].
    + rewrite decide_False in Hp by auto. by apply IH.
    + rewrite decide_True in Hp by done. injection Hp as -> -> _. by rewrite Hsql.
Qed.

Definition ex_row_v1 : RowV1 :=
  mkRowV1 77 ex_queue [1; 2; 3] Queued 0 0 None None None None None None 1000 1000 1000.

(** A database that also holds migration 42 of its application. *)
Lemma migrator_run_witness :
  (17 < 180000 ->
     migrate_run migrator (mkServer 17 NoTable [42]) = (Err (MigrateExecute raise_exception), mkServer 17 NoTable [42])) /\
  exists db s', migrate_run migrator (mkServer 180001 (TableV1 {[1 := ex_row_v1]} 2) [20260513000000; 42]) = (Ok tt, s') /\
    sv_table s' = TableV2 db /\ db_ok db /\ jobs db = add_column <$> {[1 := ex_row_v1]} /\ next_id db = 2 /\
    migrate_run migrator s' = (Ok tt, s').
Proof.
  split.
  - apply (migrator_run (HS := ex_migrate_spec) 17 [42]); by apply (bool_decide_unpack _); vm_compute.
  - apply (migrator_run (HS := ex_migrate_spec) 180001 [42]);
      [by apply (bool_decide_unpack _); vm_compute|by apply (bool_decide_unpack _); vm_compute|lia|].
    intros i r [<- <-]%lookup_singleton_Some. by vm_compute.
Defined.

(** * Progress *)

(** The worker of the claim at 2000 dies; its lease is over at 30002000. *)
Lemma crashed_job_runs_again_witness :
  let s1 := mkSys (reap_stmt ex_queue 100 (ex_rt 30003000 0) (sy_db ex_sys2)).2 (sy_claims ex_sys2) (sy_used ex_sys2) in
  (exists db' r', db_steps (sy_db s1) db' /\ db_steps db' (sy_db s1) /\ jobs db' !! 1 = Some r' /\
     same_job ex_row2 r' /\ status r' = Running /\ attempts r' = attempts ex_row2 + 1) \/
  forall m lease us max rt2,
    0 < max -> interval_of_duration lease = Ok us ->
    min_timestamp <= rt_now rt2 + us < end_timestamp -> 30003000 <= rt_now rt2 ->
    map_Forall (fun _ r => clock_after_claim (rt_now rt2) r) (jobs (sy_db s1)) ->
    rt_snap rt2 (jobs (sy_db s1)) = jobs (sy_db s1) ->
    (forall p, p ∈ due ex_queue (rt_now rt2) (jobs (sy_db s1)) -> p.1 ∉ rt_locked rt2) ->
    Z.of_nat (length (due ex_queue (rt_now rt2) (jobs (sy_db s1)))) <= clamp_i32 m ->
    fresh_tokens rt2 (sy_used s1) ->
    exists rows2 db2 r', claim_stmt ex_queue m lease max ∅ rt2 (sy_db s1) = (Ok rows2, db2) /\
      (1, r') ∈ rows2 /\ same_job ex_row2 r' /\ attempts r' = attempts ex_row2 + 1 /\
      lease_token r' = Some (rt_uuid rt2 1) /\
      forall j, j ∈ sy_claims s1 -> jr_lease_token j <> rt_uuid rt2 1.
Proof.
  set (res := reap_stmt ex_queue 100 (ex_rt 30003000 0) (sy_db ex_sys2)).
  set (rows := match res.1 with Ok rows => rows | Err _ => [] end).
  apply (crashed_job_runs_again 3 ex_sys2 ex_queue 100 (ex_rt 30003000 0) rows res.2 1 ex_row2).
  - unfold i32_max. lia.
  - apply ex_reach2.
  - apply ex_no_nul.
  - by apply ex_clock.
  - exact ex_db2_row.
  - exact ex_db2_row.
  - by vm_compute.
  - apply not_elem_of_empty.
  - by vm_compute.
  - vm_compute. reflexivity.
  - by vm_compute.
  - done.
Defined.

(** Three due jobs, claimed one at a time, with a push in between; the tokens of the three claims
    are multiples of three, plus 0, 1 and 2. *)
Definition ex_rt_third (k : Z) : RoundTrip :=
  mkRoundTrip (fun db => db) 2000 ∅ (fun i => 3 * i + k) NoFault 0 false (fun t => t).
Definition ex_take (k : Z) (s : Sys) : Sys :=
  match claim_stmt ex_queue 1 ex_lease 3 ∅ (ex_rt_third k) (sy_db s) with
  | (Ok rows, db') => mkSys db' ((claim_ref <$> rows) ++ sy_claims s) (sy_used s ∪ row_tokens rows)
  | _ => s
  end.
Definition ex_push_one (s : Sys) : Sys :=
  mkSys (session_op 0 (OpInsert [mkNewRow ex_queue [9] 99 None None]) (ex_rt 1999 0) (sy_db s)) (sy_claims s) (sy_used s).
Definition ex_line0 : Sys := mkSys ex_db_keys [] ∅.
Definition ex_line1 : Sys := ex_take 0 ex_line0.
Definition ex_line2 : Sys := ex_push_one ex_line1.
Definition ex_line3 : Sys := ex_take 1 ex_line2.
Definition ex_line4 : Sys := ex_take 2 ex_line3.
Definition ex_third : Row := row_of_new 1000 ex_new.

Lemma ex_take_rows k s :
  fresh_tokens (ex_rt_third k) (sy_used s) ->
  match claim_stmt ex_queue 1 ex_lease 3 ∅ (ex_rt_third k) (sy_db s) with
  | (Ok rows, db') => sys_do 3 (AClaim (ex_rt_third k)) s (ex_take k s) /\
      claim_stmt ex_queue 1 ex_lease 3 ∅ (ex_rt_third k) (sy_db s) = (Ok rows, sy_db (ex_take k s))
  | _ => True
  end.
Proof.
  intros Hf. unfold ex_take. destruct (claim_stmt _ _ _ _ _ _ _) as [[rows|] db'] eqn:Hc; [|done].
  split; [|done]. destruct s as [db cl us]. eapply (sd_claim 3 ex_queue 1 ex_lease 3); [lia|done|exact Hc|reflexivity].
Qed.

Lemma ex_fresh_third k us :
  bool_decide (set_Forall (fun t => t mod 3 <> k mod 3) us) = true -> fresh_tokens (ex_rt_third k) us.
Proof.
  intros Hall%bool_decide_eq_true. split; simpl; [|lia]. intros i Hi. apply (Hall _ Hi).
  rewrite Z.add_comm, Z.mul_comm. apply Z.mod_add. lia.
Qed.

Lemma ex_line_run :
  line_run 3 ex_queue 1 3 ex_third 2000 3 (size (line ex_queue 3 ex_third ex_line2 ∖ line ex_queue 3 ex_third ex_line1) + 0)
    ex_line0 ex_line4.
Proof.
  assert (Htake : forall k s rows c e, claim_stmt ex_queue 1 ex_lease 3 ∅ (ex_rt_third k) (sy_db s) = (Ok rows, sy_db (ex_take k s)) ->
    bool_decide (set_Forall (fun t => t mod 3 <> k mod 3) (sy_used s)) = true ->
    line_run 3 ex_queue 1 3 ex_third 2000 c e (ex_take k s) ex_line4 ->
    line_run 3 ex_queue 1 3 ex_third 2000 (S c) e s ex_line4).
  { intros k s rows c e Hc Hf Hrun. pose proof (ex_take_rows k s (ex_fresh_third k _ Hf)) as Hd. rewrite Hc in Hd.
    eapply (lr_claim 3 _ _ _ _ _ 1 ex_lease 3); [apply Hd|unfold i32_max; lia|exact Hc|apply not_elem_of_empty|done|done|exact Hrun]. }
  eapply (Htake 0); [vm_compute; reflexivity|vm_compute; reflexivity|].
  eapply lr_other; [apply sd_session|].
  eapply (Htake 1); [vm_compute; reflexivity|vm_compute; reflexivity|].
  eapply (Htake 2); [vm_compute; reflexivity|vm_compute; reflexivity|constructor].
Qed.

Lemma no_starvation_witness :
  exists s1 s2 rt r', rtc (sys_step 3) ex_line0 s1 /\ sys_do 3 (AClaim rt) s1 s2 /\
    rtc (sys_step 3) s2 ex_line4 /\ jobs (sy_db s1) !! 3 = Some ex_third /\ jobs (sy_db s2) !! 3 = Some r' /\
    same_job ex_third r' /\ status r' = Running /\ attempts r' = 1.
Proof.
  apply (no_starvation 3 ex_queue 1 3 ex_third 2000 3 _ ex_line0 ex_line4 ltac:(lia) ex_line_run).
  - vm_compute. reflexivity.
  - split; [reflexivity|]. split; [by left|by vm_compute].
  - by vm_compute.
Defined.


